(* ===== verification/_CoqProject ===== *)
-Q . S2P
Prelude.v
Text.v
Core.v
Handles.v
Events.v
RuleModel.v
RuleParser.v
MemoryView.v
NotifyDecode.v
NotifyFormat.v
Pipe.v
Token.v
Protection.v
EnforceCompat.v
Api.v
NtPath.v
Logging.v
Session.v
FilterBuild.v
Refs.v
Pump.v
RuleConfig.v
RuleInstall.v
RuleInstallRun.v
RuleInstallSpec.v
Options.v
Launch.v
FileHash.v
Console.v
RulesCommands.v
RulesSpec.v
Registration.v
Custody.v
CustodyRules.v
CustodyUse.v
ObjectCommands.v
CommandSpec.v
CustodyCommands.v
Exercise.v
Service.v
Dispatch.v
Program.v
