(* ===== verification/Prelude.v ===== *)
(** * esptool, modelled and verified

    esptool (src/esptool/src) drives espclient.dll, the user-mode library of the Windows
    endpoint security platform driver: it registers a client, installs rules from an XML
    document, waits for event notifications, decodes what they point at, and keeps the
    process in the state of trust the driver asks for. This library models the program
    function by function and proves what makes each part correct.

    ** Parts and how they meet

    - The command line ([Options], cli/Options.cpp) becomes an [Options] record. [Dispatch]
      (the last part of cli/Commands.cpp, and main.cpp) probes the trust of the process,
      evaluates a trust plan, and either hands the command to a worker child ([Launch],
      process/SameImage.cpp) or prepares the token of this process ([Console], [Token],
      [Protection]: the first part of cli/Commands.cpp and ppl/) and runs the command.
    - Commands ([RulesCommands], [ObjectCommands], and [Exercise] for esp/EspExercise.cpp)
      open sessions on the linked library ([Api], esp/EspApi.cpp). A session ([Session],
      esp/EspSession.cpp) registers and connects a client, owns handles and gives them
      back.
    - A rule document is parsed by [RuleParser] (model/RuleParser.cpp) into the data of
      [RuleModel]. [RuleInstall] (esp/EspRuleInstall.cpp) turns its rules into descriptors
      ([RuleConfig]: byte layouts and attached configurations), with filters made by
      [FilterBuild] (esp/EspFilterBuild.cpp) and references and collections made by [Refs]
      (esp/EspRefs.cpp); [EnforceCompat] patches the library in memory where a rule needs
      it (esp/EspEnforceCompat.cpp).
    - Notifications arrive through the pumps ([Pump], in esp/EspSession.cpp); they are read
      through guarded memory ([MemoryView]), decoded ([NotifyDecode]) and formatted
      ([NotifyFormat]).
    - The same program runs as a service ([Service], ppl/ProtectedService.cpp) that answers
      requests over a pipe ([Pipe], ipc/PipeChannel.cpp), among them the installation of a
      rule document.
    - [Text], [Core], [Events], [NtPath] and [Logging] are util/, the result codes, the
      event identifiers, the path expansion and the log. [Handles] is the owner class of
      util/UniqueHandle.h with its instances; [FileHash] the digest of the library's file
      that the patch logs (esp/EspEnforceCompat.cpp).

    ** Files

    Each file names the source it models in its first comment, and its definitions keep
    the names of the functions they translate; a part of a long function has a name of its
    own. Specifications and proofs only: [RuleInstallRun] and [RuleInstallSpec] (an
    installation), [RulesSpec] and [CommandSpec] (commands), [Registration] (clients that
    stay registered), [Custody], [CustodyRules], [CustodyUse] and [CustodyCommands] (handles
    that are open), [Program] (whole runs). A file requires those it calls; [Prelude] (this file) has the machine
    integers, the error and state monads, generic list and string lemmas and the
    automation: [ints] for wrap-around arithmetic, [boolp] and [case_if] for boolean
    conditions, [inv_bind] for fallible computations. [Session] adds [run] (execution of
    the session primitives) and [frame] (what a computation leaves alone), [RulesSpec]
    the [silent] lemmas (console computations that do not touch the library),
    [Registration] the tactic [bystand] and [Custody] the tactics [idles] and [safely], which
    walk through an operation with the lemmas of its parts.

    ** How the program is modelled

    - Integers are [Z] with the wrap-around written out ([u32], [i32], ...); bytes are a
      [list Z]; UTF-8 text is [string] and UTF-16 text a list of code units.
    - Fallible code returns [result] (a value or the error text) or an [option]; stateful
      code is the state monad [ST]. The state of a session operation is a [World]: the
      session record, the state of everything outside, the trace of library calls with
      their arguments and replies, the log and the printed lines. The state of a command is
      a [Console], which also has the error lines and the created processes.
    - Everything that is not under src/ is an argument: the library's replies
      ([env_call]), Windows (records such as [Env], [Host], [TokenOs], [ProcessOs], [ScmOs],
      [ServiceOs], [PathSystem], [Loader]), the XML reader and the text conversions. They
      are functions of an abstract state of the outside, so theorems hold for every
      behaviour of theirs unless they say otherwise. Documented behaviour that a theorem
      needs is a class with a concrete instance: [ArgvRules] (how the C runtime splits a
      command line; instance [crt_rules]), [HashKernel] (reads give the bytes of the file
      in order).
    - Pointers are numbers with a readability test; writes into descriptors are checked
      against the size of the blob, and an out-of-range write is an event of the trace.
    - Threads are interleavings at explicit points: the library's callback runs during the
      wait of a pump; service controls and the background connection of the service
      happen between the steps of its loop.
    - Fuel: a loop whose end depends on input has a measure that is proved to be enough
      ([Pump_terminates] for the pumps, [IsCommittedReadable_spec] for the region walk,
      [CurrentImagePath_whole] for the doubling buffer, one unit per byte for the pipe
      transfers, one turn for every byte and one more for the file hash). The loop of the
      service is meant to go on until it is told to stop; its fuel is the number of turns
      that are looked at, a run that has not ended keeps its state ([Running]), and
      [RunService_lifecycle] shows that none has been told to stop and that a stop control
      ends the loop at the next turn.

    ** What the theorems show

    - Whole runs, from the arguments to the exit code ([Program]): [wmain_rules] (exit code 0
      of the rules command means that a worker child exited with 0, or that this process
      had the planned trust, and every rule of the file was created and accepted),
      [wmain_registrations] (no client stays registered but for the one that persist-rules
      keeps, with persistent rules, and those the library refused to unregister; for a
      library that exports EspUnregisterClient), [wmain_custody] (whatever the library answers, a call
      names only handles that were handed out and not closed since). The commands that
      call every export with scratch arguments are left out of the last two, and so is the
      service. The handles followed are clients, queues, rules, filters, collections and
      references; those inside a descriptor in memory are not.
    - Parsing: a parsed document is well formed ([Parse_document_wf]), predicates round
      trip through their markup ([Parse_rule_forest]), rules follow the elements
      ([Parse_rule_elements]).
    - Installation: [InstallRules_refines] relates the whole installation to an abstract
      protocol; [InstallRules_creates] (no deny is silently downgraded, enforcing rules only
      where supported), [InstallRules_anchors] (no rule is armed over a closed one),
      [InstallRules_accounts] (nothing leaks, the outcome counts the accepted rules),
      [InstallRules_in_bounds] (every write is in range). For predicates,
      [CreateFilterTree_built] (a successful build mirrors the tree) and
      [CreateFilterTree_accounts] (where every filter is afterwards, for any library, and
      why one can be lost).
    - Sessions: [Connect_protocol], [Disconnect_releases] (everything owned is closed once,
      in order, and a second disconnection does nothing), [Pump_protocol].
    - Trust: [EvaluateTrustPlan_decides], [EnsureWorkerOrTcb_prepares] (the plan is carried
      out, and the next plan asks for nothing of it again), [LaunchWorker_forwards] (the child
      parses the same options and is never a parent, on command lines without a [--] on which
      the worker's and the forwarded flags are no values), [LaunchWorker_children],
      [stamp_exact] (when the stamp and its removal are reported as done, for any system),
      [Dispatch_guards] (no library call before the trust is there).
    - Commands: [CleanOrphanClients_spares] (no client with persistent rules is released),
      [BuildArguments_covers] (the vectors of the export sweep, against a table and against
      the prototypes of the catalogue), and with them the lemmas
      [RunRules_zero], [ProcessCreateEqualsImage_first], [RunInProcess_sweeps].
    - Owners and files: [owners_balance] (an owner object loses no handle and closes none
      twice, and never a null or invalid one, over every sequence of its member functions),
      [ComputeModuleFileSha256_digest] (hashing ends, closes what it opened, and gives the
      digest of the whole file).
    - Service and pipe: [exchange_round_trip] under any fragmentation,
      [Exchange_accepts_whole_frames], [rules_response_reports], [RunService_lifecycle],
      [Install_reenters].
    - Notifications and patches: decoding depends on readable memory only
      ([FormatQueueNotification_readable_only]); a patch is all or nothing and changes six
      bytes of the located site ([ApplyFromFfiCompatPatch_effect]), which has the shape of
      [from_ffi_site] byte for byte ([FindFromFfiPatchSite_site]).
    - Behaviour worth knowing: [ProcessCreate_drops_filter], [oversize_response_refused],
      [ApplyEventTypeBypassPatch_twice], [failed_wait_runs_twice], [worker_value_dropped],
      [flag_after_dashes_is_word], [flag_value_not_forwarded], [missing_combinator_leaks],
      [isolated_failure_counts_ok], [undocumented_flags_are], [attached_false_sets].

    ** Not modelled

    - The prototypes of the exports and of the system (esp/EspCall.h, EspTypes.h,
      PhntUser.h): declarations, which the compiler checks. Handles are numbers; where a
      function has local owners, their release is part of the operation ([unique] of
      [Handles], or a closing call of its own).
    - The lock of the log: its calls are taken one after another.
    - Exceptions: [catch (...)] of the service loop, and memory exhaustion.
    - Data races: the service's background connection uses the session while requests may
      use it too; the model only has the interleavings at whole operations.
    - src/esptool/tests and third_party, the technical references under src/docs, the
      sample documents under src/rules and the smoke tests are no part of the tool. *)
From Stdlib Require Export ZArith Lia Bool Ascii String.
From stdpp Require Export base tactics numbers list strings gmap pretty.
Open Scope string_scope.
Open Scope list_scope.
Open Scope Z_scope.

(** * Machine integers *)

Definition u8 (z : Z) : Z := z mod 2 ^ 8.
Definition u16 (z : Z) : Z := z mod 2 ^ 16.
Definition u32 (z : Z) : Z := z mod 2 ^ 32.
Definition u64 (z : Z) : Z := z mod 2 ^ 64.

(** Two's complement reading of a 32-bit and of a 64-bit pattern. *)
Definition i32 (z : Z) : Z := (z + 2 ^ 31) mod 2 ^ 32 - 2 ^ 31.
Definition i64 (z : Z) : Z := (z + 2 ^ 63) mod 2 ^ 64 - 2 ^ 63.

Definition u32_max : Z := 4294967295.
Definition u64_max : Z := 18446744073709551615.

(** Unfolds the integer wrappers down to literals, so that [lia] decides. *)
Ltac unfold_ints :=
  unfold u8, u16, u32, u64, i32, i64, u32_max, u64_max in *;
  repeat match goal with
         | |- context [2 ^ ?k] => let v := eval vm_compute in (2 ^ k) in change (2 ^ k) with v
         | H : context [2 ^ ?k] |- _ =>
             let v := eval vm_compute in (2 ^ k) in change (2 ^ k) with v in H
         end.

Ltac ints := unfold_ints; Z.div_mod_to_equations; lia.

Lemma u32_small z : 0 <= z <= u32_max -> u32 z = z.
Proof. intros; ints. Qed.

Lemma u64_small z : 0 <= z <= u64_max -> u64 z = z.
Proof. intros; ints. Qed.

Lemma u32_range z : 0 <= u32 z <= u32_max.
Proof. ints. Qed.

Lemma u64_range z : 0 <= u64 z <= u64_max.
Proof. ints. Qed.

Lemma i32_small z : - 2 ^ 31 <= z < 2 ^ 31 -> i32 z = z.
Proof. intros; ints. Qed.

Lemma i32_u32 z : i32 (u32 z) = i32 z.
Proof. ints. Qed.

Lemma u32_i32 z : u32 (i32 z) = u32 z.
Proof. ints. Qed.

Lemma u32_u32 z : u32 (u32 z) = u32 z.
Proof. ints. Qed.

(** Bitwise or of a low part and a shifted high part is their sum. *)
Lemma lor_shiftl n lo hi :
  0 <= n -> 0 <= lo < 2 ^ n -> Z.lor lo (Z.shiftl hi n) = lo + hi * 2 ^ n.
Proof.
  intros Hn Hlo.
  assert (Z.land lo (Z.shiftl hi n) = 0) as Hland.
  { apply Z.bits_inj'. intros k Hk. rewrite Z.land_spec, Z.bits_0.
    destruct (Z.lt_ge_cases k n).
    - rewrite Z.shiftl_spec_low by lia. apply andb_false_r.
    - rewrite <- (Z.mod_small lo (2 ^ n)) by lia.
      by rewrite Z.mod_pow2_bits_high by lia. }
  rewrite <- Z.lxor_lor, <- Z.add_nocarry_lxor by done.
  by rewrite Z.shiftl_mul_pow2 by lia.
Qed.

(** * Boolean tests *)

(** Turns boolean hypotheses into the propositions they decide. *)
Ltac boolp :=
  repeat match goal with
         | H : _ && _ = true |- _ => apply andb_true_iff in H as [? ?]
         | H : _ || _ = false |- _ => apply orb_false_iff in H as [? ?]
         | H : negb _ = true |- _ => apply negb_true_iff in H
         | H : negb _ = false |- _ => apply negb_false_iff in H
         | H : (_ =? _) = true |- _ => apply Z.eqb_eq in H
         | H : (_ =? _) = false |- _ => apply Z.eqb_neq in H
         | H : (_ <=? _) = true |- _ => apply Z.leb_le in H
         | H : (_ <=? _) = false |- _ => apply Z.leb_gt in H
         | H : (_ <? _) = true |- _ => apply Z.ltb_lt in H
         | H : (_ <? _) = false |- _ => apply Z.ltb_ge in H
         | H : (_ >? _) = true |- _ => apply Z.gtb_lt in H
         | H : (_ >=? _) = true |- _ => apply Z.geb_le in H
         | H : bool_decide _ = true |- _ => apply bool_decide_eq_true in H
         | H : bool_decide _ = false |- _ => apply bool_decide_eq_false in H
         | H : (_ =? _)%string = true |- _ => apply String.eqb_eq in H
         | H : (_ =? _)%string = false |- _ => apply String.eqb_neq in H
         end.

(** Destructs the scrutinee of the first conditional of the goal. *)
Ltac case_if :=
  match goal with
  | |- context [if ?b then _ else _] =>
      lazymatch b with context [if _ then _ else _] => fail | _ => destruct b eqn:? end
  end.

(** The same in a hypothesis. *)
Ltac case_if_in H :=
  match type of H with
  | context [if ?b then _ else _] =>
      lazymatch b with context [if _ then _ else _] => fail | _ => destruct b eqn:? end
  end.

(** * Strings as lists of characters *)

Abbreviation chars := list_ascii_of_string.
Abbreviation of_chars := string_of_list_ascii.

Lemma chars_of_chars l : chars (of_chars l) = l.
Proof. apply list_ascii_of_string_of_list_ascii. Qed.

Lemma of_chars_chars s : of_chars (chars s) = s.
Proof. apply string_of_list_ascii_of_string. Qed.

Lemma chars_app s t : chars (s +:+ t) = chars s ++ chars t.
Proof.
  induction s as [|c s IH]; [done|].
  change (chars (String c s +:+ t)) with (c :: chars (s +:+ t)). by rewrite IH.
Qed.

Lemma chars_inj s t : chars s = chars t -> s = t.
Proof. intros H. by rewrite <- (of_chars_chars s), H, of_chars_chars. Qed.

Definition is_empty (s : string) : bool :=
  match s with EmptyString => true | _ => false end.

Lemma is_empty_true s : is_empty s = true <-> s = ""%string.
Proof. destruct s; naive_solver. Qed.

(** [std::format("{}", n)] of an unsigned value. *)
Definition dec (z : Z) : string := pretty z.

Definition newline : string := String "010" "".

(** The code of a character. *)
Definition code (c : ascii) : Z := Z.of_N (N_of_ascii c).
Definition char_of_code (z : Z) : ascii := ascii_of_N (Z.to_N z).

Lemma code_range c : 0 <= code c < 256.
Proof.
  unfold code. pose proof (N_ascii_bounded c) as H. lia.
Qed.

Lemma code_inj c d : code c = code d -> c = d.
Proof.
  unfold code. intros H. apply N2Z.inj in H.
  by rewrite <- (ascii_N_embedding c), H, ascii_N_embedding.
Qed.

Lemma char_of_code_code c : char_of_code (code c) = c.
Proof. unfold char_of_code, code. rewrite N2Z.id. apply ascii_N_embedding. Qed.

Lemma code_char_of_code z : 0 <= z < 256 -> code (char_of_code z) = z.
Proof.
  intros H. unfold char_of_code, code. rewrite N_ascii_embedding; lia.
Qed.

(** * Computations that fail with a message *)

Inductive result (A : Type) : Type :=
| Ok (a : A)
| Err (message : string).
Arguments Ok {A} a.
Arguments Err {A} message.

#[export] Instance result_ret : MRet result := fun A => Ok.
#[export] Instance result_bind : MBind result :=
  fun A B f m => match m with Ok a => f a | Err e => Err e end.

Lemma bind_Ok {A B} (m : result A) (f : A -> result B) b :
  (m ≫= f) = Ok b <-> exists a, m = Ok a /\ f a = Ok b.
Proof. destruct m; simpl; naive_solver. Qed.

(** Splits every hypothesis that says a bind succeeded. *)
Ltac inv_bind :=
  repeat match goal with
         | H : mbind _ ?m = Ok _ |- _ =>
             apply bind_Ok in H as (? & ? & H)
         | H : Ok _ = Ok _ |- _ => injection H as H
         | H : Err _ = Ok _ |- _ => discriminate H
         | H : mret _ = Ok _ |- _ => injection H as H
         end.

Definition is_Ok {A} (r : result A) : bool := match r with Ok _ => true | Err _ => false end.

(** Runs a fallible step over a list, left to right, stopping at the first error. *)
Fixpoint foldM {S A} (step : S -> A -> result S) (l : list A) (s : S) : result S :=
  match l with
  | [] => Ok s
  | a :: rest => s' ← step s a; foldM step rest s'
  end.

Lemma foldM_invariant {S A} (P : S -> Prop) (step : S -> A -> result S) l s s' :
  (forall s a s', P s -> step s a = Ok s' -> P s') ->
  P s -> foldM step l s = Ok s' -> P s'.
Proof.
  intros Hstep. revert s. induction l as [|a l IH]; simpl; intros s Hs H.
  - by injection H as <-.
  - inv_bind. eauto.
Qed.

(** * State-passing computations *)

(** A computation over a state; the [MRet]/[MBind] instances give stdpp's
    [x ← m; k] notation. *)
Definition ST (S A : Type) : Type := S -> A * S.

#[export] Instance st_ret S : MRet (ST S) := fun A a s => (a, s).
#[export] Instance st_bind S : MBind (ST S) :=
  fun A B f m s => let '(a, s') := m s in f a s'.

Definition st_get {S} : ST S S := fun s => (s, s).
Definition st_modify {S} (f : S -> S) : ST S unit := fun s => (tt, f s).

Lemma st_bind_unfold {S A B} (m : ST S A) (f : A -> ST S B) s :
  (m ≫= f) s = f (m s).1 (m s).2.
Proof. unfold mbind, st_bind. by destruct (m s). Qed.

(** * Lists *)

(** First element that satisfies a boolean test ([std::ranges::find_if]). *)
Fixpoint find_first {A} (p : A -> bool) (l : list A) : option A :=
  match l with
  | [] => None
  | x :: xs => if p x then Some x else find_first p xs
  end.

Lemma find_first_Some {A} (p : A -> bool) l x :
  find_first p l = Some x <->
  exists l1 l2, l = l1 ++ x :: l2 /\ p x = true /\ Forall (fun y => p y = false) l1.
Proof.
  split.
  - induction l as [|y ys IH]; simpl; [done|].
    destruct (p y) eqn:E.
    + intros [= ->]. by exists [], ys.
    + intros (l1 & l2 & -> & ? & ?)%IH. exists (y :: l1), l2. auto.
  - intros (l1 & l2 & -> & Hx & Hl).
    induction Hl as [|y l1 Hy Hl IH]; simpl; [by rewrite Hx|by rewrite Hy].
Qed.

Lemma find_first_None {A} (p : A -> bool) l :
  find_first p l = None <-> Forall (fun y => p y = false) l.
Proof.
  induction l as [|y ys IH]; simpl; [split; auto|].
  rewrite Forall_cons. destruct (p y); [|rewrite IH]; naive_solver.
Qed.

Lemma find_first_In {A} (p : A -> bool) l x :
  find_first p l = Some x -> x ∈ l /\ p x = true.
Proof.
  intros (l1 & l2 & -> & ? & _)%find_first_Some. set_solver.
Qed.

Lemma find_first_app {A} (p : A -> bool) l1 l2 :
  find_first p (l1 ++ l2) = match find_first p l1 with Some x => Some x | None => find_first p l2 end.
Proof. induction l1 as [|x l1 IH]; [done|]. cbn. by destruct (p x). Qed.

(** Drops the longest prefix that satisfies [p]. *)
Fixpoint drop_while {A} (p : A -> bool) (l : list A) : list A :=
  match l with
  | [] => []
  | x :: xs => if p x then drop_while p xs else l
  end.

Lemma drop_while_spec {A} (p : A -> bool) l :
  exists pre, l = pre ++ drop_while p l /\ Forall (fun x => p x = true) pre.
Proof.
  induction l as [|x xs (pre & Hpre & Hall)]; [by exists []|].
  simpl. destruct (p x) eqn:E.
  - exists (x :: pre). simpl. split; [congruence|auto].
  - by exists [].
Qed.

Lemma drop_while_head {A} (p : A -> bool) l x xs :
  drop_while p l = x :: xs -> p x = false.
Proof.
  induction l as [|y ys IH]; simpl; [done|].
  destruct (p y) eqn:E; [done|]. naive_solver.
Qed.

Lemma drop_while_none {A} (p : A -> bool) l :
  (forall x xs, l = x :: xs -> p x = false) -> drop_while p l = l.
Proof. destruct l as [|x xs]; simpl; [done|]. intros H. by rewrite (H x xs). Qed.

(** [contains needle l] is [std::ranges::find(l, needle) != end]. *)
Definition contains {A} `{EqDecision A} (x : A) (l : list A) : bool :=
  bool_decide (x ∈ l).

Lemma contains_true {A} `{EqDecision A} (x : A) l : contains x l = true <-> x ∈ l.
Proof. apply bool_decide_eq_true. Qed.

(** * Encoders that can be undone *)

(** [RoundTrip P enc dec]: on the values that satisfy [P], [dec] undoes [enc].
    The GUID text form, the wire frames and the little-endian words are
    instances; what follows from the law alone is proved once here. *)
Class RoundTrip {A B} (P : A -> Prop) (enc : A -> B) (dec : B -> option A) : Prop :=
  round_trip : forall a, P a -> dec (enc a) = Some a.

Lemma round_trip_inj {A B} (P : A -> Prop) (enc : A -> B) dec
    `{!RoundTrip P enc dec} a b :
  P a -> P b -> enc a = enc b -> a = b.
Proof.
  intros Ha Hb E. apply (f_equal dec) in E.
  rewrite !round_trip in E by done. by simplify_eq.
Qed.

(** * Hints *)

Create HintDb esp discriminated.
Create Rewrite HintDb esp.
#[export] Hint Resolve u32_range u64_range code_range : esp.
#[export] Hint Rewrite chars_of_chars of_chars_chars chars_app : esp.
