(* ===== verification/Text.v ===== *)
(** Text helpers: the ASCII scanning, number and GUID routines of
    src/esptool/src/util/StrHelpers.cpp. *)
From S2P Require Import Prelude.

(** UTF-16 strings ([std::wstring]): 16-bit code units. *)
Abbreviation wstring := (list Z).

(** ** Character classes *)

Definition HexValue (value : ascii) : Z :=
  let v := code value in
  if (code "0" <=? v) && (v <=? code "9") then v - code "0"
  else if (code "a" <=? v) && (v <=? code "f") then v - code "a" + 10
  else if (code "A" <=? v) && (v <=? code "F") then v - code "A" + 10
  else -1.

Definition IsSpace (value : ascii) : bool :=
  let v := code value in
  (v =? 32) || (v =? 9) || (v =? 13) || (v =? 10) || (v =? 12) || (v =? 11).

Definition FoldAscii (value : ascii) : ascii :=
  let v := code value in
  if (code "A" <=? v) && (v <=? code "Z") then char_of_code (v - code "A" + code "a")
  else value.

(** ** Conversions, over the Windows conversion routines *)

Section Utf.
  (** [None] stands for a size probe that returned zero or less. *)
  Context (WideCharToMultiByte : wstring -> option string).
  Context (MultiByteToWideChar : string -> option wstring).

Definition ToUtf8 (value : wstring) : string :=
    match value with
    | [] => ""
    | _ => match WideCharToMultiByte value with Some s => s | None => "" end
    end.

Definition ToUtf16 (value : string) : wstring :=
    if is_empty value then []
    else match MultiByteToWideChar value with Some w => w | None => [] end.
End Utf.

(** ** Scanning *)

(** The two loops of [Trim]: [begin] moves right over white space, then [end]
    moves left, never past [begin]. *)
Definition trim_chars (l : list ascii) : list ascii :=
  reverse (drop_while IsSpace (reverse (drop_while IsSpace l))).

Definition Trim (value : string) : string := of_chars (trim_chars (chars value)).

(** The fields between separators, empty ones included. *)
Fixpoint fields (separator : ascii) (l : list ascii) : list (list ascii) :=
  match l with
  | [] => [[]]
  | c :: rest =>
      if (c =? separator)%char then [] :: fields separator rest
      else match fields separator rest with
           | [] => [[c]]
           | f :: fs => (c :: f) :: fs
           end
  end.

Definition nonempty {A} (l : list A) : bool := match l with [] => false | _ => true end.

Definition Split (value : string) (separator : ascii) : list string :=
  of_chars <$> List.filter nonempty (trim_chars <$> fields separator (chars value)).

Fixpoint Join (parts : list string) (separator : string) : string :=
  match parts with
  | [] => ""
  | [p] => p
  | p :: rest => p +:+ separator +:+ Join rest separator
  end.

Definition EqualsIgnoreCase (left right : string) : bool :=
  bool_decide (FoldAscii <$> chars left = FoldAscii <$> chars right).

Definition ToLowerAscii (value : string) : string := of_chars (FoldAscii <$> chars value).

(** ** Unsigned numbers *)

Fixpoint accumulate (basis : Z) (l : list ascii) (accumulator : Z) : option Z :=
  match l with
  | [] => Some accumulator
  | c :: rest =>
      let digit := HexValue c in
      let limit := if basis =? 16 then 15 else 9 in
      if (digit <? 0) || (limit <? digit) then None
      else if (u64_max - digit) / basis <? accumulator then None
      else accumulate basis rest (accumulator * basis + digit)
  end.

(** The base and the digits of a trimmed numeral. *)
Definition numeral (trimmed : list ascii) : Z * list ascii :=
  match trimmed with
  | c0 :: c1 :: c2 :: rest =>
      if (c0 =? "0")%char && ((c1 =? "x")%char || (c1 =? "X")%char)
      then (16, c2 :: rest) else (10, trimmed)
  | _ => (10, trimmed)
  end.

Definition ParseUnsigned (value : string) : option Z :=
  let trimmed := trim_chars (chars value) in
  match trimmed with
  | [] => None
  | _ => let '(basis, digits) := numeral trimmed in
         if nonempty digits then accumulate basis digits 0 else None
  end.

(** ** GUIDs *)

Definition kGuidOctets : nat := 16.

(** Drops one pair of enclosing braces. *)
Definition guid_body (l : list ascii) : list ascii :=
  match l, last l with
  | c0 :: c1 :: rest, Some z =>
      if (c0 =? "{")%char && (z =? "}")%char
      then take (length l - 2) (drop 1 l) else l
  | _, _ => l
  end.

(** Keeps the hexadecimal digits, skips dashes, fails on anything else. *)
Fixpoint guid_compact (l : list ascii) : option (list ascii) :=
  match l with
  | [] => Some []
  | c :: rest =>
      if (c =? "-")%char then guid_compact rest
      else if HexValue c <? 0 then None
      else compact ← guid_compact rest; Some (c :: compact)
  end.

Fixpoint hex_pairs (l : list ascii) : list Z :=
  match l with
  | h :: l0 :: rest => u8 (Z.lor (Z.shiftl (HexValue h) 4) (HexValue l0)) :: hex_pairs rest
  | _ => []
  end.

Definition ParseGuid (value : string) : option (list Z) :=
  compact ← guid_compact (guid_body (trim_chars (chars value)));
  if (length compact =? kGuidOctets * 2)%nat then Some (hex_pairs compact) else None.

Definition hex_digit (d : Z) : ascii :=
  char_of_code (if d <? 10 then code "0" + d else code "a" + (d - 10)).
Definition HEX_digit (d : Z) : ascii :=
  char_of_code (if d <? 10 then code "0" + d else code "A" + (d - 10)).

(** [%02x] of one byte. *)
Definition hex2 (b : Z) : list ascii := [hex_digit (b / 16); hex_digit (b mod 16)].

Definition hexs (bytes : list Z) : list ascii := bytes ≫= hex2.

Definition FormatGuid (bytes : list Z) : string :=
  of_chars (["{"%char] ++ hexs (take 4 bytes)
            ++ ["-"%char] ++ hexs (take 2 (drop 4 bytes))
            ++ ["-"%char] ++ hexs (take 2 (drop 6 bytes))
            ++ ["-"%char] ++ hexs (take 2 (drop 8 bytes))
            ++ ["-"%char] ++ hexs (drop 10 bytes) ++ ["}"%char]).

Definition Win32Message (prefix : string) (error : Z) : string :=
  prefix +:+ " (error " +:+ dec error +:+ ")".

(** [{:0nX}] of a value: upper-case hexadecimal, at least [n] digits. *)
Fixpoint hex_upper_fixed (n : nat) (z : Z) : list ascii :=
  match n with
  | O => []
  | S n => hex_upper_fixed n (z / 16) ++ [HEX_digit (z mod 16)]
  end.

(** [{:08x}] for eight digits. *)
Fixpoint hex_lower_fixed (n : nat) (z : Z) : list ascii :=
  match n with
  | O => []
  | S n => hex_lower_fixed n (z / 16) ++ [hex_digit (z mod 16)]
  end.

(** [{:X}] of a 64-bit value: no leading zeros. *)
Definition hex_upper (z : Z) : string :=
  match drop_while (fun c => (c =? "0")%char) (hex_upper_fixed 16 z) with
  | [] => "0"
  | l => of_chars l
  end.

(** * Reference definitions *)

(** Horner evaluation without any bound. *)
Fixpoint digits_value (basis : Z) (l : list ascii) (acc : Z) : option Z :=
  match l with
  | [] => Some acc
  | c :: rest =>
      if (0 <=? HexValue c) && (HexValue c <? basis)
      then digits_value basis rest (acc * basis + HexValue c) else None
  end.

(** A field that [Split] returns unchanged. *)
Definition clean_field (separator : ascii) (s : string) : Prop :=
  s <> "" /\ Trim s = s /\ separator ∉ chars s.

Definition is_byte (b : Z) : Prop := 0 <= b < 256.
Definition guid_bytes (bytes : list Z) : Prop :=
  length bytes = kGuidOctets /\ Forall is_byte bytes.

(** * Digits *)

Lemma HexValue_range c : -1 <= HexValue c < 16.
Proof.
  unfold HexValue.
  change (code "0") with 48; change (code "9") with 57; change (code "a") with 97;
  change (code "f") with 102; change (code "A") with 65; change (code "F") with 70.
  repeat case_if; boolp; lia.
Qed.

Lemma hex_digit_value d : 0 <= d < 16 -> HexValue (hex_digit d) = d.
Proof.
  intros H. assert (d ∈ seqZ 0 16) as Hd by (apply elem_of_seqZ; lia).
  revert d Hd H. change (seqZ 0 16) with [0;1;2;3;4;5;6;7;8;9;10;11;12;13;14;15].
  intros d Hd _. repeat (apply elem_of_cons in Hd as [->|Hd]; [reflexivity|]).
  by apply not_elem_of_nil in Hd.
Qed.

Lemma hex_digit_not_dash d : 0 <= d < 16 -> (hex_digit d =? "-")%char = false.
Proof.
  intros H. destruct (Ascii.eqb_spec (hex_digit d) "-") as [E|]; [|done].
  pose proof (hex_digit_value d H) as V. rewrite E in V. vm_compute in V. lia.
Qed.

Lemma digits_value_le basis l acc v :
  1 < basis -> 0 <= acc -> digits_value basis l acc = Some v -> acc <= v.
Proof.
  intros Hb. revert acc. induction l as [|c l IH]; simpl; intros acc Ha H.
  - by simplify_eq.
  - case_if_in H; [|done]. boolp. apply IH in H; nia.
Qed.

Lemma accumulate_spec basis l acc :
  basis = 10 \/ basis = 16 -> 0 <= acc <= u64_max ->
  accumulate basis l acc =
  (v ← digits_value basis l acc; if v <=? u64_max then Some v else None).
Proof.
  intros Hb. revert acc. induction l as [|c l IH]; simpl; intros acc Ha.
  - by rewrite (proj2 (Z.leb_le acc u64_max)) by lia.
  - assert ((if basis =? 16 then 15 else 9) = basis - 1) as ->
      by (destruct Hb; subst; reflexivity).
    destruct ((HexValue c <? 0) || (basis - 1 <? HexValue c)) eqn:E1.
    { replace ((0 <=? HexValue c) && (HexValue c <? basis)) with false; [done|].
      symmetry. apply orb_true_iff in E1 as [?|?]; boolp; apply andb_false_iff;
        [left; apply Z.leb_gt|right; apply Z.ltb_ge]; lia. }
    boolp. replace ((0 <=? HexValue c) && (HexValue c <? basis)) with true;
      [|symmetry; apply andb_true_iff; split; [apply Z.leb_le|apply Z.ltb_lt]; lia].
    destruct ((u64_max - HexValue c) / basis <? acc) eqn:E2.
    + apply Z.ltb_lt in E2.
      assert (u64_max < acc * basis + HexValue c) as Hover.
      { pose proof (Z.mul_succ_div_gt (u64_max - HexValue c) basis). nia. }
      destruct (digits_value basis l (acc * basis + HexValue c)) eqn:E3; [|done]. simpl.
      apply digits_value_le in E3; [|lia|nia].
      by rewrite (proj2 (Z.leb_gt _ _)) by lia.
    + apply Z.ltb_ge in E2. apply IH.
      pose proof (Z.mul_div_le (u64_max - HexValue c) basis). nia.
Qed.

(** [numeral] never leaves an empty digit string behind. *)
Lemma numeral_digits l :
  l <> [] -> nonempty (numeral l).2 = true /\ ((numeral l).1 = 10 \/ (numeral l).1 = 16).
Proof.
  intros Hl. unfold numeral. destruct l as [|c0 [|c1 [|c2 l]]]; simpl; auto.
  destruct (_ && _); simpl; auto.
Qed.

(** ParseUnsigned agrees with unbounded evaluation of the digits followed by
    one comparison with 2^64 - 1. *)
Lemma ParseUnsigned_spec value :
  ParseUnsigned value =
  (let trimmed := trim_chars (chars value) in
   if nonempty trimmed then
     v ← digits_value (numeral trimmed).1 (numeral trimmed).2 0;
     if v <=? u64_max then Some v else None
   else None).
Proof.
  unfold ParseUnsigned. destruct (trim_chars (chars value)) as [|c l] eqn:E; [done|].
  destruct (numeral_digits (c :: l)) as [Hd Hb]; [done|].
  destruct (numeral (c :: l)) as [basis digits]. cbn -[u64_max].
  simpl in Hd, Hb. rewrite Hd. apply accumulate_spec; [done|]. unfold u64_max; lia.
Qed.

Lemma ParseUnsigned_range value v : ParseUnsigned value = Some v -> 0 <= v <= u64_max.
Proof.
  rewrite ParseUnsigned_spec. simpl. case_if; [|done].
  destruct (digits_value _ _ 0) as [w|] eqn:Hw; simpl; [|done].
  case_if; [|done]. intros [= <-]. boolp. split; [|done].
  apply digits_value_le in Hw; [lia| |lia].
  destruct (numeral_digits (trim_chars (chars value))) as [_ [-> | ->]]; [|lia|lia].
  by destruct (trim_chars _).
Qed.

(** * Trimming *)

Definition no_space_ends (l : list ascii) : Prop :=
  (forall c, head l = Some c -> IsSpace c = false) /\
  (forall c, last l = Some c -> IsSpace c = false).

Lemma drop_while_id l :
  (forall c, head l = Some c -> IsSpace c = false) -> drop_while IsSpace l = l.
Proof. intros H. apply drop_while_none. intros x xs ->. by apply H. Qed.

Lemma trim_chars_id l : no_space_ends l -> trim_chars l = l.
Proof.
  intros [Hh Hl]. unfold trim_chars. rewrite (drop_while_id l) by done.
  rewrite drop_while_id; [by rewrite reverse_involutive|].
  intros c Hc. apply Hl. by rewrite head_reverse in Hc.
Qed.

Lemma head_drop_while l c : head (drop_while IsSpace l) = Some c -> IsSpace c = false.
Proof.
  destruct (drop_while IsSpace l) as [|d ds] eqn:E; simpl; [done|].
  intros [= <-]. by eapply drop_while_head.
Qed.

Lemma trim_chars_ends l : no_space_ends (trim_chars l).
Proof.
  unfold trim_chars, no_space_ends.
  pose proof (head_drop_while l) as Hm. revert Hm. generalize (drop_while IsSpace l).
  intros m Hm. split; intros c Hc.
  - apply Hm. destruct (drop_while_spec IsSpace (reverse m)) as (pre & Hpre & _).
    apply (f_equal reverse) in Hpre. rewrite reverse_involutive, reverse_app in Hpre.
    rewrite Hpre. by destruct (reverse (drop_while IsSpace (reverse m))).
  - rewrite last_reverse in Hc. by apply head_drop_while in Hc.
Qed.

Lemma trim_chars_idemp l : trim_chars (trim_chars l) = trim_chars l.
Proof. apply trim_chars_id, trim_chars_ends. Qed.

Lemma Trim_idemp s : Trim (Trim s) = Trim s.
Proof. unfold Trim. by rewrite chars_of_chars, trim_chars_idemp. Qed.

(** * Joining and splitting *)

Lemma fields_cons separator l : exists f fs, fields separator l = f :: fs.
Proof.
  induction l as [|c l (f & fs & IH)]; simpl; [eauto|].
  destruct (c =? separator)%char; [eauto|]. rewrite IH. eauto.
Qed.

Lemma fields_clean separator l : separator ∉ l -> fields separator l = [l].
Proof.
  induction l as [|c l IH]; [done|]. intros [Hc Hl]%not_elem_of_cons. simpl.
  destruct (Ascii.eqb_spec c separator); [by subst|]. by rewrite IH.
Qed.

Lemma fields_app separator l1 l2 :
  separator ∉ l1 -> fields separator (l1 ++ separator :: l2) = l1 :: fields separator l2.
Proof.
  induction l1 as [|c l IH]; simpl.
  - intros _. by rewrite Ascii.eqb_refl.
  - intros [Hc Hl]%not_elem_of_cons.
    destruct (Ascii.eqb_spec c separator); [by subst|]. by rewrite IH.
Qed.

Lemma fields_Join separator parts :
  parts <> [] -> Forall (fun p => separator ∉ chars p) parts ->
  fields separator (chars (Join parts (String separator ""))) = chars <$> parts.
Proof.
  induction parts as [|p [|q rest] IH]; [done| |]; intros _ Hall.
  - apply Forall_inv in Hall. by apply fields_clean.
  - apply Forall_cons in Hall as [Hp Hall].
    change (Join (p :: q :: rest) (String separator ""))
      with (p +:+ String separator "" +:+ Join (q :: rest) (String separator "")).
    specialize (IH ltac:(done) Hall). revert IH.
    generalize (Join (q :: rest) (String separator "")). intros t IH.
    rewrite !chars_app. simpl. rewrite fields_app by done. by rewrite IH.
Qed.

Lemma clean_fields_kept separator parts :
  Forall (clean_field separator) parts ->
  of_chars <$> List.filter nonempty (trim_chars <$> (chars <$> parts)) = parts.
Proof.
  induction 1 as [|q qs (Hne & Htrim & _) Hall IH]; [done|].
  apply (f_equal chars) in Htrim. unfold Trim in Htrim. rewrite chars_of_chars in Htrim.
  rewrite !fmap_cons, Htrim.
  assert (nonempty (chars q) = true) as Hq by (by destruct q). simpl. rewrite Hq.
  rewrite fmap_cons, IH. f_equal. apply of_chars_chars.
Qed.

(** Split undoes Join on fields that are non-empty, trimmed and free of the
    separator: the comma-separated lists of a rule document are read back. *)
Lemma Split_Join separator parts :
  Forall (clean_field separator) parts ->
  Split (Join parts (String separator "")) separator = parts.
Proof.
  intros Hall. unfold Split. destruct parts as [|p rest]; [done|].
  rewrite fields_Join; [|done|by eapply Forall_impl; [exact Hall|intros ? (_ & _ & ?)]].
  by eapply clean_fields_kept.
Qed.

Lemma Split_Join_witness :
  Forall (clean_field ",") ["set"; "enum"] /\ Split "set,enum" "," = ["set"; "enum"].
Proof.
  assert (Forall (clean_field ",") ["set"; "enum"]) as H.
  { repeat constructor; try (vm_compute; done); vm_compute; set_solver. }
  split; [exact H|]. exact (Split_Join "," ["set"; "enum"] H).
Defined.

(** * Case folding *)

(** Case-insensitive equality is equality of the lower-cased strings. *)
Lemma EqualsIgnoreCase_lower left right :
  EqualsIgnoreCase left right = bool_decide (ToLowerAscii left = ToLowerAscii right).
Proof.
  unfold EqualsIgnoreCase, ToLowerAscii. apply bool_decide_ext. split; [congruence|].
  intros H%(f_equal chars). by rewrite !chars_of_chars in H.
Qed.

(** * GUID text form *)

Lemma guid_compact_app l1 l2 :
  guid_compact (l1 ++ l2) =
  (x ← guid_compact l1; y ← guid_compact l2; Some (x ++ y)).
Proof.
  induction l1 as [|c l IH]; simpl.
  - by destruct (guid_compact l2).
  - destruct (c =? "-")%char; [done|]. destruct (HexValue c <? 0); [done|].
    rewrite IH. destruct (guid_compact l); simpl; [|done]. by destruct (guid_compact l2).
Qed.

Lemma byte_digits b : is_byte b -> 0 <= b / 16 < 16 /\ 0 <= b mod 16 < 16.
Proof. unfold is_byte. intros. Z.div_mod_to_equations. lia. Qed.

Lemma guid_compact_hexs l : Forall is_byte l -> guid_compact (hexs l) = Some (hexs l).
Proof.
  induction 1 as [|b l [Hh Hl]%byte_digits _ IH]; [done|].
  change (hexs (b :: l)) with (hex2 b ++ hexs l). rewrite guid_compact_app, IH.
  unfold hex2. cbn [guid_compact].
  rewrite !hex_digit_not_dash, !hex_digit_value by done.
  rewrite !(proj2 (Z.ltb_ge _ 0)) by lia. done.
Qed.

Lemma hex_pairs_hexs l : Forall is_byte l -> hex_pairs (hexs l) = l.
Proof.
  induction 1 as [|b l Hb _ IH]; [done|].
  change (hexs (b :: l)) with (hex2 b ++ hexs l). unfold hex2. cbn [app hex_pairs].
  destruct (byte_digits b Hb) as [Hh Hl].
  rewrite IH, !hex_digit_value by done. f_equal.
  rewrite Z.lor_comm, lor_shiftl by lia. unfold is_byte in Hb.
  change (2 ^ 4) with 16. ints.
Qed.

Lemma hexs_length l : length (hexs l) = (2 * length l)%nat.
Proof. induction l as [|b l IH]; [done|]. cbn [hexs]. simpl in *. rewrite IH. lia. Qed.

Lemma hexs_app l1 l2 : hexs (l1 ++ l2) = hexs l1 ++ hexs l2.
Proof. apply bind_app. Qed.

(** The text between the braces. *)
Definition guid_text (bytes : list Z) : list ascii :=
  hexs (take 4 bytes) ++ ["-"%char] ++ hexs (take 2 (drop 4 bytes))
  ++ ["-"%char] ++ hexs (take 2 (drop 6 bytes)) ++ ["-"%char]
  ++ hexs (take 2 (drop 8 bytes)) ++ ["-"%char] ++ hexs (drop 10 bytes).

Lemma guid_body_braces l : guid_body (["{"%char] ++ l ++ ["}"%char]) = l.
Proof.
  simpl app. unfold guid_body.
  assert (last ("{"%char :: l ++ ["}"%char]) = Some "}"%char) as Hlast
    by (rewrite app_comm_cons; apply last_snoc).
  assert (length (l ++ ["}"%char]) = S (length l)) as Hlen
    by (rewrite length_app; simpl; lia).
  destruct (l ++ ["}"%char]) as [|c rest] eqn:E; [done|].
  rewrite Hlast. simpl in *. rewrite <- E.
  replace (length rest - 0)%nat with (length l) by lia. by rewrite take_app_length.
Qed.

Lemma guid_compact_text bytes :
  guid_bytes bytes -> guid_compact (guid_text bytes) = Some (hexs bytes).
Proof.
  intros [Hlen Hb]. unfold guid_text.
  rewrite !guid_compact_app, !guid_compact_hexs by
    (repeat first [apply Forall_take | apply Forall_drop]; done).
  simpl. f_equal. rewrite <- !hexs_app. f_equal.
  do 16 (destruct bytes as [|? bytes]; [done|]). by destruct bytes.
Qed.

#[export] Instance guid_round_trip : RoundTrip guid_bytes FormatGuid ParseGuid.
Proof.
  intros bytes Hb. unfold ParseGuid, FormatGuid. rewrite chars_of_chars.
  rewrite !app_assoc. rewrite <- (app_assoc ["{"%char]).
  rewrite trim_chars_id.
  2:{ split; intros c; [intros [= <-]; reflexivity|].
      rewrite last_snoc. intros [= <-]. reflexivity. }
  rewrite <- !app_assoc. change (["{"%char] ++ ?x) with (["{"%char] ++ x).
  pose proof (guid_body_braces (guid_text bytes)) as HB.
  unfold guid_text in HB. rewrite <- !app_assoc in HB. rewrite HB.
  change (_ ++ _) with (guid_text bytes). rewrite guid_compact_text by done. simpl.
  destruct Hb as [Hlen Hall]. rewrite hexs_length, Hlen. simpl.
  by rewrite hex_pairs_hexs.
Qed.

(** A GUID printed by FormatGuid is read back by ParseGuid, octet by octet. *)
Lemma ParseGuid_FormatGuid bytes :
  length bytes = kGuidOctets -> Forall is_byte bytes ->
  ParseGuid (FormatGuid bytes) = Some bytes.
Proof. intros. by apply round_trip. Qed.

Lemma ParseGuid_FormatGuid_witness :
  length (seqZ 240 16) = kGuidOctets /\ ParseGuid (FormatGuid (seqZ 240 16)) = Some (seqZ 240 16).
Proof.
  split; [reflexivity|]. apply (ParseGuid_FormatGuid (seqZ 240 16)); [reflexivity|].
  apply Forall_forall. intros b Hb%elem_of_seqZ. unfold is_byte. lia.
Defined.
