(* ===== verification/Core.v ===== *)
(** Result codes, GUIDs and handles: src/esptool/src/esp/EspCore.h and
    EspStatus.{h,cpp}. *)
From S2P Require Import Prelude Text.

(** ** Result codes ([EspResult] is a signed 32-bit integer) *)

Definition EspResult : Type := Z.

Definition kOk : EspResult := 0.
Definition kFail : EspResult := i32 0x80004005.
Definition kAccessDenied : EspResult := i32 0x80070005.
Definition kOutOfMemory : EspResult := i32 0x8007000E.
Definition kInvalidArg : EspResult := i32 0x80070057.
Definition kInsufficientBuffer : EspResult := i32 0x8007007A.
Definition kModNotFound : EspResult := i32 0x8007007E.
Definition kAlreadyExists : EspResult := i32 0x800700B7.
Definition kNoMoreItems : EspResult := i32 0x80070103.
Definition kIoPending : EspResult := i32 0x800703E5.
Definition kNotFound : EspResult := i32 0x80070490.
Definition kTimeout : EspResult := i32 0x800705B4.
Definition kInvalidState : EspResult := i32 0x8007139F.
Definition kStatusAccessDenied : EspResult := i32 0xC0000022.
Definition kStatusInvalidParameter : EspResult := i32 0xC000000D.
Definition kStatusEntrypointNotFound : EspResult := i32 0xC0000139.
Definition kStatusAccessViolation : EspResult := i32 0xC0000005.
Definition kStatusStackBufferOverrun : EspResult := i32 0xC0000409.
Definition kStatusCancelled : EspResult := i32 0xC0000120.

Definition kNtStatusErrorMask : Z := 0xC0000000.

Definition Succeeded (result : EspResult) : bool := 0 <=? result.
Definition Failed (result : EspResult) : bool := result <? 0.

Definition NtStatusToResult (status : Z) : EspResult :=
  if kNtStatusErrorMask <=? status then i32 status
  else
    let kFacilityNtBit := 0x10000000 in
    let kSeverityCustomer := 0x20000000 in
    let kHresultSeverityError := 0x40000000 in
    i32 (Z.lor (Z.lor (Z.lor status kFacilityNtBit) kSeverityCustomer)
               kHresultSeverityError).

Definition kResultNames : list (EspResult * string) :=
  [ (kOk, "S_OK");
    (kFail, "E_FAIL");
    (kAccessDenied, "E_ACCESSDENIED");
    (kOutOfMemory, "E_OUTOFMEMORY");
    (kInvalidArg, "E_INVALIDARG");
    (kInsufficientBuffer, "ERROR_INSUFFICIENT_BUFFER");
    (kModNotFound, "ERROR_MOD_NOT_FOUND");
    (kAlreadyExists, "ERROR_ALREADY_EXISTS");
    (kNoMoreItems, "ERROR_NO_MORE_ITEMS");
    (kIoPending, "ERROR_IO_PENDING");
    (kNotFound, "ERROR_NOT_FOUND");
    (kTimeout, "ERROR_TIMEOUT");
    (kInvalidState, "ERROR_INVALID_STATE");
    (kStatusAccessDenied, "STATUS_ACCESS_DENIED");
    (kStatusInvalidParameter, "STATUS_INVALID_PARAMETER");
    (kStatusEntrypointNotFound, "STATUS_ENTRYPOINT_NOT_FOUND");
    (kStatusAccessViolation, "STATUS_ACCESS_VIOLATION");
    (kStatusStackBufferOverrun, "STATUS_STACK_BUFFER_OVERRUN");
    (kStatusCancelled, "STATUS_CANCELLED") ].

Definition DescribeResult (result : EspResult) : string :=
  match find_first (fun entry => entry.1 =? result) kResultNames with
  | None => "HRESULT"
  | Some entry => entry.2
  end.

Definition HexResult (result : EspResult) : string :=
  "0x" +:+ of_chars (hex_upper_fixed 8 (u32 result)).

(** ** GUIDs *)

(** The sixteen octets of the object representation; the structure has no
    padding, so field-wise equality is equality of the octets. *)
Abbreviation Guid := (list Z).
Definition null_guid : Guid := replicate 16 0.
Definition IsNull (value : Guid) : bool := bool_decide (value = null_guid).

(** ** Handles and addresses *)

(** An [Opaque<Tag>] or a raw pointer: an address, 0 when null. *)
Abbreviation handle := Z.
Definition handle_ok (h : handle) : bool := negb (h =? 0).

(** ** Client defaults *)

Definition kDefaultClientName : string := "esptool".
Definition kDefaultClientAltitude : string := "385000".
Definition kDefaultClientAltitudeValue : Z := 385000.
Definition kAltitudeCollisionTries : nat := 32.
Definition kAltitudeCollisionStep : Z := 10.
Definition kContextKeyDwords : nat := 8.

(** * Theorems *)

Lemma Failed_Succeeded r : Failed r = negb (Succeeded r).
Proof. unfold Failed, Succeeded. by rewrite Z.ltb_antisym. Qed.

(** Every named code has its own name: two results that are described by the
    same word other than the fallback are the same code. *)
Lemma DescribeResult_inj r1 r2 :
  DescribeResult r1 = DescribeResult r2 -> DescribeResult r1 <> "HRESULT" -> r1 = r2.
Proof.
  assert (forall r, DescribeResult r <> "HRESULT" ->
    exists e, e ∈ kResultNames /\ e = (r, DescribeResult r)) as Hin.
  { intros r. unfold DescribeResult. destruct (find_first _ _) as [e|] eqn:E; [|done].
    apply find_first_In in E as [? ?]. boolp. intros _. exists e. destruct e; naive_solver. }
  intros E Hne. destruct (Hin r1 Hne) as (e1 & H1 & ->).
  destruct (Hin r2) as (e2 & H2 & ->); [congruence|]. rewrite <- E in H2.
  revert H1 H2. generalize (DescribeResult r1). intros n.
  assert (NoDup (snd <$> kResultNames)) as Hnd by (apply (bool_decide_unpack _); vm_compute; exact I).
  intros H1 H2. apply list_elem_of_lookup in H1 as [i Hi].
  apply list_elem_of_lookup in H2 as [j Hj].
  assert (i = j) as ->; [|congruence].
  eapply NoDup_lookup; [exact Hnd| |]; rewrite list_lookup_fmap;
    [rewrite Hi|rewrite Hj]; reflexivity.
Qed.

