(* ===== verification/Handles.v ===== *)
(** Owners of system handles (src/esptool/src/util/UniqueHandle.h and UniqueWin.h).

    An owner object is the handle it holds. [reset], [release] and the rest are the
    member functions on that value, with the handles they close; a [Scope] is a set of
    named owner objects with the log of what was handed to them, closed and released.
    The combinator [unique] is a local owner of a function. *)
From S2P Require Import Prelude Text Core.

Definition INVALID_HANDLE_VALUE : handle := u64_max.

Definition UsableNonEmpty (h : handle) : bool := negb (h =? 0).
Definition UsableKernel (h : handle) : bool := negb (h =? 0) && negb (h =? INVALID_HANDLE_VALUE).

(** The instances of [UniqueCloser]. *)
Inductive OwnerKind :=
  UniqueHandle | UniqueModule | UniqueFind | UniqueServiceHandle | UniqueRegKey | UniqueLaunchAttributeList.

#[export] Instance OwnerKind_eq_dec : EqDecision OwnerKind.
Proof. solve_decision. Defined.

(** The function an instance closes its handle with. *)
Definition Close (k : OwnerKind) : string :=
  match k with
  | UniqueHandle => "CloseHandle" | UniqueModule => "FreeLibrary" | UniqueFind => "FindClose"
  | UniqueServiceHandle => "CloseServiceHandle" | UniqueRegKey => "RegCloseKey"
  | UniqueLaunchAttributeList => "DeleteProcThreadAttributeList"
  end.

Definition Usable (k : OwnerKind) : handle -> bool :=
  match k with UniqueHandle | UniqueFind => UsableKernel | _ => UsableNonEmpty end.

Definition Normalize (k : OwnerKind) (h : handle) : handle := if Usable k h then h else 0.

(** ** One owner *)

(** The handle held from now on and what was closed. *)
Definition reset (k : OwnerKind) (cell h : handle) : handle * list handle :=
  let next := Normalize k h in
  if cell =? next then (cell, [])
  else (next, if Usable k cell then [cell] else []).

(** The handle given away and the one held from now on. *)
Definition release (cell : handle) : handle * handle := (cell, 0).

(** [operator=(UniqueCloser&&)] between two objects: the handle of the left one, that of
    the right one, and what was closed. *)
Definition move_assign (k : OwnerKind) (cell other : handle) : handle * handle * list handle :=
  let '(_, closed) := reset k cell 0 in
  let '(moved, other) := release other in
  (moved, other, closed).

(** ** Scopes *)

Abbreviation owned_handle := (OwnerKind * handle)%type.

Record Scope := mkScope {
  sc_objects : gmap string owned_handle;
  sc_taken : list owned_handle;
  sc_closed : list owned_handle;
  sc_released : list owned_handle
}.

Definition empty_scope : Scope := mkScope ∅ [] [] [].

Inductive Op :=
  | Construct (x : string) (k : OwnerKind) (h : handle)
  | MoveConstruct (x y : string)
  | MoveAssign (x y : string)
  | Reset (x : string) (h : handle)
  | Release (x : string)
  | Destroy (x : string).

(** The handles of an owner in the logs, which keep them as they were given, closed and
    released, usable or not. *)
Definition tag (k : OwnerKind) (l : list handle) : list owned_handle := (fun h => (k, h)) <$> l.

(** Nothing when an object is used before its construction or after its destruction, is
    constructed twice, or is moved to an owner of another kind. A reset to the handle that
    is held takes nothing over. *)
Definition step (s : Scope) (op : Op) : option Scope :=
  let '(mkScope objects taken closed released) := s in
  match op with
  | Construct x k h =>
      match objects !! x with
      | Some _ => None
      | None => Some (mkScope (<[x := (k, Normalize k h)]> objects) (tag k [h] ++ taken) closed released)
      end
  | MoveConstruct x y =>
      match objects !! x, objects !! y with
      | None, Some (k, cell) =>
          let '(moved, rest) := release cell in
          Some (mkScope (<[x := (k, moved)]> (<[y := (k, rest)]> objects)) taken closed released)
      | _, _ => None
      end
  | MoveAssign x y =>
      match objects !! x, objects !! y with
      | Some (k, cell), Some (k', other) =>
          if decide (k = k') then
            if decide (x = y) then Some s
            else
              let '(moved, rest, dropped) := move_assign k cell other in
              Some (mkScope (<[x := (k, moved)]> (<[y := (k, rest)]> objects)) taken
                      (tag k dropped ++ closed) released)
          else None
      | _, _ => None
      end
  | Reset x h =>
      match objects !! x with
      | None => None
      | Some (k, cell) =>
          let '(held, dropped) := reset k cell h in
          Some (mkScope (<[x := (k, held)]> objects)
                  (if cell =? Normalize k h then taken else tag k [h] ++ taken)
                  (tag k dropped ++ closed) released)
      end
  | Release x =>
      match objects !! x with
      | None => None
      | Some (k, cell) =>
          let '(given, rest) := release cell in
          Some (mkScope (<[x := (k, rest)]> objects) taken closed (tag k [given] ++ released))
      end
  | Destroy x =>
      match objects !! x with
      | None => None
      | Some (k, cell) =>
          let '(_, dropped) := reset k cell 0 in
          Some (mkScope (delete x objects) taken (tag k dropped ++ closed) released)
      end
  end.

Fixpoint run (s : Scope) (ops : list Op) : option Scope :=
  match ops with
  | [] => Some s
  | op :: rest => s ← step s op; run s rest
  end.

(** ** The accounts of a scope *)

(** The handles of a log that an owner answers for. *)
Definition answered (l : list owned_handle) : list owned_handle :=
  List.filter (fun o => Usable o.1 o.2) l.

(** The same for handles of one owner. *)
Definition usables (k : OwnerKind) (l : list handle) : list owned_handle := answered (tag k l).

Definition cell_handles (o : owned_handle) : list owned_handle := usables o.1 [o.2].

Definition held (objects : gmap string owned_handle) : list owned_handle :=
  (map_to_list objects).*2 ≫= cell_handles.

(** An owner holds nothing or a handle it answers for. *)
Definition normal (o : owned_handle) : Prop := o.2 = 0 \/ Usable o.1 o.2 = true.

Record accounted (s : Scope) : Prop := {
  acc_normal : map_Forall (fun _ => normal) (sc_objects s);
  acc_usable : Forall (fun o => Usable o.1 o.2 = true) (sc_closed s);
  acc_balance : answered (sc_taken s) ≡ₚ sc_closed s ++ answered (sc_released s) ++ held (sc_objects s)
}.

Lemma usables_nil k : usables k [] = [].
Proof. done. Qed.

Lemma usables_one k h : usables k [h] = if Usable k h then [(k, h)] else [].
Proof. done. Qed.

Lemma answered_tag k l rest : answered (tag k l ++ rest) = usables k l ++ answered rest.
Proof. apply List.filter_app. Qed.

Lemma usable_null k : Usable k 0 = false.
Proof. by destruct k. Qed.

Lemma usables_null k : usables k [0] = [].
Proof. by rewrite usables_one, usable_null. Qed.

Lemma usables_normalized k h : usables k [Normalize k h] = usables k [h].
Proof. rewrite !usables_one. unfold Normalize. destruct (Usable k h) eqn:E; [by rewrite E|by rewrite usable_null]. Qed.

Lemma normal_normalized k h : normal (k, Normalize k h).
Proof. unfold normal, Normalize. cbn. destruct (Usable k h) eqn:E; [by right|by left]. Qed.

Lemma held_delete objects x o :
  objects !! x = Some o -> held objects ≡ₚ cell_handles o ++ held (delete x objects).
Proof. intros H. unfold held. by rewrite <- (map_to_list_delete objects x o H). Qed.

Lemma held_insert objects x o :
  held (<[x := o]> objects) ≡ₚ cell_handles o ++ held (delete x objects).
Proof. rewrite (held_delete _ x o) by apply lookup_insert_eq. by rewrite delete_insert_eq. Qed.

Lemma held_insert_fresh objects x o :
  objects !! x = None -> held (<[x := o]> objects) ≡ₚ cell_handles o ++ held objects.
Proof. intros H. rewrite held_insert. by rewrite delete_id. Qed.

(** What a reset drops and keeps, against what it held and was given. *)
Lemma reset_balance k cell h :
  normal (k, cell) ->
  let '(kept, dropped) := reset k cell h in
  normal (k, kept) /\ Forall (fun o => Usable o.1 o.2 = true) (tag k dropped) /\
  usables k (if cell =? Normalize k h then [] else [h]) ++ usables k [cell] ≡ₚ tag k dropped ++ usables k [kept].
Proof.
  intros Hn. unfold reset. destruct (Z.eqb_spec cell (Normalize k h)) as [E|E].
  - split; [done|]. split; [constructor|]. by rewrite usables_nil.
  - split; [apply normal_normalized|]. rewrite usables_normalized, (usables_one k cell).
    destruct (Usable k cell) eqn:Eu; (split; [by repeat constructor|]).
    + by rewrite Permutation_app_comm.
    + by rewrite app_nil_r.
Qed.

Lemma reset_null k cell :
  normal (k, cell) -> tag k (reset k cell 0).2 = usables k [cell].
Proof.
  intros Hn. unfold reset, Normalize. rewrite usable_null. destruct Hn as [Hc|Hu]; cbn [fst snd] in *.
  - subst cell. change (0 =? 0) with true. by rewrite usables_null.
  - destruct (Z.eqb_spec cell 0) as [->|_]; [by rewrite usable_null in Hu|]. by rewrite usables_one, Hu.
Qed.

Lemma usables_usable k l : Forall (fun o => Usable o.1 o.2 = true) (usables k l).
Proof. apply Forall_forall. intros o Hin%list_elem_of_In. by apply filter_In in Hin as [_ ?]. Qed.

(** Replacing the handle of an object exchanges what it held. *)
Lemma held_update objects x o o' :
  objects !! x = Some o -> cell_handles o ++ held (<[x := o']> objects) ≡ₚ cell_handles o' ++ held objects.
Proof. intros H. rewrite held_insert, (held_delete _ _ _ H). solve_Permutation. Qed.

(** One object gets, closes and gives away. *)
Lemma accounted_replace objects taken closed released x k cell new got dropped given :
  accounted (mkScope objects taken closed released) -> objects !! x = Some (k, cell) -> normal (k, new) ->
  Forall (fun o => Usable o.1 o.2 = true) (tag k dropped) ->
  usables k got ++ usables k [cell] ≡ₚ tag k dropped ++ usables k given ++ usables k [new] ->
  accounted (mkScope (<[x := (k, new)]> objects) (tag k got ++ taken) (tag k dropped ++ closed) (tag k given ++ released)).
Proof.
  intros [Hn Hu Hb] Hx Hnew Hdropped Hbal. cbn [sc_objects sc_closed sc_released sc_taken] in *.
  constructor; cbn [sc_objects sc_closed sc_released sc_taken].
  - by apply map_Forall_insert_2.
  - by apply Forall_app_2.
  - rewrite !answered_tag. pose proof (held_update objects x _ (k, new) Hx) as Hh. unfold cell_handles in Hh. cbn [fst snd] in Hh.
    apply (Permutation_app_inv_l (usables k [cell])).
    transitivity ((usables k got ++ usables k [cell]) ++ answered taken); [solve_Permutation|]. rewrite Hbal, Hb.
    transitivity (tag k dropped ++ usables k given ++ closed ++ answered released ++ (usables k [new] ++ held objects));
      [solve_Permutation|]. rewrite <- Hh. solve_Permutation.
Qed.

(** A handle goes from one object to another, which is empty or does not exist. *)
Lemma held_transfer objects x y k other :
  x <> y -> objects !! y = Some (k, other) ->
  (objects !! x = None \/ objects !! x = Some (k, 0)) ->
  held (<[x := (k, other)]> (<[y := (k, 0)]> objects)) ≡ₚ held objects.
Proof.
  intros Hxy Hy Hx. pose proof (held_update objects y _ (k, 0) Hy) as Hh. unfold cell_handles in Hh.
  cbn [fst snd] in Hh. rewrite usables_null in Hh. cbn [app] in Hh. rewrite <- Hh.
  destruct Hx as [Hx|Hx].
  - by rewrite held_insert_fresh by (by rewrite lookup_insert_ne).
  - pose proof (held_update (<[y := (k, 0)]> objects) x (k, 0) (k, other)
      ltac:(by rewrite lookup_insert_ne)) as Hh'.
    unfold cell_handles in Hh'. cbn [fst snd] in Hh'. rewrite usables_null in Hh'. exact Hh'.
Qed.

Lemma accounted_held objects objects' taken closed released :
  accounted (mkScope objects taken closed released) -> map_Forall (fun _ => normal) objects' ->
  held objects' ≡ₚ held objects -> accounted (mkScope objects' taken closed released).
Proof. intros [_ Hu Hb] Hn Hh. constructor; [done|done|]. cbn in *. by rewrite Hh. Qed.

Lemma accounted_delete objects taken closed released x k :
  accounted (mkScope objects taken closed released) -> objects !! x = Some (k, 0) ->
  accounted (mkScope (delete x objects) taken closed released).
Proof.
  intros Ha Hx. apply (accounted_held objects); [done|apply map_Forall_delete, Ha|].
  rewrite (held_delete objects x _ Hx). unfold cell_handles. cbn [fst snd]. by rewrite usables_null.
Qed.

Lemma normal_null k : normal (k, 0).
Proof. by left. Qed.

(** Emptying an object closes what it held. *)
Lemma accounted_empty objects taken closed released x k cell :
  accounted (mkScope objects taken closed released) -> objects !! x = Some (k, cell) ->
  accounted (mkScope (<[x := (k, 0)]> objects) taken (tag k (reset k cell 0).2 ++ closed) released).
Proof.
  intros Ha Hx. pose proof (reset_null k cell ltac:(by apply (acc_normal _ Ha x))) as Hr.
  apply (accounted_replace _ _ _ _ _ _ _ _ [] _ [] Ha Hx); [apply normal_null|rewrite Hr; apply usables_usable|].
  rewrite Hr, usables_null, usables_nil. by rewrite app_nil_r.
Qed.

Tactic Notation "on_object" hyp(H) simple_intropattern(p) ident(E) :=
  match type of H with context [match ?m !! ?x with _ => _ end] => destruct (m !! x) as p eqn:E; try done end.

Lemma step_accounted s op s' : accounted s -> step s op = Some s' -> accounted s'.
Proof.
  destruct s as [objects taken closed released]. intros Ha Hs. pose proof (acc_normal _ Ha) as Hn. cbn in Hn.
  assert (forall x o, objects !! x = Some o -> normal o) as Hlook by (intros; by eapply Hn).
  destruct op as [x k h|x y|x y|x h|x|x]; cbn [step release] in Hs.
  - on_object Hs [?|] Hx. injection Hs as <-. destruct Ha as [_ Hu Hb].
    constructor; cbn [sc_objects sc_closed sc_taken sc_released] in *; [|done|].
    + apply map_Forall_insert_2; [apply normal_normalized|done].
    + rewrite (answered_tag k [h] taken : answered ((k, h) :: taken) = _), held_insert_fresh, Hb by done.
      unfold cell_handles. cbn [fst snd].
      rewrite usables_normalized. solve_Permutation.
  - on_object Hs [?|] Hx. on_object Hs [[k cell]|] Hy. injection Hs as <-. apply (accounted_held objects); [done| |].
    + repeat apply map_Forall_insert_2; eauto using normal_null.
    + apply held_transfer; [congruence|done|by left].
  - on_object Hs [[k cell]|] Hx. on_object Hs [[k' other]|] Hy. destruct (decide _) as [<-|]; [|done].
    destruct (decide (x = y)) as [_|Hxy]; [by injection Hs as <-|].
    unfold move_assign in Hs. destruct (reset k cell 0) as [kept dropped] eqn:Er. injection Hs as <-.
    pose proof (accounted_empty _ _ _ _ _ _ _ Ha Hx) as Hempty. rewrite Er in Hempty. cbn [snd] in Hempty.
    apply (accounted_held (<[x := (k, 0)]> objects)); [done| |].
    + repeat apply map_Forall_insert_2; eauto using normal_null.
    + rewrite <- (held_transfer (<[x := (k, 0)]> objects) x y k other);
        [|done|by rewrite lookup_insert_ne|right; by rewrite lookup_insert_eq].
      by rewrite (insert_insert_ne _ y x), insert_insert_eq.
  - on_object Hs [[k cell]|] Hx. pose proof (reset_balance k cell h (Hlook _ _ Hx)) as Hr.
    destruct (reset k cell h) as [kept dropped]. destruct Hr as (Hk & Hd & Hr). injection Hs as <-.
    pose proof (accounted_replace _ _ _ _ _ _ _ kept _ dropped [] Ha Hx Hk Hd Hr) as Hnew.
    by destruct (cell =? Normalize k h).
  - on_object Hs [[k cell]|] Hx. injection Hs as <-.
    apply (accounted_replace _ _ _ _ _ _ _ _ [] [] [cell] Ha Hx); [apply normal_null|constructor|].
    rewrite usables_null, usables_nil. by rewrite app_nil_r.
  - on_object Hs [[k cell]|] Hx. destruct (reset k cell 0) as [kept dropped] eqn:Er. injection Hs as <-.
    pose proof (accounted_empty _ _ _ _ _ _ _ Ha Hx) as Hempty. rewrite Er in Hempty. cbn [snd] in Hempty.
    rewrite <- (delete_insert_eq objects x (k, 0)). eapply accounted_delete; [done|]. by rewrite lookup_insert_eq.
Qed.

Lemma run_accounted s ops s' : accounted s -> run s ops = Some s' -> accounted s'.
Proof.
  revert s. induction ops as [|op ops IH]; intros s Hs Hrun; [by injection Hrun as <-|].
  apply bind_Some in Hrun as (s1 & Hstep & Hrun). eauto using step_accounted.
Qed.

(** C39 Handles are neither lost nor closed twice by their owners: after any sequence of
    constructions, moves, resets, releases and destructions, every usable handle an owner
    took over was closed, was given away or is held, once each; an owner only ever closes
    usable handles, although it may be given null and invalid ones; usable handles that
    were taken over once each are closed at most once, and none that is still held or was
    given away; and once all owners are gone, nothing is held. *)
Theorem owners_balance ops s (Hrun : run empty_scope ops = Some s) :
  answered (sc_taken s) ≡ₚ sc_closed s ++ answered (sc_released s) ++ held (sc_objects s) /\
  Forall (fun o => Usable o.1 o.2 = true) (sc_closed s) /\
  (NoDup (answered (sc_taken s)) ->
     NoDup (sc_closed s) /\ forall o, o ∈ sc_closed s -> o ∉ sc_released s ++ held (sc_objects s)) /\
  (sc_objects s = ∅ -> answered (sc_taken s) ≡ₚ sc_closed s ++ answered (sc_released s)).
Proof.
  assert (accounted empty_scope) as Hempty by (constructor; [apply map_Forall_empty|done|done]).
  destruct (run_accounted _ _ _ Hempty Hrun) as [_ Hu Hb]. split; [done|]. split; [done|]. split.
  - rewrite Hb. intros (Hc & Hd & _)%NoDup_app. split; [done|]. intros o Ho Hin. apply (Hd o Ho).
    apply elem_of_app. apply elem_of_app in Hin as [Hin|Hin]; [left|by right].
    rewrite Forall_forall in Hu. apply list_elem_of_In, filter_In. rewrite <- list_elem_of_In. auto.
  - intros He. rewrite Hb, He. unfold held. rewrite map_to_list_empty. cbn. by rewrite app_nil_r.
Qed.

Definition example_scope : list Op :=
  [ Construct "file" UniqueHandle 5; Construct "missing" UniqueHandle INVALID_HANDLE_VALUE;
    Construct "module" UniqueModule 6; MoveAssign "missing" "file"; MoveAssign "missing" "missing";
    Reset "missing" 5; Reset "missing" 7; MoveConstruct "kept" "missing"; Release "module";
    Destroy "kept"; Destroy "missing"; Destroy "file"; Destroy "module" ].

Lemma owners_balance_witness :
  exists s, run empty_scope example_scope = Some s /\
    sc_closed s = [(UniqueHandle, 7); (UniqueHandle, 5)] /\ sc_released s = [(UniqueModule, 6)] /\
    answered (sc_taken s) ≡ₚ sc_closed s ++ answered (sc_released s) ++ held (sc_objects s).
Proof.
  exists (default empty_scope (run empty_scope example_scope)).
  assert (run empty_scope example_scope = Some (default empty_scope (run empty_scope example_scope))) as Hrun
    by (by vm_compute).
  split; [exact Hrun|]. split; [by vm_compute|]. split; [by vm_compute|].
  exact (proj1 (owners_balance example_scope _ Hrun)).
Defined.

(** ** Owners and apartments of a function *)

Section Local.
  Context {W A : Type} (close : handle -> W -> W).

(** [UniqueCloser<...> owner(acquire());] at the start of a block. *)
Definition unique (k : OwnerKind) (acquire : ST W handle) (body : handle -> ST W A) : ST W A :=
  h ← acquire;
  let cell := Normalize k h in
  a ← body cell;
  st_modify (fun w => fold_left (fun w h => close h w) (reset k cell 0).2 w);;
  mret a.

(** The block closes exactly what it acquired. *)
Lemma unique_closes k acquire body w :
  unique k acquire body w =
  let '(h, w) := acquire w in
  let '(a, w) := body (Normalize k h) w in
  (a, if Usable k h then close h w else w).
Proof.
  unfold unique. rewrite st_bind_unfold. destruct (acquire w) as [h w1]. cbn [fst snd].
  rewrite st_bind_unfold. destruct (body (Normalize k h) w1) as [a w2]. cbn.
  unfold Normalize. destruct (Usable k h) eqn:Eu; unfold reset, Normalize; rewrite ?usable_null.
  - destruct (Z.eqb_spec h 0) as [->|]; [by rewrite usable_null in Eu|]. by rewrite Eu.
  - done.
Qed.
End Local.

Definition RPC_E_CHANGED_MODE : Z := i32 0x80010106.

(** [UniqueComApartment::usable]. *)
Definition apartment_usable (hr : EspResult) : bool := Succeeded hr || (hr =? RPC_E_CHANGED_MODE).

(** A block with a [UniqueComApartment] of its own. *)
Definition in_apartment {W A} (CoInitializeEx : ST W EspResult) (CoUninitialize : W -> W)
    (body : bool -> ST W A) : ST W A :=
  hr ← CoInitializeEx;
  a ← body (apartment_usable hr);
  (if Succeeded hr then st_modify CoUninitialize else mret tt);;
  mret a.
