(* ===== verification/Events.v ===== *)
(** Event types, the driver capability tables and the action selectors:
    src/esptool/src/esp/EspEventIds.h, the predicates of EspEnforceCompat.h and
    EspEventConfigAbi.h, and the selector functions of EspRuleAbi.h. *)
From S2P Require Import Prelude Text Core.

(** ** Event identifiers *)

Definition kEventThreadCreate : Z := 1.
Definition kEventThreadStart : Z := 2.
Definition kEventThreadTerminate : Z := 3.
Definition kEventProcessCreate : Z := 1000.
Definition kEventProcessTerminate : Z := 1001.
Definition kEventProcessLoadImage : Z := 1002.
Definition kEventFoCreate : Z := 2000.
Definition kEventFoOpen : Z := 2001.
Definition kEventFoRead : Z := 2002.
Definition kEventFoWrite : Z := 2003.
Definition kEventFoCleanup : Z := 2004.
Definition kEventFsMin : Z := 3000.
Definition kEventFsQueryOpen : Z := 3007.
Definition kEventFsLockFile : Z := 3008.
Definition kEventFsMax : Z := 3011.
Definition kEventVolumeMin : Z := 4000.
Definition kEventVolumeMax : Z := 4002.
Definition kEventVolumeMount : Z := kEventVolumeMin.
Definition kEventVolumeDismount : Z := 4001.
Definition kEventVolumeFsctl : Z := kEventVolumeMax.
Definition kEventPipeCreate : Z := 5000.
Definition kEventMailslotCreate : Z := 6000.
Definition kEventRegCreateKey : Z := 7000.
Definition kEventRegMax : Z := 7014.
Definition kEventObCreateHandle : Z := 8000.
Definition kEventObDuplicateHandle : Z := 8001.
Definition kEventBootLoadDriver : Z := 9000.

Definition kSparseEventRanges : list (Z * Z) :=
  [ (kEventThreadCreate, kEventThreadTerminate);
    (kEventProcessCreate, kEventProcessLoadImage);
    (kEventFoCreate, kEventFoCleanup);
    (kEventFsMin, kEventFsMax);
    (kEventVolumeMin, kEventVolumeMax);
    (kEventPipeCreate, kEventPipeCreate);
    (kEventMailslotCreate, kEventMailslotCreate);
    (kEventRegCreateKey, kEventRegMax);
    (kEventObCreateHandle, kEventObDuplicateHandle);
    (kEventBootLoadDriver, kEventBootLoadDriver) ].

Definition IsSparseEventType (event_type : Z) : bool :=
  existsb (fun range => (range.1 <=? event_type) && (event_type <=? range.2))
          kSparseEventRanges.

Definition IsRegistryEventType (event_type : Z) : bool :=
  (kEventRegCreateKey <=? event_type) && (event_type <=? kEventRegMax).

Definition IsFoIoEvent (event_type : Z) : bool :=
  (kEventFoCreate <=? event_type) && (event_type <=? kEventFoCleanup).

Definition IsPipeEventType (event_type : Z) : bool :=
  (event_type =? kEventFoOpen) || (event_type =? kEventPipeCreate).

Definition NeedsTypedIoConfig (event_type : Z) : bool :=
  IsFoIoEvent event_type || (event_type =? kEventPipeCreate).

Definition IsThreadEventType (event_type : Z) : bool :=
  (kEventThreadCreate <=? event_type) && (event_type <=? kEventThreadTerminate).

(** ** Driver capabilities *)

Definition kDriverEnforceCapableBit : Z := 0x02.

Definition DriverEventCapabilityMask (event_type : Z) : Z :=
  if (event_type =? kEventProcessCreate) || (event_type =? kEventFoOpen) then 0x03
  else if (event_type =? kEventFoCreate) || (event_type =? kEventRegCreateKey)
       || (event_type =? kEventRegCreateKey + 1) then 0x1B
  else if (event_type =? kEventFoRead) || (event_type =? kEventFoWrite)
       || ((kEventFsMin <=? event_type) && (event_type <=? kEventFsLockFile)
           && negb (event_type =? kEventFsQueryOpen))
       || (event_type =? kEventVolumeMount) || (event_type =? kEventVolumeFsctl)
       || (event_type =? kEventPipeCreate) || (event_type =? kEventMailslotCreate)
       || ((kEventRegCreateKey + 2 <=? event_type) && (event_type <=? kEventRegMax))
       then 0x0B
  else if (event_type =? kEventFoCleanup) || (event_type =? kEventFsLockFile + 1) then 0x09
  else if (event_type =? kEventFsQueryOpen) || (event_type =? kEventObCreateHandle)
       || (event_type =? kEventObDuplicateHandle) then 0x19
  else if event_type =? kEventBootLoadDriver then 0x07
  else 0.

Definition IsDriverEnforceCapable (event_type : Z) : bool :=
  negb (Z.land (DriverEventCapabilityMask event_type) kDriverEnforceCapableBit =? 0).

Definition IsDispositionWritingCallback (event_type : Z) : bool :=
  if event_type =? kEventProcessCreate then true
  else if (kEventFoOpen <=? event_type) && (event_type <=? kEventFoWrite) then true
  else if (kEventFsMin <=? event_type) && (event_type <=? kEventFsLockFile)
       && negb (event_type =? kEventFsQueryOpen) then true
  else if (event_type =? kEventVolumeMount) || (event_type =? kEventVolumeFsctl) then true
  else false.

Definition IsEnforceCompatEventType (event_type : Z) : bool :=
  IsDriverEnforceCapable event_type && IsDispositionWritingCallback event_type.

(** ** Configuration classes of EspEventConfigAbi.h *)

Definition NeedsProcessCreateConfig (event_type : Z) : bool :=
  event_type =? kEventProcessCreate.
Definition NeedsProcessConfig (event_type : Z) : bool :=
  event_type =? kEventProcessTerminate.
Definition NeedsImageLoadConfig (event_type : Z) : bool :=
  event_type =? kEventProcessLoadImage.
Definition RestrictPipeTarget (event_type : Z) : bool := event_type =? kEventPipeCreate.

Definition kEventModifyKindFoCreate : Z := 3.
Definition kEventModifyAccessMaskBytes : Z := 16.

Definition EventModifyKindForEvent (event_type : Z) : Z :=
  if event_type =? kEventFoCreate then kEventModifyKindFoCreate
  else if event_type =? kEventObCreateHandle then 1
  else if event_type =? kEventObDuplicateHandle then 2
  else if event_type =? kEventFsQueryOpen then 4
  else 0.

Definition SupportsEnforcePayload (event_type : Z) : bool :=
  (event_type =? kEventFoCreate) || IsEnforceCompatEventType event_type.

Definition EnforceModifyKindForEvent (event_type : Z) : Z :=
  if SupportsEnforcePayload event_type then kEventModifyKindFoCreate
  else EventModifyKindForEvent event_type.

(** ** Action selectors *)

Definition kActionQueueBacked : Z := 1.
Definition kActionNotifySuppress : Z := 4.
Definition kActionRewrite : Z := 5.
Definition kActionDeny : Z := kActionRewrite.
Definition kActionCancel : Z := 6.
Definition kActionMatchSubrules : Z := 7.
Definition kLifetimeTransientFfi : Z := 1.
Definition kLifetimePersistFfi : Z := 3.
Definition kRewriteAccessMask : Z := 0x120089.
Definition kRuleUpdateOperationAdd : Z := 1.

Definition ActionSelectorForName (action_name : string) (fallback : Z) : Z :=
  if (action_name =? "deny")%string then kActionDeny
  else if (action_name =? "suppress")%string then kActionNotifySuppress
  else fallback.

Definition ActionNeedsQueue (action : Z) : bool :=
  (if negb (action =? 0) then u32 action else kActionQueueBacked) =? kActionQueueBacked.

Definition ActionNeedsQueueFor (action : Z) (action_name : string) : bool :=
  let raw := if negb (action =? 0) then u32 action else kActionQueueBacked in
  ActionSelectorForName action_name raw =? kActionQueueBacked.

Definition ResolvedActionNeedsQueue (action : Z) (action_name : string)
    (selector_override : option Z) : bool :=
  let raw := if negb (action =? 0) then u32 action else kActionQueueBacked in
  default (ActionSelectorForName action_name raw) selector_override =? kActionQueueBacked.

(** * Theorems *)

(** The event types whose enforcing descriptor needs the client patch. *)
Definition compat_event_types : list Z :=
  [1000; 2001; 2002; 2003; 3000; 3001; 3002; 3003; 3004; 3005; 3006; 3008; 4000; 4002].

Ltac unfold_events :=
  unfold kEventThreadCreate, kEventThreadStart, kEventThreadTerminate, kEventVolumeMount,
    kEventVolumeFsctl, kEventProcessCreate, kEventProcessTerminate, kEventProcessLoadImage,
    kEventFoCreate, kEventFoOpen, kEventFoRead, kEventFoWrite, kEventFoCleanup, kEventFsMin,
    kEventFsQueryOpen, kEventFsLockFile, kEventFsMax, kEventVolumeMin, kEventVolumeMax,
    kEventVolumeDismount, kEventPipeCreate, kEventMailslotCreate, kEventRegCreateKey,
    kEventRegMax, kEventObCreateHandle, kEventObDuplicateHandle, kEventBootLoadDriver in *.

Lemma IsDispositionWritingCallback_types t :
  IsDispositionWritingCallback t = true <-> t ∈ compat_event_types.
Proof.
  unfold IsDispositionWritingCallback, compat_event_types. unfold_events. split.
  - intros H. repeat case_if_in H; boolp; try done; rewrite !elem_of_cons; try lia.
  - rewrite !elem_of_cons. intros H.
    repeat (destruct H as [->|H]; [reflexivity|]). by apply not_elem_of_nil in H.
Qed.

Lemma IsEnforceCompatEventType_types t :
  IsEnforceCompatEventType t = true <-> t ∈ compat_event_types.
Proof.
  unfold IsEnforceCompatEventType. rewrite andb_true_iff, IsDispositionWritingCallback_types.
  split; [tauto|]. intros H. split; [|done]. revert t H. apply Forall_forall.
  repeat constructor.
Qed.

(** The enforcing action is supported for FoCreate and for exactly the
    fourteen event types documented as driver-ready; every one of them is
    written with the FoCreate modify kind. *)
Lemma SupportsEnforcePayload_types t :
  (SupportsEnforcePayload t = true <-> t = kEventFoCreate \/ t ∈ compat_event_types) /\
  (SupportsEnforcePayload t = true -> EnforceModifyKindForEvent t = kEventModifyKindFoCreate).
Proof.
  split.
  - unfold SupportsEnforcePayload.
    by rewrite orb_true_iff, IsEnforceCompatEventType_types, Z.eqb_eq.
  - unfold EnforceModifyKindForEvent. by intros ->.
Qed.

Lemma compat_not_FoCreate : IsEnforceCompatEventType kEventFoCreate = false.
Proof. reflexivity. Qed.

Lemma compat_nonzero t : IsEnforceCompatEventType t = true -> t <> 0.
Proof. by intros H ->. Qed.

(** A rule needs the session queue exactly when the selector that is
    installed is the queue-backed one; an override decides alone, a named deny or
    suppress never needs the queue. *)
Lemma ResolvedActionNeedsQueue_cases action name override :
  ResolvedActionNeedsQueue action name override =
  match override with
  | Some s => s =? kActionQueueBacked
  | None => negb (contains name ["deny"; "suppress"])
            && ((action =? 0) || (u32 action =? kActionQueueBacked))
  end.
Proof.
  unfold ResolvedActionNeedsQueue, ActionSelectorForName. destruct override; [done|].
  simpl. destruct (String.eqb_spec name "deny") as [->|Hd]; [reflexivity|].
  destruct (String.eqb_spec name "suppress") as [->|Hs]; [reflexivity|].
  replace (contains name ["deny"; "suppress"]) with false.
  - destruct (action =? 0); reflexivity.
  - symmetry. apply bool_decide_eq_false. set_solver.
Qed.

(** Without an override the two queue predicates agree. *)
Lemma ActionNeedsQueueFor_resolved action name :
  ActionNeedsQueueFor action name = ResolvedActionNeedsQueue action name None.
Proof. done. Qed.
