(* ===== verification/RuleModel.v ===== *)
(** The rule document (src/esptool/src/model/RuleDocument.h), the filter
    constants and payload table (esp/EspFilterAbi.h), the leaf searches
    (esp/EspFilterAttach.h) and the query kinds (esp/EspRefAbi.h). *)
From S2P Require Import Prelude Text Core Events.

(** ** Data *)

Inductive RuleLifetime := Transient | Persistent.

Inductive FilterKind := Leaf | And | Or | Xor | Not.

#[export] Instance FilterKind_eq_dec : EqDecision FilterKind.
Proof. solve_decision. Defined.
#[export] Instance RuleLifetime_eq_dec : EqDecision RuleLifetime.
Proof. solve_decision. Defined.

Inductive FilterNode := mkFilterNode {
  fn_kind : FilterKind;
  fn_type : Z;
  fn_comparand : Z;
  fn_operand : Z;
  fn_propertyId : Z;
  fn_propertyName : string;
  fn_opName : string;
  fn_value : string;
  fn_collectionName : string;
  fn_children : list FilterNode
}.

Definition empty_filter : FilterNode := mkFilterNode Leaf 0 0 0 0 "" "" "" "" [].

Record QueryRecipe := mkQueryRecipe {
  qr_kind : string;
  qr_properties : list Z;
  qr_context_set : bool;
  qr_context_enum : bool
}.

Record CollectionSpec := mkCollectionSpec {
  cs_name : string;
  cs_type : Z;
  cs_open : bool;
  cs_guid : Guid;
  cs_hasGuid : bool;
  cs_entries : list string
}.

Record RuleSpec := mkRuleSpec {
  rs_name : string;
  rs_eventType : Z;
  rs_eventName : string;
  rs_lifetime : RuleLifetime;
  rs_flags : Z;
  rs_action : Z;
  rs_actionName : string;
  rs_selector_override : option Z;
  rs_modifier_override : option Z;
  rs_modify_kind_override : option Z;
  rs_filter : FilterNode;
  rs_queries : list QueryRecipe
}.

Record ClientSpec := mkClientSpec {
  cl_name : string;
  cl_altitude : string;
  cl_guid : Guid;
  cl_hasGuid : bool
}.

Record RuleDocument := mkRuleDocument {
  doc_client : ClientSpec;
  doc_rules : list RuleSpec;
  doc_collections : list CollectionSpec;
  doc_sourcePath : string
}.

Definition empty_collection : CollectionSpec := mkCollectionSpec "" 2 false null_guid false [].
Definition empty_rule : RuleSpec :=
  mkRuleSpec "" 0 "" Transient 0 0 "" None None None empty_filter [].
Definition empty_client : ClientSpec :=
  mkClientSpec kDefaultClientName kDefaultClientAltitude null_guid false.
Definition empty_document : RuleDocument := mkRuleDocument empty_client [] [] "".
Definition empty_recipe : QueryRecipe := mkQueryRecipe "" [] false false.

(** ** Filter constructors *)

Definition kFilterCtorClient : Z := 1.
Definition kFilterCtorDesktop : Z := 2.
Definition kFilterCtorDisk : Z := 3.
Definition kFilterCtorEvent : Z := 4.
Definition kFilterCtorFile : Z := 5.
Definition kFilterCtorFileObject : Z := 6.
Definition kFilterCtorFileStream : Z := 7.
Definition kFilterCtorRegistryKey : Z := 8.
Definition kFilterCtorRegistryKeyObject : Z := 9.
Definition kFilterCtorProcess : Z := 10.
Definition kFilterCtorThread : Z := 11.
Definition kFilterCtorToken : Z := 12.
Definition kFilterCtorVolume : Z := 13.
Definition kFilterCtorPipe : Z := 14.
Definition kFilterCtorMailslot : Z := 15.
Definition kFilterCtorKtm : Z := 16.

Definition kRuleEventFilterOffset : nat := 40.
Definition kRuleProcessFilterOffset : nat := 688.
Definition kFileObjectStringPropertyMin : Z := 1.
Definition kFileObjectStringPropertyMax : Z := 10.
Definition kFileObjectNumericProperty18 : Z := 18.
Definition kFileObjectNumericProperty28 : Z := 28.
Definition kStringComparandMin : Z := 1.
Definition kStringComparandMax : Z := 3.
Definition kStringComparandCollection : Z := 4.
Definition kNumericOperatorMin : Z := 1.
Definition kNumericOperatorMax : Z := 11.
Definition kMaxUtf16Bytes : Z := 65535.
Definition kStringPayloadSizeClass : Z := 4.
Definition kFilePathPayloadSizeClass : Z := 5.
Definition kNumericPayloadSizeClass : Z := 3.
Definition kBoolPayloadSizeClass : Z := 2.

Inductive LeafPayloadKind := PayloadNone | PayloadString | PayloadNumeric | PayloadBool.

#[export] Instance LeafPayloadKind_eq_dec : EqDecision LeafPayloadKind.
Proof. solve_decision. Defined.

Definition PropertyCeiling (constructor : Z) : Z :=
  let ctor_is c := constructor =? c in
  if ctor_is kFilterCtorClient || ctor_is kFilterCtorDesktop then 1
  else if ctor_is kFilterCtorRegistryKeyObject || ctor_is kFilterCtorPipe || ctor_is kFilterCtorMailslot then 2
  else if ctor_is kFilterCtorEvent || ctor_is kFilterCtorKtm then 3
  else if ctor_is kFilterCtorFileStream || ctor_is kFilterCtorRegistryKey then 4
  else if ctor_is kFilterCtorThread then 11
  else if ctor_is kFilterCtorToken then 12
  else if ctor_is kFilterCtorDisk then 13
  else if ctor_is kFilterCtorVolume then 16
  else if ctor_is kFilterCtorFile then 18
  else if ctor_is kFilterCtorProcess then 23
  else if ctor_is kFilterCtorFileObject then 28
  else 0.

Definition LeafPayload (constructor property : Z) : LeafPayloadKind :=
  let ctor_is c := constructor =? c in
  if (property =? 0) || (PropertyCeiling constructor <? property) then PayloadNone
  else if ctor_is kFilterCtorClient && (property =? 1) then PayloadBool
  else if ctor_is kFilterCtorEvent && (property =? 1) then PayloadBool
  else if ctor_is kFilterCtorEvent && (property =? 2) then PayloadNumeric
  else if ctor_is kFilterCtorFile && (property =? 17) then PayloadString
  else if ctor_is kFilterCtorFile && (property =? 2) then PayloadNumeric
  else if ctor_is kFilterCtorFileObject && (kFileObjectStringPropertyMin <=? property)
          && (property <=? kFileObjectStringPropertyMax) then PayloadString
  else if ctor_is kFilterCtorFileObject && ((property =? kFileObjectNumericProperty18)
          || (property =? kFileObjectNumericProperty28)) then PayloadNumeric
  else if ctor_is kFilterCtorFileStream && (property =? 1) then PayloadString
  else if ctor_is kFilterCtorRegistryKey && ((property =? 1) || (property =? 2)) then PayloadString
  else if ctor_is kFilterCtorRegistryKeyObject && (property =? 1) then PayloadBool
  else if ctor_is kFilterCtorRegistryKeyObject && (property =? 2) then PayloadNumeric
  else if ctor_is kFilterCtorProcess && (property =? 1) then PayloadString
  else if ctor_is kFilterCtorThread && (property =? 1) then PayloadNumeric
  else if ctor_is kFilterCtorToken && (property =? 3) then PayloadNumeric
  else if (ctor_is kFilterCtorDesktop || ctor_is kFilterCtorDisk || ctor_is kFilterCtorVolume
           || ctor_is kFilterCtorPipe || ctor_is kFilterCtorMailslot) && (property =? 1)
       then PayloadString
  else if ctor_is kFilterCtorKtm && (property =? 2) then PayloadNumeric
  else PayloadNone.

Definition IsObservedStringProperty (constructor property : Z) : bool :=
  bool_decide (LeafPayload constructor property = PayloadString).
Definition IsObservedNumericProperty (constructor property : Z) : bool :=
  bool_decide (LeafPayload constructor property = PayloadNumeric).
Definition IsObservedBoolProperty (constructor property : Z) : bool :=
  bool_decide (LeafPayload constructor property = PayloadBool).

(** ** Leaf searches of EspFilterAttach.h *)

Fixpoint HasCtorLeaf (node : FilterNode) (ctor : Z) : bool :=
  match fn_kind node with
  | Leaf => fn_type node =? ctor
  | _ => existsb (fun child => HasCtorLeaf child ctor) (fn_children node)
  end.

Definition HasRegistryKeyLeaf (node : FilterNode) : bool := HasCtorLeaf node kFilterCtorRegistryKey.
Definition HasFileObjectLeaf (node : FilterNode) : bool := HasCtorLeaf node kFilterCtorFileObject.
Definition HasProcessLeaf (node : FilterNode) : bool := HasCtorLeaf node kFilterCtorProcess.

Definition FilterDescriptorOffsetForCtor (ctor : Z) : nat :=
  if ctor =? kFilterCtorProcess then kRuleProcessFilterOffset
  else if ctor =? kFilterCtorEvent then kRuleEventFilterOffset
  else 0.

(** The loop over the children returns the first non-zero offset. *)
Fixpoint first_nonzero (offsets : list nat) : nat :=
  match offsets with
  | [] => 0%nat
  | offset :: rest => if negb (offset =? 0)%nat then offset else first_nonzero rest
  end.

Fixpoint FilterRuleOffset (node : FilterNode) : nat :=
  match fn_kind node with
  | Leaf => FilterDescriptorOffsetForCtor (fn_type node)
  | _ => first_nonzero (map FilterRuleOffset (fn_children node))
  end.

(** ** Query kinds of EspRefAbi.h *)

Definition CanonicalQueryKind (kind : string) : string :=
  if (kind =? "process-token")%string || (kind =? "thread-token")%string then "token"
  else if (kind =? "stream")%string then "filestream"
  else kind.

Definition KindHasReferenceCreate (kind : string) : bool :=
  contains kind ["process"; "thread"; "process-token"; "thread-token"; "token"; "file";
                 "fileobject"; "stream"; "filestream"; "registry"; "volume"; "disk";
                 "desktop"; "pipe"; "mailslot"; "event"].

Definition query_exports : list (string * string) :=
  [ ("client", "EspQueryClientProperties");
    ("desktop", "EspQueryDesktopProperties");
    ("disk", "EspQueryDiskProperties");
    ("fileobject", "EspQueryFileObjectProperties");
    ("file", "EspQueryFileProperties");
    ("filestream", "EspQueryFileStreamProperties");
    ("ktm", "EspQueryKtmTransactionProperties");
    ("mailslot", "EspQueryMailslotProperties");
    ("pipe", "EspQueryPipeProperties");
    ("process", "EspQueryProcessProperties");
    ("registry-key-object", "EspQueryRegistryKeyObjectProperties");
    ("registry", "EspQueryRegistryKeyProperties");
    ("thread", "EspQueryThreadProperties");
    ("token", "EspQueryTokenProperties");
    ("volume", "EspQueryVolumeProperties") ].

Definition support_exports : list (string * string) :=
  [ ("client", "EspIsClientPropertySupported");
    ("desktop", "EspIsDesktopPropertySupported");
    ("disk", "EspIsDiskPropertySupported");
    ("event", "EspIsEventPropertySupported");
    ("fileobject", "EspIsFileObjectPropertySupported");
    ("file", "EspIsFilePropertySupported");
    ("filestream", "EspIsFileStreamPropertySupported");
    ("ktm", "EspIsKtmTransactionPropertySupported");
    ("mailslot", "EspIsMailslotPropertySupported");
    ("pipe", "EspIsPipePropertySupported");
    ("process", "EspIsProcessPropertySupported");
    ("registry-key-object", "EspIsRegistryKeyObjectPropertySupported");
    ("registry", "EspIsRegistryKeyPropertySupported");
    ("thread", "EspIsThreadPropertySupported");
    ("token", "EspIsTokenPropertySupported");
    ("volume", "EspIsVolumePropertySupported") ].

Definition export_for (table : list (string * string)) (kind : string) : option string :=
  snd <$> find_first (fun entry => (kind =? entry.1)%string) table.

Definition QueryExportForKind (kind : string) : option string :=
  export_for query_exports (CanonicalQueryKind kind).
Definition SupportExportForKind (kind : string) : option string :=
  export_for support_exports (CanonicalQueryKind kind).

(** * Theorems *)

(** Induction over predicate trees, with the children of every node. *)
Lemma FilterNode_tree_ind (P : FilterNode -> Prop) :
  (forall k t c o p pn op v cn children,
     Forall P children -> P (mkFilterNode k t c o p pn op v cn children)) ->
  forall node, P node.
Proof.
  intros Hnode. fix IH 1. intros [k t c o p pn op v cn children]. apply Hnode.
  induction children as [|x xs IHxs]; constructor; [apply IH|apply IHxs].
Qed.

(** The leaves of a tree, combinator fields ignored. *)
Fixpoint leaves (node : FilterNode) : list FilterNode :=
  match fn_kind node with
  | Leaf => [node]
  | _ => flat_map leaves (fn_children node)
  end.

(** HasCtorLeaf looks at every leaf of the tree and at nothing else. *)
Lemma HasCtorLeaf_leaves node ctor :
  HasCtorLeaf node ctor = true <-> exists leaf, leaf ∈ leaves node /\ fn_type leaf = ctor.
Proof.
  induction node as [k t c o p pn op v cn children IH] using FilterNode_tree_ind.
  destruct (decide (k = Leaf)) as [->|Hk].
  - simpl. rewrite Z.eqb_eq. set_solver.
  - transitivity (existsb (fun child => HasCtorLeaf child ctor) children = true).
    { by destruct k. }
    transitivity (exists leaf, leaf ∈ flat_map leaves children /\ fn_type leaf = ctor).
    2:{ by destruct k. }
    induction IH as [|x xs Hx Hxs IHxs]; simpl; [set_solver|].
    rewrite orb_true_iff, Hx, IHxs. set_solver.
Qed.

Lemma first_nonzero_app l1 l2 :
  first_nonzero (l1 ++ l2) =
  if negb (first_nonzero l1 =? 0)%nat then first_nonzero l1 else first_nonzero l2.
Proof.
  induction l1 as [|o l1 IH]; [done|]. simpl.
  destruct (Nat.eqb_spec o 0) as [->|Ho]; simpl; [exact IH|].
  by rewrite (proj2 (Nat.eqb_neq _ _) Ho).
Qed.

(** FilterRuleOffset is the descriptor slot of the first leaf, in document
    order, whose constructor has one; trees without a process or event leaf have
    none. *)
Lemma FilterRuleOffset_first node :
  FilterRuleOffset node =
  first_nonzero ((fun leaf => FilterDescriptorOffsetForCtor (fn_type leaf)) <$> leaves node).
Proof.
  induction node as [k t c o p pn op v cn children IH] using FilterNode_tree_ind.
  assert (first_nonzero (map FilterRuleOffset children) =
    first_nonzero ((fun leaf => FilterDescriptorOffsetForCtor (fn_type leaf)) <$>
      flat_map leaves children)) as Hchildren.
  { induction IH as [|x xs Hx Hxs IHxs]; [done|].
    simpl. by rewrite fmap_app, first_nonzero_app, <- Hx, IHxs. }
  destruct k; [|exact Hchildren..]. simpl.
  by destruct (FilterDescriptorOffsetForCtor t).
Qed.

Lemma first_nonzero_in l : first_nonzero l = 0%nat \/ first_nonzero l ∈ l.
Proof.
  induction l as [|o l IH]; simpl; [auto|]. destruct (o =? 0)%nat; simpl; set_solver.
Qed.

Lemma FilterDescriptorOffsetForCtor_values ctor :
  FilterDescriptorOffsetForCtor ctor ∈ [0; 40; 688]%nat.
Proof. unfold FilterDescriptorOffsetForCtor. repeat case_if; set_solver. Qed.

Lemma FilterRuleOffset_values node : FilterRuleOffset node ∈ [0; 40; 688]%nat.
Proof.
  rewrite FilterRuleOffset_first. destruct (first_nonzero_in
    ((fun leaf => FilterDescriptorOffsetForCtor (fn_type leaf)) <$> leaves node)) as [->|Hin];
    [set_solver|].
  apply list_elem_of_fmap in Hin as (leaf & -> & _). apply FilterDescriptorOffsetForCtor_values.
Qed.

Ltac unfold_ctors :=
  unfold kFilterCtorClient, kFilterCtorDesktop, kFilterCtorDisk, kFilterCtorEvent,
    kFilterCtorFile, kFilterCtorFileObject, kFilterCtorFileStream, kFilterCtorRegistryKey,
    kFilterCtorRegistryKeyObject, kFilterCtorProcess, kFilterCtorThread, kFilterCtorToken,
    kFilterCtorVolume, kFilterCtorPipe, kFilterCtorMailslot, kFilterCtorKtm in *.

Lemma PropertyCeiling_ctor constructor :
  0 < PropertyCeiling constructor -> 1 <= constructor <= 16.
Proof. unfold PropertyCeiling. unfold_ctors. intros Hp. repeat case_if_in Hp; lia. Qed.

(** A property outside the range of its constructor has no payload. *)
Lemma LeafPayload_ceiling constructor property :
  0 <= property -> LeafPayload constructor property <> PayloadNone ->
  1 <= property <= PropertyCeiling constructor /\ 1 <= constructor <= 16.
Proof.
  intros Hp H. unfold LeafPayload in H.
  destruct ((property =? 0) || (PropertyCeiling constructor <? property)) eqn:E; [done|].
  boolp. pose proof (PropertyCeiling_ctor constructor). lia.
Qed.
