(* ===== verification/RuleParser.v ===== *)
(** The XML rule parser, src/esptool/src/model/RuleParser.cpp.

    The XmlLite reader is not part of the repository: a document is the list of
    nodes its [Read] calls deliver, already in UTF-8, and the flag that says
    whether the last call returned [S_FALSE] (end of input) or a failure code.
    A parse that fails yields its message; the partly filled document of a
    failed outcome is not kept, since every caller tests [ok] first. *)
From S2P Require Import Prelude Text Core Handles Events RuleModel.

Definition kMaxDepth : nat := 16.
Definition kMaxRuleFileBytes : Z := 64 * 1024 * 1024.

(** ** Nodes of the reader *)

Inductive XmlNode :=
| XmlElement (name : option string) (attributes : list (option string * option string))
    (is_empty_element : bool) (line : Z)
| XmlEndElement (name : option string) (line : Z)
| XmlText (value : option string)
| XmlOther.

Definition MakeError (message : string) (line : Z) : string :=
  if line =? 0 then message else message +:+ " (line " +:+ dec line +:+ ")".

(** A word between double quotes (code 34). *)
Definition quoted (word : string) : string :=
  String "034" "" +:+ word +:+ String "034" "".

(** ** Attributes *)

Abbreviation attributes := (list (string * string)).

(** [AttributeReader::Collect]. *)
Definition Collect (raw : list (option string * option string)) : attributes :=
  omap (fun item => match item with
                    | (Some name, Some value) => Some (ToLowerAscii name, value)
                    | _ => None
                    end) raw.

Definition Find (items : attributes) (name : string) : option string :=
  snd <$> find_first (fun item => (item.1 =? name)%string) items.

Definition Get (items : attributes) (name fallback : string) : string :=
  default fallback (Find items name).

(** ** Numbers *)

Definition ParseSigned32 (text : string) : option Z :=
  match text with
  | EmptyString => None
  | String c body0 =>
      let negative := (c =? "-")%char in
      let body := if negative then body0 else text in
      parsed ← ParseUnsigned body;
      if (if negative then 2 ^ 31 <? parsed else 2 ^ 31 - 1 <? parsed) then None
      else Some (if negative then i32 (0 - parsed) else i32 parsed)
  end.

Definition ParseUnsigned32 (text : string) : option Z :=
  parsed ← ParseUnsigned text;
  if u32_max <? parsed then None else Some (u32 parsed).

Definition ParseUnsigned64 (text : string) : option Z := ParseUnsigned text.

(** ** Names *)

Definition kDocumentRoot : string := "esptool".

Definition EventTypeFromName (name : string) : Z :=
  if EqualsIgnoreCase name "processcreate" then kEventProcessCreate
  else if EqualsIgnoreCase name "filecreate" || EqualsIgnoreCase name "fo_create"
  then kEventFoCreate
  else if EqualsIgnoreCase name "regcreatekey" then kEventRegCreateKey
  else 0.

Definition FilterKindFromTag (name : string) : option FilterKind :=
  if (name =? "and")%string then Some And
  else if (name =? "or")%string then Some Or
  else if (name =? "xor")%string then Some Xor
  else if (name =? "not")%string then Some Not
  else None.

(** An attribute that, when present, must parse. *)
Definition parse_attr {A} (items : attributes) (name : string)
    (parse : string -> option A) (error : string) (line : Z) : result (option A) :=
  match Find items name with
  | None => Ok None
  | Some value =>
      match parse value with
      | None => Err (MakeError error line)
      | Some a => Ok (Some a)
      end
  end.

(** ** Element attributes *)

Definition ParseClient (items : attributes) (client : ClientSpec) (line : Z) : result ClientSpec :=
  let name := Get items "name" (cl_name client) in
  let altitude := Get items "altitude" (cl_altitude client) in
  let guid := Get items "guid" "" in
  if is_empty guid
  then Ok (mkClientSpec name altitude (cl_guid client) (cl_hasGuid client))
  else match ParseGuid guid with
       | None => Err (MakeError "client guid is not a valid GUID" line)
       | Some bytes => Ok (mkClientSpec name altitude bytes true)
       end.

Definition ParseDisposition (value : string) : option Z :=
  if EqualsIgnoreCase value "access_denied" || EqualsIgnoreCase value "denied"
     || EqualsIgnoreCase value "accessdenied" then Some 2
  else if EqualsIgnoreCase value "not_found" || EqualsIgnoreCase value "notfound" then Some 3
  else if EqualsIgnoreCase value "virus" || EqualsIgnoreCase value "virus_infected" then Some 1
  else disp ← ParseUnsigned32 value;
       if (disp <? 1) || (5 <? disp) then None else Some disp.

(** The numeric action and the named action of an [action] attribute. *)
Definition ParseAction (value : string) : option (Z * string) :=
  match ParseUnsigned64 value with
  | Some action => Some (action, "")
  | None => if (value =? "deny")%string || (value =? "suppress")%string
            then Some (0, value) else None
  end.

Definition ParseLifetime (lifetime : string) (line : Z) : result RuleLifetime :=
  if is_empty lifetime then Ok Transient
  else if EqualsIgnoreCase lifetime "persistent" then Ok Persistent
  else if EqualsIgnoreCase lifetime "transient" then Ok Transient
  else Err (MakeError "rule lifetime must be persistent or transient" line).

Definition ParseRuleAttributes (items : attributes) (line : Z) : result RuleSpec :=
  let name := Get items "name" "" in
  let eventName := Get items "event" "" in
  eventType ← parse_attr items "eventtype" ParseUnsigned32 "rule eventType is not a number" line;
  let eventType :=
    match eventType with
    | Some t => t
    | None => if is_empty eventName then 0 else EventTypeFromName eventName
    end in
  lifetime ← ParseLifetime (Get items "lifetime" "") line;
  flags ← parse_attr items "flags" ParseUnsigned32 "rule flags is not a number" line;
  action ← parse_attr items "action" ParseAction
    "rule action is not a number or a known action name (deny, suppress)" line;
  let '(action, actionName) := default (0, "") action in
  selector ← parse_attr items "selector" ParseUnsigned32 "rule selector is not a number" line;
  modifier ← parse_attr items "modifier" ParseUnsigned32 "rule modifier is not a number" line;
  kind ← parse_attr items "modifykind" ParseUnsigned32 "rule modifyKind is not a number" line;
  disposition ← parse_attr items "disposition" ParseDisposition
    "rule disposition must be access_denied, not_found, virus, or a number 1..5" line;
  Ok (mkRuleSpec name eventType eventName lifetime (default 0 flags) action actionName
        selector modifier (match disposition with Some d => Some d | None => kind end)
        empty_filter []).

Definition ParseLeafAttributes (items : attributes) (line : Z) : result FilterNode :=
  type ← parse_attr items "type" ParseSigned32 "filter type is not a number" line;
  comparand ← parse_attr items "comparand" ParseSigned32 "filter comparand is not a number" line;
  operand ← parse_attr items "operand" ParseUnsigned64 "filter operand is not a number" line;
  property ← parse_attr items "property" ParseUnsigned32 "filter property is not a number" line;
  let collectionName := Get items "collection" "" in
  let comparand := default 0 comparand in
  let comparand := if negb (is_empty collectionName) && (comparand =? 0)
                   then kStringComparandCollection else comparand in
  Ok (mkFilterNode Leaf (default 0 type) comparand (default 0 operand) (default 0 property)
        (Get items "propertyname" "") (Get items "op" "") (Get items "value" "")
        collectionName []).

Fixpoint ParseCsvParts (parts : list string) (line : Z) : result (list Z) :=
  match parts with
  | [] => Ok []
  | part :: rest =>
      match ParseUnsigned (Trim part) with
      | None => Err (MakeError "query properties must be unsigned integers" line)
      | Some parsed =>
          if u32_max <? parsed
          then Err (MakeError "query properties must be unsigned integers" line)
          else out ← ParseCsvParts rest line; Ok (u32 parsed :: out)
      end
  end.

Definition ParseCsvUnsigned (text : string) (line : Z) : result (list Z) :=
  ParseCsvParts (Split text ",") line.

Definition SupportExportForKindMissing (kind : string) : bool :=
  match SupportExportForKind kind with None => true | Some _ => false end.

Definition ParseContextToken (flags : bool * bool) (line : Z) (part : string)
    : result (bool * bool) :=
  let token := Trim part in
  if (token =? "set")%string then Ok (true, flags.2)
  else if (token =? "enum")%string then Ok (flags.1, true)
  else if negb (is_empty token)
  then Err (MakeError "query context must be set, enum, or both" line)
  else Ok flags.

Definition ParseQueryAttributes (items : attributes) (line : Z) : result QueryRecipe :=
  let kind := ToLowerAscii (Get items "kind" "") in
  if is_empty kind then Err (MakeError "query kind is required" line)
  else if SupportExportForKindMissing kind
  then Err (MakeError "query kind is not recognized" line)
  else
    let properties := Get items "properties" "" in
    ids ← (if is_empty properties then Ok [] else ParseCsvUnsigned properties line);
    let context := ToLowerAscii (Get items "context" "") in
    flags ← foldM (fun flags part => ParseContextToken flags line part)
              (Split context ",") (false, false);
    Ok (mkQueryRecipe kind ids flags.1 flags.2).

Definition ParseCollectionType (text : string) (line : Z) : result Z :=
  if is_empty text || EqualsIgnoreCase text "string" || (text =? "2")%string then Ok 2
  else if EqualsIgnoreCase text "integer" || (text =? "1")%string then Ok 1
  else if EqualsIgnoreCase text "binary" || (text =? "3")%string then Ok 3
  else Err (MakeError "collection type must be integer, string, or binary" line).

Definition ParseCollectionAttributes (items : attributes) (line : Z) : result CollectionSpec :=
  let name := Get items "name" "" in
  type ← ParseCollectionType (Get items "type" "") line;
  let open := ToLowerAscii (Get items "open" "") in
  let opened := (open =? "true")%string || (open =? "1")%string in
  let guid := Get items "guid" "" in
  spec ← (if is_empty guid then Ok (mkCollectionSpec name type opened null_guid false [])
          else match ParseGuid guid with
               | None => Err (MakeError "collection guid is not a valid GUID" line)
               | Some bytes => Ok (mkCollectionSpec name type opened bytes true [])
               end);
  if cs_open spec && negb (cs_hasGuid spec)
  then Err (MakeError ("open=" +:+ quoted "true" +:+ " requires guid") line)
  else Ok spec.

(** ** Parser state *)

(** The locals of [DocumentParser::Parse]. [current_rule] and
    [current_collection] are pointers into the document's vectors, kept as
    indices; the back of [stack] is the head of the list. *)
Record ParserState := mkParserState {
  ps_client : ClientSpec;
  ps_rules : list RuleSpec;
  ps_collections : list CollectionSpec;
  ps_stack : list FilterNode;
  ps_roots : list FilterNode;
  ps_current_rule : option nat;
  ps_current_collection : option nat;
  ps_in_entry : bool;
  ps_entry_text : string;
  ps_saw_root : bool;
  ps_root_closed : bool
}.

Definition initial_state : ParserState :=
  mkParserState empty_client [] [] [] [] None None false "" false false.

Definition set_client c s := mkParserState c (ps_rules s) (ps_collections s) (ps_stack s)
  (ps_roots s) (ps_current_rule s) (ps_current_collection s) (ps_in_entry s)
  (ps_entry_text s) (ps_saw_root s) (ps_root_closed s).
Definition set_rules rules current s := mkParserState (ps_client s) rules (ps_collections s)
  (ps_stack s) (ps_roots s) current (ps_current_collection s) (ps_in_entry s)
  (ps_entry_text s) (ps_saw_root s) (ps_root_closed s).
Definition set_collections collections current s := mkParserState (ps_client s) (ps_rules s)
  collections (ps_stack s) (ps_roots s) (ps_current_rule s) current (ps_in_entry s)
  (ps_entry_text s) (ps_saw_root s) (ps_root_closed s).
Definition set_forest stack roots s := mkParserState (ps_client s) (ps_rules s)
  (ps_collections s) stack roots (ps_current_rule s) (ps_current_collection s)
  (ps_in_entry s) (ps_entry_text s) (ps_saw_root s) (ps_root_closed s).
Definition set_entry in_entry text s := mkParserState (ps_client s) (ps_rules s)
  (ps_collections s) (ps_stack s) (ps_roots s) (ps_current_rule s)
  (ps_current_collection s) in_entry text (ps_saw_root s) (ps_root_closed s).
Definition set_root saw closed s := mkParserState (ps_client s) (ps_rules s)
  (ps_collections s) (ps_stack s) (ps_roots s) (ps_current_rule s)
  (ps_current_collection s) (ps_in_entry s) (ps_entry_text s) saw closed.

Definition add_child (node child : FilterNode) : FilterNode :=
  mkFilterNode (fn_kind node) (fn_type node) (fn_comparand node) (fn_operand node)
    (fn_propertyId node) (fn_propertyName node) (fn_opName node) (fn_value node)
    (fn_collectionName node) (fn_children node ++ [child]).

Definition combinator (kind : FilterKind) (children : list FilterNode) : FilterNode :=
  mkFilterNode kind 0 0 0 0 "" "" "" "" children.

(** [Append]: to the children of the innermost open combinator, else to the roots. *)
Definition Append (node : FilterNode) (s : ParserState) : ParserState :=
  match ps_stack s with
  | [] => set_forest [] (ps_roots s ++ [node]) s
  | top :: rest => set_forest (add_child top node :: rest) (ps_roots s) s
  end.

Definition FinalFilter (roots : list FilterNode) : FilterNode :=
  match roots with
  | [] => empty_filter
  | [root] => root
  | _ => combinator And roots
  end.

Definition set_rule_filter (filter : FilterNode) (r : RuleSpec) : RuleSpec :=
  mkRuleSpec (rs_name r) (rs_eventType r) (rs_eventName r) (rs_lifetime r) (rs_flags r)
    (rs_action r) (rs_actionName r) (rs_selector_override r) (rs_modifier_override r)
    (rs_modify_kind_override r) filter (rs_queries r).

Definition add_rule_query (q : QueryRecipe) (r : RuleSpec) : RuleSpec :=
  mkRuleSpec (rs_name r) (rs_eventType r) (rs_eventName r) (rs_lifetime r) (rs_flags r)
    (rs_action r) (rs_actionName r) (rs_selector_override r) (rs_modifier_override r)
    (rs_modify_kind_override r) (rs_filter r) (rs_queries r ++ [q]).

Definition add_entry (entry : string) (c : CollectionSpec) : CollectionSpec :=
  mkCollectionSpec (cs_name c) (cs_type c) (cs_open c) (cs_guid c) (cs_hasGuid c)
    (cs_entries c ++ [entry]).

(** [FinalizeRule] on the current rule, and the reset of the pointer. *)
Definition FinalizeRule (i : nat) (s : ParserState) : ParserState :=
  set_rules (alter (set_rule_filter (FinalFilter (ps_roots s))) i (ps_rules s)) None s.

(** ** Element handlers *)

Definition OnClient (items : attributes) (line : Z) (s : ParserState) : result ParserState :=
  client ← ParseClient items (ps_client s) line; Ok (set_client client s).

Definition OnRule (items : attributes) (empty : bool) (line : Z) (s : ParserState)
    : result ParserState :=
  match ps_current_rule s with
  | Some _ => Err (MakeError "<rule> cannot be nested" line)
  | None =>
      rule ← ParseRuleAttributes items line;
      let i := length (ps_rules s) in
      let s := set_forest [] [] (set_rules (ps_rules s ++ [rule]) (Some i) s) in
      Ok (if empty then FinalizeRule i s else s)
  end.

Definition OnCollections (line : Z) (s : ParserState) : result ParserState :=
  match ps_current_rule s with
  | Some _ => Err (MakeError "<collections> cannot appear inside <rule>" line)
  | None => Ok s
  end.

Definition OnCollection (items : attributes) (empty : bool) (line : Z) (s : ParserState)
    : result ParserState :=
  match ps_current_rule s with
  | Some _ => Err (MakeError "<collection> cannot appear inside <rule>" line)
  | None =>
      spec ← ParseCollectionAttributes items line;
      let i := length (ps_collections s) in
      Ok (set_collections (ps_collections s ++ [spec]) (if empty then None else Some i) s)
  end.

Definition OnEntry (empty : bool) (line : Z) (s : ParserState) : result ParserState :=
  match ps_current_collection s with
  | None => Err (MakeError "<entry> must appear inside <collection>" line)
  | Some i =>
      if empty
      then Ok (set_entry false ""
                 (set_collections (alter (add_entry "") i (ps_collections s)) (Some i) s))
      else Ok (set_entry true "" s)
  end.

Definition OnQuery (items : attributes) (line : Z) (s : ParserState) : result ParserState :=
  match ps_current_rule s with
  | None => Err (MakeError "<query> must appear inside <rule>" line)
  | Some i =>
      recipe ← ParseQueryAttributes items line;
      Ok (set_rules (alter (add_rule_query recipe) i (ps_rules s)) (Some i) s)
  end.

Definition OnFilter (items : attributes) (line : Z) (s : ParserState) : result ParserState :=
  match ps_current_rule s with
  | None => Err (MakeError "<filter> must appear inside <rule>" line)
  | Some _ => leaf ← ParseLeafAttributes items line; Ok (Append leaf s)
  end.

Definition push_node (node : FilterNode) (s : ParserState) : ParserState :=
  set_forest (node :: ps_stack s) (ps_roots s) s.

(** Pops the innermost combinator and appends it one level up. *)
Definition pop_append (s : ParserState) : option ParserState :=
  match ps_stack s with
  | [] => None
  | top :: rest => Some (Append top (set_forest rest (ps_roots s) s))
  end.

Definition OnCombinator (kind : FilterKind) (name : string) (empty : bool) (line : Z)
    (s : ParserState) : result ParserState :=
  match ps_current_rule s with
  | None => Err (MakeError ("<" +:+ name +:+ "> must appear inside <rule>") line)
  | Some _ =>
      if (kMaxDepth <=? length (ps_stack s))%nat
      then Err (MakeError "filter nesting is too deep" line)
      else
        let s := push_node (combinator kind []) s in
        Ok (if empty then default s (pop_append s) else s)
  end.

(** One [XmlNodeType_Element] node. *)
Definition OnElement (name : string) (items : attributes) (empty : bool) (line : Z)
    (s : ParserState) : result ParserState :=
  if negb (ps_saw_root s) then
    if negb (name =? kDocumentRoot)%string
    then Err (MakeError "root element must be <esptool>" line)
    else Ok (set_root true (ps_root_closed s) s)
  else if (name =? "client")%string then OnClient items line s
  else if (name =? "rule")%string then OnRule items empty line s
  else if (name =? "collections")%string then OnCollections line s
  else if (name =? "collection")%string then OnCollection items empty line s
  else if (name =? "entry")%string then OnEntry empty line s
  else if (name =? "query")%string then OnQuery items line s
  else if (name =? "filter")%string then OnFilter items line s
  else match FilterKindFromTag name with
       | Some kind => OnCombinator kind name empty line s
       | None => Ok s
       end.

Definition OnEndElement (name : string) (line : Z) (s : ParserState) : result ParserState :=
  match FilterKindFromTag name with
  | Some _ =>
      match pop_append s with
      | None => Err (MakeError ("mismatched </" +:+ name +:+ ">") line)
      | Some s => Ok s
      end
  | None =>
      if (name =? "rule")%string then
        match ps_current_rule s with
        | None => Ok s
        | Some i => Ok (let s := FinalizeRule i s in set_forest (ps_stack s) [] s)
        end
      else if (name =? "entry")%string then
        Ok (set_entry false ""
              (match ps_current_collection s with
               | Some i =>
                   if ps_in_entry s
                   then set_collections (alter (add_entry (ps_entry_text s)) i
                          (ps_collections s)) (Some i) s
                   else s
               | None => s
               end))
      else if (name =? "collection")%string
      then Ok (set_collections (ps_collections s) None s)
      else if (name =? kDocumentRoot)%string then Ok (set_root (ps_saw_root s) true s)
      else Ok s
  end.

Definition OnText (value : option string) (s : ParserState) : ParserState :=
  match value with
  | Some v => if ps_in_entry s then set_entry true (ps_entry_text s +:+ v) s else s
  | None => s
  end.

(** One turn of the read loop. *)
Definition step (s : ParserState) (node : XmlNode) : result ParserState :=
  match node with
  | XmlElement (Some name) raw empty line =>
      OnElement (ToLowerAscii name) (Collect raw) empty line s
  | XmlEndElement (Some name) line => OnEndElement (ToLowerAscii name) line s
  | XmlText value => Ok (OnText value s)
  | _ => Ok s
  end.

(** The checks after the loop; [end_of_input] is [read_result == S_FALSE]. *)
Definition finish (s : ParserState) (end_of_input : bool) : result RuleDocument :=
  if negb (ps_saw_root s) then Err "the rule document is empty"
  else if negb end_of_input then Err "the XML document is not well formed"
  else if negb (ps_root_closed s) then Err "the <esptool> root element is not closed"
  else match ps_current_rule s with
       | Some _ => Err "unterminated <rule> element"
       | None => Ok (mkRuleDocument (ps_client s) (ps_rules s) (ps_collections s) "")
       end.

(** [DocumentParser::Parse], from the loop on. *)
Definition Parse (nodes : list XmlNode) (end_of_input : bool) : result RuleDocument :=
  s ← foldM step nodes initial_state;
  finish s end_of_input.

(** What becomes of a reader for a text: the stream, the reader or the input cannot be
    made, or it delivers nodes and then the end of the input or an error. *)
Inductive XmlReader :=
  | NoStream | NoReader | NotBound
  | Nodes (nodes : list XmlNode) (end_of_input : bool).

(** [DocumentParser::Parse]. *)
Definition ParseWith (reader : XmlReader) : result RuleDocument :=
  match reader with
  | NoStream => Err "could not create an input stream for the rule document"
  | NoReader => Err "could not create the XML reader"
  | NotBound => Err "could not bind the rule document to the XML reader"
  | Nodes nodes end_of_input => Parse nodes end_of_input
  end.

(** [DocumentParser::Run]; [apartment] is what CoInitializeEx answers. *)
Definition Run (XmlRead : string -> XmlReader) (apartment : EspResult) (text : string) : result RuleDocument :=
  if negb (apartment_usable apartment) then Err "COM initialization failed"
  else ParseWith (XmlRead text).

Definition ParseRuleText (XmlRead : string -> XmlReader) (apartment : EspResult) (text : string) : result RuleDocument :=
  Run XmlRead apartment text.

(** [ParseRuleFile], over the file system: the opened file is its size (0 when
    the size query fails) and the outcome of the read, or the error code of the
    open. *)
Definition ParseRuleFile (XmlRead : string -> XmlReader) (apartment : EspResult)
    (read_file : string -> Z + (Z * (Z + string))) (utf8Path : string) : result RuleDocument :=
  match read_file utf8Path with
  | inl error => Err (Win32Message "could not open the rule file" error)
  | inr (size, contents) =>
      if (size <=? 0) || (kMaxRuleFileBytes <? size)
      then Err "the rule file is empty or too large"
      else match contents with
           | inl error => Err (Win32Message "could not read the rule file" error)
           | inr text =>
               doc ← ParseRuleText XmlRead apartment text;
               Ok (mkRuleDocument (doc_client doc) (doc_rules doc) (doc_collections doc) utf8Path)
           end
  end.

(** ** What a parsed document promises *)

Fixpoint height (node : FilterNode) : nat :=
  S (max_list (map height (fn_children node))).

Definition leaf_wf (node : FilterNode) : Prop :=
  - 2 ^ 31 <= fn_type node < 2 ^ 31 /\ - 2 ^ 31 <= fn_comparand node < 2 ^ 31 /\
  0 <= fn_operand node <= u64_max /\ 0 <= fn_propertyId node <= u32_max.

Definition query_wf (q : QueryRecipe) : Prop :=
  SupportExportForKind (qr_kind q) <> None /\
  Forall (fun p => 0 <= p <= u32_max) (qr_properties q).

Definition in_u32 (o : option Z) : Prop :=
  match o with Some z => 0 <= z <= u32_max | None => True end.

(** The scalar attributes of a rule. *)
Definition rule_head_wf (r : RuleSpec) : Prop :=
  0 <= rs_eventType r <= u32_max /\ 0 <= rs_flags r <= u32_max /\
  0 <= rs_action r <= u64_max /\
  (rs_actionName r = ""%string \/
   (rs_actionName r = "deny"%string \/ rs_actionName r = "suppress"%string) /\
   rs_action r = 0) /\
  in_u32 (rs_selector_override r) /\ in_u32 (rs_modifier_override r) /\
  in_u32 (rs_modify_kind_override r).

Definition filter_wf (bound : nat) (node : FilterNode) : Prop :=
  (height node <= bound)%nat /\ Forall leaf_wf (leaves node).

Definition rule_wf (r : RuleSpec) : Prop :=
  rule_head_wf r /\ Forall query_wf (rs_queries r) /\ filter_wf (kMaxDepth + 2) (rs_filter r).

Definition collection_wf (c : CollectionSpec) : Prop :=
  1 <= cs_type c <= 3 /\ (cs_open c = true -> cs_hasGuid c = true) /\
  (cs_hasGuid c = false -> cs_guid c = null_guid).

Definition document_wf (doc : RuleDocument) : Prop :=
  Forall rule_wf (doc_rules doc) /\ Forall collection_wf (doc_collections doc).

(** An index that stands for a pointer to the back of a vector. *)
Definition points_to_back {A} (current : option nat) (l : list A) : Prop :=
  match current with Some i => S i = length l | None => True end.

(** Every combinator on the stack can still be closed within the bound. *)
Fixpoint stack_wf (stack : list FilterNode) : Prop :=
  match stack with
  | [] => True
  | top :: rest =>
      (height top + length rest <= kMaxDepth + 1)%nat /\ fn_kind top <> Leaf /\
      Forall leaf_wf (leaves top) /\ (length stack <= kMaxDepth)%nat /\ stack_wf rest
  end.

Record state_wf (s : ParserState) : Prop := mkStateWf {
  wf_rules : Forall rule_wf (ps_rules s);
  wf_collections : Forall collection_wf (ps_collections s);
  wf_stack : stack_wf (ps_stack s);
  wf_roots : Forall (filter_wf (kMaxDepth + 1)) (ps_roots s);
  wf_current_rule : points_to_back (ps_current_rule s) (ps_rules s);
  wf_current_collection : points_to_back (ps_current_collection s) (ps_collections s)
}.

(** A rule without its predicate tree and queries. *)
Definition rule_head (r : RuleSpec) : RuleSpec :=
  mkRuleSpec (rs_name r) (rs_eventType r) (rs_eventName r) (rs_lifetime r) (rs_flags r)
    (rs_action r) (rs_actionName r) (rs_selector_override r) (rs_modifier_override r)
    (rs_modify_kind_override r) empty_filter [].

(** The attributes of a [<rule>] start tag. *)
Definition rule_of_node (node : XmlNode) : option RuleSpec :=
  match node with
  | XmlElement (Some name) raw _ line =>
      if (ToLowerAscii name =? "rule")%string then
        match ParseRuleAttributes (Collect raw) line with Ok r => Some r | Err _ => None end
      else None
  | _ => None
  end.

(** The markup of a predicate tree that opens at most [depth] combinators. *)
Inductive markup : nat -> FilterNode -> list XmlNode -> Prop :=
| markup_leaf depth name raw empty line leaf :
    ToLowerAscii name = "filter"%string -> ParseLeafAttributes (Collect raw) line = Ok leaf ->
    markup depth leaf [XmlElement (Some name) raw empty line]
| markup_empty depth name raw line kind :
    FilterKindFromTag (ToLowerAscii name) = Some kind ->
    markup (S depth) (combinator kind []) [XmlElement (Some name) raw true line]
| markup_combinator depth name raw line name' line' kind children nodes :
    FilterKindFromTag (ToLowerAscii name) = Some kind ->
    FilterKindFromTag (ToLowerAscii name') = Some kind ->
    markups depth children nodes ->
    markup (S depth) (combinator kind children)
      (XmlElement (Some name) raw false line :: nodes ++ [XmlEndElement (Some name') line'])
with markups : nat -> list FilterNode -> list XmlNode -> Prop :=
| markups_nil depth : markups depth [] []
| markups_cons depth tree rest nodes nodes' :
    markup depth tree nodes -> markups depth rest nodes' ->
    markups depth (tree :: rest) (nodes ++ nodes').

Scheme markup_mut := Minimality for markup Sort Prop
  with markups_mut := Minimality for markups Sort Prop.

(** * Theorems *)

(** ** Attribute parsers *)

Lemma ParseUnsigned32_range text v : ParseUnsigned32 text = Some v -> 0 <= v <= u32_max.
Proof.
  unfold ParseUnsigned32. destruct (ParseUnsigned text); simpl; [|done].
  case_if; [done|]. intros [= <-]. apply u32_range.
Qed.

Lemma ParseSigned32_range text v : ParseSigned32 text = Some v -> - 2 ^ 31 <= v < 2 ^ 31.
Proof.
  unfold ParseSigned32. destruct text as [|c body]; [done|].
  destruct (ParseUnsigned _); simpl; [|done].
  destruct (c =? "-")%char; (case_if; [done|]); intros [= <-]; ints.
Qed.

Lemma parse_attr_Ok {A} items name (parse : string -> option A) error line o :
  parse_attr items name parse error line = Ok o ->
  match o with Some a => exists text, parse text = Some a | None => True end.
Proof.
  unfold parse_attr. destruct (Find items name) as [text|]; [|by intros [= <-]].
  destruct (parse text) eqn:E; [|done]. intros [= <-]. eauto.
Qed.

Lemma parse_attr_Forall {A} (P : A -> Prop) items name (parse : string -> option A) error line o :
  (forall text a, parse text = Some a -> P a) ->
  parse_attr items name parse error line = Ok o -> from_option P True o.
Proof. intros HP H%parse_attr_Ok. destruct o; simpl; naive_solver. Qed.

Lemma from_option_default {A} (P : A -> Prop) a (o : option A) :
  P a -> from_option P True o -> P (default a o).
Proof. by destruct o. Qed.

Lemma EventTypeFromName_range name : 0 <= EventTypeFromName name <= u32_max.
Proof. unfold EventTypeFromName. repeat case_if; split; vm_compute; congruence. Qed.

Lemma ParseAction_range value action name :
  ParseAction value = Some (action, name) ->
  0 <= action <= u64_max /\
  (name = ""%string \/ (name = "deny"%string \/ name = "suppress"%string) /\ action = 0).
Proof.
  unfold ParseAction, ParseUnsigned64. destruct (ParseUnsigned value) eqn:E.
  - intros [= <- <-]. apply ParseUnsigned_range in E. auto.
  - case_if; [|done]. intros [= <- <-]. split; [ints|].
    apply orb_true_iff in Heqb as [H|H]; boolp; auto.
Qed.

Lemma ParseDisposition_range value d : ParseDisposition value = Some d -> 1 <= d <= 5.
Proof.
  unfold ParseDisposition. repeat (case_if; [intros [= <-]; lia|]).
  destruct (ParseUnsigned32 value); simpl; [|done].
  case_if; [done|]. boolp. intros [= <-]. lia.
Qed.

(** Turns every [parse_attr] hypothesis into the range of its value. *)
Ltac parsed_attrs :=
  repeat match goal with
         | H : parse_attr _ _ ParseUnsigned32 _ _ = Ok _ |- _ =>
             apply (parse_attr_Forall _ _ _ _ _ _ _ ParseUnsigned32_range) in H
         | H : parse_attr _ _ ParseUnsigned64 _ _ = Ok _ |- _ =>
             apply (parse_attr_Forall _ _ _ _ _ _ _ ParseUnsigned_range) in H
         | H : parse_attr _ _ ParseSigned32 _ _ = Ok _ |- _ =>
             apply (parse_attr_Forall _ _ _ _ _ _ _ ParseSigned32_range) in H
         | H : parse_attr _ _ ParseDisposition _ _ = Ok _ |- _ =>
             apply (parse_attr_Forall _ _ _ _ _ _ _ ParseDisposition_range) in H
         end.

Definition action_wf (action : Z * string) : Prop :=
  0 <= action.1 <= u64_max /\
  (action.2 = ""%string \/
   (action.2 = "deny"%string \/ action.2 = "suppress"%string) /\ action.1 = 0).

Lemma parsed_action items line error o :
  parse_attr items "action" ParseAction error line = Ok o -> action_wf (default (0, ""%string) o).
Proof.
  intros H. apply (parse_attr_Forall action_wf) in H.
  - apply from_option_default; [|done]. split; [simpl; ints|by left].
  - intros text [action name] E. exact (ParseAction_range _ _ _ E).
Qed.

Lemma from_option_u32 o : from_option (fun v => 0 <= v <= u32_max) True o -> in_u32 o.
Proof. by destruct o. Qed.

Lemma ParseRuleAttributes_wf items line r :
  ParseRuleAttributes items line = Ok r ->
  rule_head_wf r /\ rs_filter r = empty_filter /\ rs_queries r = [].
Proof.
  unfold ParseRuleAttributes. intros H. inv_bind.
  apply parsed_action in H3. destruct (default _ _) as [action name].
  destruct H3 as [? ?]; simpl in *. inv_bind. subst r. split; [|done]. parsed_attrs.
  unfold rule_head_wf; cbn -[u32_max u64_max]. split_and!; try done.
  all: try by apply from_option_u32.
  all: pose proof (EventTypeFromName_range (Get items "event" "")).
  all: destruct x, x1, x6; simpl in *; try case_if; try by apply from_option_u32.
  all: ints.
Qed.

Lemma ParseLeafAttributes_wf items line leaf :
  ParseLeafAttributes items line = Ok leaf ->
  leaf_wf leaf /\ fn_kind leaf = Leaf /\ fn_children leaf = [].
Proof.
  unfold ParseLeafAttributes. intros H. inv_bind. subst leaf. split; [|done].
  parsed_attrs. unfold leaf_wf; cbn -[u32_max u64_max kStringComparandCollection].
  destruct x, x0, x1, x2; simpl in *; split_and!; try ints;
    case_if; (unfold kStringComparandCollection; ints).
Qed.

Lemma leaf_filter_wf bound leaf :
  (1 <= bound)%nat -> leaf_wf leaf -> fn_kind leaf = Leaf -> fn_children leaf = [] ->
  filter_wf bound leaf.
Proof.
  destruct leaf as [k t c o p pn op v cn children]; simpl. intros Hb Hwf -> ->.
  split; simpl; [lia|auto].
Qed.

Lemma ParseCsvParts_range parts line l :
  ParseCsvParts parts line = Ok l -> Forall (fun p => 0 <= p <= u32_max) l.
Proof.
  revert l. induction parts as [|part parts IH]; simpl; intros l H; [by simplify_eq|].
  destruct (ParseUnsigned _); [|done]. case_if_in H; [done|].
  inv_bind. subst l. constructor; [apply u32_range|eauto].
Qed.

Lemma ParseQueryAttributes_wf items line q : ParseQueryAttributes items line = Ok q -> query_wf q.
Proof.
  unfold ParseQueryAttributes, SupportExportForKindMissing. intros H.
  case_if_in H; [done|].
  destruct (SupportExportForKind _) eqn:E; [|done].
  inv_bind. subst q. split; simpl; [congruence|].
  case_if_in H0; inv_bind; [by subst|]. by eapply ParseCsvParts_range.
Qed.

Lemma ParseCollectionAttributes_wf items line c :
  ParseCollectionAttributes items line = Ok c -> collection_wf c /\ cs_entries c = [].
Proof.
  unfold ParseCollectionAttributes. intros H. inv_bind.
  assert (1 <= x <= 3) as Htype.
  { unfold ParseCollectionType in *. repeat (case_if_in H0; [by simplify_eq|]). done. }
  destruct (is_empty (Get items "guid" "")); [|destruct (ParseGuid _)]; inv_bind;
    simplify_eq; simpl in H; case_if_in H; inv_bind; simplify_eq;
    (split; [repeat split; simpl; try lia; try done|done]).
  all: by destruct (_ || _).
Qed.

(** ** Trees *)

Lemma height_children k t c o p pn op v cn children :
  height (mkFilterNode k t c o p pn op v cn children) = S (max_list (map height children)).
Proof. done. Qed.

Lemma max_list_snoc l n : max_list (l ++ [n]) = Nat.max (max_list l) n.
Proof. induction l as [|m l IH]; simpl; [lia|]. rewrite IH. lia. Qed.

Lemma height_add_child top node :
  height (add_child top node) = Nat.max (height top) (S (height node)).
Proof.
  destruct top. unfold add_child; simpl. rewrite map_app. simpl. by rewrite max_list_snoc.
Qed.

Lemma leaves_add_child top node :
  fn_kind top <> Leaf -> leaves (add_child top node) = leaves top ++ leaves node.
Proof.
  destruct top as [k t c o p pn op v cn children]; simpl. intros Hk.
  destruct k; [done|..]; by rewrite flat_map_app; simpl; rewrite app_nil_r.
Qed.

Lemma combinator_leaves kind children :
  kind <> Leaf -> leaves (combinator kind children) = flat_map leaves children.
Proof. by destruct kind. Qed.

Lemma Forall_flat_map_leaves (P : FilterNode -> Prop) l :
  Forall (fun node => Forall P (leaves node)) l -> Forall P (flat_map leaves l).
Proof. induction 1; simpl; [constructor|by apply Forall_app]. Qed.

Lemma max_list_map_bound {A} (f : A -> nat) bound l :
  Forall (fun a => (f a <= bound)%nat) l -> (max_list (map f l) <= bound)%nat.
Proof. induction 1; simpl; lia. Qed.

Lemma empty_filter_wf bound : (1 <= bound)%nat -> filter_wf bound empty_filter.
Proof. intros H. apply leaf_filter_wf; [done| |done..]. unfold leaf_wf; simpl; ints. Qed.

Lemma FinalFilter_wf bound roots :
  Forall (filter_wf bound) roots -> filter_wf (S (Nat.max 1 bound)) (FinalFilter roots).
Proof.
  intros H. destruct roots as [|root [|root' roots]]; simpl.
  - apply empty_filter_wf; lia.
  - inversion_clear H. destruct H0 as [? ?]. split; [lia|done].
  - split.
    + unfold combinator. rewrite height_children.
      enough (max_list (map height (root :: root' :: roots)) <= bound)%nat by lia.
      apply max_list_map_bound. eapply Forall_impl; [exact H|]. by intros ? [? _].
    + rewrite combinator_leaves by done. apply Forall_flat_map_leaves.
      eapply Forall_impl; [exact H|]. by intros ? [_ ?].
Qed.

(** ** The invariant of the read loop *)

Lemma Forall_alter_back {A} (P : A -> Prop) (f : A -> A) i l :
  (forall a, P a -> P (f a)) -> Forall P l -> Forall P (alter f i l).
Proof. intros Hf Hl. apply Forall_alter; [done|]. intros; auto. Qed.

Lemma points_to_back_alter {A} current (f : A -> A) i l :
  points_to_back current l -> points_to_back current (alter f i l).
Proof. destruct current; simpl; [|done]. by rewrite length_alter. Qed.

Lemma points_to_back_snoc {A} (l : list A) a : points_to_back (Some (length l)) (l ++ [a]).
Proof. simpl. rewrite length_app; simpl. lia. Qed.

Lemma Append_wf node s :
  state_wf s -> filter_wf (kMaxDepth + 1 - length (ps_stack s)) node -> state_wf (Append node s).
Proof.
  intros Hs [Hheight Hleaves]. unfold Append.
  pose proof (wf_stack s Hs) as Hstack.
  destruct (ps_stack s) as [|top rest]; destruct Hs; constructor;
    cbn [ps_rules ps_collections ps_stack ps_roots ps_current_rule ps_current_collection
         set_forest stack_wf length] in *; try done.
  - apply Forall_app; split; [done|]. by apply Forall_singleton.
  - destruct Hstack as (Htop & Hkind & Hl & Hlen & Hrest).
    rewrite height_add_child, leaves_add_child by done.
    split_and!; try done; [lia|by apply Forall_app].
Qed.

Lemma push_wf kind s :
  state_wf s -> kind <> Leaf -> (length (ps_stack s) < kMaxDepth)%nat ->
  state_wf (push_node (combinator kind []) s).
Proof.
  intros [] Hk Hlen. constructor; try done.
  cbn [ps_stack push_node set_forest stack_wf length].
  rewrite combinator_leaves by done. split_and!; try done; simpl; unfold kMaxDepth in *; lia.
Qed.

Lemma pop_append_wf s s' : state_wf s -> pop_append s = Some s' -> state_wf s'.
Proof.
  unfold pop_append. intros Hs H. destruct (ps_stack s) as [|top rest] eqn:E; [done|].
  injection H as <-.
  pose proof (wf_stack s Hs) as Hstack. rewrite E in Hstack.
  destruct Hstack as (Htop & _ & Hl & _ & Hrest).
  apply Append_wf; [destruct Hs; by constructor|].
  split; [cbn [ps_stack set_forest]; lia|done].
Qed.

Lemma FinalizeRule_wf i s : state_wf s -> state_wf (FinalizeRule i s).
Proof.
  intros []. constructor; simpl; try done.
  apply Forall_alter_back; [|done].
  intros r (Hhead & Hq & _). split_and!; try done.
  exact (FinalFilter_wf _ _ wf_roots0).
Qed.

Lemma set_forest_wf s : state_wf s -> state_wf (set_forest [] [] s).
Proof. intros []. by constructor. Qed.

Lemma OnRule_wf items empty line s s' :
  state_wf s -> OnRule items empty line s = Ok s' -> state_wf s'.
Proof.
  unfold OnRule. intros Hs H. destruct (ps_current_rule s); [done|]. inv_bind.
  destruct (ParseRuleAttributes_wf _ _ _ H0) as (Hhead & Hf & Hq).
  assert (state_wf (set_forest [] []
    (set_rules (ps_rules s ++ [x]) (Some (length (ps_rules s))) s))) as Hwf.
  { apply set_forest_wf. destruct Hs. constructor; simpl; try done; [|apply points_to_back_snoc].
    apply Forall_app; split; [done|]. apply Forall_singleton. split_and!; [done|by rewrite Hq|].
    rewrite Hf. apply empty_filter_wf. unfold kMaxDepth; lia. }
  subst s'. destruct empty; [by apply FinalizeRule_wf|done].
Qed.

Lemma OnCollection_wf items empty line s s' :
  state_wf s -> OnCollection items empty line s = Ok s' -> state_wf s'.
Proof.
  unfold OnCollection. intros Hs H. destruct (ps_current_rule s) eqn:E; [done|]. inv_bind.
  destruct (ParseCollectionAttributes_wf _ _ _ H0) as [Hc _]. subst s'.
  destruct Hs. constructor; simpl; try done.
  - apply Forall_app; auto.
  - destruct empty; [done|apply points_to_back_snoc].
Qed.

Lemma add_entry_wf entry c : collection_wf c -> collection_wf (add_entry entry c).
Proof. done. Qed.

Lemma set_entry_wf b text s : state_wf s -> state_wf (set_entry b text s).
Proof. intros []. by constructor. Qed.

Lemma alter_collection_wf entry i s :
  state_wf s -> ps_current_collection s = Some i ->
  state_wf (set_collections (alter (add_entry entry) i (ps_collections s)) (Some i) s).
Proof.
  intros [] E. constructor; simpl; try done.
  - apply Forall_alter_back; [apply add_entry_wf|done].
  - rewrite E in *. simpl in *. by rewrite length_alter.
Qed.

Lemma OnEntry_wf empty line s s' : state_wf s -> OnEntry empty line s = Ok s' -> state_wf s'.
Proof.
  unfold OnEntry. intros Hs H. destruct (ps_current_collection s) eqn:E; [|done].
  destruct empty; inv_bind; subst s'; apply set_entry_wf; [by apply alter_collection_wf|done].
Qed.

Lemma OnQuery_wf items line s s' : state_wf s -> OnQuery items line s = Ok s' -> state_wf s'.
Proof.
  unfold OnQuery. intros Hs H. destruct (ps_current_rule s) eqn:E; [|done]. inv_bind. subst s'.
  apply ParseQueryAttributes_wf in H0. destruct Hs. constructor; simpl; try done.
  - apply Forall_alter_back; [|done]. intros r (? & ? & ?). split_and!; try done.
    apply Forall_app; auto.
  - rewrite E in *. simpl in *. by rewrite length_alter.
Qed.

Lemma OnFilter_wf items line s s' : state_wf s -> OnFilter items line s = Ok s' -> state_wf s'.
Proof.
  unfold OnFilter. intros Hs H. destruct (ps_current_rule s) eqn:E; [|done]. inv_bind. subst s'.
  destruct (ParseLeafAttributes_wf _ _ _ H0) as (? & ? & ?).
  apply Append_wf; [done|]. apply leaf_filter_wf; [|done..].
  pose proof (wf_stack s Hs) as Hstack. destruct (ps_stack s); cbn [stack_wf length] in *; lia.
Qed.

Lemma OnCombinator_wf kind name empty line s s' :
  state_wf s -> kind <> Leaf -> OnCombinator kind name empty line s = Ok s' -> state_wf s'.
Proof.
  unfold OnCombinator. intros Hs Hk H. destruct (ps_current_rule s); [|done].
  case_if_in H; [done|]. injection H as <-. apply Nat.leb_gt in Heqb.
  destruct empty; [|by apply push_wf].
  apply (pop_append_wf (push_node (combinator kind []) s)); [by apply push_wf|done].
Qed.

Lemma FilterKindFromTag_kind name kind : FilterKindFromTag name = Some kind -> kind <> Leaf.
Proof. unfold FilterKindFromTag. repeat case_if; congruence. Qed.

Lemma step_wf s node s' : state_wf s -> step s node = Ok s' -> state_wf s'.
Proof.
  intros Hs. destruct node as [[name|] raw empty line|[name|] line|value|]; simpl;
    try by intros [= <-].
  - unfold OnElement, OnClient, OnCollections. intros H. repeat case_if_in H; try done;
      eauto using OnRule_wf, OnCollection_wf, OnEntry_wf, OnQuery_wf, OnFilter_wf.
    + inv_bind. subst. by destruct Hs; constructor.
    + inv_bind. subst. by destruct Hs; constructor.
    + by destruct (ps_current_rule s); simplify_eq.
    + destruct (FilterKindFromTag _) eqn:E in H; [|by simplify_eq].
      eauto using OnCombinator_wf, FilterKindFromTag_kind.
  - unfold OnEndElement. intros H.
    destruct (FilterKindFromTag _).
    { destruct (pop_append s) eqn:E; [|done]. injection H as <-. eauto using pop_append_wf. }
    case_if_in H.
    { destruct (ps_current_rule s) as [i|]; simplify_eq; [|done].
      pose proof (FinalizeRule_wf i s Hs) as []. by constructor. }
    case_if_in H.
    { simplify_eq. apply set_entry_wf. destruct (ps_current_collection s) eqn:E; [|done].
      destruct (ps_in_entry s); [by apply alter_collection_wf|done]. }
    case_if_in H; [simplify_eq; by destruct Hs; constructor|].
    case_if_in H; [simplify_eq; by destruct Hs; constructor|by simplify_eq].
  - intros [= <-]. unfold OnText. destruct value; [|done]. case_if; [|done]. by apply set_entry_wf.
Qed.

Lemma initial_state_wf : state_wf initial_state.
Proof. constructor; simpl; auto. Qed.

(** C19 A document that parses is well formed: numbers in their machine ranges,
    named actions with a zero selector, recognised query kinds, predicate trees
    no higher than the nesting limit allows, [open] collections with a GUID. *)
Theorem Parse_document_wf nodes end_of_input doc :
  Parse nodes end_of_input = Ok doc -> document_wf doc.
Proof.
  unfold Parse, finish. intros H. inv_bind.
  assert (state_wf x) as [].
  { eapply foldM_invariant; [exact step_wf|apply initial_state_wf|done]. }
  repeat case_if_in H; try done. destruct (ps_current_rule x); [done|]. by inv_bind; subst.
Qed.

Definition wf_example : list XmlNode :=
  [ XmlElement (Some "esptool") [] false 1;
    XmlElement (Some "Collection") [(Some "type", Some "integer")] false 2;
    XmlElement (Some "entry") [] false 3; XmlText (Some "5"); XmlEndElement (Some "entry") 3;
    XmlEndElement (Some "Collection") 4;
    XmlElement (Some "rule") [(Some "event", Some "ProcessCreate"); (Some "action", Some "deny")]
      false 5;
    XmlElement (Some "not") [] false 6;
    XmlElement (Some "filter") [(Some "type", Some "10"); (Some "comparand", Some "-1")] true 7;
    XmlEndElement (Some "not") 8;
    XmlElement (Some "query") [(Some "kind", Some "process"); (Some "properties", Some "1, 0x2")]
      true 9;
    XmlEndElement (Some "rule") 10; XmlEndElement (Some "esptool") 11 ].

Definition wf_example_document : RuleDocument :=
  mkRuleDocument empty_client
    [mkRuleSpec "" 1000 "ProcessCreate" Transient 0 0 "deny" None None None
       (combinator Not [mkFilterNode Leaf 10 (-1) 0 0 "" "" "" "" []])
       [mkQueryRecipe "process" [1; 2] false false]]
    [mkCollectionSpec "" 1 false null_guid false ["5"]] "".

Lemma Parse_document_wf_witness :
  Parse wf_example true = Ok wf_example_document /\ document_wf wf_example_document.
Proof.
  assert (Parse wf_example true = Ok wf_example_document) as H by (vm_compute; reflexivity).
  split; [exact H|]. exact (Parse_document_wf wf_example true wf_example_document H).
Defined.

(** ** Rules are the rule elements *)

Lemma heads_alter f i l :
  (forall r, rule_head (f r) = rule_head r) -> map rule_head (alter f i l) = map rule_head l.
Proof.
  intros Hf. revert i. induction l as [|r l IH]; intros [|i]; try done; cbn; [by rewrite Hf|].
  f_equal. apply IH.
Qed.

Lemma rules_Append node s : ps_rules (Append node s) = ps_rules s.
Proof. unfold Append. by destruct (ps_stack s). Qed.

Lemma rules_pop_append s s' : pop_append s = Some s' -> ps_rules s' = ps_rules s.
Proof.
  unfold pop_append. destruct (ps_stack s); [done|]. intros [= <-]. by rewrite rules_Append.
Qed.

Lemma rules_FinalizeRule i s :
  map rule_head (ps_rules (FinalizeRule i s)) = map rule_head (ps_rules s).
Proof. simpl. by apply heads_alter. Qed.

Lemma heads_OnRule items empty line s s' :
  OnRule items empty line s = Ok s' ->
  exists r, ParseRuleAttributes items line = Ok r /\
    map rule_head (ps_rules s') = map rule_head (ps_rules s) ++ [r].
Proof.
  unfold OnRule. destruct (ps_current_rule s); [done|]. intros H. inv_bind. subst s'.
  exists x. split; [done|].
  destruct (ParseRuleAttributes_wf _ _ _ H0) as (_ & Hf & Hq).
  assert (rule_head x = x) as Hx by (destruct x; simpl in *; by subst).
  destruct empty; [rewrite rules_FinalizeRule|]; simpl; by rewrite map_app; simpl; rewrite Hx.
Qed.

Lemma heads_OnElement name items empty line s s' :
  name <> "rule"%string -> OnElement name items empty line s = Ok s' ->
  map rule_head (ps_rules s') = map rule_head (ps_rules s).
Proof.
  intros Hname%String.eqb_neq. unfold OnElement. rewrite Hname.
  unfold OnClient, OnCollections, OnCollection, OnEntry, OnQuery, OnFilter, OnCombinator.
  intros H. case_if_in H; [by case_if_in H; simplify_eq|].
  case_if_in H; [inv_bind; by subst|].
  case_if_in H; [by destruct (ps_current_rule s); simplify_eq|].
  case_if_in H; [destruct (ps_current_rule s); [done|]; inv_bind; by destruct empty; subst|].
  case_if_in H; [destruct (ps_current_collection s); [|done]; by destruct empty; simplify_eq|].
  case_if_in H.
  { destruct (ps_current_rule s); [|done]. inv_bind. subst. simpl. by apply heads_alter. }
  case_if_in H.
  { destruct (ps_current_rule s); [|done]. inv_bind. subst. by rewrite rules_Append. }
  destruct (FilterKindFromTag name); [|by simplify_eq].
  destruct (ps_current_rule s); [|done]. case_if_in H; [done|]. injection H as <-.
  destruct empty; [|done].
  by apply (f_equal (map rule_head)), (rules_pop_append (push_node (combinator f []) s)).
Qed.

Lemma heads_OnEndElement name line s s' :
  OnEndElement name line s = Ok s' -> map rule_head (ps_rules s') = map rule_head (ps_rules s).
Proof.
  unfold OnEndElement. intros H. destruct (FilterKindFromTag name).
  { destruct (pop_append s) eqn:E; [|done]. simplify_eq. by rewrite (rules_pop_append _ _ E). }
  case_if_in H.
  { destruct (ps_current_rule s) as [i|]; simplify_eq; [|done]. apply (rules_FinalizeRule i s). }
  case_if_in H; [|repeat (case_if_in H; [by simplify_eq|]); by simplify_eq].
  injection H as <-. destruct (ps_current_collection s); [|done]. by destruct (ps_in_entry s).
Qed.

Lemma heads_step s node s' :
  step s node = Ok s' ->
  map rule_head (ps_rules s') = map rule_head (ps_rules s) ++ option_list (rule_of_node node).
Proof.
  destruct node as [[name|] raw empty line|[name|] line|value|]; simpl;
    try (intros [= <-]; by rewrite app_nil_r).
  - destruct (ToLowerAscii name =? "rule")%string eqn:E; intros H.
    + unfold OnElement in H. apply String.eqb_eq in E. rewrite E in H.
      destruct (negb (ps_saw_root s)); [done|].
      destruct (heads_OnRule _ _ _ _ _ H) as (r & -> & ->). done.
    + apply String.eqb_neq in E. rewrite (heads_OnElement _ _ _ _ _ _ E H). by rewrite app_nil_r.
  - intros H. rewrite (heads_OnEndElement _ _ _ _ H). by rewrite app_nil_r.
  - intros [= <-]. rewrite app_nil_r. unfold OnText.
    destruct value; [|done]. by destruct (ps_in_entry s).
Qed.

Lemma heads_foldM nodes s s' :
  foldM step nodes s = Ok s' ->
  map rule_head (ps_rules s') = map rule_head (ps_rules s) ++ omap rule_of_node nodes.
Proof.
  revert s. induction nodes as [|node nodes IH]; simpl; intros s H.
  - inv_bind. subst. by rewrite app_nil_r.
  - inv_bind. rewrite (IH _ H), (heads_step _ _ _ H0), <- app_assoc.
    by destruct (rule_of_node node).
Qed.

(** C21 The rules of a parsed document are its <rule> elements, one each and in
    document order, with exactly the attributes of their start tags: no rule is
    dropped, invented, or given the attributes of another. *)
Theorem Parse_rule_elements nodes end_of_input doc :
  Parse nodes end_of_input = Ok doc ->
  map rule_head (doc_rules doc) = omap rule_of_node nodes.
Proof.
  unfold Parse, finish. intros H. inv_bind. apply heads_foldM in H0.
  repeat case_if_in H; try done. destruct (ps_current_rule x); [done|]. by inv_bind; subst.
Qed.

Lemma Parse_rule_elements_witness :
  Parse wf_example true = Ok wf_example_document /\
  map rule_head (doc_rules wf_example_document) = omap rule_of_node wf_example.
Proof.
  assert (Parse wf_example true = Ok wf_example_document) as H by (vm_compute; reflexivity).
  split; [exact H|]. exact (Parse_rule_elements wf_example true wf_example_document H).
Defined.

(** ** Predicate trees *)

Definition Append_all (nodes : list FilterNode) (s : ParserState) : ParserState :=
  fold_left (fun s node => Append node s) nodes s.

Lemma Append_all_roots nodes s :
  ps_stack s = [] -> Append_all nodes s = set_forest [] (ps_roots s ++ nodes) s.
Proof.
  revert s. induction nodes as [|node nodes IH]; intros s Hs.
  - rewrite app_nil_r. destruct s; simpl in *. by subst.
  - change (Append_all nodes (Append node s) = set_forest [] (ps_roots s ++ node :: nodes) s).
    unfold Append. rewrite Hs, IH by done. simpl. by rewrite <- app_assoc.
Qed.

Lemma Append_all_stack nodes s kind children rest :
  ps_stack s = combinator kind children :: rest ->
  Append_all nodes s = set_forest (combinator kind (children ++ nodes) :: rest) (ps_roots s) s.
Proof.
  revert s children. induction nodes as [|node nodes IH]; intros s children Hs.
  - rewrite app_nil_r. destruct s; simpl in *. by subst.
  - change (Append_all nodes (Append node s) =
      set_forest (combinator kind (children ++ node :: nodes) :: rest) (ps_roots s) s).
    unfold Append. rewrite Hs, (IH _ (children ++ [node])) by done.
    simpl. by rewrite <- app_assoc.
Qed.

Lemma tag_names name kind :
  FilterKindFromTag name = Some kind -> name ∈ ["and"; "or"; "xor"; "not"]%string.
Proof. unfold FilterKindFromTag. repeat case_if; boolp; set_solver. Qed.

(** The state in which predicates may appear. *)
Definition in_rule (s : ParserState) : Prop :=
  ps_saw_root s = true /\ exists i, ps_current_rule s = Some i.

Lemma in_rule_forest stack roots s : in_rule s -> in_rule (set_forest stack roots s).
Proof. done. Qed.

Lemma in_rule_Append node s : in_rule s -> in_rule (Append node s).
Proof. unfold Append. by destruct (ps_stack s). Qed.

Lemma step_filter name raw empty line leaf s :
  in_rule s -> ToLowerAscii name = "filter"%string ->
  ParseLeafAttributes (Collect raw) line = Ok leaf ->
  step s (XmlElement (Some name) raw empty line) = Ok (Append leaf s).
Proof.
  intros [Hroot [i Hrule]] Hname Hleaf. simpl. unfold OnElement, OnFilter.
  rewrite Hroot, Hname, Hrule. simpl. by rewrite Hleaf.
Qed.

Lemma step_combinator name raw empty line kind s :
  in_rule s -> FilterKindFromTag (ToLowerAscii name) = Some kind ->
  (length (ps_stack s) < kMaxDepth)%nat ->
  step s (XmlElement (Some name) raw empty line) =
  Ok (if empty then Append (combinator kind []) s else push_node (combinator kind []) s).
Proof.
  intros [Hroot [i Hrule]] Hkind Hlen. simpl. unfold OnElement.
  rewrite Hroot, Hkind. simpl.
  assert (OnCombinator kind (ToLowerAscii name) empty line s =
    Ok (if empty then Append (combinator kind []) s else push_node (combinator kind []) s)) as E.
  { unfold OnCombinator. rewrite Hrule, (proj2 (Nat.leb_gt _ _)) by lia.
    destruct empty; [|done]. by destruct s. }
  pose proof (tag_names _ _ Hkind) as Hin.
  repeat (rewrite elem_of_cons in Hin; destruct Hin as [Heq|Hin]; [rewrite Heq in *; exact E|]).
  by apply elem_of_nil in Hin.
Qed.

Lemma step_end_combinator name line kind kind' children s rest :
  FilterKindFromTag (ToLowerAscii name) = Some kind' ->
  ps_stack s = combinator kind children :: rest ->
  step s (XmlEndElement (Some name) line) =
  Ok (Append (combinator kind children) (set_forest rest (ps_roots s) s)).
Proof.
  intros Hkind Hs. simpl. unfold OnEndElement, pop_append. by rewrite Hkind, Hs.
Qed.

Lemma foldM_app {S A} (f : S -> A -> result S) l1 l2 s :
  foldM f (l1 ++ l2) s = (s' ← foldM f l1 s; foldM f l2 s').
Proof.
  revert s. induction l1 as [|a l1 IH]; intros s; [done|]. simpl.
  destruct (f s a); simpl; [apply IH|done].
Qed.

Lemma markup_step depth tree nodes :
  markup depth tree nodes -> forall s, in_rule s ->
  (length (ps_stack s) + depth <= kMaxDepth)%nat -> foldM step nodes s = Ok (Append tree s).
Proof.
  intros Hm.
  induction Hm as [depth name raw empty line leaf Hname Hleaf|depth name raw line kind Hkind
    |depth name raw line name' line' kind children nodes Hkind Hkind' Hm IH
    |depth|depth tree rest nodes nodes' Hm IH Hms IHs] using markup_mut with
    (P0 := fun depth trees nodes => forall s, in_rule s ->
       (length (ps_stack s) + depth <= kMaxDepth)%nat ->
       foldM step nodes s = Ok (Append_all trees s)); intros s Hrule Hlen.
  - cbn [foldM]. by rewrite (step_filter _ _ _ _ leaf).
  - cbn [foldM]. by rewrite (step_combinator _ _ _ _ kind) by (done || lia).
  - cbn [foldM]. rewrite (step_combinator _ _ _ _ kind) by (done || lia).
    change (foldM step (nodes ++ [XmlEndElement (Some name') line'])
      (push_node (combinator kind []) s) = Ok (Append (combinator kind children) s)).
    rewrite foldM_app, IH by (simpl; done || lia).
    rewrite (Append_all_stack _ _ kind [] (ps_stack s)) by done. cbn [app].
    change (foldM step [XmlEndElement (Some name') line']
      (set_forest (combinator kind children :: ps_stack s) (ps_roots s)
         (push_node (combinator kind []) s)) = Ok (Append (combinator kind children) s)).
    cbn [foldM]. rewrite (step_end_combinator _ _ kind kind children _ (ps_stack s)) by done.
    by destruct s.
  - done.
  - rewrite foldM_app, IH by done. apply IHs; [by apply in_rule_Append|].
    unfold Append. destruct (ps_stack s); simpl in *; lia.
Qed.

(** C20 The element handlers build exactly the written predicate forest: a rule
    whose body is the markup of any list of trees, nested up to the limit of 16,
    parses to that rule with those trees as its filter (none, the single one, or
    their conjunction). *)
Theorem Parse_rule_forest raw line rule trees nodes :
  ParseRuleAttributes (Collect raw) line = Ok rule -> markups kMaxDepth trees nodes ->
  Parse ([XmlElement (Some "esptool") [] false 1; XmlElement (Some "rule") raw false line] ++
         nodes ++ [XmlEndElement (Some "rule") line; XmlEndElement (Some "esptool") line]) true =
  Ok (mkRuleDocument empty_client [set_rule_filter (FinalFilter trees) rule] [] "").
Proof.
  intros Hrule Hmarkup.
  set (s0 := mkParserState empty_client [rule] [] [] [] (Some 0%nat) None false "" true false).
  assert (foldM step nodes s0 = Ok (Append_all trees s0)) as Hbody.
  { assert (forall d ts ns, markups d ts ns -> (d <= kMaxDepth)%nat ->
      forall s, in_rule s -> ps_stack s = [] -> foldM step ns s = Ok (Append_all ts s)) as Hall.
    { induction 1 as [|d t ts ns ns' Ht Hts IH]; intros Hd s Hs Hstack; [done|].
      rewrite foldM_app, (markup_step d t ns) by (done || (rewrite Hstack; simpl; lia)).
      apply IH; [done|by apply in_rule_Append|]. unfold Append. by rewrite Hstack. }
    apply (Hall kMaxDepth); [done|done| |done]. split; [done|]. by exists 0%nat. }
  rewrite Append_all_roots in Hbody by done.
  unfold Parse, finish. rewrite foldM_app.
  assert (foldM step [XmlElement (Some "esptool") [] false 1; XmlElement (Some "rule") raw false line]
    initial_state = Ok s0) as ->.
  { simpl. unfold OnElement, OnRule. simpl. by rewrite Hrule. }
  change (mbind ?f (Ok s0)) with (f s0). cbv beta.
  rewrite foldM_app, Hbody. done.
Qed.

Definition forest_raw : list (option string * option string) := [(Some "event", Some "filecreate")].
Definition forest_leaf (type : string) : XmlNode :=
  XmlElement (Some "filter") [(Some "type", Some type); (Some "property", Some "2")] true 4.
Definition forest_node (type : Z) : FilterNode := mkFilterNode Leaf type 0 0 2 "" "" "" "" [].

Lemma Parse_rule_forest_witness :
  Parse ([XmlElement (Some "esptool") [] false 1; XmlElement (Some "rule") forest_raw false 2] ++
         [forest_leaf "5"; XmlElement (Some "Or") [] false 5; forest_leaf "6"; forest_leaf "-7";
          XmlEndElement (Some "or") 6] ++
         [XmlEndElement (Some "rule") 2; XmlEndElement (Some "esptool") 2]) true =
  Ok (mkRuleDocument empty_client
        [set_rule_filter (combinator And
           [forest_node 5; combinator Or [forest_node 6; forest_node (-7)]])
           (mkRuleSpec "" 2000 "filecreate" Transient 0 0 "" None None None empty_filter [])]
        [] "").
Proof.
  apply (Parse_rule_forest forest_raw 2 _
    [forest_node 5; combinator Or [forest_node 6; forest_node (-7)]]
    [forest_leaf "5"; XmlElement (Some "Or") [] false 5; forest_leaf "6"; forest_leaf "-7";
     XmlEndElement (Some "or") 6]); [vm_compute; reflexivity|].
  apply (markups_cons _ _ _ [_]); [constructor; vm_compute; reflexivity|].
  apply (markups_cons _ _ [] [_; _; _; _] []); [|constructor].
  apply (markup_combinator 15 "Or" [] 5 "or" 6 Or _ [forest_leaf "6"; forest_leaf "-7"]);
    [vm_compute; reflexivity|vm_compute; reflexivity|].
  apply (markups_cons _ _ _ [_]); [constructor; vm_compute; reflexivity|].
  apply (markups_cons _ _ [] [_] []); [constructor; vm_compute; reflexivity|constructor].
Defined.
