(* ===== verification/MemoryView.v ===== *)
(** Memory as the tool touches it (src/esptool/src/esp/EspMemoryView.h).

    Two sides: the process memory a queue notification points into, read only
    through a readability test ([ReadPod] and the [NotifyRead*] helpers), and the
    byte blobs the tool fills in for the driver ([WriteU32At], [WritePtrAt]),
    where a write outside the blob, undefined in the source, is [None]. *)
From S2P Require Import Prelude Core.

(** ** Little-endian words *)

Fixpoint le_bytes (n : nat) (z : Z) : list Z :=
  match n with
  | O => []
  | S n => z mod 2 ^ 8 :: le_bytes n (z / 2 ^ 8)
  end.

Fixpoint le_value (l : list Z) : Z :=
  match l with
  | [] => 0
  | b :: rest => b + 2 ^ 8 * le_value rest
  end.

(** ** Process memory *)

(** The bytes of an address space and the readability callback
    ([NotifyReadableFn]) of a pointer and a size. *)
Record View := mkView {
  vw_mem : Z -> Z;
  vw_readable : Z -> Z -> bool
}.

Definition NotifyAlwaysReadable (pointer size : Z) : bool :=
  negb (pointer =? 0) && negb (size =? 0).

(** [n] bytes from an address. *)
Fixpoint load (mem : Z -> Z) (address : Z) (n : nat) : list Z :=
  match n with
  | O => []
  | S n => u8 (mem address) :: load mem (address + 1) n
  end.

(** [ReadPod] of an [n]-byte object. *)
Definition ReadPod (n : nat) (base offset : Z) (v : View) : option Z :=
  if base =? 0 then None
  else
    let source := base + offset in
    if negb (vw_readable v source (Z.of_nat n)) then None
    else Some (le_value (load (vw_mem v) source n)).

Definition NotifyReadU16 := ReadPod 2.
Definition NotifyReadU32 := ReadPod 4.

(** A null pointer read is a failed read. *)
Definition NotifyReadPtr (base offset : Z) (v : View) : option Z :=
  value ← ReadPod 8 base offset v; if value =? 0 then None else Some value.

Definition AtOffset (base offset : Z) : Z := base + offset.
Definition QuerySlotAt (array index stride : Z) : Z := AtOffset array (index * stride).

(** ** Blobs *)

Abbreviation blob := (list Z).

Definition write_at (offset : nat) (value : list Z) (bytes : blob) : option blob :=
  if (offset + length value <=? length bytes)%nat
  then Some (list_inserts offset value bytes) else None.

Definition WriteU32At (offset : nat) (value : Z) (bytes : blob) : option blob :=
  write_at offset (le_bytes 4 value) bytes.
Definition WritePtrAt (offset : nat) (value : Z) (bytes : blob) : option blob :=
  write_at offset (le_bytes 8 value) bytes.
Definition WriteBytesAt := write_at.

(** What the driver reads back at an offset of a blob. *)
Definition read_at (n offset : nat) (bytes : blob) : Z := le_value (take n (drop offset bytes)).
Definition ReadU32At := read_at 4.
Definition ReadPtrAt := read_at 8.

(** * Theorems *)

Lemma le_bytes_length n z : length (le_bytes n z) = n.
Proof. revert z. induction n; simpl; auto. Qed.

Lemma le_value_bytes n z : 0 <= z < 2 ^ (8 * Z.of_nat n) -> le_value (le_bytes n z) = z.
Proof.
  revert z. induction n as [|n IH]; intros z Hz; [change (0 = z); simpl in Hz; lia|].
  cbn [le_bytes le_value]. rewrite IH.
  - pose proof (Z.div_mod z (2 ^ 8)). lia.
  - replace (8 * Z.of_nat (S n)) with (8 + 8 * Z.of_nat n) in Hz by lia.
    rewrite Z.pow_add_r in Hz by lia. split; [apply Z.div_pos; lia|].
    apply Z.div_lt_upper_bound; lia.
Qed.

Lemma le_value_range l :
  Forall (fun b => 0 <= b < 2 ^ 8) l -> 0 <= le_value l < 2 ^ (8 * Z.of_nat (length l)).
Proof.
  induction 1 as [|b l Hb Hl IH]; cbn [le_value length]; [done|].
  replace (8 * Z.of_nat (S (length l))) with (8 + 8 * Z.of_nat (length l)) by lia.
  rewrite Z.pow_add_r by lia. lia.
Qed.

Lemma load_length mem address n : length (load mem address n) = n.
Proof. revert address. induction n; simpl; auto. Qed.

Lemma load_bytes mem address n : Forall (fun b => 0 <= b < 2 ^ 8) (load mem address n).
Proof.
  revert address. induction n; simpl; intros; constructor; [unfold u8; apply Z.mod_pos_bound; lia|auto].
Qed.

Lemma ReadPod_range n base offset v x :
  ReadPod n base offset v = Some x -> 0 <= x < 2 ^ (8 * Z.of_nat n).
Proof.
  unfold ReadPod. case_if; [done|]. simpl. case_if; [done|]. intros [= <-].
  pose proof (le_value_range _ (load_bytes (vw_mem v) (base + offset) n)) as H.
  by rewrite load_length in H.
Qed.

(** ** Agreement on readable memory *)

(** Two views are the same to a reader that asks before it reads. *)
#[export] Instance view_equiv : Equiv View := fun v w =>
  (forall p n, vw_readable v p n = vw_readable w p n) /\
  (forall p n i, vw_readable v p n = true -> 0 <= i < n ->
     vw_mem v (p + i) = vw_mem w (p + i)).

#[export] Instance view_equivalence : Equivalence (≡@{View}).
Proof.
  split.
  - by intros v.
  - intros v w [Hr Hm]. split; [done|]. intros p n i Hp Hi. symmetry.
    apply (Hm p n); [by rewrite Hr|done].
  - intros u v w [Hr Hm] [Hr' Hm']. split; [congruence|].
    intros p n i Hp Hi. rewrite (Hm p n i) by done. apply (Hm' p n); [by rewrite <- Hr|done].
Qed.

Lemma load_ext (m m' : Z -> Z) a n :
  (forall i, 0 <= i < Z.of_nat n -> m (a + i) = m' (a + i)) -> load m a n = load m' a n.
Proof.
  revert a. induction n as [|n IH]; intros a H; [done|]. simpl.
  f_equal; [by rewrite <- (Z.add_0_r a), H by lia|].
  apply IH. intros i Hi. rewrite <- !Z.add_assoc. apply H. lia.
Qed.

#[export] Instance ReadPod_proper n base offset : Proper ((≡) ==> (=)) (ReadPod n base offset).
Proof.
  intros v w [Hr Hm]. unfold ReadPod. case_if; [done|]. rewrite Hr.
  case_if; [done|]. do 2 f_equal. apply load_ext. intros i Hi.
  apply (Hm _ (Z.of_nat n)); [|done]. rewrite Hr. by destruct (vw_readable w _ _).
Qed.

#[export] Instance NotifyReadPtr_proper base offset : Proper ((≡) ==> (=)) (NotifyReadPtr base offset).
Proof. intros v w H. unfold NotifyReadPtr. by rewrite H. Qed.

#[export] Instance NotifyReadU32_proper base offset : Proper ((≡) ==> (=)) (NotifyReadU32 base offset).
Proof. apply ReadPod_proper. Qed.

#[export] Instance NotifyReadU16_proper base offset : Proper ((≡) ==> (=)) (NotifyReadU16 base offset).
Proof. apply ReadPod_proper. Qed.

(** ** Blob writes *)

Lemma write_at_Some offset value bytes bytes' :
  write_at offset value bytes = Some bytes' <->
  (offset + length value <= length bytes)%nat /\ bytes' = list_inserts offset value bytes.
Proof. unfold write_at. destruct (Nat.leb_spec (offset + length value) (length bytes)); naive_solver lia. Qed.

Lemma write_at_length offset value bytes bytes' :
  write_at offset value bytes = Some bytes' -> length bytes' = length bytes.
Proof. intros [_ ->]%write_at_Some. apply length_inserts. Qed.

Lemma write_at_in_bounds offset value bytes :
  (offset + length value <= length bytes)%nat -> is_Some (write_at offset value bytes).
Proof. intros H. eexists. by apply write_at_Some. Qed.

(** A written word is read back. *)
Lemma read_write_same n offset z bytes bytes' :
  0 <= z < 2 ^ (8 * Z.of_nat n) ->
  write_at offset (le_bytes n z) bytes = Some bytes' -> read_at n offset bytes' = z.
Proof.
  intros Hz [Hlen ->]%write_at_Some. rewrite le_bytes_length in Hlen.
  unfold read_at. rewrite <- (le_value_bytes n z) at 2 by done. f_equal.
  apply list_eq. intros i. destruct (decide (i < n)%nat) as [Hi|Hi].
  - rewrite lookup_take_lt, lookup_drop by done.
    rewrite list_lookup_inserts by (rewrite ?le_bytes_length; lia).
    f_equal. lia.
  - rewrite lookup_take_ge by lia. symmetry. apply lookup_ge_None. rewrite le_bytes_length. lia.
Qed.

Lemma le_bytes_mod n z : le_bytes n (z mod 2 ^ (8 * Z.of_nat n)) = le_bytes n z.
Proof.
  revert z. induction n as [|n IH]; intros z; [done|]. cbn [le_bytes].
  replace (8 * Z.of_nat (S n)) with (8 + 8 * Z.of_nat n) by lia. rewrite Z.pow_add_r by lia.
  rewrite Z.rem_mul_r by lia.
  rewrite (Z.mul_comm (2 ^ 8)), Z.mod_add, Z.mod_mod, Z.div_add by lia.
  rewrite (Z.div_small (z mod 2 ^ 8)) by (apply Z.mod_pos_bound; lia). f_equal. apply IH.
Qed.

(** A written word is read back modulo its width. *)
Lemma read_write_mod n offset z bytes bytes' :
  write_at offset (le_bytes n z) bytes = Some bytes' ->
  read_at n offset bytes' = z mod 2 ^ (8 * Z.of_nat n).
Proof.
  rewrite <- le_bytes_mod. apply read_write_same. apply Z.mod_pos_bound. lia.
Qed.

(** Reads outside the written range are unchanged. *)
Lemma read_write_other n offset offset' value bytes bytes' :
  (offset' + n <= offset \/ offset + length value <= offset')%nat ->
  write_at offset value bytes = Some bytes' -> read_at n offset' bytes' = read_at n offset' bytes.
Proof.
  intros Hdisj [Hlen ->]%write_at_Some. unfold read_at. f_equal.
  apply list_eq. intros i. destruct (decide (i < n)%nat) as [Hi|Hi].
  - rewrite !lookup_take_lt, !lookup_drop by done.
    destruct Hdisj; [rewrite list_lookup_inserts_lt by lia|rewrite list_lookup_inserts_ge by lia]; done.
  - by rewrite !lookup_take_ge by lia.
Qed.
