(* ===== verification/NotifyDecode.v ===== *)
(** Decoding of queue notifications (src/esptool/src/esp/EspNotifyAbi.h and
    EspNotifyDecode.h). Every decoder takes the [View] of process memory last;
    a failed decoder leaves its outputs alone, so it returns an option. *)
From S2P Require Import Prelude Core Events MemoryView.

(** ** Layout *)

Definition kNotificationQueueIdOffset : Z := 0.
Definition kNotificationKindOffset : Z := 8.
Definition kNotificationDataPtrOffset : Z := 16.
Definition kNotificationOverlappedPtrOffset : Z := 24.
Definition kNotificationInternalHighPtrOffset : Z := 32.
Definition kNotificationDataCandidates : list Z :=
  [kNotificationDataPtrOffset; kNotificationKindOffset; kNotificationOverlappedPtrOffset;
   kNotificationInternalHighPtrOffset].
Definition kEventDataTypeOffsetPrimary : Z := 120.
Definition kEventDataParamsOffsetPrimary : Z := 160.
Definition kEventDataTypeOffsetAlternate : Z := 136.
Definition kEventDataParamsOffsetAlternate : Z := 192.
Definition kNotificationProcessObjectOffset : Z := 80.
Definition kEventDataTypeOffsetProcess : Z := 224.
Definition kBoxedTypeOffset : Z := 4.
Definition kBoxedPayloadOffset : Z := 8.
Definition kPropertyValueTagOffset : Z := 0.
Definition kPropertyValueU32Offset : Z := 4.
Definition kBoxedTypeU32 : Z := 4.
Definition kBoxedTypeInt32 : Z := 5.
Definition kBoxedTypePathString : Z := 7.
Definition kBoxedTypeUnicodeString : Z := 8.
Definition kPropertyValueTagU32 : Z := 4.
Definition kNotificationQueryCountOffset : Z := 288.
Definition kNotificationQueryPtrOffset : Z := 296.
Definition kNotificationQueryCountMax : Z := 16.
Definition kQuerySlotPropertyOffset : Z := 0.
Definition kQuerySlotTypeOffset : Z := 4.
Definition kQuerySlotPayloadOffset : Z := 8.
Definition kQuerySlotStride : Z := 16.
Definition kProcessQueryPropertyPid : Z := 6.
Definition kProcessQueryPropertyName : Z := 1.
Definition kObjectQueryCountOffset : Z := 8.
Definition kObjectQueryPtrOffset : Z := 16.
Definition kParamsPidBagOffset : Z := 16.
Definition kParamsTidBagOffset : Z := 8.
Definition kProcessPidBagCandidates : list Z := [kParamsPidBagOffset; 0; 24; 32; 40; 48; 72; 216; 632].
Definition kFoNotificationNamePtrOffset : Z := 560.
Definition kFoNotificationNameUsOffset : Z := 568.
Definition kFoNotificationInlineNameOffset : Z := 568.
Definition kNtPathFirstWchar : Z := 0x5C.
Definition kEventDataScanLimit : Z := 256.
Definition kEventDataNearbyParamsPrimary : Z := 40.
Definition kEventDataNearbyParamsAlternate : Z := 56.

(** ** Boxed values *)

Definition TryUnboxU32 (boxed expect_type : Z) (v : View) : option Z :=
  if boxed =? 0 then None
  else
    boxed_type ← NotifyReadU32 boxed kBoxedTypeOffset v;
    if negb (boxed_type =? expect_type) then None
    else NotifyReadU32 boxed kBoxedPayloadOffset v.

Definition TryUnboxPid (boxed : Z) (v : View) : option Z :=
  match TryUnboxU32 boxed kBoxedTypeU32 v with
  | Some out => Some out
  | None =>
      match TryUnboxU32 boxed kBoxedTypeInt32 v with
      | Some out => Some out
      | None =>
          tag ← ReadPod 1 boxed kPropertyValueTagOffset v;
          if tag =? kPropertyValueTagU32
          then NotifyReadU32 boxed kPropertyValueU32Offset v else None
      end
  end.

Definition IsNameBoxedType (boxed_type : Z) : bool :=
  (boxed_type =? kBoxedTypePathString) || (boxed_type =? kBoxedTypeUnicodeString).

Definition TryReadQueryBagU32 (params bag_offset min_count : Z) (v : View) : option Z :=
  bag ← NotifyReadPtr params bag_offset v;
  count ← NotifyReadU32 bag kObjectQueryCountOffset v;
  if count <? min_count then None
  else boxed ← NotifyReadPtr bag kObjectQueryPtrOffset v; TryUnboxPid boxed v.

(** ** Include-query slots of a notification *)

(** The slots of an array in index order, [fuel] of them from [index]. *)
Fixpoint find_slot (matches : Z -> View -> bool) (v : View) (array index : Z) (fuel : nat)
    : option Z :=
  match fuel with
  | O => None
  | S fuel =>
      let cursor := QuerySlotAt array index kQuerySlotStride in
      if matches cursor v then Some cursor
      else find_slot matches v array (index + 1) fuel
  end.

Definition FindQuerySlot (matches : Z -> View -> bool) (notification : Z) (v : View) : option Z :=
  if notification =? 0 then None
  else
    count ← NotifyReadU32 notification kNotificationQueryCountOffset v;
    if (count =? 0) || (kNotificationQueryCountMax <? count) then None
    else
      array ← NotifyReadPtr notification kNotificationQueryPtrOffset v;
      find_slot matches v array 0 (Z.to_nat count).

Definition slot_has_property (property cursor : Z) (v : View) : bool :=
  match NotifyReadU32 cursor kQuerySlotPropertyOffset v with
  | Some found => found =? property
  | None => false
  end.

Definition slot_has_name (cursor : Z) (v : View) : bool :=
  match NotifyReadU32 cursor kQuerySlotTypeOffset v with
  | Some boxed_type => IsNameBoxedType boxed_type
  | None => false
  end.

Definition TryReadNotificationQuerySlot (notification property : Z) (v : View) : option Z :=
  FindQuerySlot (slot_has_property property) notification v.

Definition TryReadNotificationQueryPid (notification : Z) (v : View) : option Z :=
  slot ← TryReadNotificationQuerySlot notification kProcessQueryPropertyPid v;
  TryUnboxPid slot v.

Definition TryReadNotificationQueryNameSlot (notification : Z) (v : View) : option Z :=
  FindQuerySlot slot_has_name notification v.

(** ** Process and thread ids *)

(** First candidate whose read succeeds. *)
Fixpoint first_some {A B} (f : A -> option B) (l : list A) : option B :=
  match l with
  | [] => None
  | a :: rest => match f a with Some b => Some b | None => first_some f rest end
  end.

(** The pid and tid written over the caller's values; [None] when neither is found. *)
Definition TryReadPidTidFromParams (params pid tid : Z) (v : View) : option (Z * Z) :=
  if params =? 0 then None
  else
    let found_pid := first_some (fun bag_offset => TryReadQueryBagU32 params bag_offset 1 v)
                       kProcessPidBagCandidates in
    let found_tid := TryReadQueryBagU32 params kParamsTidBagOffset 1 v in
    match found_pid, found_tid with
    | None, None => None
    | _, _ => Some (default pid found_pid, default tid found_tid)
    end.

(** ** Event type and parameter block *)

Fixpoint scan_event_type (data : Z) (v : View) (offset : Z) (fuel : nat) : option (Z * Z) :=
  match fuel with
  | O => None
  | S fuel =>
      let next := scan_event_type data v (offset + 4) fuel in
      match NotifyReadU32 data offset v with
      | None => next
      | Some value =>
          if negb (IsSparseEventType value) then next
          else if negb (IsPipeEventType value) && (value <? kEventProcessCreate) then next
          else Some (value, offset)
      end
  end.

(** The event type and its offset; 64 aligned words below the scan limit. *)
Definition ScanSparseEventType (data : Z) (v : View) : option (Z * Z) :=
  if data =? 0 then None
  else scan_event_type data v 0 (Z.to_nat (kEventDataScanLimit / 4)).

Record Bound := mkBound {
  bd_event_type : Z;
  bd_params : Z;
  bd_uses_primary : bool;
  bd_type_offset : Z
}.

Definition TryBindLayout (data type_off params_off : Z) (primary : bool) (v : View)
    : option Bound :=
  type ← NotifyReadU32 data type_off v;
  if negb (IsSparseEventType type) then None
  else Some (mkBound type (default 0 (NotifyReadPtr data params_off v)) primary type_off).

Definition bind_scanned (data : Z) (v : View) : option Bound :=
  '(scanned, type_offset) ← ScanSparseEventType data v;
  Some match NotifyReadPtr data (type_offset + kEventDataNearbyParamsPrimary) v with
       | Some nearby => mkBound scanned nearby true type_offset
       | None =>
           match NotifyReadPtr data (type_offset + kEventDataNearbyParamsAlternate) v with
           | Some nearby => mkBound scanned nearby false type_offset
           | None => mkBound scanned 0 (type_offset =? kEventDataTypeOffsetPrimary) type_offset
           end
       end.

Definition layouts : list (Z * Z * bool) :=
  [ (kEventDataTypeOffsetPrimary, kEventDataParamsOffsetPrimary, true);
    (kEventDataTypeOffsetAlternate, kEventDataParamsOffsetAlternate, false);
    (kEventDataTypeOffsetProcess, kNotificationProcessObjectOffset, true);
    (kEventDataTypeOffsetProcess, kEventDataParamsOffsetPrimary, true) ].

Definition TryBindEventData (data : Z) (v : View) : option Bound :=
  if data =? 0 then None
  else
    match first_some (fun '(type_off, params_off, primary) =>
            TryBindLayout data type_off params_off primary v) layouts with
    | Some bound => Some bound
    | None => bind_scanned data v
    end.

(** ** File object names *)

Inductive FoNameLayout := FoNameNone | FoNameUnicodeString | FoNameInlineUtf16.

Definition try_us (notification : Z) (v : View) : option Z :=
  length ← NotifyReadU16 notification kFoNotificationNameUsOffset v;
  if (length =? 0) || negb (Z.land length 1 =? 0) then None
  else
    buffer ← NotifyReadPtr notification (kFoNotificationNameUsOffset + 8) v;
    first ← NotifyReadU16 buffer 0 v;
    if first =? kNtPathFirstWchar then Some (notification + kFoNotificationNameUsOffset) else None.

Definition starts_nt_path (base offset : Z) (v : View) : bool :=
  match NotifyReadU16 base offset v with
  | Some first => first =? kNtPathFirstWchar
  | None => false
  end.

Definition try_inline (notification : Z) (v : View) : option Z :=
  if starts_nt_path notification kFoNotificationInlineNameOffset v
  then Some (notification + kFoNotificationInlineNameOffset)
  else
    pointed ← NotifyReadPtr notification kFoNotificationNamePtrOffset v;
    if starts_nt_path pointed 0 v then Some pointed else None.

(** The layout and, when there is one, the address the name is read from. *)
Definition ClassifyFoNotificationName (event_type notification : Z) (v : View)
    : FoNameLayout * Z :=
  let us := match try_us notification v with
            | Some source => Some (FoNameUnicodeString, source) | None => None end in
  let inline := match try_inline notification v with
                | Some source => Some (FoNameInlineUtf16, source) | None => None end in
  let none := (FoNameNone, 0) in
  if notification =? 0 then none
  else if event_type =? kEventFoCreate then default none us
  else if event_type =? kEventFoOpen then default none inline
  else if (kEventFoRead <=? event_type) && (event_type <=? kEventFoCleanup)
  then match us with Some found => found | None => default none inline end
  else none.

(** * Theorems *)

(** ** Decoders depend on readable memory only *)

#[export] Instance TryUnboxU32_proper boxed t : Proper ((≡) ==> (=)) (TryUnboxU32 boxed t).
Proof.
  intros v w H. unfold TryUnboxU32. case_if; [done|]. rewrite H.
  destruct (NotifyReadU32 boxed kBoxedTypeOffset w); simpl; [|done]. by rewrite H.
Qed.

#[export] Instance TryUnboxPid_proper boxed : Proper ((≡) ==> (=)) (TryUnboxPid boxed).
Proof.
  intros v w H. unfold TryUnboxPid. rewrite H.
  destruct (TryUnboxU32 boxed kBoxedTypeU32 w); [done|]. rewrite H.
  destruct (TryUnboxU32 boxed kBoxedTypeInt32 w); [done|]. rewrite H.
  destruct (ReadPod 1 boxed _ w); simpl; [|done]. by rewrite H.
Qed.

#[export] Instance TryReadQueryBagU32_proper params off n :
  Proper ((≡) ==> (=)) (TryReadQueryBagU32 params off n).
Proof.
  intros v w H. unfold TryReadQueryBagU32. rewrite H.
  destruct (NotifyReadPtr params off w) as [bag|]; simpl; [|done]. rewrite H.
  destruct (NotifyReadU32 bag _ w); simpl; [|done]. case_if; [done|]. rewrite H.
  destruct (NotifyReadPtr bag _ w); simpl; [|done]. by rewrite H.
Qed.

#[export] Instance slot_has_property_proper p c : Proper ((≡) ==> (=)) (slot_has_property p c).
Proof. intros v w H. unfold slot_has_property. by rewrite H. Qed.

#[export] Instance slot_has_name_proper c : Proper ((≡) ==> (=)) (slot_has_name c).
Proof. intros v w H. unfold slot_has_name. by rewrite H. Qed.

Lemma find_slot_ext matches v w array index fuel :
  (forall c, matches c v = matches c w) ->
  find_slot matches v array index fuel = find_slot matches w array index fuel.
Proof.
  intros Hm. revert index. induction fuel as [|fuel IH]; intros index; [done|].
  simpl. by rewrite Hm, IH.
Qed.

Lemma FindQuerySlot_ext matches notification v w :
  v ≡ w -> (forall c, matches c v = matches c w) ->
  FindQuerySlot matches notification v = FindQuerySlot matches notification w.
Proof.
  intros H Hm. unfold FindQuerySlot. case_if; [done|]. rewrite H.
  destruct (NotifyReadU32 notification _ w); simpl; [|done]. case_if; [done|]. rewrite H.
  destruct (NotifyReadPtr notification _ w); simpl; [|done]. by apply find_slot_ext.
Qed.

#[export] Instance TryReadNotificationQuerySlot_proper n p :
  Proper ((≡) ==> (=)) (TryReadNotificationQuerySlot n p).
Proof. intros v w H. apply FindQuerySlot_ext; [done|]. intros c. by rewrite H. Qed.

#[export] Instance TryReadNotificationQueryNameSlot_proper n :
  Proper ((≡) ==> (=)) (TryReadNotificationQueryNameSlot n).
Proof. intros v w H. apply FindQuerySlot_ext; [done|]. intros c. by rewrite H. Qed.

#[export] Instance TryReadNotificationQueryPid_proper n :
  Proper ((≡) ==> (=)) (TryReadNotificationQueryPid n).
Proof.
  intros v w H. unfold TryReadNotificationQueryPid. rewrite H.
  destruct (TryReadNotificationQuerySlot n _ w); simpl; [|done]. by rewrite H.
Qed.

Lemma first_some_ext {A B} (f g : A -> option B) l :
  (forall a, f a = g a) -> first_some f l = first_some g l.
Proof. intros H. induction l as [|a l IH]; simpl; [done|]. by rewrite H, IH. Qed.

#[export] Instance TryReadPidTidFromParams_proper params pid tid :
  Proper ((≡) ==> (=)) (TryReadPidTidFromParams params pid tid).
Proof.
  intros v w H. unfold TryReadPidTidFromParams. case_if; [done|]. cbv zeta.
  rewrite (first_some_ext _ (fun off => TryReadQueryBagU32 params off 1 w))
    by (intros; by rewrite H).
  by rewrite (TryReadQueryBagU32_proper params kParamsTidBagOffset 1 v w H).
Qed.

Lemma scan_event_type_ext data v w offset fuel :
  v ≡ w -> scan_event_type data v offset fuel = scan_event_type data w offset fuel.
Proof.
  intros H. revert offset. induction fuel as [|fuel IH]; intros offset; [done|].
  cbn [scan_event_type]. by rewrite IH, H.
Qed.

#[export] Instance ScanSparseEventType_proper data :
  Proper ((≡) ==> (=)) (ScanSparseEventType data).
Proof.
  intros v w H. unfold ScanSparseEventType. case_if; [done|]. by apply scan_event_type_ext.
Qed.

#[export] Instance TryBindLayout_proper data t p b : Proper ((≡) ==> (=)) (TryBindLayout data t p b).
Proof.
  intros v w H. unfold TryBindLayout. rewrite H.
  destruct (NotifyReadU32 data t w); simpl; [|done]. by rewrite H.
Qed.

#[export] Instance TryBindEventData_proper data : Proper ((≡) ==> (=)) (TryBindEventData data).
Proof.
  intros v w H. unfold TryBindEventData. case_if; [done|].
  rewrite (first_some_ext _ (fun '(t, p, b) => TryBindLayout data t p b w))
    by (intros [[??]?]; by rewrite H).
  destruct (first_some _ layouts); [done|]. unfold bind_scanned. rewrite H.
  destruct (ScanSparseEventType data w) as [[??]|]; simpl; [|done].
  by rewrite !(NotifyReadPtr_proper data _ v w H).
Qed.

#[export] Instance starts_nt_path_proper base off : Proper ((≡) ==> (=)) (starts_nt_path base off).
Proof. intros v w H. unfold starts_nt_path. by rewrite H. Qed.

#[export] Instance try_us_proper n : Proper ((≡) ==> (=)) (try_us n).
Proof.
  intros v w H. unfold try_us. rewrite H.
  destruct (NotifyReadU16 n _ w); simpl; [|done]. case_if; [done|]. rewrite H.
  destruct (NotifyReadPtr n _ w); simpl; [|done]. by rewrite H.
Qed.

#[export] Instance try_inline_proper n : Proper ((≡) ==> (=)) (try_inline n).
Proof.
  intros v w H. unfold try_inline. rewrite H. case_if; [done|]. rewrite H.
  destruct (NotifyReadPtr n _ w); simpl; [|done]. by rewrite H.
Qed.

#[export] Instance ClassifyFoNotificationName_proper t n :
  Proper ((≡) ==> (=)) (ClassifyFoNotificationName t n).
Proof.
  intros v w H. unfold ClassifyFoNotificationName.
  by rewrite (try_us_proper n v w H), (try_inline_proper n v w H).
Qed.
