(* ===== verification/NotifyFormat.v ===== *)
(** Keys and property lines of a queue notification
    (src/esptool/src/esp/EspNotifyFormat.cpp).

    [IsCommittedReadable] is over the page query of the system and over the
    guarded probe of [SafeProbeRead]; the decoders take the [View] whose
    readability test it is, and the UTF-16 conversion routine. *)
From S2P Require Import Prelude Text Core Events MemoryView NotifyDecode.

Definition kParamsObjectOffset : Z := 24.
Definition kNameCollectionOffset : Z := 40.
Definition kNameCollectionCountOffset : Z := 8.
Definition kNameBoxedOffset : Z := 16.
Definition kNameWrapperInnerOffsetAlternate : Z := 48.
Definition kWrapperStatusOffset : Z := 16.
Definition kWrapperBlobOffset : Z := 8.
Definition kUnicodeStringLengthOffset : Z := 0.
Definition kUnicodeStringBufferOffset : Z := 8.
Definition kPropertyValueTagPath : Z := 7.
Definition kPropertyCollectionStride : Z := 16.
Definition kNotificationIdentifierOffset : Z := 64.
Definition kNotificationPayloadLengthOffset : Z := 72.
Definition kBoxedTypeInt64 : Z := 10.
Definition kEventDataProcessObjectOffset : Z := 72.
Definition kProcessCreateChildObjectOffset : Z := 216.
Definition kProcessCreateActorObjectOffset : Z := 632.

(** ** Readable memory *)

Definition MEM_COMMIT : Z := 0x1000.
Definition PAGE_NOACCESS : Z := 0x01.
Definition PAGE_EXECUTE : Z := 0x10.

(** The fields of MEMORY_BASIC_INFORMATION the tool looks at. *)
Record Region := mkRegion {
  rg_BaseAddress : Z;
  rg_RegionSize : Z;
  rg_State : Z;
  rg_Protect : Z
}.

Section Readable.
  (** [VirtualQuery], [None] for a zero return, and whether a one-byte read at
      an address raises an access violation. *)
  Context (VirtualQuery : Z -> option Region).
  Context (faults : Z -> bool).

Definition SafeProbeRead (ptr size : Z) : bool :=
    if (ptr =? 0) || (size =? 0) then false
    else negb (faults ptr) && negb (faults (ptr + size - 1)).

Definition region_readable (info : Region) : bool :=
    if negb (rg_State info =? MEM_COMMIT) then false
    else
      let protect := Z.land (rg_Protect info) 0xFF in
      negb ((protect =? PAGE_NOACCESS) || (protect =? PAGE_EXECUTE)).

  (** The loop over regions; every turn takes at least one byte, so [remaining]
      turns are enough. *)
Fixpoint regions_readable (fuel : nat) (cursor remaining : Z) : bool :=
    if remaining <=? 0 then true
    else
      match fuel with
      | O => false
      | S fuel =>
          match VirtualQuery cursor with
          | None => false
          | Some info =>
              if negb (region_readable info) then false
              else
                let region_end := rg_BaseAddress info + rg_RegionSize info in
                if region_end <=? cursor then false
                else
                  let chunk := region_end - cursor in
                  let taken := if chunk <? remaining then chunk else remaining in
                  regions_readable fuel (cursor + taken) (remaining - taken)
          end
      end.

Definition IsCommittedReadable (pointer size : Z) : bool :=
    if (pointer =? 0) || (size =? 0) then false
    else if regions_readable (Z.to_nat size) pointer size
         then SafeProbeRead pointer size else false.

Definition process_view (mem : Z -> Z) : View := mkView mem IsCommittedReadable.
End Readable.

(** ** Property names *)

Definition EventFamilyName (event_type : Z) : string :=
  if (kEventProcessCreate <=? event_type) && (event_type <=? kEventProcessLoadImage) then "Process"
  else if (kEventThreadCreate <=? event_type) && (event_type <=? kEventThreadTerminate)
  then "Thread"
  else if IsFoIoEvent event_type then "FileObject"
  else if event_type =? kEventPipeCreate then "Pipe"
  else if event_type =? kEventMailslotCreate then "Mailslot"
  else if IsRegistryEventType event_type then "Registry"
  else if (kEventFsMin <=? event_type) && (event_type <=? kEventFsLockFile) then "Filesystem"
  else if (event_type =? 3010) || (event_type =? 3011) then "Ktm"
  else if (kEventVolumeMin <=? event_type) && (event_type <=? kEventVolumeMax) then "Volume"
  else if (event_type =? kEventObCreateHandle) || (event_type =? kEventObDuplicateHandle)
  then "Handle"
  else "Unknown".

(** Family, prefix of its unnamed properties, named properties. *)
Definition property_names : list (string * (string * list (Z * string))) :=
  [ ("Process", ("ProcessProp_",
      [(1, "CommandLine"); (2, "SessionId"); (3, "ParentProcessId"); (4, "JobId");
       (5, "Affinity"); (6, "ProcessId"); (7, "ExitStatus"); (8, "CreateTime"); (9, "ExitTime");
       (10, "KernelTime"); (11, "UserTime"); (12, "ExitStatus"); (13, "UniqueProcessKey");
       (14, "ProcessStartTime"); (16, "Wow64Process"); (17, "ProtectionLevel");
       (18, "MitigationFlags"); (19, "TokenElevation"); (20, "ImagePath"); (21, "Subsystem");
       (22, "Machine")]));
    ("Thread", ("ThreadProp_",
      [(1, "ThreadId"); (2, "ProcessId"); (3, "CreateTime"); (4, "ExitTime");
       (5, "StartAddress"); (6, "Subsystem"); (7, "Win32StartAddress")]));
    ("FileObject", ("FileObjectProp_",
      [(1, "FileName"); (2, "Disposition"); (3, "AccessMask"); (4, "ShareAccess");
       (5, "CreateOptions"); (6, "FileAttributes"); (7, "StreamName"); (8, "EndOfFile");
       (9, "VolumeName"); (10, "FileIndex"); (18, "FileId"); (28, "FileObjectType")]));
    ("Pipe", ("PipeProp_",
      [(1, "PipeName"); (2, "PipeConfiguration"); (3, "MaxInstances"); (4, "CurrentInstances")]));
    ("Mailslot", ("MailslotProp_",
      [(1, "MailslotName"); (2, "MaxMessageSize"); (3, "ReadTimeout")]));
    ("Registry", ("RegistryProp_",
      [(1, "KeyPath"); (2, "ValueName"); (3, "ValueType"); (4, "ValueData"); (5, "Class");
       (6, "TitleIndex")]));
    ("Filesystem", ("FsProp_",
      [(1, "FileName"); (2, "FileInformationClass"); (3, "FileAccess"); (4, "AllocationSize");
       (5, "EndOfFile"); (6, "FileAttributes"); (7, "SecurityInformation"); (8, "EaName");
       (9, "FsctlCode")]));
    ("Volume", ("VolumeProp_",
      [(1, "VolumeGuid"); (2, "DeviceName"); (3, "FileSystemType"); (4, "FsctlCode")]));
    ("Ktm", ("KtmProp_",
      [(1, "TransactionId"); (2, "TransactionUow"); (3, "IsolationLevel"); (4, "Timeout")]));
    ("Handle", ("HandleProp_",
      [(1, "Handle"); (2, "DesiredAccess"); (3, "GrantedAccess"); (4, "TargetProcessId");
       (5, "SourceProcessId")]));
    ("Token", ("TokenProp_",
      [(1, "TokenUserSid"); (2, "TokenGroups"); (3, "TokenPrivileges"); (4, "TokenOwner");
       (5, "TokenPrimaryGroup"); (6, "TokenDefaultDacl"); (7, "TokenType");
       (8, "TokenImpersonationLevel"); (9, "TokenElevationType"); (10, "TokenIntegrityLevel");
       (11, "TokenAppContainer")]));
    ("Desktop", ("DesktopProp_", [(1, "DesktopName"); (2, "SessionId")])) ].

Definition LookupPropertyName (family : string) (id : Z) : string :=
  match snd <$> find_first (fun entry => (family =? entry.1)%string) property_names with
  | None => "Prop_" +:+ dec id
  | Some (prefix, names) =>
      match snd <$> find_first (fun entry => id =? entry.1) names with
      | Some name => name
      | None => prefix +:+ dec id
      end
  end.

(** ** Decoded data *)

Record DecodedProperty := mkDecodedProperty {
  dp_family : string;
  dp_id : Z;
  dp_type : Z;
  dp_raw_value : Z;
  dp_name : string;
  dp_formatted_value : string;
  dp_is_string : bool
}.

Record NotificationKeys := mkNotificationKeys {
  nk_event_type : Z;
  nk_pid : Z;
  nk_tid : Z;
  nk_name : string;
  nk_properties : list DecodedProperty
}.

Definition empty_keys : NotificationKeys := mkNotificationKeys 0 0 0 "" [].

(** UTF-16 code units from an address. *)
Fixpoint load_wide (mem : Z -> Z) (address : Z) (n : nat) : wstring :=
  match n with
  | O => []
  | S n => le_value (load mem address 2) :: load_wide mem (address + 2) n
  end.

(** [text::ToUtf8] is the only conversion these decoders use. *)
Section Format.
Context (ToUtf8 : wstring -> string).

(** ** Names *)

Definition TryReadUnicodeString (us : Z) (v : View) : option string :=
  if us =? 0 then None
  else
    length ← NotifyReadU16 us kUnicodeStringLengthOffset v;
    buffer ← NotifyReadPtr us kUnicodeStringBufferOffset v;
    if (length =? 0) || negb (Z.land length 1 =? 0) || (32766 <? length) then None
    else if negb (vw_readable v buffer length) then None
    else Some (ToUtf8 (load_wide (vw_mem v) buffer (Z.to_nat (length / 2)))).

Definition TryReadNamePrimary (params : Z) (v : View) : option string :=
  object ← NotifyReadPtr params kParamsObjectOffset v;
  collection ← NotifyReadPtr object kNameCollectionOffset v;
  count ← NotifyReadU32 collection kNameCollectionCountOffset v;
  if count <? 1 then None
  else
    boxed ← NotifyReadPtr collection kNameBoxedOffset v;
    boxed_type ← NotifyReadU32 boxed kBoxedTypeOffset v;
    if negb (IsNameBoxedType boxed_type) then None
    else us ← NotifyReadPtr boxed kBoxedPayloadOffset v; TryReadUnicodeString us v.

Definition TryReadNameAlternate (params : Z) (v : View) : option string :=
  wrapper ← NotifyReadPtr params kParamsObjectOffset v;
  inner ← NotifyReadPtr wrapper kNameWrapperInnerOffsetAlternate v;
  status ← NotifyReadU32 inner kWrapperStatusOffset v;
  if negb (status =? 0) then None
  else us ← NotifyReadPtr inner kWrapperBlobOffset v; TryReadUnicodeString us v.

Definition TryReadNameFromPropertyValue (boxed : Z) (v : View) : option string :=
  tag ← ReadPod 1 boxed kPropertyValueTagOffset v;
  if negb (tag =? kPropertyValueTagPath) then None
  else us ← NotifyReadPtr boxed kBoxedPayloadOffset v; TryReadUnicodeString us v.

Definition TryReadNameFromQuerySlot (slot : Z) (v : View) : option string :=
  if slot =? 0 then None
  else
    match (boxed_type ← NotifyReadU32 slot kQuerySlotTypeOffset v;
           if negb (IsNameBoxedType boxed_type) then None
           else us ← NotifyReadPtr slot kQuerySlotPayloadOffset v; TryReadUnicodeString us v) with
    | Some name => Some name
    | None => TryReadNameFromPropertyValue slot v
    end.

Definition TryReadNameFromNotificationQuery (notification : Z) (v : View) : option string :=
  match (slot ← TryReadNotificationQuerySlot notification 20 v;
         TryReadNameFromQuerySlot slot v) with
  | Some name => Some name
  | None =>
      match (slot ← TryReadNotificationQuerySlot notification kProcessQueryPropertyName v;
             TryReadNameFromQuerySlot slot v) with
      | Some name => Some name
      | None =>
          slot ← TryReadNotificationQueryNameSlot notification v;
          TryReadNameFromQuerySlot slot v
      end
  end.

(** One turn of the bag loop: the slot's pointer, or null when it cannot be read. *)
Definition bag_slot_name (bag index : Z) (v : View) : option string :=
  let boxed := default 0 (NotifyReadPtr bag
                 (kObjectQueryPtrOffset + index * kPropertyCollectionStride) v) in
  match (boxed_type ← NotifyReadU32 boxed kBoxedTypeOffset v;
         if negb (IsNameBoxedType boxed_type) then None
         else NotifyReadPtr boxed kBoxedPayloadOffset v) with
  | Some us => TryReadUnicodeString us v
  | None => TryReadNameFromPropertyValue boxed v
  end.

Definition TryReadNameFromQueryBag (params : Z) (v : View) : option string :=
  bag ← NotifyReadPtr params kParamsPidBagOffset v;
  count ← NotifyReadU32 bag kObjectQueryCountOffset v;
  if count =? 0 then None
  else first_some (fun index => bag_slot_name bag index v) (seqZ 0 count).

(** The printable prefix of an inline path, at most [fuel] characters. *)
Fixpoint inline_units (text index : Z) (v : View) (fuel : nat) : wstring :=
  match fuel with
  | O => []
  | S fuel =>
      match NotifyReadU16 text (index * 2) v with
      | None => []
      | Some unit =>
          if (unit =? 0) || (unit <? 0x20) || (0x7E <? unit) then []
          else unit :: inline_units text (index + 1) v fuel
      end
  end.

Definition TryReadInlineNtPath (text : Z) (v : View) : option string :=
  if text =? 0 then None
  else
    first ← NotifyReadU16 text 0 v;
    if negb (first =? kNtPathFirstWchar) then None
    else
      let wide := inline_units text 0 v 260 in
      match wide with
      | front :: _ => if front =? 0x5C then Some (ToUtf8 wide) else None
      | [] => None
      end.

Definition TryReadFoNotificationName (notification event_type : Z) (v : View) : option string :=
  let '(layout, source) := ClassifyFoNotificationName event_type notification v in
  match layout with
  | FoNameUnicodeString => TryReadUnicodeString source v
  | FoNameInlineUtf16 => TryReadInlineNtPath source v
  | FoNameNone => None
  end.

(** A reader that fills an empty name. *)
Definition or_read (name : string) (read : option string) : string :=
  if is_empty name then default name read else name.

Definition ReadNotificationName (params : Z) (name : string) (v : View) : string :=
  if params =? 0 then name
  else
    let name := default name (TryReadNameFromQueryBag params v) in
    let name := or_read name (TryReadNamePrimary params v) in
    or_read name (TryReadNameAlternate params v).

(** ** Header and event data *)

Definition ReadNotificationHeader (bytes : Z) (v : View) : option (Z * Z * Z) :=
  kind ← ReadPod 4 bytes kNotificationKindOffset v;
  identifier ← ReadPod 8 bytes kNotificationIdentifierOffset v;
  payload_length ← ReadPod 4 bytes kNotificationPayloadLengthOffset v;
  Some (kind, identifier, payload_length).

(** The bound layout and the event data block. *)
Definition BindNotificationData (bytes : Z) (v : View) : option (Bound * Z) :=
  match TryBindLayout bytes kEventDataTypeOffsetProcess kNotificationProcessObjectOffset true v with
  | Some bound => Some (bound, bytes)
  | None =>
      first_some (fun candidate =>
        candidate_data ← NotifyReadPtr bytes candidate v;
        bound ← TryBindEventData candidate_data v;
        Some (bound, candidate_data)) kNotificationDataCandidates
  end.

(** ** Properties *)

Definition format_value (prop_type prop_value : Z) (v : View) : string * bool :=
  if IsNameBoxedType prop_type then
    match TryReadUnicodeString prop_value v with
    | Some str_val =>
        if is_empty str_val then ("0x" +:+ hex_upper prop_value, false) else (str_val, true)
    | None => ("0x" +:+ hex_upper prop_value, false)
    end
  else if (prop_type =? kBoxedTypeU32) || (prop_type =? kBoxedTypeInt32)
  then (dec (u32 prop_value) +:+ " (0x" +:+ hex_upper (u32 prop_value) +:+ ")", false)
  else (dec prop_value +:+ " (0x" +:+ hex_upper prop_value +:+ ")", false).

Definition has_property (family : string) (id : Z) (out : list DecodedProperty) : bool :=
  existsb (fun p => (dp_family p =? family)%string && (dp_id p =? id)) out.

(** One slot of a query array: skipped when unreadable or already present. *)
Definition read_property (family : string) (cursor : Z) (v : View) (out : list DecodedProperty)
    : list DecodedProperty :=
  if negb (vw_readable v cursor 16) then out
  else
    match (id ← NotifyReadU32 cursor 0 v; type ← NotifyReadU32 cursor 4 v;
           value ← ReadPod 8 cursor 8 v; Some (id, type, value)) with
    | None => out
    | Some (id, type, value) =>
        if has_property family id out then out
        else
          let '(formatted, is_string) := format_value type value v in
          out ++ [mkDecodedProperty family id type value (LookupPropertyName family id)
                    formatted is_string]
    end.

Definition read_properties (family : string) (array count : Z) (v : View)
    (out : list DecodedProperty) : list DecodedProperty :=
  fold_left (fun out i => read_property family (array + i * kQuerySlotStride) v out)
    (seqZ 0 count) out.

Definition read_query_array (bytes : Z) (family : string) (v : View)
    (out : list DecodedProperty) : list DecodedProperty :=
  match (query_count ← NotifyReadU32 bytes kNotificationQueryCountOffset v;
         if negb ((0 <? query_count) && (query_count <=? 256)) then None
         else array ← NotifyReadPtr bytes kNotificationQueryPtrOffset v;
              Some (query_count, array)) with
  | None => out
  | Some (count, array) => read_properties family array count v out
  end.

Definition read_bag (params bag_offset : Z) (family : string) (v : View)
    (out : list DecodedProperty) : list DecodedProperty :=
  match (bag ← NotifyReadPtr params bag_offset v;
         count ← NotifyReadU32 bag kObjectQueryCountOffset v;
         if (count =? 0) || (64 <? count) then None
         else items ← NotifyReadPtr bag kObjectQueryPtrOffset v; Some (count, items)) with
  | None => out
  | Some (count, items) => read_properties family items count v out
  end.

Definition ReadNotificationProperties (bytes event_type params : Z) (v : View)
    (out : list DecodedProperty) : list DecodedProperty :=
  if bytes =? 0 then out
  else
    let event_family := EventFamilyName event_type in
    let out := read_query_array bytes event_family v out in
    if params =? 0 then out
    else
      let out := read_bag params kParamsPidBagOffset "Process" v out in
      let out := read_bag params kParamsTidBagOffset "Thread" v out in
      read_bag params kParamsObjectOffset event_family v out.

(** ** Keys *)

Definition is_process_event (event_type : Z) : bool :=
  (kEventProcessCreate <=? event_type) && (event_type <=? kEventProcessLoadImage).

Definition process_object_offs : list Z :=
  [kEventDataProcessObjectOffset; kNotificationProcessObjectOffset;
   kProcessCreateChildObjectOffset; kProcessCreateActorObjectOffset].

(** The loop over the process objects of the event data: it stops once a pid or
    a name is known. *)
Fixpoint read_process_objects (event_data : Z) (offs : list Z) (v : View)
    (pid tid : Z) (name : string) : Z * Z * string :=
  match offs with
  | [] => (pid, tid, name)
  | off :: rest =>
      match NotifyReadPtr event_data off v with
      | None => read_process_objects event_data rest v pid tid name
      | Some process_object =>
          let '(pid, tid) := default (pid, tid)
            (TryReadPidTidFromParams process_object pid tid v) in
          let name := if is_empty name then ReadNotificationName process_object name v else name in
          if negb (pid =? 0) || negb (is_empty name) then (pid, tid, name)
          else read_process_objects event_data rest v pid tid name
      end
  end.

(** One turn of the loop that completes the keys from the properties. *)
Definition complete_key (event_type : Z) (keys : Z * Z * string) (prop : DecodedProperty)
    : Z * Z * string :=
  let '(pid, tid, name) := keys in
  let pid := if (pid =? 0) && (dp_family prop =? "Process")%string && (dp_id prop =? 6)
             then u32 (dp_raw_value prop) else pid in
  let tid := if (tid =? 0) && (dp_family prop =? "Thread")%string && (dp_id prop =? 1)
             then u32 (dp_raw_value prop) else tid in
  let name :=
    if is_empty name then
      if is_process_event event_type then
        if (dp_family prop =? "Process")%string && (dp_id prop =? 20) && dp_is_string prop
        then dp_formatted_value prop else name
      else if (dp_id prop =? 1) && dp_is_string prop then dp_formatted_value prop else name
    else name in
  (pid, tid, name).

(** Event type, parameters and event data, zero when nothing binds. *)
Definition bound_data (bytes : Z) (v : View) : Z * Z * Z :=
  match BindNotificationData bytes v with
  | Some (bound, event_data) => (bd_event_type bound, bd_params bound, event_data)
  | None => (0, 0, 0)
  end.

Definition direct_keys (bytes event_type params event_data : Z) (v : View) : Z * Z * string :=
  let pid := default 0 (TryReadNotificationQueryPid bytes v) in
  let name := default "" (TryReadNameFromNotificationQuery bytes v) in
  let name := if is_empty name && IsFoIoEvent event_type
              then default name (TryReadFoNotificationName bytes event_type v) else name in
  let '(pid, tid, name) :=
    if params =? 0 then (pid, 0, name)
    else
      let '(pid, tid) := if pid =? 0
        then default (pid, 0) (TryReadPidTidFromParams params pid 0 v) else (pid, 0) in
      (pid, tid, if is_empty name then ReadNotificationName params name v else name) in
  if (pid =? 0) && negb (event_data =? 0) && is_process_event event_type
  then read_process_objects event_data process_object_offs v pid tid name
  else (pid, tid, name).

(** The result and the keys left in the output argument. *)
Definition DecodeNotificationKeys (bytes : Z) (v : View) : bool * NotificationKeys :=
  if bytes =? 0 then (false, empty_keys)
  else
    match ReadNotificationHeader bytes v with
    | None => (false, empty_keys)
    | Some _ =>
        let '(event_type, params, event_data) := bound_data bytes v in
        let keys := direct_keys bytes event_type params event_data v in
        let properties := ReadNotificationProperties bytes event_type params v [] in
        let '(pid, tid, name) := fold_left (complete_key event_type) properties keys in
        (negb (event_type =? 0) || negb (pid =? 0) || negb (is_empty name)
           || nonempty properties,
         mkNotificationKeys event_type pid tid name properties)
    end.

(** ** Lines *)

Definition header_line (index identifier kind payload event pid tid : Z) (name : string) : string :=
  "notification " +:+ dec index +:+ " id=" +:+ dec identifier +:+ " kind=" +:+ dec kind +:+
  " payload=" +:+ dec payload +:+ " event=" +:+ dec event +:+ " pid=" +:+ dec pid +:+
  " tid=" +:+ dec tid +:+ " name=" +:+ name.

Definition FormatEmptyNotificationLine (index : Z) : string :=
  "notification " +:+ dec index +:+ " id=0 kind=0 payload=0 event=0 pid=0 tid=0 name=-".

Definition property_line (prop : DecodedProperty) : string :=
  newline +:+ "  prop[" +:+ dp_family prop +:+ ":" +:+ dec (dp_id prop) +:+ "] (" +:+
  (if is_empty (dp_name prop) then "Property" else dp_name prop) +:+ ", type " +:+
  dec (dp_type prop) +:+ "): " +:+ dp_formatted_value prop.

Definition FormatQueueNotification (bytes index : Z) (v : View) : string :=
  match ReadNotificationHeader bytes v with
  | None => FormatEmptyNotificationLine index
  | Some (kind, identifier, payload_length) =>
      let keys := (DecodeNotificationKeys bytes v).2 in
      fold_left (fun line prop => line +:+ property_line prop) (nk_properties keys)
        (header_line index identifier kind payload_length (nk_event_type keys) (nk_pid keys)
           (nk_tid keys) (if is_empty (nk_name keys) then "-" else nk_name keys))
  end.

End Format.

(** * Theorems *)

(** ** Decoders depend on readable memory only *)

Lemma respects_eq {A} (f : View -> A) v w :
  Proper ((≡) ==> (=)) f -> v ≡ w -> f v = f w.
Proof. intros Hf H. by apply Hf. Qed.

Lemma readable_eq v w p n : v ≡ w -> vw_readable v p n = vw_readable w p n.
Proof. intros [H _]. apply H. Qed.

(** Replaces one view by an equivalent one in every decoder that respects it,
    splitting the results the next decoders depend on. *)
Ltac respect H :=
  let rec go v w :=
    first
      [ match goal with |- ?x = ?y => constr_eq x y; reflexivity end
      | match goal with
        | |- context [?f v] => rewrite (respects_eq f v w _ H); go v w
        | |- context [vw_readable v ?p ?n] => rewrite (readable_eq v w p n H); go v w
        end
      | match goal with
        | |- context [mbind _ ?m] =>
            lazymatch m with
            | context [v] => fail
            | context [mbind _ _] => fail
            | Some _ => simpl
            | None => simpl
            | _ => destruct m; cbn [mbind option_bind]
            end; go v w
        | |- context [match ?m with _ => _ end] =>
            lazymatch m with
            | context [v] => fail
            | context [match _ with _ => _ end] => fail
            | _ => destruct m
            end; go v w
        end ]
  in match type of H with ?v ≡ ?w => go v w end.

Lemma load_wide_ext v w address n size :
  v ≡ w -> vw_readable v address size = true -> 2 * Z.of_nat n <= size ->
  load_wide (vw_mem v) address n = load_wide (vw_mem w) address n.
Proof.
  intros [_ Hm] Hr Hn.
  assert (forall k a, a = address + 2 * Z.of_nat (n - k) -> (k <= n)%nat ->
    load_wide (vw_mem v) a k = load_wide (vw_mem w) a k) as Hall.
  { induction k as [|k IH]; intros a -> Hk; [done|]. cbn [load_wide].
    rewrite (load_ext (vw_mem v) (vw_mem w) _ 2).
    - f_equal. apply IH; lia.
    - intros i Hi. rewrite <- Z.add_assoc. apply (Hm address size); [done|]. lia. }
  apply (Hall n); lia.
Qed.

Section Respect.
Context (ToUtf8 : wstring -> string).

#[local] Instance TryReadUnicodeString_proper us :
  Proper ((≡) ==> (=)) (TryReadUnicodeString ToUtf8 us).
Proof.
  intros v w H. unfold TryReadUnicodeString. case_if; [done|].
  rewrite (respects_eq (NotifyReadU16 us kUnicodeStringLengthOffset) v w _ H).
  destruct (NotifyReadU16 us _ w) as [n|] eqn:Hn; cbn [mbind option_bind]; [|done].
  rewrite (respects_eq (NotifyReadPtr us kUnicodeStringBufferOffset) v w _ H).
  destruct (NotifyReadPtr us _ w) as [buffer|]; cbn [mbind option_bind]; [|done].
  case_if; [done|]. rewrite (readable_eq v w _ _ H). case_if; [done|].
  do 2 f_equal. apply ReadPod_range in Hn.
  apply (load_wide_ext v w buffer _ n H).
  - rewrite (readable_eq v w _ _ H). by destruct (vw_readable w buffer n).
  - pose proof (Z.div_mod n 2). pose proof (Z.mod_pos_bound n 2). lia.
Qed.

#[local] Instance TryReadNamePrimary_proper params :
  Proper ((≡) ==> (=)) (TryReadNamePrimary ToUtf8 params).
Proof. intros v w H. unfold TryReadNamePrimary. respect H. Qed.

#[local] Instance TryReadNameAlternate_proper params :
  Proper ((≡) ==> (=)) (TryReadNameAlternate ToUtf8 params).
Proof. intros v w H. unfold TryReadNameAlternate. respect H. Qed.

#[local] Instance TryReadNameFromPropertyValue_proper boxed :
  Proper ((≡) ==> (=)) (TryReadNameFromPropertyValue ToUtf8 boxed).
Proof. intros v w H. unfold TryReadNameFromPropertyValue. respect H. Qed.

#[local] Instance TryReadNameFromQuerySlot_proper slot :
  Proper ((≡) ==> (=)) (TryReadNameFromQuerySlot ToUtf8 slot).
Proof. intros v w H. unfold TryReadNameFromQuerySlot. respect H. Qed.

#[local] Instance TryReadNameFromNotificationQuery_proper n :
  Proper ((≡) ==> (=)) (TryReadNameFromNotificationQuery ToUtf8 n).
Proof. intros v w H. unfold TryReadNameFromNotificationQuery. respect H. Qed.

#[local] Instance bag_slot_name_proper bag index :
  Proper ((≡) ==> (=)) (bag_slot_name ToUtf8 bag index).
Proof. intros v w H. unfold bag_slot_name. respect H. Qed.

#[local] Instance TryReadNameFromQueryBag_proper params :
  Proper ((≡) ==> (=)) (TryReadNameFromQueryBag ToUtf8 params).
Proof.
  intros v w H. unfold TryReadNameFromQueryBag.
  rewrite (respects_eq (NotifyReadPtr params kParamsPidBagOffset) v w _ H).
  destruct (NotifyReadPtr params _ w) as [bag|]; cbn [mbind option_bind]; [|done].
  rewrite (respects_eq (NotifyReadU32 bag kObjectQueryCountOffset) v w _ H).
  destruct (NotifyReadU32 bag _ w) as [count|]; cbn [mbind option_bind]; [|done].
  case_if; [done|]. apply first_some_ext. intros index. respect H.
Qed.

Lemma inline_units_ext text index v w fuel :
  v ≡ w -> inline_units text index v fuel = inline_units text index w fuel.
Proof.
  intros H. revert index. induction fuel as [|fuel IH]; intros index; [done|].
  cbn [inline_units]. rewrite (respects_eq (NotifyReadU16 text (index * 2)) v w _ H).
  destruct (NotifyReadU16 text _ w); [|done]. by rewrite IH.
Qed.

#[local] Instance TryReadInlineNtPath_proper text :
  Proper ((≡) ==> (=)) (TryReadInlineNtPath ToUtf8 text).
Proof.
  intros v w H. unfold TryReadInlineNtPath. rewrite (inline_units_ext text 0 v w 260 H). respect H.
Qed.

#[local] Instance TryReadFoNotificationName_proper n t :
  Proper ((≡) ==> (=)) (TryReadFoNotificationName ToUtf8 n t).
Proof. intros v w H. unfold TryReadFoNotificationName. respect H. Qed.

#[local] Instance ReadNotificationName_proper params name :
  Proper ((≡) ==> (=)) (ReadNotificationName ToUtf8 params name).
Proof. intros v w H. unfold ReadNotificationName. cbv zeta. respect H. Qed.

#[local] Instance ReadNotificationHeader_proper bytes :
  Proper ((≡) ==> (=)) (ReadNotificationHeader bytes).
Proof. intros v w H. unfold ReadNotificationHeader. respect H. Qed.

#[local] Instance BindNotificationData_proper bytes :
  Proper ((≡) ==> (=)) (BindNotificationData bytes).
Proof.
  intros v w H. unfold BindNotificationData.
  erewrite (first_some_ext _ _ kNotificationDataCandidates).
  - rewrite (respects_eq (TryBindLayout _ _ _ _) v w _ H). reflexivity.
  - intros candidate. cbv beta. respect H.
Qed.

#[local] Instance format_value_proper t x : Proper ((≡) ==> (=)) (format_value ToUtf8 t x).
Proof. intros v w H. unfold format_value. respect H. Qed.

Lemma read_property_ext family cursor v w out :
  v ≡ w -> read_property ToUtf8 family cursor v out = read_property ToUtf8 family cursor w out.
Proof. intros H. unfold read_property. respect H. Qed.

Lemma read_properties_ext family array count v w out :
  v ≡ w -> read_properties ToUtf8 family array count v out =
           read_properties ToUtf8 family array count w out.
Proof.
  intros H. unfold read_properties. revert out.
  induction (seqZ 0 count) as [|i l IH]; intros out; [done|].
  cbn [fold_left]. by rewrite (read_property_ext _ _ v w out H), IH.
Qed.

Lemma ReadNotificationProperties_ext bytes t params v w out :
  v ≡ w -> ReadNotificationProperties ToUtf8 bytes t params v out =
           ReadNotificationProperties ToUtf8 bytes t params w out.
Proof.
  intros H. unfold ReadNotificationProperties.
  assert (forall family out, read_query_array ToUtf8 bytes family v out =
                             read_query_array ToUtf8 bytes family w out) as Hq.
  { intros family o. unfold read_query_array.
    erewrite (respects_eq (NotifyReadU32 bytes _) v w _ H),
             (respects_eq (NotifyReadPtr bytes _) v w _ H).
    destruct (mbind _ _) as [[??]|]; [|done]. by apply read_properties_ext. }
  assert (forall off family out, read_bag ToUtf8 params off family v out =
                                 read_bag ToUtf8 params off family w out) as Hb.
  { intros off family o. unfold read_bag.
    assert ((bag ← NotifyReadPtr params off v;
             count ← NotifyReadU32 bag kObjectQueryCountOffset v;
             if (count =? 0) || (64 <? count) then None
             else items ← NotifyReadPtr bag kObjectQueryPtrOffset v; Some (count, items)) =
            (bag ← NotifyReadPtr params off w;
             count ← NotifyReadU32 bag kObjectQueryCountOffset w;
             if (count =? 0) || (64 <? count) then None
             else items ← NotifyReadPtr bag kObjectQueryPtrOffset w; Some (count, items))) as ->
      by respect H.
    destruct (mbind _ _) as [[??]|]; [|done]. by apply read_properties_ext. }
  by rewrite Hq, !Hb.
Qed.

Lemma read_process_objects_ext event_data offs v w pid tid name :
  v ≡ w -> read_process_objects ToUtf8 event_data offs v pid tid name =
           read_process_objects ToUtf8 event_data offs w pid tid name.
Proof.
  intros H. revert pid tid name. induction offs as [|off offs IH]; intros; [done|].
  cbn [read_process_objects]. rewrite (respects_eq (NotifyReadPtr event_data off) v w _ H).
  destruct (NotifyReadPtr event_data off w) as [obj|]; [|apply IH].
  rewrite (respects_eq (TryReadPidTidFromParams obj pid tid) v w _ H).
  destruct (default _ _) as [pid' tid'].
  rewrite (respects_eq (ReadNotificationName ToUtf8 obj name) v w _ H).
  destruct (negb _ || negb _); [done|apply IH].
Qed.

#[local] Instance DecodeNotificationKeys_proper bytes :
  Proper ((≡) ==> (=)) (DecodeNotificationKeys ToUtf8 bytes).
Proof.
  intros v w H. unfold DecodeNotificationKeys. case_if; [done|].
  rewrite (respects_eq (ReadNotificationHeader bytes) v w _ H).
  destruct (ReadNotificationHeader bytes w); [|done].
  assert (bound_data bytes v = bound_data bytes w) as ->
    by (unfold bound_data; by rewrite (respects_eq (BindNotificationData bytes) v w _ H)).
  destruct (bound_data bytes w) as [[t params] data].
  rewrite (ReadNotificationProperties_ext bytes t params v w [] H).
  enough (direct_keys ToUtf8 bytes t params data v = direct_keys ToUtf8 bytes t params data w)
    as -> by done.
  unfold direct_keys. cbv zeta.
  rewrite (respects_eq (TryReadNotificationQueryPid bytes) v w _ H),
    (respects_eq (TryReadNameFromNotificationQuery ToUtf8 bytes) v w _ H),
    (respects_eq (TryReadFoNotificationName ToUtf8 bytes t) v w _ H).
  set (name := if _ && _ then _ else _).
  rewrite (respects_eq (TryReadPidTidFromParams params _ 0) v w _ H),
    (respects_eq (ReadNotificationName ToUtf8 params name) v w _ H).
  destruct (if params =? 0 then _ else _) as [[pid tid] name'].
  by rewrite (read_process_objects_ext data _ v w).
Qed.

End Respect.

(** C26 A notification's keys and text depend on readable memory only: two
    processes that agree wherever the readability test allows a read give the
    same result, so no byte the test refuses is ever looked at. *)
Theorem FormatQueueNotification_readable_only ToUtf8 bytes index v w :
  v ≡ w ->
  DecodeNotificationKeys ToUtf8 bytes v = DecodeNotificationKeys ToUtf8 bytes w /\
  FormatQueueNotification ToUtf8 bytes index v = FormatQueueNotification ToUtf8 bytes index w.
Proof.
  intros H. pose proof (DecodeNotificationKeys_proper ToUtf8 bytes v w H) as E.
  split; [done|]. unfold FormatQueueNotification.
  by rewrite (ReadNotificationHeader_proper bytes v w H), E.
Qed.

(** A page of zeros from 4096 to 8192 with some words written in it, the
    unreadable rest filled with one value. *)
Definition page_view (words : list (Z * Z)) (outside : Z) : View :=
  mkView
    (fun a => if (4096 <=? a) && (a <? 8192)
              then default 0 (snd <$> find_first (fun e => e.1 =? a) words)
              else outside)
    (fun p n => (4096 <=? p) && (p + n <=? 8192)).

Lemma page_view_equiv words x y : page_view words x ≡ page_view words y.
Proof.
  split; [done|]. intros p n i Hr Hi. simpl in *. boolp.
  rewrite (proj2 (Z.leb_le 4096 (p + i))), (proj2 (Z.ltb_lt (p + i) 8192)) by lia. done.
Qed.

(** A FoCreate notification at 4096 (type 2000 at +120) whose query slot at
    5000 holds property 6 of type 4 with pid 7. *)
Definition example_words : list (Z * Z) :=
  [ (4216, 208); (4217, 7); (4096 + 288, 1); (4096 + 296, 136); (4096 + 297, 19);
    (5000, 6); (5004, 4); (5008, 7); (4096 + 16, 0); (4096 + 17, 16) ].

Example decode_example :
  let keys := (DecodeNotificationKeys (fun _ => "") 4096 (page_view example_words 9)).2 in
  (nk_event_type keys, nk_pid keys, length (nk_properties keys)) = (2000, 7, 1%nat).
Proof. vm_compute. reflexivity. Qed.

Lemma FormatQueueNotification_readable_only_witness :
  page_view example_words 1 ≡ page_view example_words 2 /\
  FormatQueueNotification (fun _ => "") 4096 3 (page_view example_words 1) =
  FormatQueueNotification (fun _ => "") 4096 3 (page_view example_words 2).
Proof.
  split; [apply page_view_equiv|].
  exact (proj2 (FormatQueueNotification_readable_only (fun _ => "") 4096 3
    (page_view example_words 1) (page_view example_words 2) (page_view_equiv _ 1 2))).
Defined.

(** ** Event types *)

Lemma first_some_Some {A B} (f : A -> option B) l b :
  first_some f l = Some b -> exists a, a ∈ l /\ f a = Some b.
Proof.
  induction l as [|a l IH]; simpl; [done|]. destruct (f a) eqn:E; [|set_solver].
  intros [= <-]. exists a. set_solver.
Qed.

Lemma scan_event_type_sparse data v offset fuel t off :
  scan_event_type data v offset fuel = Some (t, off) -> IsSparseEventType t = true.
Proof.
  revert offset. induction fuel as [|fuel IH]; intros offset; [done|]. cbn [scan_event_type].
  destruct (NotifyReadU32 data offset v); [|apply IH].
  destruct (IsSparseEventType z) eqn:E; simpl; [|apply IH].
  destruct (_ && _); [apply IH|]. by intros [= <- _].
Qed.

Lemma TryBindLayout_sparse data t p b v bound :
  TryBindLayout data t p b v = Some bound -> IsSparseEventType (bd_event_type bound) = true.
Proof.
  unfold TryBindLayout. destruct (NotifyReadU32 data t v); simpl; [|done].
  destruct (IsSparseEventType _) eqn:E; simpl; [|done]. by intros [= <-].
Qed.

Lemma TryBindEventData_sparse data v bound :
  TryBindEventData data v = Some bound -> IsSparseEventType (bd_event_type bound) = true.
Proof.
  unfold TryBindEventData. case_if; [done|].
  destruct (first_some _ layouts) eqn:E.
  - intros [= ->]. apply first_some_Some in E as ([[??]?] & _ & E). by eapply TryBindLayout_sparse.
  - unfold bind_scanned, ScanSparseEventType. rewrite Heqb.
    destruct (scan_event_type _ _ _ _) as [[t off]|] eqn:Es; simpl; [|done].
    apply scan_event_type_sparse in Es. intros [= <-].
    destruct (NotifyReadPtr data (off + kEventDataNearbyParamsPrimary) v); [done|].
    by destruct (NotifyReadPtr _ _ _).
Qed.

Lemma bound_data_sparse bytes v :
  (bound_data bytes v).1.1 = 0 \/ IsSparseEventType (bound_data bytes v).1.1 = true.
Proof.
  unfold bound_data. destruct (BindNotificationData bytes v) as [[bound data]|] eqn:E; [|by left].
  right. simpl. unfold BindNotificationData in E.
  destruct (TryBindLayout _ _ _ _ _) eqn:Eb; [simplify_eq; by eapply TryBindLayout_sparse|].
  apply first_some_Some in E as (candidate & _ & E).
  destruct (NotifyReadPtr _ _ _); simpl in E; [|done].
  destruct (TryBindEventData _ _) eqn:Ed; simpl in E; simplify_eq. by eapply TryBindEventData_sparse.
Qed.

(** ** Properties *)

Definition prop_key (p : DecodedProperty) : string * Z := (dp_family p, dp_id p).

Lemma has_property_false family id out :
  has_property family id out = false -> (family, id) ∉ map prop_key out.
Proof.
  unfold has_property. intros H Hin. apply list_elem_of_fmap in Hin as (p & Hp & Hin).
  apply not_true_iff_false in H. apply H. apply existsb_exists. exists p.
  split; [by apply list_elem_of_In|]. unfold prop_key in Hp. simplify_eq. simpl.
  by rewrite String.eqb_refl, Z.eqb_refl.
Qed.

(** The invariant of the property list while it is built, with a bound on its length. *)
Definition props_ok (bound : nat) (out : list DecodedProperty) : Prop :=
  NoDup (map prop_key out) /\ (length out <= bound)%nat.

Lemma read_property_ok ToUtf8 family cursor v n out :
  props_ok n out -> props_ok (S n) (read_property ToUtf8 family cursor v out).
Proof.
  intros [Hnd Hlen]. unfold read_property.
  assert (props_ok (S n) out) by (split; [done|lia]).
  case_if; [done|]. destruct (mbind _ _) as [[[id type] value]|]; [|done].
  destruct (has_property family id out) eqn:E; [done|].
  destruct (format_value ToUtf8 type value v) as [formatted b].
  split; [|rewrite length_app; simpl; lia].
  rewrite map_app. apply NoDup_app. split_and!; [done| |simpl; apply NoDup_singleton].
  intros k Hk Hk'. apply list_elem_of_singleton in Hk'. subst k.
  by apply (has_property_false _ _ _ E).
Qed.

Lemma read_properties_ok ToUtf8 family array count bound v n out :
  props_ok n out -> count <= Z.of_nat bound ->
  props_ok (n + bound) (read_properties ToUtf8 family array count v out).
Proof.
  intros Hout Hcount. unfold read_properties.
  assert (forall l n out, props_ok n out ->
    props_ok (n + length l)
      (fold_left (fun out i => read_property ToUtf8 family (array + i * kQuerySlotStride) v out) l out))
    as Hall.
  { induction l as [|i l IH]; intros m o Ho; simpl; [by rewrite Nat.add_0_r|].
    replace (m + S (length l))%nat with (S m + length l)%nat by lia.
    apply IH. by apply read_property_ok. }
  destruct (Hall (seqZ 0 count) n out Hout) as [? Hlen].
  split; [done|]. rewrite length_seqZ in Hlen. lia.
Qed.

Lemma read_query_array_ok ToUtf8 bytes family v n out :
  props_ok n out -> props_ok (n + 256) (read_query_array ToUtf8 bytes family v out).
Proof.
  intros Hout. unfold read_query_array.
  assert (props_ok (n + 256) out) by (destruct Hout; split; [done|lia]).
  destruct (NotifyReadU32 bytes _ v) as [count|]; simpl; [|done].
  destruct (_ && _) eqn:E; simpl; [|done]. boolp.
  destruct (NotifyReadPtr bytes _ v); simpl; [|done]. by apply read_properties_ok; [|lia].
Qed.

Lemma read_bag_ok ToUtf8 params off family v n out :
  props_ok n out -> props_ok (n + 64) (read_bag ToUtf8 params off family v out).
Proof.
  intros Hout. unfold read_bag.
  assert (props_ok (n + 64) out) by (destruct Hout; split; [done|lia]).
  destruct (NotifyReadPtr params off v) as [bag|]; simpl; [|done].
  destruct (NotifyReadU32 bag _ v) as [count|]; simpl; [|done].
  destruct (_ || _) eqn:E; simpl; [done|]. boolp.
  destruct (NotifyReadPtr bag _ v); simpl; [|done]. by apply read_properties_ok; [|lia].
Qed.

Lemma ReadNotificationProperties_ok ToUtf8 bytes t params v :
  props_ok 448 (ReadNotificationProperties ToUtf8 bytes t params v []).
Proof.
  unfold ReadNotificationProperties.
  assert (props_ok 0 []) as H0 by (split; [constructor|simpl; lia]).
  case_if; [destruct H0; split; [done|simpl; lia]|].
  pose proof (read_query_array_ok ToUtf8 bytes (EventFamilyName t) v 0 [] H0) as Hq.
  case_if; [destruct Hq; split; [done|lia]|].
  apply (read_bag_ok ToUtf8 params kParamsObjectOffset (EventFamilyName t) v 384).
  apply (read_bag_ok ToUtf8 params kParamsTidBagOffset "Thread" v 320).
  by apply (read_bag_ok ToUtf8 params kParamsPidBagOffset "Process" v 256).
Qed.

(** Whatever a notification points to, its decoded event type is zero or one
    of the known types, no property is listed twice, and at most 448 properties
    are kept (256 include-query slots and three bags of 64). *)
Lemma DecodeNotificationKeys_bounds ToUtf8 bytes v :
  let keys := (DecodeNotificationKeys ToUtf8 bytes v).2 in
  (nk_event_type keys = 0 \/ IsSparseEventType (nk_event_type keys) = true) /\
  NoDup (map prop_key (nk_properties keys)) /\ (length (nk_properties keys) <= 448)%nat.
Proof.
  assert (forall k, k = empty_keys ->
    (nk_event_type k = 0 \/ IsSparseEventType (nk_event_type k) = true) /\
    NoDup (map prop_key (nk_properties k)) /\ (length (nk_properties k) <= 448)%nat) as Hempty.
  { intros k ->. simpl. split_and!; [by left|constructor|lia]. }
  unfold DecodeNotificationKeys. case_if; [by apply Hempty|].
  destruct (ReadNotificationHeader bytes v); [|by apply Hempty].
  pose proof (bound_data_sparse bytes v) as Hsparse.
  destruct (bound_data bytes v) as [[t params] data].
  pose proof (ReadNotificationProperties_ok ToUtf8 bytes t params v) as [Hnd Hlen].
  destruct (fold_left _ _ _) as [[pid tid] name]. simpl in *. auto.
Qed.

(** ** The readability test *)

Section ReadableSpec.
Context (VirtualQuery : Z -> option Region) (faults : Z -> bool).

(** The system describes an address by the region of pages that starts at or
    below it and holds it, and gives the whole rest of that region the same
    state and protection. *)
Definition region_uniform : Prop :=
  forall p info, VirtualQuery p = Some info ->
    p < rg_BaseAddress info + rg_RegionSize info /\
    forall q, p <= q < rg_BaseAddress info + rg_RegionSize info ->
      exists info', VirtualQuery q = Some info' /\
        rg_State info' = rg_State info /\ rg_Protect info' = rg_Protect info.

Definition byte_readable (q : Z) : Prop :=
  exists info, VirtualQuery q = Some info /\ region_readable info = true.

Lemma region_readable_ext i j :
  rg_State i = rg_State j -> rg_Protect i = rg_Protect j -> region_readable i = region_readable j.
Proof. unfold region_readable. by intros -> ->. Qed.

Lemma regions_readable_spec fuel cursor remaining :
  region_uniform -> remaining <= Z.of_nat fuel ->
  regions_readable VirtualQuery fuel cursor remaining = true <->
  forall q, cursor <= q < cursor + remaining -> byte_readable q.
Proof.
  intros Hu. revert cursor remaining. induction fuel as [|fuel IH]; intros cursor remaining Hf.
  { simpl. rewrite (proj2 (Z.leb_le remaining 0)) by lia. split; [intros; lia|done]. }
  simpl. destruct (remaining <=? 0) eqn:Hr; boolp; [split; [intros; lia|done]|].
  destruct (VirtualQuery cursor) as [info|] eqn:E.
  2:{ split; [done|]. intros H. destruct (H cursor) as (i & Hi & _); [lia|congruence]. }
  destruct (Hu _ _ E) as [Hend Hsame].
  destruct (region_readable info) eqn:Hok; simpl.
  2:{ split; [done|]. intros H. destruct (H cursor) as (i & Hi & Hi'); [lia|congruence]. }
  rewrite (proj2 (Z.leb_gt _ cursor)) by lia.
  set (taken := if _ <? remaining then _ else _).
  assert (0 < taken <= remaining /\
          cursor + taken <= rg_BaseAddress info + rg_RegionSize info) as [Ht Hte].
  { unfold taken. destruct (Z.ltb_spec (rg_BaseAddress info + rg_RegionSize info - cursor) remaining);
      lia. }
  rewrite IH by lia. split; intros H q Hq; [|apply H; lia].
  destruct (Z.lt_ge_cases q (cursor + taken)); [|apply H; lia].
  destruct (Hsame q) as (i & Hi & Hs & Hp); [lia|]. exists i. split; [done|].
  by rewrite (region_readable_ext i info).
Qed.

(** C27 The readability test answers yes exactly for a non-null range all of whose
    bytes lie in committed pages that are neither no-access nor execute-only and
    whose two end bytes can be read; its walk over regions always ends. *)
Theorem IsCommittedReadable_spec pointer size :
  region_uniform -> 0 <= size ->
  IsCommittedReadable VirtualQuery faults pointer size = true <->
  pointer <> 0 /\ size <> 0 /\
  (forall q, pointer <= q < pointer + size -> byte_readable q) /\
  faults pointer = false /\ faults (pointer + size - 1) = false.
Proof.
  intros Hu Hs. unfold IsCommittedReadable, SafeProbeRead.
  destruct (Z.eqb_spec pointer 0) as [->|Hp]; simpl; [naive_solver|].
  destruct (Z.eqb_spec size 0) as [->|Hz]; simpl; [naive_solver|].
  pose proof (regions_readable_spec (Z.to_nat size) pointer size Hu) as Hspec.
  destruct (regions_readable _ _ _ _) eqn:E.
  - rewrite andb_true_iff, !negb_true_iff. rewrite <- Hspec by lia. naive_solver.
  - split; [done|]. intros (_ & _ & Hb & _). apply Hspec in Hb; [done|lia].
Qed.
End ReadableSpec.

(** Two committed pages, read-write then read-only, below a free region. *)
Definition two_pages (p : Z) : option Region :=
  if (4096 <=? p) && (p <? 8192) then Some (mkRegion 4096 4096 MEM_COMMIT 4)
  else if (8192 <=? p) && (p <? 12288) then Some (mkRegion 8192 4096 MEM_COMMIT 2)
  else None.

Lemma two_pages_uniform : region_uniform two_pages.
Proof.
  intros p info. unfold two_pages.
  destruct ((4096 <=? p) && (p <? 8192)) eqn:E.
  - intros [= <-]. boolp. simpl. split; [lia|]. intros q Hq. exists (mkRegion 4096 4096 MEM_COMMIT 4).
    by rewrite (proj2 (Z.leb_le 4096 q)), (proj2 (Z.ltb_lt q 8192)) by lia.
  - destruct ((8192 <=? p) && (p <? 12288)) eqn:E'; [|done].
    intros [= <-]. boolp. simpl. split; [lia|]. intros q Hq. exists (mkRegion 8192 4096 MEM_COMMIT 2).
    rewrite (proj2 (Z.ltb_ge q 8192)), andb_false_r by lia.
    by rewrite (proj2 (Z.leb_le 8192 q)), (proj2 (Z.ltb_lt q 12288)) by lia.
Qed.

Lemma IsCommittedReadable_spec_witness :
  (IsCommittedReadable two_pages (fun _ => false) 8000 400 = true <->
   8000 <> 0 /\ 400 <> 0 /\ (forall q, 8000 <= q < 8000 + 400 -> byte_readable two_pages q) /\
   false = false /\ false = false) /\
  IsCommittedReadable two_pages (fun _ => false) 8000 400 = true.
Proof.
  split.
  - apply (IsCommittedReadable_spec two_pages (fun _ => false) 8000 400 two_pages_uniform). lia.
  - vm_compute. reflexivity.
Defined.
