(* ===== verification/Pipe.v ===== *)
(** The framed pipe between the client and the protected service
    (src/esptool/src/ipc/PipeChannel.cpp).

    One end of a byte-mode pipe is the bytes still to arrive, the bytes written,
    and the outcome the system gives each overlapped transfer: any fragmentation,
    error or timeout is a schedule of outcomes. *)
From S2P Require Import Prelude Text Core MemoryView.

Definition kPipeBufferSize : Z := 64 * 1024.
Definition kConnectTimeoutMs : Z := 60000.
Definition kIoTimeoutMs : Z := 15000.
Definition kFrameTagBytes : Z := 4.
Definition kConnectAttempts : nat := 5.

Definition ERROR_SUCCESS : Z := 0.
Definition ERROR_IO_PENDING : Z := 997.
Definition ERROR_PIPE_CONNECTED : Z := 535.
Definition ERROR_PIPE_BUSY : Z := 231.
Definition WAIT_OBJECT_0 : Z := 0.
Definition WAIT_TIMEOUT : Z := 258.

Definition kRequestPing : Z := 1.
Definition kRequestStatus : Z := 2.
Definition kRequestExports : Z := 3.
Definition kRequestExercise : Z := 4.
Definition kRequestRules : Z := 5.

(** [RequestKind] has a fixed 32-bit representation, so any value can arrive. *)
Record Request := mkRequest { rq_kind : Z; rq_payload : string }.
Record Response := mkResponse { rp_status : Z; rp_payload : string }.
Definition empty_response : Response := mkResponse 0 "".

(** ** Frames *)

Definition bytes_of (s : string) : list Z := code <$> chars s.
Definition string_of (bytes : list Z) : string := of_chars (char_of_code <$> bytes).

(** The four appended bytes, low byte first. *)
Definition AppendUint32 (out : list Z) (value : Z) : list Z :=
  out ++ map (fun shift => Z.land (Z.shiftr value shift) 0xFF) [0; 8; 16; 24].

Definition ReadUint32 (remaining : list Z) : option (Z * list Z) :=
  match remaining with
  | b0 :: b1 :: b2 :: b3 :: rest =>
      Some (fold_left Z.lor
              [Z.shiftl b0 0; Z.shiftl b1 8; Z.shiftl b2 16; Z.shiftl b3 24] 0, rest)
  | _ => None
  end.

Definition EncodeFrame (tag : Z) (payload : string) : list Z :=
  let bytes := bytes_of payload in
  let frame := AppendUint32 [] (u32 (Z.of_nat (length bytes) + kFrameTagBytes)) in
  AppendUint32 frame tag ++ bytes.

Definition DecodeFrame (body : list Z) : option (Z * string) :=
  '(tag, remaining) ← ReadUint32 body; Some (tag, string_of remaining).

Definition EncodeRequest (request : Request) : list Z :=
  EncodeFrame (rq_kind request) (rq_payload request).
Definition EncodeResponse (response : Response) : list Z :=
  EncodeFrame (u32 (rp_status response)) (rp_payload response).

(** ** Transfers *)

(** What the system does with one overlapped read or write. *)
Inductive IoOutcome :=
| EventFailed (error : Z)
| Started (count : nat)
| StartFailed (error : Z)
| Completed (count : nat)
| ResultFailed (error : Z)
| TimedOut
| WaitFailed (error : Z).

Record PipeEnd := mkPipeEnd {
  pe_in : list Z;
  pe_out : list Z;
  pe_io : nat -> IoOutcome;
  pe_time : nat
}.

(** The count transferred, or the error text. *)
Definition TransferOverlapped (reading : bool) (outcome : IoOutcome) : result nat :=
  let failed := if reading then "pipe read failed" else "pipe write failed" in
  match outcome with
  | EventFailed e => Err (Win32Message "CreateEvent failed" e)
  | Started n => Ok n
  | StartFailed e => Err (Win32Message failed e)
  | Completed n => Ok n
  | ResultFailed e => Err (Win32Message failed e)
  | TimedOut => Err (if reading then "pipe read timed out" else "pipe write timed out")
  | WaitFailed e => Err (Win32Message "pipe wait failed" e)
  end.

(** A transfer moves at most the bytes asked for and, when reading, at most the
    bytes that have arrived. *)
Definition TransferRead (size : nat) (p : PipeEnd) : result (list Z) * PipeEnd :=
  match TransferOverlapped true (pe_io p (pe_time p)) with
  | Err e => (Err e, mkPipeEnd (pe_in p) (pe_out p) (pe_io p) (S (pe_time p)))
  | Ok n =>
      let k := Nat.min n size in
      (Ok (take k (pe_in p)), mkPipeEnd (drop k (pe_in p)) (pe_out p) (pe_io p) (S (pe_time p)))
  end.

Definition TransferWrite (buffer : list Z) (p : PipeEnd) : result nat * PipeEnd :=
  match TransferOverlapped false (pe_io p (pe_time p)) with
  | Err e => (Err e, mkPipeEnd (pe_in p) (pe_out p) (pe_io p) (S (pe_time p)))
  | Ok n =>
      let k := Nat.min n (length buffer) in
      (Ok k, mkPipeEnd (pe_in p) (pe_out p ++ take k buffer) (pe_io p) (S (pe_time p)))
  end.

(** Every turn of the loop transfers at least a byte or ends it, so a turn per
    byte is enough. *)
Fixpoint read_loop (fuel remaining : nat) (acc : list Z) : ST PipeEnd (result (list Z)) :=
  fun p =>
    match remaining, fuel with
    | O, _ => (Ok acc, p)
    | S _, O => (Err "the pipe connection closed", p)
    | S _, S fuel =>
        match TransferRead remaining p with
        | (Err e, p) => (Err e, p)
        | (Ok [], p) => (Err "the pipe connection closed", p)
        | (Ok bytes, p) => read_loop fuel (remaining - length bytes) (acc ++ bytes) p
        end
    end.

Definition ReadExactly (size : nat) : ST PipeEnd (result (list Z)) := read_loop size size [].

Fixpoint write_loop (fuel : nat) (remaining : list Z) : ST PipeEnd (result unit) :=
  fun p =>
    match remaining, fuel with
    | [], _ => (Ok tt, p)
    | _, O => (Err "the pipe connection closed while writing", p)
    | _, S fuel =>
        match TransferWrite remaining p with
        | (Err e, p) => (Err e, p)
        | (Ok O, p) => (Err "the pipe connection closed while writing", p)
        | (Ok n, p) => write_loop fuel (drop n remaining) p
        end
    end.

Definition WriteExactly (buffer : list Z) : ST PipeEnd (result unit) :=
  write_loop (length buffer) buffer.

(** A length word and that many bytes, within the accepted range. *)
Definition read_body (invalid_length : string) : ST PipeEnd (result (list Z)) :=
  header ← ReadExactly 4;
  match header with
  | Err e => mret (Err e)
  | Ok bytes =>
      let length := le_value bytes in
      if (length <? kFrameTagBytes) || (kPipeBufferSize <? length)
      then mret (Err invalid_length) else ReadExactly (Z.to_nat length)
  end.

(** ** Client *)

(** [PipeClient::Connect], over the outcome of each open: a handle, or the error. *)
Fixpoint connect_loop (open : nat -> Z + Z) (attempt fuel : nat) : result Z :=
  match fuel with
  | O => Err "the service pipe is busy"
  | S fuel =>
      match open attempt with
      | inl pipe => Ok pipe
      | inr failure =>
          if negb (failure =? ERROR_PIPE_BUSY)
          then Err (Win32Message "could not open the service pipe" failure)
          else connect_loop open (S attempt) fuel
      end
  end.

Definition Connect (open : nat -> Z + Z) : result Z := connect_loop open 0 kConnectAttempts.

Definition Exchange (connected : bool) (request : Request) : ST PipeEnd (result Response) :=
  if negb connected then mret (Err "pipe client is not connected")
  else
    written ← WriteExactly (EncodeRequest request);
    match written with
    | Err e => mret (Err e)
    | Ok _ =>
        body ← read_body "invalid response frame length";
        mret match body with
             | Err e => Err e
             | Ok body =>
                 match DecodeFrame body with
                 | None => Err "truncated response frame"
                 | Some (status, payload) => Ok (mkResponse (i32 status) payload)
                 end
             end
    end.

(** ** Server *)

(** The two members of [PipeServer]: the name (empty when stopped) and whether
    the stop event exists. *)
Record PipeServer := mkPipeServer { sv_pipe_name : wstring; sv_stop_event : bool }.

Definition Stop (s : PipeServer) : PipeServer := mkPipeServer [] false.

(** [created] is the handle of the new event or the error of [CreateEventW]. *)
Definition Start (pipe_name : wstring) (created : Z + Z) (s : PipeServer) : result unit * PipeServer :=
  let s := Stop s in
  match created with
  | inl _ => (Ok tt, mkPipeServer pipe_name true)
  | inr e => (Err (Win32Message "CreateEvent failed" e), mkPipeServer [] (sv_stop_event s))
  end.

Definition IsRunning (s : PipeServer) : bool := nonempty (sv_pipe_name s).

(** How the system answers the calls that precede a session. *)
Record ServeEnv := mkServeEnv {
  se_create_pipe : Z + Z;
  se_create_event : Z + Z;
  se_connecting : bool;
  se_connect_error : Z;
  se_wait : Z
}.

Definition read_request : ST PipeEnd (result Request) :=
  body ← read_body "invalid request frame length";
  mret match body with
       | Err e => Err e
       | Ok body =>
           match DecodeFrame body with
           | None => Err "truncated request frame"
           | Some (kind, payload) => Ok (mkRequest kind payload)
           end
       end.

Definition write_response (response : Response) : ST PipeEnd string :=
  written ← WriteExactly (EncodeResponse response);
  mret match written with
       | Ok _ => ""
       | Err e => if is_empty e then "the response could not be written" else e
       end.

(** The request is read, handled and answered; the error left for the caller. *)
Definition serve_session (handler : option (Request -> Response)) : ST PipeEnd string :=
  request ← read_request;
  match request with
  | Err e => mret e
  | Ok request => write_response (match handler with Some h => h request | None => empty_response end)
  end.

(** [None] before the session starts: the call returned false with that error. *)
Definition before_session (s : PipeServer) (env : ServeEnv) : option string :=
  if negb (nonempty (sv_pipe_name s)) || negb (sv_stop_event s)
  then Some "pipe server is not running"
  else
    match se_create_pipe env, se_create_event env with
    | inr e, _ => Some (Win32Message "CreateNamedPipe failed" e)
    | inl _, inr e => Some (Win32Message "CreateEvent failed" e)
    | inl _, inl _ =>
        let connect_error := if se_connecting env then ERROR_SUCCESS else se_connect_error env in
        if negb (se_connecting env) && (connect_error =? ERROR_IO_PENDING)
        then (if se_wait env =? WAIT_OBJECT_0 then Some "" else None)
        else if negb (se_connecting env) && negb (connect_error =? ERROR_PIPE_CONNECTED)
        then Some (Win32Message "ConnectNamedPipe failed" connect_error)
        else None
    end.

Definition ServeOne (s : PipeServer) (env : ServeEnv) (handler : option (Request -> Response))
    : ST PipeEnd (bool * string) :=
  match before_session s env with
  | Some error => mret (false, error)
  | None => error ← serve_session handler; mret (true, error)
  end.

(** * Theorems *)

(** ** Frames *)

Definition frame_ok (tag : Z) (payload : string) : Prop :=
  0 <= tag <= u32_max /\ Z.of_nat (length (bytes_of payload)) + kFrameTagBytes <= kPipeBufferSize.

Lemma bytes_of_range s : Forall (fun b => 0 <= b < 2 ^ 8) (bytes_of s).
Proof. apply Forall_fmap, Forall_true. intros c. pose proof (code_range c). simpl. lia. Qed.

Lemma string_of_bytes_of s : string_of (bytes_of s) = s.
Proof.
  unfold string_of, bytes_of. rewrite <- list_fmap_compose.
  rewrite (list_fmap_ext _ id), list_fmap_id; [apply of_chars_chars|].
  intros i c _. apply char_of_code_code.
Qed.

Lemma AppendUint32_le out value :
  AppendUint32 out value = out ++ le_bytes 4 value.
Proof.
  unfold AppendUint32. f_equal. cbn [le_bytes map].
  change 0xFF with (Z.ones 8). rewrite !Z.land_ones by lia.
  rewrite !Z.shiftr_div_pow2 by lia. rewrite !Z.div_div by lia.
  change (2 ^ 0) with 1. rewrite Z.div_1_r. reflexivity.
Qed.

(** Four bytes or-ed at their places are the word they spell. *)
Lemma or_bytes b0 b1 b2 b3 :
  0 <= b0 < 256 -> 0 <= b1 < 256 -> 0 <= b2 < 256 -> 0 <= b3 < 256 ->
  fold_left Z.lor [Z.shiftl b0 0; Z.shiftl b1 8; Z.shiftl b2 16; Z.shiftl b3 24] 0 =
  le_value [b0; b1; b2; b3].
Proof.
  intros. cbn [fold_left le_value]. rewrite Z.shiftl_0_r, Z.lor_0_l.
  rewrite (lor_shiftl 8) by lia. rewrite (lor_shiftl 16) by lia. rewrite (lor_shiftl 24) by lia. lia.
Qed.

Lemma ReadUint32_le value rest :
  0 <= value <= u32_max -> ReadUint32 (le_bytes 4 value ++ rest) = Some (value, rest).
Proof.
  intros Hv. cbn [le_bytes app ReadUint32].
  assert (forall z, 0 <= z mod 2 ^ 8 < 256) as Hb by (intros; apply Z.mod_pos_bound; lia).
  rewrite or_bytes by apply Hb. do 2 f_equal.
  apply (le_value_bytes 4 value). unfold u32_max in Hv. simpl. lia.
Qed.

Lemma EncodeFrame_layout tag payload :
  EncodeFrame tag payload =
  le_bytes 4 (u32 (Z.of_nat (length (bytes_of payload)) + kFrameTagBytes)) ++
  le_bytes 4 tag ++ bytes_of payload.
Proof. unfold EncodeFrame. by rewrite !AppendUint32_le, <- app_assoc. Qed.

Lemma DecodeFrame_body tag payload :
  0 <= tag <= u32_max -> DecodeFrame (le_bytes 4 tag ++ bytes_of payload) = Some (tag, payload).
Proof.
  intros Ht. unfold DecodeFrame. rewrite ReadUint32_le by done. simpl.
  by rewrite string_of_bytes_of.
Qed.

(** ** Transfers under any schedule *)

Lemma TransferRead_Ok size p bytes p' :
  TransferRead size p = (Ok bytes, p') ->
  pe_in p = bytes ++ pe_in p' /\ (length bytes <= size)%nat /\
  pe_out p' = pe_out p /\ pe_io p' = pe_io p.
Proof.
  unfold TransferRead. destruct (TransferOverlapped _ _) as [n|]; [|done].
  intros [= <- <-]. simpl. rewrite take_drop, length_take. split_and!; [done|lia|done..].
Qed.

Lemma read_loop_Ok fuel remaining acc p bytes p' :
  read_loop fuel remaining acc p = (Ok bytes, p') ->
  exists got, bytes = acc ++ got /\ length got = remaining /\
    pe_in p = got ++ pe_in p' /\ pe_out p' = pe_out p /\ pe_io p' = pe_io p.
Proof.
  revert remaining acc p. induction fuel as [|fuel IH]; intros [|remaining] acc p H; simpl in H;
    try done; try (injection H as <- <-; exists []; rewrite app_nil_r; done).
  destruct (TransferRead (S remaining) p) as [[got|] p1] eqn:E; [|done].
  destruct got as [|b got]; [done|].
  apply TransferRead_Ok in E as (Hin & Hlen & Hout & Hio).
  apply IH in H as (more & -> & Hmore & Hin' & Hout' & Hio').
  exists (b :: got ++ more). rewrite Hin, Hin', Hout', Hio'. simpl in *.
  rewrite length_app, Hmore, <- !app_assoc. split_and!; try done. lia.
Qed.

Lemma ReadExactly_Ok size p bytes p' :
  ReadExactly size p = (Ok bytes, p') ->
  length bytes = size /\ pe_in p = bytes ++ pe_in p' /\ pe_out p' = pe_out p /\ pe_io p' = pe_io p.
Proof. intros (got & -> & ? & ? & ? & ?)%read_loop_Ok. done. Qed.

Lemma TransferWrite_Ok buffer p n p' :
  TransferWrite buffer p = (Ok n, p') ->
  (n <= length buffer)%nat /\ pe_in p' = pe_in p /\ pe_out p' = pe_out p ++ take n buffer /\
  pe_io p' = pe_io p.
Proof.
  unfold TransferWrite. destruct (TransferOverlapped _ _) as [k|]; [|done].
  intros [= <- <-]. simpl. split_and!; try done. lia.
Qed.

Lemma write_loop_Ok fuel buffer p p' :
  write_loop fuel buffer p = (Ok tt, p') ->
  pe_in p' = pe_in p /\ pe_out p' = pe_out p ++ buffer /\ pe_io p' = pe_io p.
Proof.
  revert buffer p. induction fuel as [|fuel IH]; intros [|b buffer] p H; cbn [write_loop] in H;
    try done; try (injection H as <-; by rewrite app_nil_r).
  destruct (TransferWrite (b :: buffer) p) as [[n|] p1] eqn:E; [|done].
  apply TransferWrite_Ok in E as (Hn & Hin & Hout & Hio). destruct n as [|n]; [done|].
  apply IH in H as (Hin' & Hout' & Hio'). rewrite Hin', Hout', Hio', Hin, Hout, <- app_assoc.
  by rewrite take_drop.
Qed.

(** ** Transfers under a schedule that makes progress *)

(** Every transfer moves at least one byte, immediately or after a wait. *)
Definition progresses (io : nat -> IoOutcome) : Prop :=
  forall t, exists n, (0 < n)%nat /\ (io t = Started n \/ io t = Completed n).

Lemma progresses_transfer reading io t :
  progresses io -> exists n, (0 < n)%nat /\ TransferOverlapped reading (io t) = Ok n.
Proof. intros H. destruct (H t) as (n & Hn & [->| ->]); by exists n. Qed.

Lemma read_loop_progress fuel remaining acc p :
  progresses (pe_io p) -> (remaining <= fuel)%nat -> (remaining <= length (pe_in p))%nat ->
  exists t, read_loop fuel remaining acc p =
    (Ok (acc ++ take remaining (pe_in p)),
     mkPipeEnd (drop remaining (pe_in p)) (pe_out p) (pe_io p) t).
Proof.
  revert remaining acc p. induction fuel as [|fuel IH]; intros [|remaining] acc p Hp Hf Hl;
    try lia; try (exists (pe_time p); simpl; rewrite app_nil_r; by destruct p).
  destruct (progresses_transfer true (pe_io p) (pe_time p) Hp) as (n & Hn & Ht).
  cbn [read_loop]. unfold TransferRead. rewrite Ht.
  set (k := Nat.min n (S remaining)). assert (0 < k <= S remaining)%nat as Hk by lia.
  assert (length (take k (pe_in p)) = k) as Hlen by (rewrite length_take; lia).
  destruct (take k (pe_in p)) as [|b got] eqn:E; [simpl in Hlen; lia|]. rewrite <- E in *.
  destruct (IH (S remaining - length (take k (pe_in p)))%nat (acc ++ take k (pe_in p))
    (mkPipeEnd (drop k (pe_in p)) (pe_out p) (pe_io p) (S (pe_time p)))) as (t & ->);
    [done|lia|simpl; rewrite length_drop; lia|].
  exists t. cbn [pe_in pe_out pe_io]. rewrite Hlen, drop_drop, <- app_assoc.
  replace (k + (S remaining - k))%nat with (S remaining) by lia.
  do 3 f_equal. rewrite take_drop_commute.
  replace (k + (S remaining - k))%nat with (S remaining) by lia.
  rewrite <- (take_drop k (take (S remaining) (pe_in p))) at 2.
  rewrite take_take. do 2 f_equal. lia.
Qed.

Lemma ReadExactly_progress bytes rest p :
  progresses (pe_io p) -> pe_in p = bytes ++ rest ->
  exists t, ReadExactly (length bytes) p = (Ok bytes, mkPipeEnd rest (pe_out p) (pe_io p) t).
Proof.
  intros Hp Hin. unfold ReadExactly.
  destruct (read_loop_progress (length bytes) (length bytes) [] p) as (t & ->);
    [done|done|rewrite Hin, length_app; lia|].
  exists t. rewrite Hin, take_app_length, drop_app_length. done.
Qed.

Lemma write_loop_progress fuel buffer p :
  progresses (pe_io p) -> (length buffer <= fuel)%nat ->
  exists t, write_loop fuel buffer p =
    (Ok tt, mkPipeEnd (pe_in p) (pe_out p ++ buffer) (pe_io p) t).
Proof.
  revert buffer p. induction fuel as [|fuel IH]; intros [|b buffer] p Hp Hf; simpl in Hf;
    try lia; try (exists (pe_time p); simpl; rewrite app_nil_r; by destruct p).
  destruct (progresses_transfer false (pe_io p) (pe_time p) Hp) as (n & Hn & Ht).
  cbn [write_loop]. unfold TransferWrite. rewrite Ht.
  destruct (Nat.min n (length (b :: buffer))) as [|k] eqn:Ek; [simpl in Ek; lia|].
  destruct (IH (drop (S k) (b :: buffer))
    (mkPipeEnd (pe_in p) (pe_out p ++ take (S k) (b :: buffer)) (pe_io p) (S (pe_time p))))
    as (t & ->); [done|rewrite length_drop; simpl; lia|].
  exists t. cbn [pe_in pe_out pe_io]. by rewrite <- app_assoc, take_drop.
Qed.

Lemma read_body_progress error body rest p :
  progresses (pe_io p) -> pe_in p = le_bytes 4 (Z.of_nat (length body)) ++ body ++ rest ->
  kFrameTagBytes <= Z.of_nat (length body) <= kPipeBufferSize ->
  exists t, read_body error p = (Ok body, mkPipeEnd rest (pe_out p) (pe_io p) t).
Proof.
  intros Hp Hin Hlen. unfold read_body. rewrite st_bind_unfold.
  unfold kFrameTagBytes, kPipeBufferSize in *.
  destruct (ReadExactly_progress (le_bytes 4 (Z.of_nat (length body))) (body ++ rest) p Hp Hin)
    as (t & E). rewrite le_bytes_length in E. rewrite E. cbn [fst snd].
  rewrite le_value_bytes by (simpl; lia).
  rewrite (proj2 (Z.ltb_ge _ _)), (proj2 (Z.ltb_ge _ _)) by lia. cbn [orb].
  rewrite Nat2Z.id.
  destruct (ReadExactly_progress body rest (mkPipeEnd (body ++ rest) (pe_out p) (pe_io p) t))
    as (t' & ->); [done|done|]. by exists t'.
Qed.

(** ** A whole exchange *)

Lemma frame_layout tag payload :
  frame_ok tag payload ->
  EncodeFrame tag payload =
  le_bytes 4 (Z.of_nat (length (le_bytes 4 tag ++ bytes_of payload))) ++
  le_bytes 4 tag ++ bytes_of payload.
Proof.
  intros [_ Hlen]. rewrite EncodeFrame_layout. do 2 f_equal.
  unfold kFrameTagBytes, kPipeBufferSize in *. rewrite length_app, le_bytes_length.
  rewrite u32_small by (unfold u32_max; lia). lia.
Qed.

Lemma frame_body_length tag payload :
  frame_ok tag payload ->
  kFrameTagBytes <= Z.of_nat (length (le_bytes 4 tag ++ bytes_of payload)) <= kPipeBufferSize.
Proof.
  intros [_ Hlen]. unfold kFrameTagBytes, kPipeBufferSize in *.
  rewrite length_app, le_bytes_length. lia.
Qed.

Lemma read_frame_progress error tag payload rest p :
  progresses (pe_io p) -> frame_ok tag payload -> pe_in p = EncodeFrame tag payload ++ rest ->
  exists t, read_body error p =
    (Ok (le_bytes 4 tag ++ bytes_of payload), mkPipeEnd rest (pe_out p) (pe_io p) t).
Proof.
  intros Hp Hok Hin. apply (read_body_progress error _ rest); [done| |by apply frame_body_length].
  rewrite Hin, frame_layout by done. by rewrite <- !app_assoc.
Qed.

Lemma serve_session_progress h request rest p :
  progresses (pe_io p) -> frame_ok (rq_kind request) (rq_payload request) ->
  pe_in p = EncodeRequest request ++ rest ->
  exists t, serve_session (Some h) p =
    (""%string, mkPipeEnd rest (pe_out p ++ EncodeResponse (h request)) (pe_io p) t).
Proof.
  intros Hp Hok Hin. unfold serve_session, read_request, write_response. rewrite !st_bind_unfold.
  destruct (read_frame_progress "invalid request frame length" _ _ rest p Hp Hok Hin) as (t & ->).
  cbn [fst snd mret st_ret]. rewrite DecodeFrame_body by apply Hok. rewrite st_bind_unfold.
  unfold WriteExactly.
  destruct (write_loop_progress (length (EncodeResponse (h (mkRequest (rq_kind request) (rq_payload request)))))
    (EncodeResponse (h (mkRequest (rq_kind request) (rq_payload request))))
    (mkPipeEnd rest (pe_out p) (pe_io p) t)) as (t' & ->); [done|done|].
  exists t'. by destruct request.
Qed.

(** C28 Through the pipe, a request reaches the handler unchanged and the client
    gets back exactly the handler's response, however the system fragments the
    transfers on the two sides, when both frames fit the 64 KiB limit. *)
Theorem exchange_round_trip s env h request server_io client_io ts tc :
  before_session s env = None -> progresses server_io -> progresses client_io ->
  frame_ok (rq_kind request) (rq_payload request) ->
  frame_ok (u32 (rp_status (h request))) (rp_payload (h request)) ->
  - 2 ^ 31 <= rp_status (h request) < 2 ^ 31 ->
  exists server client,
    ServeOne s env (Some h) (mkPipeEnd (EncodeRequest request) [] server_io ts) =
      ((true, ""%string), server) /\
    Exchange true request (mkPipeEnd (pe_out server) [] client_io tc) = (Ok (h request), client) /\
    pe_out client = EncodeRequest request.
Proof.
  intros Hb Hs Hc Hreq Hresp Hstatus.
  destruct (serve_session_progress h request [] (mkPipeEnd (EncodeRequest request) [] server_io ts))
    as (t & Eserve); [done|done|by rewrite app_nil_r|].
  exists (mkPipeEnd [] (EncodeResponse (h request)) server_io t). cbn [pe_out].
  unfold Exchange. cbn [negb]. rewrite st_bind_unfold. unfold WriteExactly.
  destruct (write_loop_progress (length (EncodeRequest request)) (EncodeRequest request)
    (mkPipeEnd (EncodeResponse (h request)) [] client_io tc)) as (t1 & ->); [done|done|].
  cbn [fst snd pe_in pe_out pe_io]. rewrite st_bind_unfold.
  destruct (read_frame_progress "invalid response frame length" _ _ []
    (mkPipeEnd (EncodeResponse (h request)) ([] ++ EncodeRequest request) client_io t1) Hc Hresp)
    as (t2 & ->); [by rewrite app_nil_r|].
  cbn [fst snd]. rewrite DecodeFrame_body by apply Hresp.
  eexists. split_and!.
  - unfold ServeOne. rewrite Hb, st_bind_unfold, Eserve. done.
  - unfold mret, st_ret. rewrite i32_u32, i32_small by done.
    do 2 f_equal. by destruct (h request).
  - done.
Qed.

Definition one_byte_io : nat -> IoOutcome := fun t => if Nat.even t then Completed 1 else Started 3.

Definition running_server : PipeServer := mkPipeServer (bytes_of "esptool") true.
Definition pending_env : ServeEnv := mkServeEnv (inl 1) (inl 2) false ERROR_IO_PENDING 1.

Lemma one_byte_progresses : progresses one_byte_io.
Proof. intros t. unfold one_byte_io. destruct (Nat.even t); [exists 1%nat|exists 3%nat]; auto. Qed.

Definition echo (r : Request) : Response := mkResponse (-5) (rq_payload r).

Lemma exchange_round_trip_witness :
  exists server client,
    ServeOne running_server pending_env (Some echo)
      (mkPipeEnd (EncodeRequest (mkRequest 1 "ping")) [] one_byte_io 0) =
      ((true, ""%string), server) /\
    Exchange true (mkRequest 1 "ping") (mkPipeEnd (pe_out server) [] one_byte_io 1) =
      (Ok (echo (mkRequest 1 "ping")), client) /\
    pe_out client = EncodeRequest (mkRequest 1 "ping").
Proof.
  apply (exchange_round_trip running_server pending_env echo (mkRequest 1 "ping")
           one_byte_io one_byte_io 0 1 eq_refl one_byte_progresses one_byte_progresses).
  - split; vm_compute; intuition discriminate.
  - split; vm_compute; intuition discriminate.
  - vm_compute. intuition discriminate.
Defined.

(** C29 Whatever the system does to the transfers, a response the client accepts is
    one whole frame that arrived, of an accepted length and decoded in full, and
    the request had been written in full before it was read. *)
Theorem Exchange_accepts_whole_frames request p r p' :
  Exchange true request p = (Ok r, p') ->
  exists header body status,
    pe_in p = header ++ body ++ pe_in p' /\ length header = 4%nat /\
    le_value header = Z.of_nat (length body) /\
    kFrameTagBytes <= Z.of_nat (length body) <= kPipeBufferSize /\
    DecodeFrame body = Some (status, rp_payload r) /\ rp_status r = i32 status /\
    pe_out p' = pe_out p ++ EncodeRequest request.
Proof.
  unfold Exchange. cbn [negb]. rewrite st_bind_unfold. unfold WriteExactly.
  destruct (write_loop _ _ p) as [[[]|] p1] eqn:Ew; cbn [fst snd]; [|done].
  apply write_loop_Ok in Ew as (Hin1 & Hout1 & _).
  rewrite st_bind_unfold. unfold read_body. rewrite st_bind_unfold.
  destruct (ReadExactly 4 p1) as [[header|] p2] eqn:Eh; cbn [fst snd]; [|done].
  apply ReadExactly_Ok in Eh as (Hlen & Hin2 & Hout2 & _).
  destruct (_ || _) eqn:Erange; cbn [fst snd]; [done|]. boolp.
  destruct (ReadExactly _ p2) as [[body|] p3] eqn:Eb; cbn [fst snd]; [|done].
  apply ReadExactly_Ok in Eb as (Hlen' & Hin3 & Hout3 & _).
  destruct (DecodeFrame body) as [[status payload]|] eqn:Ed; [|done].
  intros [= <- <-]. unfold kFrameTagBytes in *. exists header, body, status.
  split_and!; try done; [congruence|lia..|congruence].
Qed.

Lemma Exchange_accepts_whole_frames_witness :
  let p := mkPipeEnd (EncodeResponse (mkResponse 0 "ok")) [] one_byte_io 0 in
  exists p', Exchange true (mkRequest 2 "") p = (Ok (mkResponse 0 "ok"), p') /\
  exists header body status,
    pe_in p = header ++ body ++ pe_in p' /\ length header = 4%nat /\
    le_value header = Z.of_nat (length body) /\
    kFrameTagBytes <= Z.of_nat (length body) <= kPipeBufferSize /\
    DecodeFrame body = Some (status, "ok"%string) /\ 0 = i32 status /\
    pe_out p' = pe_out p ++ EncodeRequest (mkRequest 2 "").
Proof.
  intros p. eexists. split; [vm_compute; reflexivity|].
  exact (Exchange_accepts_whole_frames (mkRequest 2 "") p (mkResponse 0 "ok") _
    ltac:(vm_compute; reflexivity)).
Defined.

(** C30 A handler's response longer than the 64 KiB frame limit is written by the
    server, which reports success, and is then refused by the client. *)
Theorem oversize_response_refused s env h request server_io client_io ts tc :
  before_session s env = None -> progresses server_io -> progresses client_io ->
  frame_ok (rq_kind request) (rq_payload request) ->
  kPipeBufferSize < Z.of_nat (length (bytes_of (rp_payload (h request)))) + kFrameTagBytes
    <= u32_max ->
  exists server client,
    ServeOne s env (Some h) (mkPipeEnd (EncodeRequest request) [] server_io ts) =
      ((true, ""%string), server) /\
    Exchange true request (mkPipeEnd (pe_out server) [] client_io tc) =
      (Err "invalid response frame length", client).
Proof.
  intros Hb Hs Hc Hreq Hbig.
  destruct (serve_session_progress h request [] (mkPipeEnd (EncodeRequest request) [] server_io ts))
    as (t & Eserve); [done|done|by rewrite app_nil_r|].
  exists (mkPipeEnd [] (EncodeResponse (h request)) server_io t). cbn [pe_out].
  unfold Exchange. cbn [negb]. rewrite st_bind_unfold. unfold WriteExactly.
  destruct (write_loop_progress (length (EncodeRequest request)) (EncodeRequest request)
    (mkPipeEnd (EncodeResponse (h request)) [] client_io tc)) as (t1 & ->); [done|done|].
  cbn [fst snd pe_in pe_out pe_io]. rewrite st_bind_unfold. unfold read_body. rewrite st_bind_unfold.
  set (len := Z.of_nat (length (bytes_of (rp_payload (h request)))) + kFrameTagBytes) in *.
  destruct (ReadExactly_progress (le_bytes 4 (u32 len))
    (le_bytes 4 (u32 (rp_status (h request))) ++ bytes_of (rp_payload (h request)))
    (mkPipeEnd (EncodeResponse (h request)) ([] ++ EncodeRequest request) client_io t1)) as (t2 & E);
    [done|apply EncodeFrame_layout|].
  rewrite le_bytes_length in E. rewrite E. cbn [fst snd].
  unfold kPipeBufferSize, u32_max in Hbig.
  rewrite le_value_bytes by (pose proof (u32_range len); unfold u32_max in *; simpl; lia).
  rewrite u32_small by (unfold u32_max; lia).
  rewrite (proj2 (Z.ltb_lt kPipeBufferSize len)) by (unfold kPipeBufferSize; lia).
  rewrite orb_true_r. eexists. split; [|reflexivity].
  unfold ServeOne. rewrite Hb, st_bind_unfold, Eserve. done.
Qed.

Definition long_text : string := of_chars (replicate (Z.to_nat 65533) "a"%char).

Lemma long_text_bytes : Z.of_nat (length (bytes_of long_text)) = 65533.
Proof.
  unfold bytes_of, long_text. rewrite chars_of_chars, length_fmap, length_replicate. lia.
Qed.

Lemma oversize_response_refused_witness :
  exists server client,
    ServeOne running_server pending_env (Some (fun _ => mkResponse 0 long_text))
      (mkPipeEnd (EncodeRequest (mkRequest 3 "")) [] one_byte_io 0) = ((true, ""%string), server) /\
    Exchange true (mkRequest 3 "") (mkPipeEnd (pe_out server) [] one_byte_io 0) =
      (Err "invalid response frame length", client).
Proof.
  apply (oversize_response_refused running_server pending_env (fun _ => mkResponse 0 long_text)
    (mkRequest 3 "") one_byte_io one_byte_io 0 0 eq_refl one_byte_progresses one_byte_progresses).
  - split; vm_compute; intuition discriminate.
  - cbn [rp_payload]. rewrite long_text_bytes. vm_compute. intuition discriminate.
Defined.
