(* ===== verification/Token.v ===== *)
(** The WESP://Permission stamp on the process token and the privileges it needs
    (src/esptool/src/ppl/TokenAttribute.cpp).

    The calls into the system are the fields of [TokenOs], over an abstract system state,
    of which nothing is assumed. *)
From S2P Require Import Prelude Text Core MemoryView.

Definition kOctetStringBytes : nat := 16.
Definition kOctetTagDword : Z := 1.
Definition kOctetTagBytes : nat := 4.
Definition kOctetPermissionOffset : nat := 4.
Definition kQueryBufferSlop : Z := 64.

Definition kWespPermissionFull : Z := 2.
Definition kWespPermissionRestricted : Z := 1.
Definition kWespPermissionAbcdDeny : Z := 0x4D564900.
Definition kWespPermissionClaim : string := "WESP://Permission".
(** The attribute name as UTF-16 bytes, without its terminator. *)
Definition kWespPermissionAttributeName : list Z := chars kWespPermissionClaim ≫= fun c => [code c; 0].

Definition NTSTATUS : Type := Z.
Definition NT_SUCCESS (status : NTSTATUS) : bool := 0 <=? status.
Definition STATUS_ENTRYPOINT_NOT_FOUND : NTSTATUS := i32 0xC0000139.
Definition ERROR_NOT_ALL_ASSIGNED : Z := 1300.
Definition TOKEN_QUERY : Z := 0x8.
Definition TOKEN_ADJUST_PRIVILEGES : Z := 0x20.
Definition TOKEN_ADJUST_DEFAULT : Z := 0x80.
Definition SE_TCB_NAME : string := "SeTcbPrivilege".
Definition SE_PRIVILEGE_ENABLED : Z := 2.

Definition StatusHex (status : NTSTATUS) : string :=
  "0x" +:+ of_chars (hex_upper_fixed 8 (u32 status)).

Record TokenAttributeState := mkTokenAttributeState {
  ta_queried : bool;
  ta_present : bool;
  ta_permission : Z;
  ta_query_status : NTSTATUS
}.

Definition empty_attribute : TokenAttributeState := mkTokenAttributeState false false 0 0.

Definition Describe (a : TokenAttributeState) : string :=
  if negb (ta_queried a) then "not queried"
  else if negb (ta_present a) then "absent (query " +:+ StatusHex (ta_query_status a) +:+ ")"
  else if ta_permission a =? kWespPermissionFull
  then "present full (" +:+ dec (ta_permission a) +:+ ")"
  else if ta_permission a =? kWespPermissionRestricted
  then "present restricted (" +:+ dec (ta_permission a) +:+ ")"
  else "present value=" +:+ dec (ta_permission a).

(** ** The attribute blob *)

Definition starts_with (prefix data : list Z) : bool :=
  bool_decide (take (length prefix) data = prefix).

(** The data from the first occurrence of the name on. *)
Fixpoint find_name (name data : list Z) : option (list Z) :=
  if starts_with name data then Some data
  else match data with [] => None | _ :: rest => find_name name rest end.

(** The permission of the first 16-byte window whose first dword is the tag. *)
Fixpoint find_permission (data : list Z) : Z :=
  match data with
  | [] => 0
  | _ :: rest =>
      if (length data <? kOctetStringBytes)%nat then 0
      else if ReadU32At 0 data =? kOctetTagDword then ReadU32At kOctetPermissionOffset data
      else find_permission rest
  end.

Definition DecodeWespPermissionBlob (data : list Z) (out : TokenAttributeState)
    : TokenAttributeState :=
  let found present permission :=
    mkTokenAttributeState (ta_queried out) present permission (ta_query_status out) in
  match data with
  | [] => found false 0
  | _ =>
      if (length data <? length kWespPermissionAttributeName)%nat then found false 0
      else match find_name kWespPermissionAttributeName data with
           | None => found false 0
           | Some from_name => found true (find_permission from_name)
           end
  end.

(** The 16 bytes of the octet string: the literal tag bytes, then the permission. *)
Definition octet_payload (permission : Z) : list Z :=
  [1; 0; 0; 0] ++ le_bytes 4 permission ++ replicate 8 0.

Inductive TokenOperation := OpAdd | OpReplace | OpDelete.

(** ** Over the system *)

Record TokenOs (S : Type) := mkTokenOs {
  (** a handle, or the last error *)
  os_OpenProcessToken : Z -> S -> Z + Z;
  os_LookupPrivilegeValue : string -> S -> Z + Z;
  (** the return value and the last error *)
  os_AdjustTokenPrivileges : Z -> Z -> S -> (bool * Z) * S;
  (** the token's privileges, as (luid, attributes) *)
  os_TokenPrivileges : Z -> S -> option (list (Z * Z));
  os_TokenUser : Z -> S -> option (list Z);
  os_LocalSystemSid : S -> option (list Z);
  (** token, attribute name, octet payload, operation; absent without the export *)
  os_NtSetInformationToken :
    option (Z -> list Z -> list Z -> TokenOperation -> S -> NTSTATUS * S);
  (** the size probe: status and size needed; then the query into a buffer *)
  os_QueryProbe : option (Z -> S -> NTSTATUS * Z);
  os_QueryData : Z -> Z -> S -> NTSTATUS * list Z
}.
Arguments os_OpenProcessToken {S} t. Arguments os_LookupPrivilegeValue {S} t.
Arguments os_AdjustTokenPrivileges {S} t. Arguments os_TokenPrivileges {S} t.
Arguments os_TokenUser {S} t. Arguments os_LocalSystemSid {S} t.
Arguments os_NtSetInformationToken {S} t. Arguments os_QueryProbe {S} t.
Arguments os_QueryData {S} t.

Record PrivilegeState := mkPrivilegeState { pv_present : bool; pv_enabled : bool }.

Section Token.
Context {S : Type} (os : TokenOs S).

Definition ApplyOperation (token permission : Z) (operation : TokenOperation) : ST S NTSTATUS :=
  match os_NtSetInformationToken os with
  | None => mret STATUS_ENTRYPOINT_NOT_FOUND
  | Some set => set token kWespPermissionAttributeName (octet_payload permission) operation
  end.

Definition EnablePrivilege (name : string) : ST S (result unit) :=
  fun s =>
    match os_OpenProcessToken os (Z.lor TOKEN_ADJUST_PRIVILEGES TOKEN_QUERY) s with
    | inr e => (Err (Win32Message "OpenProcessToken failed" e), s)
    | inl token =>
        match os_LookupPrivilegeValue os name s with
        | inr e => (Err (Win32Message "LookupPrivilegeValue failed" e), s)
        | inl luid =>
            let '((adjusted, failure), s) := os_AdjustTokenPrivileges os token luid s in
            (if negb adjusted || (failure =? ERROR_NOT_ALL_ASSIGNED)
             then Err (Win32Message "AdjustTokenPrivileges failed" failure) else Ok tt, s)
        end
    end.

Definition QueryPrivilege (name : string) (s : S) : PrivilegeState :=
  let absent := mkPrivilegeState false false in
  match os_OpenProcessToken os TOKEN_QUERY s with
  | inr _ => absent
  | inl token =>
      match os_LookupPrivilegeValue os name s with
      | inr _ => absent
      | inl luid =>
          match os_TokenPrivileges os token s with
          | None => absent
          | Some privileges =>
              match find_first (fun entry => entry.1 =? luid) privileges with
              | Some entry => mkPrivilegeState true
                                (negb (Z.land entry.2 SE_PRIVILEGE_ENABLED =? 0))
              | None => absent
              end
          end
      end
  end.

Definition IsSystemAccount (s : S) : bool :=
  match os_OpenProcessToken os TOKEN_QUERY s with
  | inr _ => false
  | inl token =>
      match os_TokenUser os token s, os_LocalSystemSid os s with
      | Some user, Some sid => bool_decide (user = sid)
      | _, _ => false
      end
  end.

Definition RequireSystemWithTcb : ST S (result unit) :=
  fun s =>
    if negb (IsSystemAccount s)
    then (Err "this command requires a process launched as NT AUTHORITY\SYSTEM", s)
    else if negb (pv_present (QueryPrivilege SE_TCB_NAME s))
    then (Err "this command requires SeTcbPrivilege on the process token", s)
    else match EnablePrivilege SE_TCB_NAME s with
         | (Ok _, s) => (Ok tt, s)
         | (Err e, s) => (Err ("SeTcbPrivilege is present but could not be enabled: " +:+ e), s)
         end.

(** The state left in the output argument, and the error of a failed query. *)
Definition QueryWespPermission (s : S) : TokenAttributeState * result unit :=
  match os_QueryProbe os with
  | None => (empty_attribute, Err "NtQueryInformationToken is not available")
  | Some probe =>
      match os_OpenProcessToken os TOKEN_QUERY s with
      | inr e => (empty_attribute, Err (Win32Message "OpenProcessToken failed" e))
      | inl token =>
          let '(status, needed) := probe token s in
          if needed =? 0
          then (mkTokenAttributeState true false 0 status,
                Err ("NtQueryInformationToken size probe failed " +:+ StatusHex status))
          else
            let '(status, data) := os_QueryData os token (needed + kQueryBufferSlop) s in
            let out := mkTokenAttributeState true false 0 status in
            if negb (NT_SUCCESS status)
            then (out, Err ("NtQueryInformationToken failed " +:+ StatusHex status))
            else (DecodeWespPermissionBlob data out, Ok tt)
      end
  end.

Definition parenthesised (error : string) : string := " (" +:+ error +:+ ")".

(** The privilege error appended to a failed update. *)
Definition with_privilege_error (message : string) (have_tcb : result unit) : string :=
  match have_tcb with
  | Ok _ => message
  | Err e => if is_empty e then message else message +:+ parenthesised e
  end.

Definition SetWespPermission (permission : Z) : ST S (result unit) :=
  fun s =>
    let '(have_tcb, s) := EnablePrivilege SE_TCB_NAME s in
    match os_OpenProcessToken os (Z.lor TOKEN_QUERY TOKEN_ADJUST_DEFAULT) s with
    | inr e => (Err (Win32Message "OpenProcessToken failed" e), s)
    | inl token =>
        let '(status, s) := ApplyOperation token permission OpAdd s in
        let '(status, s) := if negb (NT_SUCCESS status)
          then ApplyOperation token permission OpReplace s else (status, s) in
        if negb (NT_SUCCESS status)
        then (Err (with_privilege_error
                     ("NtSetInformationToken failed " +:+ StatusHex status) have_tcb), s)
        else
          let '(verified, query) := QueryWespPermission s in
          if negb (is_Ok query) || negb (ta_present verified)
             || negb (ta_permission verified =? permission)
          then (Err ("NtSetInformationToken succeeded but " +:+ kWespPermissionClaim +:+ " is " +:+
                     Describe verified +:+
                     match query with
                     | Err e => if is_empty e then "" else parenthesised e
                     | Ok _ => ""
                     end), s)
          else (Ok tt, s)
    end.

Definition DeleteWespPermission : ST S (result unit) :=
  fun s =>
    let '(have_tcb, s) := EnablePrivilege SE_TCB_NAME s in
    match os_OpenProcessToken os (Z.lor TOKEN_QUERY TOKEN_ADJUST_DEFAULT) s with
    | inr e => (Err (Win32Message "OpenProcessToken failed" e), s)
    | inl token =>
        let '(status, s) := ApplyOperation token kWespPermissionFull OpDelete s in
        if negb (NT_SUCCESS status)
        then (Err (with_privilege_error
                     ("NtSetInformationToken(DELETE) failed " +:+ StatusHex status) have_tcb), s)
        else
          let '(verified, query) := QueryWespPermission s in
          match query with
          | Err e =>
              (Err ("NtSetInformationToken(DELETE) succeeded but failed to re-query " +:+
                    kWespPermissionClaim +:+ ": " +:+ e), s)
          | Ok _ =>
              if ta_present verified
              then (Err ("NtSetInformationToken(DELETE) succeeded but " +:+
                         kWespPermissionClaim +:+ " is still present: " +:+ Describe verified), s)
              else (Ok tt, s)
          end
    end.

End Token.

(** ** What the token says *)

(** What a blob says of the claim: nothing when the name occurs nowhere in it; else, from
    its first occurrence on, the dword after the first tag dword that has 16 bytes, and 0
    without one. *)
Definition claims (data : list Z) (claim : option Z) : Prop :=
  match claim with
  | None => forall before rest, data <> before ++ kWespPermissionAttributeName ++ rest
  | Some permission =>
      exists before rest, let from := kWespPermissionAttributeName ++ rest in
        data = before ++ from /\
        (forall earlier rest', (length earlier < length before)%nat ->
           data <> earlier ++ kWespPermissionAttributeName ++ rest') /\
        ((exists k, (k + 16 <= length from)%nat /\ ReadU32At 0 (drop k from) = 1 /\
            (forall j, (j < k)%nat -> ReadU32At 0 (drop j from) <> 1) /\
            permission = ReadU32At 4 (drop k from)) \/
         permission = 0 /\ forall k, (k + 16 <= length from)%nat -> ReadU32At 0 (drop k from) <> 1)
  end.

(** The token of a system can be read and says this of the claim. *)
Definition token_claims {S} (os : TokenOs S) (s : S) (claim : option Z) : Prop :=
  exists probe token, os_QueryProbe os = Some probe /\
    os_OpenProcessToken os TOKEN_QUERY s = inl token /\ (probe token s).2 <> 0 /\
    let read := os_QueryData os token ((probe token s).2 + 64) s in
    NT_SUCCESS read.1 = true /\ claims read.2 claim.

(** * Theorems *)

(** ** The blob *)

Lemma starts_with_spec prefix data :
  starts_with prefix data = true <-> exists rest, data = prefix ++ rest.
Proof.
  unfold starts_with. rewrite bool_decide_eq_true. split.
  - intros H. exists (drop (length prefix) data). rewrite <- H at 1. by rewrite take_drop.
  - intros [rest ->]. apply take_app_length.
Qed.

Lemma find_name_Some name data from :
  find_name name data = Some from <->
  exists before, data = before ++ from /\ starts_with name from = true /\
    forall k, (k < length before)%nat -> starts_with name (drop k data) = false.
Proof.
  revert from. induction data as [|b data IH]; intros from; cbn [find_name].
  - split.
    + case_if; [|done]. intros [= <-]. exists []. split_and!; [done|done|simpl; lia].
    + intros (before & E & Hs & _). symmetry in E. apply app_nil in E as [-> ->]. by rewrite Hs.
  - destruct (starts_with name (b :: data)) eqn:Hb.
    + split.
      * intros [= <-]. exists []. split_and!; [done|done|simpl; lia].
      * intros ([|b' before] & E & Hs & Hk); [simpl in E; by rewrite E|].
        specialize (Hk 0%nat). cbn [length drop] in Hk. rewrite Hb in Hk. discriminate Hk. lia.
    + rewrite IH. split; intros (before & E & Hs & Hk).
      * exists (b :: before). subst. split_and!; [done|done|].
        intros [|k] Hlt; [exact Hb|]. apply Hk. simpl in Hlt. lia.
      * destruct before as [|b' before]; simpl in E; [subst; congruence|].
        injection E as <- ->. exists before. split_and!; [done|done|].
        intros k Hlt. apply (Hk (Datatypes.S k)). simpl. lia.
Qed.

Lemma find_name_None name data :
  find_name name data = None <->
  forall before rest, data <> before ++ name ++ rest.
Proof.
  induction data as [|b data IH]; cbn [find_name].
  - case_if; [split; [done|]|split; [|done]].
    + apply starts_with_spec in Heqb as [rest E]. intros H. by destruct (H [] rest).
    + intros _ before rest E. symmetry in E. apply app_nil in E as [_ E].
      assert (starts_with name [] = true) by (apply starts_with_spec; eauto). congruence.
  - destruct (starts_with name (b :: data)) eqn:E.
    + split; [done|]. apply starts_with_spec in E as [rest E]. intros H. by destruct (H [] rest).
    + rewrite IH. split; intros H before rest Hd.
      * destruct before as [|b' before]; simpl in Hd.
        { assert (starts_with name (b :: data) = true); [|congruence].
          apply starts_with_spec. eauto. }
        injection Hd as <- Hd. by apply (H before rest).
      * apply (H (b :: before) rest). by rewrite Hd.
Qed.

(** First window at or after the start with the tag. *)
Lemma find_permission_at data k :
  (k + kOctetStringBytes <= length data)%nat ->
  ReadU32At 0 (drop k data) = kOctetTagDword ->
  (forall j, (j < k)%nat -> ReadU32At 0 (drop j data) <> kOctetTagDword) ->
  find_permission data = ReadU32At kOctetPermissionOffset (drop k data).
Proof.
  revert data. induction k as [|k IH]; intros data Hlen Htag Hno;
    (destruct data as [|b data]; [simpl in Hlen; unfold kOctetStringBytes in Hlen; lia|]);
    cbn [find_permission]; rewrite (proj2 (Nat.ltb_ge _ _)) by (simpl in *; lia).
  - rewrite drop_0 in Htag. by rewrite Htag.
  - rewrite (proj2 (Z.eqb_neq _ _)) by (apply (Hno 0%nat); lia).
    apply IH; [simpl in *; lia|done|]. intros j Hj. apply (Hno (Datatypes.S j)). lia.
Qed.

Lemma find_permission_none data :
  (forall k, (k + kOctetStringBytes <= length data)%nat ->
     ReadU32At 0 (drop k data) <> kOctetTagDword) -> find_permission data = 0.
Proof.
  induction data as [|b data IH]; [done|]. intros H. cbn [find_permission].
  destruct (Nat.ltb_spec (length (b :: data)) kOctetStringBytes); [done|].
  rewrite (proj2 (Z.eqb_neq _ _)) by (apply (H 0%nat); simpl in *; lia).
  apply IH. intros k Hk. apply (H (Datatypes.S k)). simpl in *. lia.
Qed.

Lemma Decode_name data out :
  DecodeWespPermissionBlob data out =
  match find_name kWespPermissionAttributeName data with
  | None => mkTokenAttributeState (ta_queried out) false 0 (ta_query_status out)
  | Some from => mkTokenAttributeState (ta_queried out) true (find_permission from)
                   (ta_query_status out)
  end.
Proof.
  unfold DecodeWespPermissionBlob. destruct data as [|b data]; [done|].
  destruct (Nat.ltb_spec (length (b :: data)) (length kWespPermissionAttributeName)) as [Hlt|];
    [|done].
  destruct (find_name _ _) eqn:E; [|done].
  apply find_name_Some in E as (before & E & [rest ->]%starts_with_spec & _).
  rewrite E, !length_app in Hlt. lia.
Qed.

(** Decoding an attribute blob: the claim is present exactly when its UTF-16
    name occurs somewhere; the permission is the dword after the first tag dword
    at or after the first occurrence of the name that still has 16 bytes, and 0
    without one. *)
Lemma DecodeWespPermissionBlob_spec data out :
  let state := DecodeWespPermissionBlob data out in
  (ta_present state = true <->
   exists before rest, data = before ++ kWespPermissionAttributeName ++ rest) /\
  (ta_present state = false -> ta_permission state = 0) /\
  (forall before from, data = before ++ from ->
     starts_with kWespPermissionAttributeName from = true ->
     (forall k, (k < length before)%nat ->
        starts_with kWespPermissionAttributeName (drop k data) = false) ->
     (forall k, (k + kOctetStringBytes <= length from)%nat ->
        ReadU32At 0 (drop k from) = kOctetTagDword ->
        (forall j, (j < k)%nat -> ReadU32At 0 (drop j from) <> kOctetTagDword) ->
        ta_permission state = ReadU32At kOctetPermissionOffset (drop k from)) /\
     ((forall k, (k + kOctetStringBytes <= length from)%nat ->
         ReadU32At 0 (drop k from) <> kOctetTagDword) -> ta_permission state = 0)).
Proof.
  cbv zeta. rewrite Decode_name.
  destruct (find_name kWespPermissionAttributeName data) as [from|] eqn:E; simpl.
  - split_and!; [|done|].
    + apply find_name_Some in E as (before & -> & [rest ->]%starts_with_spec & _).
      split; [eauto|done].
    + intros before from' Hd Hs Hfirst.
      assert (find_name kWespPermissionAttributeName data = Some from') as E'
        by (apply find_name_Some; eauto).
      rewrite E in E'. injection E' as <-.
      split; [intros k; apply find_permission_at|apply find_permission_none].
  - pose proof (proj1 (find_name_None _ _) E) as Hnone. split_and!.
    + split; [done|]. intros (before & rest & Hd). by destruct (Hnone before rest).
    + done.
    + intros before from Hd [rest ->]%starts_with_spec. by destruct (Hnone before rest).
Qed.

(** ** What the query reads *)

Definition claim_of (state : TokenAttributeState) : option Z :=
  if ta_present state then Some (ta_permission state) else None.

Lemma find_permission_cases data :
  (exists k, (k + kOctetStringBytes <= length data)%nat /\ ReadU32At 0 (drop k data) = kOctetTagDword /\
     forall j, (j < k)%nat -> ReadU32At 0 (drop j data) <> kOctetTagDword) \/
  (forall k, (k + kOctetStringBytes <= length data)%nat -> ReadU32At 0 (drop k data) <> kOctetTagDword).
Proof.
  induction data as [|b data IH]; [right; intros k; unfold kOctetStringBytes; simpl; lia|].
  destruct (Nat.ltb_spec (length (b :: data)) kOctetStringBytes) as [Hlt|Hlen].
  { right. intros k. lia. }
  destruct (decide (ReadU32At 0 (b :: data) = kOctetTagDword)) as [Htag|Hno].
  { left. exists 0%nat. split_and!; [simpl in *; lia|done|lia]. }
  destruct IH as [(k & Hk & Htag & Hfirst)|Hnone].
  - left. exists (Datatypes.S k). split_and!; [simpl in *; lia|done|].
    intros [|j] Hj; [done|]. apply (Hfirst j). lia.
  - right. intros [|k] Hk; [done|]. apply (Hnone k). simpl in Hk. lia.
Qed.

Lemma find_permission_spec data permission :
  find_permission data = permission <->
  (exists k, (k + 16 <= length data)%nat /\ ReadU32At 0 (drop k data) = 1 /\
     (forall j, (j < k)%nat -> ReadU32At 0 (drop j data) <> 1) /\ permission = ReadU32At 4 (drop k data)) \/
  permission = 0 /\ forall k, (k + 16 <= length data)%nat -> ReadU32At 0 (drop k data) <> 1.
Proof.
  split.
  - intros <-. destruct (find_permission_cases data) as [(k & Hk & Htag & Hfirst)|Hnone].
    + left. exists k. split_and!; try done. by apply find_permission_at.
    + right. split; [by apply find_permission_none|done].
  - intros [(k & Hk & Htag & Hfirst & ->)|[-> Hnone]]; [by apply find_permission_at|by apply find_permission_none].
Qed.

Lemma find_name_first name data from :
  find_name name data = Some from <->
  exists before rest, from = name ++ rest /\ data = before ++ from /\
    forall earlier rest', (length earlier < length before)%nat -> data <> earlier ++ name ++ rest'.
Proof.
  rewrite find_name_Some. split.
  - intros (before & Hd & [rest Hf]%starts_with_spec & Hno). exists before, rest. split_and!; [done..|].
    intros earlier rest' Hlt He. specialize (Hno _ Hlt). rewrite He, drop_app_length in Hno.
    by assert (starts_with name (name ++ rest') = true) by (apply starts_with_spec; eauto); congruence.
  - intros (before & rest & Hf & Hd & Hno). exists before. split_and!; [done|apply starts_with_spec; eauto|].
    intros k Hk. apply not_true_iff_false. intros [rest' Hr]%starts_with_spec.
    apply (Hno (take k data) rest').
    + rewrite length_take. lia.
    + by rewrite <- Hr, take_drop.
Qed.

Lemma Decode_claims data out claim :
  claim_of (DecodeWespPermissionBlob data out) = claim <-> claims data claim.
Proof.
  rewrite Decode_name. unfold claims.
  destruct (find_name kWespPermissionAttributeName data) as [from|] eqn:E; unfold claim_of; cbn [ta_present ta_permission].
  - pose proof (proj1 (find_name_first _ _ _) E) as (before & rest & Hf & Hd & Hno). split.
    + intros <-. exists before, rest. cbv zeta. rewrite <- Hf. split_and!; [done..|]. by apply find_permission_spec.
    + destruct claim as [permission|].
      * intros (before' & rest' & Hd' & Hno' & Hp). f_equal. apply find_permission_spec.
        assert (find_name kWespPermissionAttributeName data = Some (kWespPermissionAttributeName ++ rest')) as E'
          by (apply find_name_first; eauto).
        rewrite E in E'. injection E' as ->. done.
      * intros Hnone. destruct (Hnone before rest). by rewrite <- Hf.
  - pose proof (proj1 (find_name_None _ _) E) as Hnone. split; [by intros <-|].
    destruct claim as [permission|]; [|done]. intros (before & rest & Hd & _). by destruct (Hnone before rest).
Qed.

Lemma Query_claims {S} (os : TokenOs S) s claim :
  (is_Ok (QueryWespPermission os s).2 = true /\ claim_of (QueryWespPermission os s).1 = claim) <->
  token_claims os s claim.
Proof.
  unfold QueryWespPermission, token_claims. destruct (os_QueryProbe os) as [probe|].
  2:{ split; [by intros [? _]|]. by intros (? & ? & ? & _). }
  destruct (os_OpenProcessToken os TOKEN_QUERY s) as [token|e].
  2:{ split; [by intros [? _]|]. by intros (? & ? & _ & ? & _). }
  transitivity ((probe token s).2 <> 0 /\ NT_SUCCESS (os_QueryData os token ((probe token s).2 + 64) s).1 = true /\
    claims (os_QueryData os token ((probe token s).2 + 64) s).2 claim).
  2:{ split; [intros (? & ? & ?); exists probe, token; auto|].
      by intros (probe' & token' & [= <-] & [= <-] & ? & ? & ?). }
  destruct (probe token s) as [status needed]. cbn [snd]. destruct (Z.eqb_spec needed 0) as [->|Hn].
  { split; [by intros [? _]|by intros [? _]]. }
  change (needed + kQueryBufferSlop) with (needed + 64).
  destruct (os_QueryData os token (needed + 64) s) as [read data]. cbn [fst snd].
  destruct (NT_SUCCESS read); cbn [negb fst snd is_Ok].
  - rewrite Decode_claims. tauto.
  - split; [by intros [? _]|by intros (_ & ? & _)].
Qed.

(** ** The stamp *)

Section Stamp.
Context {S : Type} (os : TokenOs S).

Lemma SetWespPermission_reads permission s :
  let '(r, s') := SetWespPermission os permission s in
  r = Ok tt ->
  exists verified, QueryWespPermission os s' = (verified, Ok tt) /\
    ta_present verified = true /\ ta_permission verified = permission.
Proof.
  unfold SetWespPermission. destruct (EnablePrivilege os SE_TCB_NAME s) as [tcb s1].
  destruct (os_OpenProcessToken os _ s1) as [token|]; [|done].
  destruct (ApplyOperation os token permission OpAdd s1) as [status s2].
  destruct (if negb (NT_SUCCESS status) then _ else _) as [status' s3].
  case_if; [done|].
  destruct (QueryWespPermission os s3) as [verified [[]|]] eqn:Eq; simpl; [|done].
  destruct (ta_present verified) eqn:Ep; simpl; [|done].
  destruct (Z.eqb_spec (ta_permission verified) permission); simpl; [|done]. eauto.
Qed.

Lemma DeleteWespPermission_reads s :
  let '(r, s') := DeleteWespPermission os s in
  r = Ok tt ->
  exists verified, QueryWespPermission os s' = (verified, Ok tt) /\ ta_present verified = false.
Proof.
  unfold DeleteWespPermission. destruct (EnablePrivilege os SE_TCB_NAME s) as [tcb s1].
  destruct (os_OpenProcessToken os _ s1) as [token|]; [|done].
  destruct (ApplyOperation os token _ OpDelete s1) as [status s2].
  case_if; [done|].
  destruct (QueryWespPermission os s2) as [verified [[]|]] eqn:Eq; simpl; [|done].
  destruct (ta_present verified) eqn:Ep; simpl; [done|]. eauto.
Qed.

(** The end of the stamp: what was written is read again. *)
Lemma reads_back permission s (message : TokenAttributeState -> result unit -> string) r s' :
  (let '(verified, query) := QueryWespPermission os s in
   if negb (is_Ok query) || negb (ta_present verified) || negb (ta_permission verified =? permission)
   then (Err (message verified query), s) else (Ok tt, s)) = (r, s') ->
  (is_Ok r = true <-> token_claims os s (Some permission)) /\ s' = s.
Proof.
  pose proof (Query_claims os s (Some permission)) as H. destruct (QueryWespPermission os s) as [verified query].
  rewrite <- H. unfold claim_of. cbn [fst snd].
  destruct (is_Ok query); cbn [negb orb]; [|intros [= <- <-]; by split; [split; [|intros [? _]]|]].
  destruct (ta_present verified); cbn [negb orb]; [|intros [= <- <-]; by split; [split; [|intros [_ ?]]|]].
  destruct (Z.eqb_spec (ta_permission verified) permission) as [->|Hne]; cbn; intros [= <- <-]; [done|].
  split; [|done]. split; [done|]. by intros [_ [= ?]].
Qed.

Lemma reads_gone s (failed still : TokenAttributeState -> string -> string) r s' :
  (let '(verified, query) := QueryWespPermission os s in
   match query with
   | Err e => (Err (failed verified e), s)
   | Ok _ => if ta_present verified then (Err (still verified ""), s) else (Ok tt, s)
   end) = (r, s') ->
  (is_Ok r = true <-> token_claims os s None) /\ s' = s.
Proof.
  pose proof (Query_claims os s None) as H. destruct (QueryWespPermission os s) as [verified query].
  rewrite <- H. unfold claim_of. cbn [fst snd].
  destruct query; cbn [is_Ok]; [|intros [= <- <-]; by split; [split; [|intros [? _]]|]].
  destruct (ta_present verified); intros [= <- <-]; cbn; (split; [|done]); split; try done. by intros [_ ?].
Qed.

(** C31 The stamp, on any system: it is reported as done exactly when the token opens,
    the claim was added or, only when adding failed, replaced, and the token read again
    carries the claim with the very permission asked for; and the removal exactly when
    it was deleted and the token read again does not carry it. Whatever is reported, the
    token was changed by no other operation than these. *)
Theorem stamp_exact permission s :
  let '(tcb, s1) := EnablePrivilege os SE_TCB_NAME s in
  let opened := os_OpenProcessToken os (Z.lor TOKEN_QUERY TOKEN_ADJUST_DEFAULT) s1 in
  let apply token payload operation s :=
    match os_NtSetInformationToken os with
    | None => (STATUS_ENTRYPOINT_NOT_FOUND, s)
    | Some set => set token kWespPermissionAttributeName payload operation s
    end in
  let payload permission := [1; 0; 0; 0] ++ le_bytes 4 permission ++ replicate 8 0 in
  let stored token :=
    let added := apply token (payload permission) OpAdd s1 in
    if NT_SUCCESS added.1 then added else apply token (payload permission) OpReplace added.2 in
  let deleted token := apply token (payload 2) OpDelete s1 in
  (let '(r, s') := SetWespPermission os permission s in
   (is_Ok r = true <-> exists token, opened = inl token /\ NT_SUCCESS (stored token).1 = true /\
      token_claims os (stored token).2 (Some permission)) /\
   s' = match opened with inl token => (stored token).2 | inr _ => s1 end) /\
  (let '(r, s') := DeleteWespPermission os s in
   (is_Ok r = true <-> exists token, opened = inl token /\ NT_SUCCESS (deleted token).1 = true /\
      token_claims os (deleted token).2 None) /\
   s' = match opened with inl token => (deleted token).2 | inr _ => s1 end).
Proof.
  destruct (EnablePrivilege os SE_TCB_NAME s) as [tcb s1] eqn:Etcb. cbv zeta.
  destruct (SetWespPermission os permission s) as [r s'] eqn:Eset.
  destruct (DeleteWespPermission os s) as [rd sd] eqn:Edel.
  unfold SetWespPermission, ApplyOperation in Eset. unfold DeleteWespPermission, ApplyOperation in Edel.
  rewrite Etcb in Eset, Edel. destruct (os_OpenProcessToken os _ s1) as [token|e].
  2:{ simplify_eq. split; (split; [split; [done|by intros (? & ? & _)]|done]). }
  assert (forall R : Z -> Prop, (exists t, inl token = @inl Z Z t /\ R t) <-> R token) as Hone.
  { intros R. split; [by intros (? & [= <-] & ?)|eauto]. }
  rewrite !Hone. clear Hone.
  change ([1; 0; 0; 0] ++ le_bytes 4 permission ++ replicate 8 0) with (octet_payload permission).
  change ([1; 0; 0; 0] ++ le_bytes 4 2 ++ replicate 8 0) with (octet_payload kWespPermissionFull).
  destruct (os_NtSetInformationToken os) as [set|].
  2:{ unfold mret, st_ret in Eset, Edel. cbn [fst snd] in *.
      change (NT_SUCCESS STATUS_ENTRYPOINT_NOT_FOUND) with false in *. cbn [negb fst snd] in *.
      change (NT_SUCCESS STATUS_ENTRYPOINT_NOT_FOUND) with false in *. cbn [negb] in *. simplify_eq.
      split; (split; [split; [done|by intros [? _]]|done]). }
  split.
  - destruct (set token _ _ OpAdd s1) as [status s2]. cbn [fst snd].
    destruct (NT_SUCCESS status) eqn:Est; cbn [negb fst snd] in *.
    + rewrite Est in Eset. cbn [negb] in Eset.
      apply (reads_back _ _ (fun verified query => _)) in Eset as [-> ->]. rewrite Est. tauto.
    + destruct (set token _ _ OpReplace s2) as [status' s3]. cbn [fst snd].
      destruct (NT_SUCCESS status'); cbn [negb] in Eset.
      * apply (reads_back _ _ (fun verified query => _)) in Eset as [-> ->]. tauto.
      * simplify_eq. split; [split; [done|by intros [? _]]|done].
  - destruct (set token _ _ OpDelete s1) as [status s2]. cbn [fst snd].
    destruct (NT_SUCCESS status); cbn [negb] in Edel.
    + apply (reads_gone _ (fun verified e => _) (fun verified e => _)) in Edel as [-> ->]. tauto.
    + simplify_eq. split; [split; [done|by intros [? _]]|done].
Qed.
End Stamp.

(** ** A token *)

(** One optional octet value; a query returns a 24-byte header, and when the
    value is there the name and, at the next 8-byte step, the value. *)
Definition example_blob (stored : option (list Z)) : list Z :=
  replicate 24 7 ++
  match stored with
  | None => []
  | Some payload => kWespPermissionAttributeName ++ replicate 6 0 ++ payload
  end.

Definition example_set (token : Z) (name payload : list Z) (op : TokenOperation)
    (s : option (list Z)) : NTSTATUS * option (list Z) :=
  match op, s with
  | OpAdd, None | OpReplace, Some _ => (0, Some payload)
  | OpDelete, Some _ => (0, None)
  | _, _ => (-1, s)
  end.

Definition example_os : TokenOs (option (list Z)) :=
  mkTokenOs _ (fun _ _ => inl 4) (fun _ _ => inl 7) (fun _ _ s => ((true, 0), s))
    (fun _ _ => Some [(7, 0)]) (fun _ _ => Some [5; 18]) (fun _ => Some [5; 18])
    (Some example_set) (Some (fun _ _ => (-1, 88))) (fun _ _ s => (0, example_blob s)).

(** A stamp over another value replaces it, and the removal takes it away. *)
Lemma stamp_exact_witness :
  SetWespPermission example_os 2 (Some (octet_payload 1)) = (Ok tt, Some (octet_payload 2)) /\
  token_claims example_os (Some (octet_payload 2)) (Some 2) /\
  DeleteWespPermission example_os (Some (octet_payload 1)) = (Ok tt, None) /\
  token_claims example_os None None.
Proof.
  assert (SetWespPermission example_os 2 (Some (octet_payload 1)) = (Ok tt, Some (octet_payload 2))) as Eset
    by (vm_compute; reflexivity).
  assert (DeleteWespPermission example_os (Some (octet_payload 1)) = (Ok tt, None)) as Edel
    by (vm_compute; reflexivity).
  pose proof (stamp_exact example_os 2 (Some (octet_payload 1))) as H. rewrite Eset, Edel in H.
  destruct H as [[Hset _] [Hdel _]].
  destruct (proj1 Hset eq_refl) as (token & _ & _ & Hclaims).
  destruct (proj1 Hdel eq_refl) as (token' & _ & _ & Hgone).
  split; [exact Eset|]. split; [exact Hclaims|]. split; [exact Edel|exact Hgone].
Defined.
