(* ===== verification/Protection.v ===== *)
(** Process protection, code integrity and secure boot
    (src/esptool/src/ppl/Protection.h and Protection.cpp), over the system
    queries they make. *)
From S2P Require Import Prelude Text Core Token.

Definition PS_PROTECTED_TYPE_MASK : Z := 0x7.
Definition PS_PROTECTED_AUDIT_MASK : Z := 0x8.
Definition STATUS_NOT_FOUND : NTSTATUS := i32 0xC0000225.
Definition STATUS_ACCESS_DENIED : NTSTATUS := i32 0xC0000022.

Record ProtectionState := mkProtectionState {
  pr_queried : bool;
  pr_query_status : NTSTATUS;
  pr_level : Z;
  pr_type : Z;
  pr_audit : Z;
  pr_signer : Z
}.

Definition failed_protection (status : NTSTATUS) : ProtectionState :=
  mkProtectionState true status 0 0 0 0.

Definition IsProtectedLight (p : ProtectionState) : bool := pr_type p =? 1.
Definition IsAntimalwareLight (p : ProtectionState) : bool := pr_level p =? 0x31.

Definition Decode (raw : Z) (status : NTSTATUS) : ProtectionState :=
  mkProtectionState true status raw
    (u8 (Z.land raw PS_PROTECTED_TYPE_MASK))
    (if negb (Z.land raw PS_PROTECTED_AUDIT_MASK =? 0) then 1 else 0)
    (u8 (Z.land (Z.shiftr raw 4) 0x0F)).

Definition signer_names : list string :=
  ["None"; "Authenticode"; "CodeGen"; "Antimalware"; "Lsa"; "Windows"; "WinTcb"; "WinSystem";
   "App"].

Definition DescribeProtection (p : ProtectionState) : string :=
  let type_name := if pr_type p =? 0 then "None"
                   else if pr_type p =? 1 then "ProtectedLight" else "Protected" in
  let signer_name := default "Unknown" (signer_names !! Z.to_nat (pr_signer p)) in
  "0x" +:+ of_chars (hex_upper_fixed 2 (pr_level p)) +:+ " (" +:+ signer_name +:+ ", " +:+
  type_name +:+ ", audit=" +:+ dec (pr_audit p) +:+ ")".

Section Queries.
(** [NtQueryInformationProcess] for the protection class, absent when the export
    cannot be found; [OpenProcess] by process identifier. *)
Context (NtQueryInformationProcess : option (Z -> NTSTATUS * Z)).
Context (OpenProcess : Z -> option Z).

Definition kCurrentProcess : Z := -1.

Definition QueryRaw (process : Z) : (option Z) * NTSTATUS :=
  match NtQueryInformationProcess with
  | None => (None, STATUS_NOT_FOUND)
  | Some query =>
      let '(status, level) := query process in
      (if negb (NT_SUCCESS status) then None else Some level, status)
  end.

Definition query_handle (process : Z) : ProtectionState :=
  match QueryRaw process with
  | (Some raw, status) => Decode raw status
  | (None, status) => failed_protection status
  end.

Definition QueryCurrentProcess : ProtectionState := query_handle kCurrentProcess.

Definition QueryProcess (process_id : Z) : ProtectionState :=
  match OpenProcess process_id with
  | None => failed_protection STATUS_ACCESS_DENIED
  | Some process => query_handle process
  end.
End Queries.

(** [GetTokenInformation] for the elevation class, [None] when it fails. *)
Definition IsElevated {S} (os : TokenOs S) (elevation : Z -> S -> option Z) (s : S) : bool :=
  match os_OpenProcessToken os TOKEN_QUERY s with
  | inr _ => false
  | inl token => match elevation token s with Some value => negb (value =? 0) | None => false end
  end.

Record CodeIntegrityState := mkCodeIntegrityState {
  ci_queried : bool;
  ci_options : Z;
  ci_query_status : NTSTATUS
}.

Definition TestSigning (c : CodeIntegrityState) : bool := negb (Z.land (ci_options c) 0x2 =? 0).
Definition IntegrityEnabled (c : CodeIntegrityState) : bool :=
  negb (Z.land (ci_options c) 0x1 =? 0).

Definition DescribeCodeIntegrity (c : CodeIntegrityState) : string :=
  if negb (ci_queried c) then "not queried"
  else "options=0x" +:+ of_chars (hex_upper_fixed 8 (ci_options c)) +:+ " testsigning=" +:+
       (if TestSigning c then "on" else "off") +:+ " ci=" +:+
       (if IntegrityEnabled c then "on" else "off").

Definition QueryCodeIntegrity (query : option (NTSTATUS * Z)) : CodeIntegrityState :=
  match query with
  | None => mkCodeIntegrityState false 0 0
  | Some (status, options) =>
      mkCodeIntegrityState true (if NT_SUCCESS status then options else 0) status
  end.

Record SecureBootState := mkSecureBootState {
  sb_queried : bool;
  sb_enabled : bool;
  sb_error : string
}.

(** The registry key and value, or the error of opening or reading it. *)
Definition QuerySecureBootEnabled (opened : Z + (Z + Z)) : SecureBootState :=
  match opened with
  | inl e => mkSecureBootState false false (Win32Message "Secure Boot key is absent" e)
  | inr (inl e) => mkSecureBootState false false (Win32Message "UEFISecureBootEnabled is absent" e)
  | inr (inr value) => mkSecureBootState true (negb (value =? 0)) ""
  end.

(** The byte layout: three bits of type, one of audit, four of signer. *)
Definition PsProtectedValue (signer audit type : Z) : Z := signer * 16 + audit * 8 + type.

(** * Theorems *)

Lemma Decode_PsProtectedValue signer audit type status :
  0 <= signer < 16 -> 0 <= audit < 2 -> 0 <= type < 8 ->
  Decode (PsProtectedValue signer audit type) status =
  mkProtectionState true status (PsProtectedValue signer audit type) type audit signer.
Proof.
  intros Hs Ha Ht. unfold Decode, PS_PROTECTED_TYPE_MASK, PS_PROTECTED_AUDIT_MASK, PsProtectedValue.
  assert (signer ∈ seqZ 0 16 /\ audit ∈ seqZ 0 2 /\ type ∈ seqZ 0 8) as (Is & Ia & It)
    by (rewrite !elem_of_seqZ; lia).
  vm_compute in Is, Ia, It.
  repeat (apply elem_of_cons in It as [->|It];
    [repeat (apply elem_of_cons in Ia as [->|Ia];
       [repeat (apply elem_of_cons in Is as [->|Is]; [reflexivity|]); by apply elem_of_nil in Is|]);
     by apply elem_of_nil in Ia|]).
  by apply elem_of_nil in It.
Qed.

(** Decoding a protection byte recovers its signer, audit and type fields, and
    the antimalware-light test is exactly that signer with a light, unaudited
    protection. *)
Lemma Decode_protection signer audit type status :
  0 <= signer < 16 -> 0 <= audit < 2 -> 0 <= type < 8 ->
  let state := Decode (PsProtectedValue signer audit type) status in
  (pr_signer state = signer /\ pr_audit state = audit /\ pr_type state = type) /\
  (IsAntimalwareLight state = true <-> signer = 3 /\ audit = 0 /\ type = 1) /\
  (IsAntimalwareLight state = true -> IsProtectedLight state = true).
Proof.
  intros Hs Ha Ht. rewrite Decode_PsProtectedValue by done. simpl.
  unfold IsAntimalwareLight, IsProtectedLight, PsProtectedValue. simpl.
  rewrite !Z.eqb_eq. split_and!; try done; lia.
Qed.

Lemma Decode_protection_witness :
  let state := Decode (PsProtectedValue 3 0 1) 0 in
  (pr_signer state = 3 /\ pr_audit state = 0 /\ pr_type state = 1) /\
  (IsAntimalwareLight state = true <-> 3 = 3 /\ 0 = 0 /\ 1 = 1) /\
  (IsAntimalwareLight state = true -> IsProtectedLight state = true).
Proof. apply (Decode_protection 3 0 1 0); lia. Defined.
