(* ===== verification/EnforceCompat.v ===== *)
(** The in-memory patches of espclient.dll
    (src/esptool/src/esp/EspEnforceCompat.cpp).

    Memory is indexed from the module base, so an address is an RVA. What the
    system answers is an argument: the region query, the module lookup, the
    digest of the module's file, the protection changes. Results are the error text
    and the memory left behind; the digest only goes into a log line. *)
From S2P Require Import Prelude Text Core MemoryView.

Definition kFromFfiOriginalBytes : list Z := [0x81; 0xFA; 0xD0; 0x07; 0x00; 0x00].
Definition kFromFfiPatchedBytes : list Z := [0x39; 0xD2; 0x90; 0x90; 0x90; 0x90].
Definition kFromFfiPatchBytes : Z := 6.
Definition kFromFfiPrecedingAnchor : list Z := [0x81; 0xFA; 0x3F; 0x1F; 0x00; 0x00].
Definition kFromFfiFollowingAnchor : list Z := [0x81; 0xFA; 0xBF; 0x0B; 0x00; 0x00].
Definition kFromFfiPrecedingMaxDistance : Z := 16.
Definition kFromFfiFollowingMaxDistance : Z := 24.
Definition kKnownCandidateRvas : list Z := [0x48515; 0x49C27].

Definition IMAGE_DOS_SIGNATURE : Z := 0x5A4D.
Definition IMAGE_NT_SIGNATURE : Z := 0x4550.
Definition IMAGE_NT_OPTIONAL_HDR64_MAGIC : Z := 0x20B.
Definition IMAGE_SCN_MEM_EXECUTE : Z := 0x20000000.
Definition PAGE_EXECUTE_READWRITE : Z := 0x40.
Definition sizeof_IMAGE_DOS_HEADER : Z := 64.
Definition sizeof_IMAGE_NT_HEADERS64 : Z := 264.
Definition sizeof_IMAGE_FILE_HEADER : Z := 20.
Definition sizeof_IMAGE_SECTION_HEADER : Z := 40.
Definition kMaxPeHeaderOffset : Z := 0x10000000.

(** Bytes of a process image. *)
Abbreviation memory := (Z -> Z).

Definition word (n : nat) (mem : memory) (address : Z) : Z := le_value (load mem address n).

(** [memcmp] with a byte literal. *)
Definition bytes_are (mem : memory) (address : Z) (literal : list Z) : bool :=
  bool_decide (load mem address (length literal) = literal).

Definition write_bytes (mem : memory) (address : Z) (bytes : list Z) : memory :=
  fun a => if address <=? a then default (mem a) (bytes !! Z.to_nat (a - address)) else mem a.

(** ** PE headers *)

Record ExecutableSection := mkSection { sec_rva : Z; sec_size : Z }.

(** The region of the module base: its offset in the region and the region size. *)
Abbreviation region_query := (Z + Z * Z)%type.

Definition section_header (mem : memory) (table : Z) (i : Z) : Z :=
  table + i * sizeof_IMAGE_SECTION_HEADER.

(** One turn of the loop over section headers. *)
Definition executable_section (mem : memory) (image_size header : Z) : option ExecutableSection :=
  if negb (Z.land (word 4 mem (header + 36)) IMAGE_SCN_MEM_EXECUTE =? 0) then
    let virtual_size := word 4 mem (header + 8) in
    let size := if negb (virtual_size =? 0) then virtual_size else word 4 mem (header + 16) in
    let rva := word 4 mem (header + 12) in
    if (rva <? image_size) && (0 <? size) then Some (mkSection rva size) else None
  else None.

Definition ReadMappedImageSections (mem : memory) (region : region_query)
    : result (Z * list ExecutableSection) :=
  if negb (word 2 mem 0 =? IMAGE_DOS_SIGNATURE)
  then Err "the mapped module has no DOS header (MZ signature)"
  else
    let nt := word 4 mem 60 in
    if (nt <? sizeof_IMAGE_DOS_HEADER) || (kMaxPeHeaderOffset <? nt)
    then Err "the mapped module's PE header offset is out of range"
    else
      match region with
      | inl e => Err (Win32Message "VirtualQuery on the mapped module failed" e)
      | inr (offset_in_region, region_size) =>
          if region_size <? offset_in_region + nt + sizeof_IMAGE_NT_HEADERS64
          then Err "the mapped module's PE header lies outside the committed region"
          else if negb (word 4 mem nt =? IMAGE_NT_SIGNATURE)
          then Err "the mapped module has no PE header"
          else if negb (word 2 mem (nt + 24) =? IMAGE_NT_OPTIONAL_HDR64_MAGIC)
          then Err "the mapped module is not a PE32+ image"
          else
            let image_size := word 4 mem (nt + 80) in
            let num_sections := word 2 mem (nt + 6) in
            if num_sections =? 0 then Ok (image_size, [mkSection 0 image_size])
            else
              let table := nt + 4 + sizeof_IMAGE_FILE_HEADER + word 2 mem (nt + 20) in
              if region_size <? offset_in_region + table
                   + num_sections * sizeof_IMAGE_SECTION_HEADER
              then Err "the mapped module's section headers lie outside the committed region"
              else
                let found := omap (fun i => executable_section mem image_size
                                              (section_header mem table i))
                               (seqZ 0 num_sections) in
                Ok (image_size, match found with
                                | [] => [mkSection 0 image_size]
                                | _ => found
                                end)
      end.

(** ** The patch site *)

(** Length of the conditional jump at an address, if there is one. *)
Definition je_length (mem : memory) (next_inst sec_end : Z) : option Z :=
  if bytes_are mem next_inst [0x74] then Some 2
  else if (next_inst + 6 <=? sec_end) && bytes_are mem next_inst [0x0F; 0x84] then Some 6
  else None.

(** Some window of [from, to) holds the anchor. *)
Definition has_anchor (mem : memory) (from to : Z) (anchor : list Z) : bool :=
  existsb (fun p => bytes_are mem p anchor) (seqZ from (to - from - Z.of_nat (length anchor) + 1)).

Definition ValidateCandidateSite (mem : memory) (candidate sec_start sec_end : Z) : bool :=
  if (candidate <? sec_start) || (sec_end <? candidate + kFromFfiPatchBytes + 2) then false
  else if negb (bytes_are mem candidate kFromFfiOriginalBytes
                || bytes_are mem candidate kFromFfiPatchedBytes) then false
  else
    let next_inst := candidate + kFromFfiPatchBytes in
    match je_length mem next_inst sec_end with
    | None => false
    | Some je_len =>
        let lookback := Z.min (candidate - sec_start) kFromFfiPrecedingMaxDistance in
        if negb (has_anchor mem (candidate - lookback) candidate kFromFfiPrecedingAnchor)
        then false
        else
          let lookahead_start := next_inst + je_len in
          if sec_end <? lookahead_start + 6 then false
          else
            let lookahead := Z.min (sec_end - lookahead_start) kFromFfiFollowingMaxDistance in
            has_anchor mem lookahead_start (lookahead_start + lookahead) kFromFfiFollowingAnchor
    end.

Definition section_end (sec : ExecutableSection) : Z := sec_rva sec + sec_size sec.

(** A known RVA is looked at in the first section that holds it. *)
Definition hint_matches (mem : memory) (image_size : Z) (sections : list ExecutableSection)
    (hint : Z) : bool :=
  if image_size <? hint + kFromFfiPatchBytes then false
  else
    match find_first (fun sec => (sec_rva sec <=? hint)
                                 && (hint + kFromFfiPatchBytes <=? section_end sec)) sections with
    | Some sec => ValidateCandidateSite mem hint (sec_rva sec) (section_end sec)
    | None => false
    end.

Definition section_candidates (mem : memory) (sec : ExecutableSection) : list Z :=
  if sec_size sec <? kFromFfiPatchBytes + 2 then []
  else List.filter (fun p => ValidateCandidateSite mem p (sec_rva sec) (section_end sec))
         (seqZ (sec_rva sec) (sec_size sec - (kFromFfiPatchBytes + 2) + 1)).

Definition add_match (matches : list Z) (rva : Z) : list Z :=
  if contains rva matches then matches else matches ++ [rva].

Definition scan_sections (mem : memory) (sections : list ExecutableSection) : list Z :=
  fold_left (fun matches sec => fold_left add_match (section_candidates mem sec) matches)
    sections [].

Definition FindFromFfiPatchSite (mem : memory) (region : region_query) : result Z :=
  '(image_size, exec_sections) ← ReadMappedImageSections mem region;
  let matches := List.filter (hint_matches mem image_size exec_sections) kKnownCandidateRvas in
  let matches := match matches with
                 | [] => scan_sections mem exec_sections
                 | _ => matches
                 end in
  match matches with
  | [] => Err ("could not locate EventModify::from_ffi patch site in espclient.dll " +:+
               "(signature not found or context anchors mismatched)")
  | [rva] => Ok rva
  | _ => Err ("ambiguous EventModify::from_ffi patch site in espclient.dll (" +:+
              dec (Z.of_nat (length matches)) +:+ " matches found)")
  end.

(** ** Applying *)

(** [module_base] says whether the module is loaded; [file_sha256] is the outcome of
    hashing its file; [protect] of an address, a size and a protection, at the first or
    second call, gives the old protection or the error. An absent hook is [None]. *)
Record CompatPatchHooks := mkHooks {
  hk_module_base : option bool;
  hk_file_sha256 : option (result (list Z));
  hk_protect : option (nat -> Z -> Z -> Z -> Z + Z)
}.

(** Makes the site writable, writes, restores the protection, and puts the old
    bytes back when that fails. *)
Definition rewrite_protected (protect : nat -> Z -> Z -> Z -> Z + Z) (target : Z)
    (patched restored : list Z) (restore_error : string) (mem : memory) : result unit * memory :=
  let size := Z.of_nat (length patched) in
  match protect 0%nat target size PAGE_EXECUTE_READWRITE with
  | inr e => (Err (Win32Message "VirtualProtect failed" e), mem)
  | inl original_protect =>
      let mem := write_bytes mem target patched in
      match protect 1%nat target size original_protect with
      | inr e => (Err (Win32Message restore_error e), write_bytes mem target restored)
      | inl _ => (Ok tt, mem)
      end
  end.

(** The line for the log, before the site is looked for; a failed digest is passed over. *)
Definition sha256_line (hooks : CompatPatchHooks) : option string :=
  match hk_module_base hooks, hk_protect hooks, hk_file_sha256 hooks with
  | Some true, Some _, Some (Ok digest) =>
      Some ("enforce-compat: espclient.dll sha256: " +:+ of_chars (hexs digest))
  | _, _, _ => None
  end.

Definition ApplyFromFfiCompatPatchWithHooks (hooks : CompatPatchHooks) (region : region_query)
    (mem : memory) : result unit * memory :=
  match hk_module_base hooks, hk_protect hooks with
  | Some loaded, Some protect =>
      if negb loaded then (Err "espclient.dll is not loaded in this process", mem)
      else
        match FindFromFfiPatchSite mem region with
        | Err e => (Err e, mem)
        | Ok target =>
            let current := load mem target 6 in
            if bool_decide (current = kFromFfiPatchedBytes) then (Ok tt, mem)
            else if negb (bool_decide (current = kFromFfiOriginalBytes))
            then (Err ("espclient.dll EventModify::from_ffi bytes at RVA 0x" +:+
                       hex_upper target +:+ " match neither the original nor the patched " +:+
                       "pattern; refusing the enforce-compat patch"), mem)
            else rewrite_protected protect target kFromFfiPatchedBytes current
                   ("VirtualProtect restore failed after the enforce-compat patch; the " +:+
                    "patch was reverted") mem
        end
  | _, _ => (Err "the enforce-compat patch hooks are incomplete", mem)
  end.

(** ** The event-type bypass *)

Definition kPattern : list Z :=
  [0x44; 0x8D; 0x90; 0xA8; 0xE4; 0xFF; 0xFF; 0x41; 0x83; 0xFA; 0x0F; 0x72].
Definition kPatchIndex : Z := 11.

Definition ApplyEventTypeBypassPatch (loaded : bool) (protect : nat -> Z -> Z -> Z -> Z + Z)
    (mem : memory) : result unit * memory :=
  if negb loaded then (Err "espclient.dll is not loaded in this process", mem)
  else if negb (word 2 mem 0 =? IMAGE_DOS_SIGNATURE)
  then (Err "espclient.dll has no valid DOS header", mem)
  else
    let nt := i32 (word 4 mem 60) in
    if negb (word 4 mem nt =? IMAGE_NT_SIGNATURE)
    then (Err "espclient.dll has no valid NT header", mem)
    else
      let image_size := word 4 mem (nt + 80) in
      let last := image_size - Z.of_nat (length kPattern) in
      match find_first (fun p => bytes_are mem p kPattern) (seqZ 0 (last + 1)) with
      | None => (Err ("could not locate the EspRsCreateRule event-type validation pattern " +:+
                      "in espclient.dll"), mem)
      | Some found =>
          let target := found + kPatchIndex in
          if u8 (mem target) =? 0xEB then (Ok tt, mem)
          else rewrite_protected protect target [0xEB] [0x72]
                 ("VirtualProtect restore failed after the event-type bypass patch; the " +:+
                  "patch was reverted") mem
      end.

(** * Theorems *)

(** ** Bytes *)

Lemma load_lookup mem a n i :
  (i < n)%nat -> load mem a n !! i = Some (u8 (mem (a + Z.of_nat i))).
Proof.
  revert a i. induction n as [|n IH]; intros a [|i] H; try lia; simpl.
  - by rewrite Z.add_0_r.
  - rewrite IH by lia. do 3 f_equal. lia.
Qed.

Lemma load_eq_iff mem a l :
  load mem a (length l) = l <->
  forall i b, l !! i = Some b -> u8 (mem (a + Z.of_nat i)) = b.
Proof.
  split.
  - intros H i b Hb. pose proof (lookup_lt_Some _ _ _ Hb) as Hlt.
    rewrite <- H, load_lookup in Hb by done. by simplify_eq.
  - intros H. apply list_eq. intros i. destruct (decide (i < length l)%nat) as [Hlt|Hge].
    + destruct (lookup_lt_is_Some_2 l i Hlt) as [b Hb].
      rewrite load_lookup, Hb by done. f_equal. by apply H.
    + rewrite !lookup_ge_None_2; [done|lia|rewrite load_length; lia].
Qed.

Lemma bytes_are_spec mem a l :
  bytes_are mem a l = true <-> forall i b, l !! i = Some b -> u8 (mem (a + Z.of_nat i)) = b.
Proof. unfold bytes_are. by rewrite bool_decide_eq_true, load_eq_iff. Qed.

Lemma write_bytes_in mem a l i b :
  l !! i = Some b -> write_bytes mem a l (a + Z.of_nat i) = b.
Proof.
  intros H. unfold write_bytes. rewrite (proj2 (Z.leb_le _ _)) by lia.
  replace (Z.to_nat (a + Z.of_nat i - a)) with i by lia. by rewrite H.
Qed.

Lemma write_bytes_out mem a l x :
  ~ (a <= x < a + Z.of_nat (length l)) -> write_bytes mem a l x = mem x.
Proof.
  intros H. unfold write_bytes. destruct (Z.leb_spec a x); [|done].
  rewrite lookup_ge_None_2; [done|lia].
Qed.

(** Whether a literal placed [d] bytes after another agrees where they overlap. *)
Definition overlap_ok (w1 w2 : list Z) (d : Z) : bool :=
  forallb (fun i => match w1 !! Z.to_nat (d + Z.of_nat i), w2 !! i with
                    | Some b1, Some b2 => (d + Z.of_nat i <? 0) || (b1 =? b2)
                    | _, _ => true
                    end) (seq 0 (length w2)).

Lemma overlap_bytes mem a p w1 w2 :
  bytes_are mem a w1 = true -> bytes_are mem p w2 = true -> overlap_ok w1 w2 (p - a) = true.
Proof.
  rewrite !bytes_are_spec. intros H1 H2. apply forallb_forall. intros i _.
  destruct (w1 !! _) as [b1|] eqn:E1; [|done]. destruct (w2 !! i) as [b2|] eqn:E2; [|done].
  destruct (Z.ltb_spec (p - a + Z.of_nat i) 0); [done|]. apply Z.eqb_eq.
  rewrite <- (H1 _ _ E1), <- (H2 _ _ E2). do 2 f_equal. lia.
Qed.

(** Two memories that differ only in a literal written over another. *)
Record replaced (mem mem' : memory) (site : Z) (old new : list Z) : Prop := mkReplaced {
  rp_length : length old = length new;
  rp_old : bytes_are mem site old = true;
  rp_new : bytes_are mem' site new = true;
  rp_same x : ~ (site <= x < site + Z.of_nat (length old)) -> mem' x = mem x
}.

(** A literal that clashes with the old and the new bytes wherever it overlaps
    them is found at the same places in both memories. *)
Lemma bytes_are_replaced mem mem' site old new literal p :
  replaced mem mem' site old new ->
  (forall d, - Z.of_nat (length literal) < d < Z.of_nat (length old) -> p - site = d ->
     overlap_ok old literal d = false /\ overlap_ok new literal d = false) ->
  bytes_are mem' p literal = bytes_are mem p literal.
Proof.
  intros [Hlen Hold Hnew Hsame] Hclash.
  destruct (decide (- Z.of_nat (length literal) < p - site < Z.of_nat (length old))) as [Hin|Hout].
  - destruct (Hclash (p - site) Hin eq_refl) as [Ho Hn].
    destruct (bytes_are mem' p literal) eqn:E'.
    { pose proof (overlap_bytes _ _ _ _ _ Hnew E'). congruence. }
    destruct (bytes_are mem p literal) eqn:E; [|done].
    pose proof (overlap_bytes _ _ _ _ _ Hold E). congruence.
  - apply eq_true_iff_eq. rewrite !bytes_are_spec.
    split; intros H i b Hb; rewrite <- (H i b Hb); f_equal;
      [symmetry|]; apply Hsame; apply lookup_lt_Some in Hb; lia.
Qed.

(** ** Patching preserves the search *)

Abbreviation patched mem mem' site :=
  (replaced mem mem' site kFromFfiOriginalBytes kFromFfiPatchedBytes).

(** Every overlap of a literal with the two six-byte patterns, decided. *)
Definition clashes (literal : list Z) (ds : list Z) : bool :=
  forallb (fun d => negb (overlap_ok kFromFfiOriginalBytes literal d)
                    && negb (overlap_ok kFromFfiPatchedBytes literal d)) ds.

Lemma clashes_bytes mem mem' site literal p :
  patched mem mem' site ->
  clashes literal (seqZ (1 - Z.of_nat (length literal)) (Z.of_nat (length literal) + 5)) = true ->
  bytes_are mem' p literal = bytes_are mem p literal.
Proof.
  intros Hr Hc. apply (bytes_are_replaced _ _ _ _ _ _ _ Hr).
  intros d Hd _. unfold clashes in Hc. rewrite forallb_forall in Hc.
  assert (d ∈ seqZ (1 - Z.of_nat (length literal)) (Z.of_nat (length literal) + 5)) as Hin.
  { apply elem_of_seqZ. change (Z.of_nat (length kFromFfiOriginalBytes)) with 6 in Hd. lia. }
  apply list_elem_of_In in Hin. specialize (Hc d Hin). by boolp.
Qed.

Lemma is_site_patched mem mem' site p :
  patched mem mem' site ->
  bytes_are mem' p kFromFfiOriginalBytes || bytes_are mem' p kFromFfiPatchedBytes =
  bytes_are mem p kFromFfiOriginalBytes || bytes_are mem p kFromFfiPatchedBytes.
Proof.
  intros Hr. destruct (decide (p = site)) as [->|Hne].
  - destruct Hr as [_ -> -> _]. by rewrite orb_true_r.
  - assert (forall literal, literal = kFromFfiOriginalBytes \/ literal = kFromFfiPatchedBytes ->
      bytes_are mem' p literal = bytes_are mem p literal) as H.
    { intros literal Hl. apply (bytes_are_replaced _ _ _ _ _ _ _ Hr). intros d Hd Hp.
      assert (clashes literal [-5; -4; -3; -2; -1; 1; 2; 3; 4; 5] = true) as Hc
        by (by destruct Hl as [->| ->]).
      unfold clashes in Hc. rewrite forallb_forall in Hc.
      assert (d ∈ [-5; -4; -3; -2; -1; 1; 2; 3; 4; 5]) as Hin.
      { assert (length literal = 6%nat) as Hlen by (by destruct Hl as [->| ->]).
        rewrite Hlen in Hd. change (Z.of_nat (length kFromFfiOriginalBytes)) with 6 in Hd.
        rewrite !elem_of_cons. lia. }
      apply list_elem_of_In in Hin. specialize (Hc d Hin). by boolp. }
    rewrite !H by auto. done.
Qed.

Lemma je_length_patched mem mem' site next_inst sec_end :
  patched mem mem' site -> je_length mem' next_inst sec_end = je_length mem next_inst sec_end.
Proof. intros Hr. unfold je_length. by rewrite !(clashes_bytes _ _ _ _ _ Hr) by reflexivity. Qed.

Lemma has_anchor_patched mem mem' site from to anchor :
  patched mem mem' site ->
  anchor = kFromFfiPrecedingAnchor \/ anchor = kFromFfiFollowingAnchor ->
  has_anchor mem' from to anchor = has_anchor mem from to anchor.
Proof.
  intros Hr Ha. unfold has_anchor. apply eq_true_iff_eq. rewrite !existsb_exists.
  assert (forall p, bytes_are mem' p anchor = bytes_are mem p anchor) as H.
  { intros p. apply (clashes_bytes _ _ _ _ _ Hr). by destruct Ha as [->| ->]. }
  split; intros (p & Hp & Hb); exists p; by rewrite H in *.
Qed.

Lemma Validate_patched mem mem' site p sec_start sec_end :
  patched mem mem' site ->
  ValidateCandidateSite mem' p sec_start sec_end = ValidateCandidateSite mem p sec_start sec_end.
Proof.
  intros Hr. unfold ValidateCandidateSite.
  rewrite (is_site_patched mem mem' site p Hr), (je_length_patched mem mem' site _ _ Hr).
  case_if; [done|]. case_if; [done|]. destruct (je_length _ _ _) as [je|]; [|done]. cbv zeta.
  rewrite !(has_anchor_patched mem mem' site) by auto. done.
Qed.

Lemma Find_patched mem mem' site region :
  patched mem mem' site ->
  ReadMappedImageSections mem' region = ReadMappedImageSections mem region ->
  FindFromFfiPatchSite mem' region = FindFromFfiPatchSite mem region.
Proof.
  intros Hr Hs. unfold FindFromFfiPatchSite. rewrite Hs.
  destruct (ReadMappedImageSections mem region) as [[image_size secs]|e]; [|done]. simpl.
  assert (forall hint, hint_matches mem' image_size secs hint =
                       hint_matches mem image_size secs hint) as Hh.
  { intros hint. unfold hint_matches. case_if; [done|].
    destruct (find_first _ _); [|done]. by apply (Validate_patched mem mem' site). }
  rewrite !Hh. enough (scan_sections mem' secs = scan_sections mem secs) as -> by done.
  unfold scan_sections.
  assert (forall sec, section_candidates mem' sec = section_candidates mem sec) as Hc.
  { intros sec. unfold section_candidates. case_if; [done|]. apply List.filter_ext.
    intros p. by apply (Validate_patched mem mem' site). }
  clear Hs Hh. generalize (@nil Z) as acc. induction secs as [|sec secs IH]; intros acc; [done|].
  cbn [fold_left]. rewrite Hc. apply IH.
Qed.

(** ** The compatibility patch *)

Lemma replaced_write mem site old new :
  length old = length new -> Forall (fun b => 0 <= b < 256) new -> bytes_are mem site old = true ->
  replaced mem (write_bytes mem site new) site old new.
Proof.
  intros Hlen Hb Hold. split; [done|done| |].
  - apply bytes_are_spec. intros i b Hi. rewrite (write_bytes_in _ _ _ _ _ Hi).
    rewrite Forall_lookup in Hb. unfold u8. apply Z.mod_small. change (2 ^ 8) with 256. eauto.
  - intros x Hx. apply write_bytes_out. by rewrite <- Hlen.
Qed.

Lemma rewrite_protected_cases protect target new old restore_error mem r mem' :
  rewrite_protected protect target new old restore_error mem = (r, mem') ->
  (r = Ok tt /\ mem' = write_bytes mem target new) \/
  (is_Ok r = false /\
   (mem' = mem \/ mem' = write_bytes (write_bytes mem target new) target old)).
Proof.
  unfold rewrite_protected.
  destruct (protect 0%nat _ _ _); [destruct (protect 1%nat _ _ _)|]; intros [= <- <-];
    [left|right|right]; (split; [done|auto]).
Qed.

Lemma write_same_bytes mem site l x :
  bytes_are mem site l = true -> Forall (fun b => 0 <= b < 256) l ->
  u8 (write_bytes mem site l x) = u8 (mem x).
Proof.
  intros Hl Hb. destruct (decide (site <= x < site + Z.of_nat (length l))) as [Hin|Hout].
  - destruct (lookup_lt_is_Some_2 l (Z.to_nat (x - site))) as [b Hlb]; [lia|].
    rewrite bytes_are_spec in Hl. pose proof (Hl _ _ Hlb) as Hx.
    replace (site + Z.of_nat (Z.to_nat (x - site))) with x in Hx by lia.
    replace x with (site + Z.of_nat (Z.to_nat (x - site))) at 1 by lia.
    rewrite (write_bytes_in _ _ _ _ _ Hlb), Hx.
    rewrite Forall_lookup in Hb. unfold u8. apply Z.mod_small. change (2 ^ 8) with 256. eauto.
  - by rewrite write_bytes_out.
Qed.

Lemma write_bytes_twice mem a new old x :
  length new = length old ->
  write_bytes (write_bytes mem a new) a old x = write_bytes mem a old x.
Proof.
  intros Hlen. destruct (decide (a <= x < a + Z.of_nat (length old))) as [Hin|Hout].
  - destruct (lookup_lt_is_Some_2 old (Z.to_nat (x - a))) as [b Hb]; [lia|].
    replace x with (a + Z.of_nat (Z.to_nat (x - a))) by lia.
    by rewrite !(write_bytes_in _ _ _ _ _ Hb).
  - rewrite !write_bytes_out by (rewrite ?Hlen; lia). done.
Qed.

Lemma original_bytes_range : Forall (fun b => 0 <= b < 256) kFromFfiOriginalBytes.
Proof. repeat constructor; lia. Qed.
Lemma patched_bytes_range : Forall (fun b => 0 <= b < 256) kFromFfiPatchedBytes.
Proof. repeat constructor; lia. Qed.

Lemma Apply_cases hooks region mem r mem' :
  ApplyFromFfiCompatPatchWithHooks hooks region mem = (r, mem') ->
  (is_Ok r = false /\ forall x, u8 (mem' x) = u8 (mem x)) \/
  (r = Ok tt /\ exists site, FindFromFfiPatchSite mem region = Ok site /\
     ((mem' = mem /\ bytes_are mem site kFromFfiPatchedBytes = true) \/
      (patched mem mem' site /\ mem' = write_bytes mem site kFromFfiPatchedBytes))).
Proof.
  unfold ApplyFromFfiCompatPatchWithHooks.
  destruct (hk_module_base hooks) as [loaded|]; [|intros [= <- <-]; by left].
  destruct (hk_protect hooks) as [protect|]; [|intros [= <- <-]; by left].
  destruct loaded; simpl; [|intros [= <- <-]; by left].
  destruct (FindFromFfiPatchSite mem region) as [site|e] eqn:Ef; [|intros [= <- <-]; by left].
  case_bool_decide as Hp.
  { intros [= <- <-]. right. split; [done|]. exists site. split; [done|]. left. split; [done|].
    unfold bytes_are. by apply bool_decide_eq_true. }
  case_bool_decide as Ho; cbn [negb]; [|intros [= <- <-]; by left].
  assert (bytes_are mem site kFromFfiOriginalBytes = true) as Hold
    by (unfold bytes_are; by apply bool_decide_eq_true).
  intros H. apply rewrite_protected_cases in H as [[-> ->]|[Hr Hm]].
  - right. split; [done|]. exists site. split; [done|]. right. split; [|done].
    apply replaced_write; [done|apply patched_bytes_range|done].
  - left. split; [done|]. intros x. destruct Hm as [->| ->]; [done|].
    rewrite Ho, write_bytes_twice by done. apply write_same_bytes; [done|apply original_bytes_range].
Qed.

(** C23 The compatibility patch is all or nothing: on failure every byte is what it
    was, on success the six bytes of the located site are the patched ones and
    no other byte changed. *)
Theorem ApplyFromFfiCompatPatch_effect hooks region mem :
  let '(r, mem') := ApplyFromFfiCompatPatchWithHooks hooks region mem in
  match r with
  | Err _ => forall x, u8 (mem' x) = u8 (mem x)
  | Ok _ => exists site, FindFromFfiPatchSite mem region = Ok site /\
      bytes_are mem' site kFromFfiPatchedBytes = true /\
      forall x, ~ (site <= x < site + kFromFfiPatchBytes) -> mem' x = mem x
  end.
Proof.
  destruct (ApplyFromFfiCompatPatchWithHooks hooks region mem) as [r mem'] eqn:E.
  destruct (Apply_cases _ _ _ _ _ E) as [[Hr Hm]|(-> & site & Hf & Hcase)].
  - by destruct r.
  - exists site. split; [done|]. destruct Hcase as [[-> Hp]|[[_ _ Hnew Hsame] _]]; auto.
Qed.

(** Patching again is a success that changes nothing, as long as the patched
    bytes are not part of the headers: the search finds the same site, whether
    its bytes are the original or the patched ones. *)
Lemma ApplyFromFfiCompatPatch_idempotent hooks hooks' region mem mem' protect :
  ApplyFromFfiCompatPatchWithHooks hooks region mem = (Ok tt, mem') ->
  ReadMappedImageSections mem' region = ReadMappedImageSections mem region ->
  hk_module_base hooks' = Some true -> hk_protect hooks' = Some protect ->
  ApplyFromFfiCompatPatchWithHooks hooks' region mem' = (Ok tt, mem').
Proof.
  intros E Hs Hm Hp. destruct (Apply_cases _ _ _ _ _ E) as [[Hr _]|(_ & site & Hf & Hcase)]; [done|].
  assert (FindFromFfiPatchSite mem' region = Ok site /\
          bytes_are mem' site kFromFfiPatchedBytes = true) as [Hf' Hb'].
  { destruct Hcase as [[-> Hb]|[Hr _]]; [done|].
    split; [by rewrite (Find_patched mem mem' site) | by destruct Hr]. }
  unfold ApplyFromFfiCompatPatchWithHooks. rewrite Hm, Hp. cbn [negb]. rewrite Hf'.
  unfold bytes_are in Hb'. rewrite bool_decide_eq_true in Hb'.
  change (load mem' site 6 = kFromFfiPatchedBytes) in Hb'. by rewrite Hb'.
Qed.

(** ** What the search accepts *)

Lemma Validate_bytes mem p sec_start sec_end :
  ValidateCandidateSite mem p sec_start sec_end = true ->
  sec_start <= p /\ p + kFromFfiPatchBytes + 2 <= sec_end /\
  (bytes_are mem p kFromFfiOriginalBytes = true \/ bytes_are mem p kFromFfiPatchedBytes = true) /\
  exists before after, before + 6 <= p /\ p - before <= kFromFfiPrecedingMaxDistance /\
    p + kFromFfiPatchBytes < after /\ bytes_are mem before kFromFfiPrecedingAnchor = true /\
    bytes_are mem after kFromFfiFollowingAnchor = true.
Proof.
  unfold ValidateCandidateSite. case_if; [done|]. boolp.
  destruct (_ || _) eqn:Ho; [|done]. cbn [negb].
  destruct (je_length _ _ _) as [je|] eqn:Ej; [|done].
  destruct (has_anchor mem _ p kFromFfiPrecedingAnchor) eqn:Eb; [|done]. cbn [negb].
  case_if; [done|]. intros Ea. unfold has_anchor in Eb, Ea.
  apply existsb_exists in Eb as (before & Hb & Hbb).
  apply existsb_exists in Ea as (after & Ha & Hab).
  apply list_elem_of_In, elem_of_seqZ in Hb, Ha.
  change (Z.of_nat (length kFromFfiPrecedingAnchor)) with 6 in Hb.
  change (Z.of_nat (length kFromFfiFollowingAnchor)) with 6 in Ha.
  assert (0 < je) by (unfold je_length in Ej; repeat case_if_in Ej; simplify_eq; lia).
  unfold kFromFfiPatchBytes in *. split_and!; [lia|lia|by apply orb_true_iff in Ho|].
  exists before, after. split_and!; try done; lia.
Qed.

Lemma add_match_in matches rva x : x ∈ add_match matches rva <-> x ∈ matches \/ x = rva.
Proof.
  unfold add_match. destruct (contains rva matches) eqn:E; [apply contains_true in E|]; set_solver.
Qed.

Lemma fold_add_match_in l matches x :
  x ∈ fold_left add_match l matches <-> x ∈ matches \/ x ∈ l.
Proof.
  revert matches. induction l as [|y l IH]; intros matches; cbn [fold_left]; [set_solver|].
  rewrite IH, add_match_in. set_solver.
Qed.

Lemma scan_sections_in mem sections x :
  x ∈ scan_sections mem sections <-> exists sec, sec ∈ sections /\ x ∈ section_candidates mem sec.
Proof.
  unfold scan_sections.
  enough (forall acc, x ∈ fold_left (fun matches sec =>
      fold_left add_match (section_candidates mem sec) matches) sections acc <->
    x ∈ acc \/ exists sec, sec ∈ sections /\ x ∈ section_candidates mem sec) as ->
    by set_solver.
  induction sections as [|sec sections IH]; intros acc; cbn [fold_left]; [set_solver|].
  rewrite IH, fold_add_match_in. set_solver.
Qed.

Lemma section_candidates_in mem sec p :
  p ∈ section_candidates mem sec <->
  ValidateCandidateSite mem p (sec_rva sec) (section_end sec) = true.
Proof.
  unfold section_candidates. unfold section_end. split.
  - case_if; [set_solver|]. intros H%list_elem_of_In. by apply filter_In in H as [_ ?].
  - intros H. destruct (Validate_bytes _ _ _ _ H) as (H1 & H2 & _).
    unfold kFromFfiPatchBytes in *. rewrite (proj2 (Z.ltb_ge _ _)) by lia.
    apply list_elem_of_In, filter_In. split; [|done].
    apply list_elem_of_In, elem_of_seqZ. lia.
Qed.

(** A place of a section with the bytes of the patch site: the whole window is in the
    section, the original or the patched compare is there, a short or a near je follows
    it, the first anchor lies in the [kFromFfiPrecedingMaxDistance] bytes before it and
    the second in the [kFromFfiFollowingMaxDistance] bytes after the jump. *)
Definition from_ffi_site (mem : memory) (sec : ExecutableSection) (p : Z) : Prop :=
  sec_rva sec <= p /\ p + 8 <= section_end sec /\
  (load mem p 6 = kFromFfiOriginalBytes \/ load mem p 6 = kFromFfiPatchedBytes) /\
  exists je, (je = 2 /\ load mem (p + 6) 1 = [0x74] \/
              je = 6 /\ p + 12 <= section_end sec /\ load mem (p + 6) 2 = [0x0F; 0x84]) /\
  exists before after,
    (sec_rva sec <= before /\ p - 16 <= before /\ before + 6 <= p /\
     load mem before 6 = kFromFfiPrecedingAnchor) /\
    (p + 6 + je <= after /\ after + 6 <= p + 6 + je + 24 /\ after + 6 <= section_end sec /\
     load mem after 6 = kFromFfiFollowingAnchor).

Lemma bytes_are_load mem a l : bytes_are mem a l = true <-> load mem a (length l) = l.
Proof. unfold bytes_are. apply bool_decide_eq_true. Qed.

Lemma has_anchor_spec mem from to anchor :
  has_anchor mem from to anchor = true <->
  exists q, from <= q /\ q + Z.of_nat (length anchor) <= to /\ load mem q (length anchor) = anchor.
Proof.
  unfold has_anchor. rewrite existsb_exists. split; intros (q & Hq).
  - destruct Hq as [Hin Hb]. apply list_elem_of_In, elem_of_seqZ in Hin. apply bytes_are_load in Hb.
    exists q. split_and!; [lia|lia|done].
  - destruct Hq as (? & ? & Hb). exists q. rewrite bytes_are_load. split; [|done].
    apply list_elem_of_In, elem_of_seqZ. lia.
Qed.

Lemma je_length_spec mem p sec_end je :
  je_length mem p sec_end = Some je <->
  je = 2 /\ load mem p 1 = [0x74] \/ je = 6 /\ p + 6 <= sec_end /\ load mem p 2 = [0x0F; 0x84].
Proof.
  unfold je_length. pose proof (bytes_are_load mem p [0x74]) as H1.
  pose proof (bytes_are_load mem p [0x0F; 0x84]) as H2. cbn [length] in H1, H2.
  destruct (bytes_are mem p [0x74]).
  - pose proof (proj1 H1 eq_refl) as H. split; [intros [= <-]; auto|].
    intros [[-> _]|(_ & _ & Hn)]; [done|]. cbn [load] in H, Hn. congruence.
  - assert (load mem p 1 <> [0x74]) by (intros ?%H1; done).
    destruct (Z.leb_spec (p + 6) sec_end); cbn [andb].
    + destruct (bytes_are mem p [0x0F; 0x84]).
      * pose proof (proj1 H2 eq_refl). split; [intros [= <-]; auto|]. intros [[_ ?]|(-> & _)]; done.
      * split; [done|]. intros [[_ ?]|(_ & _ & ?%H2)]; done.
    + split; [done|]. intros [[_ ?]|(_ & ? & _)]; [done|lia].
Qed.

Lemma Validate_iff mem sec p :
  ValidateCandidateSite mem p (sec_rva sec) (section_end sec) = true <-> from_ffi_site mem sec p.
Proof.
  unfold ValidateCandidateSite, from_ffi_site, kFromFfiPatchBytes, kFromFfiPrecedingMaxDistance,
    kFromFfiFollowingMaxDistance.
  pose proof (bytes_are_load mem p kFromFfiOriginalBytes) as Ho.
  pose proof (bytes_are_load mem p kFromFfiPatchedBytes) as Hp. cbn [length] in Ho, Hp.
  pose proof (je_length_spec mem (p + 6) (section_end sec)) as Hje.
  replace (p + 6 + 6) with (p + 12) in Hje by lia.
  case_if; boolp; [split; [done|lia]|].
  destruct (bytes_are mem p kFromFfiOriginalBytes || bytes_are mem p kFromFfiPatchedBytes) eqn:Eb; cbn [negb].
  2:{ apply orb_false_iff in Eb as [E1 E2]. rewrite E1 in Ho. rewrite E2 in Hp.
      split; [done|]. intros (_ & _ & [?%Ho|?%Hp] & _); done. }
  apply orb_true_iff in Eb. rewrite Ho, Hp in Eb.
  destruct (je_length mem (p + 6) (section_end sec)) as [je|].
  2:{ split; [done|]. intros (_ & _ & _ & je & Hj & _). by apply Hje in Hj. }
  assert (forall je', Some je = Some je' <-> je' = je) as Hsame by (intros; split; congruence).
  setoid_rewrite Hsame in Hje.
  assert (forall Q : Z -> Prop, (exists je', (je' = 2 /\ load mem (p + 6) 1 = [0x74] \/
      je' = 6 /\ p + 12 <= section_end sec /\ load mem (p + 6) 2 = [0x0F; 0x84]) /\ Q je') <-> Q je) as Hone.
  { intros Q. split; [intros (je' & ->%Hje & HQ); done|]. intros HQ. exists je. by rewrite <- Hje. }
  rewrite Hone. clear Hone Hje Hsame.
  pose proof (has_anchor_spec mem (p - Z.min (p - sec_rva sec) 16) p kFromFfiPrecedingAnchor) as Hb.
  pose proof (has_anchor_spec mem (p + 6 + je)
    (p + 6 + je + Z.min (section_end sec - (p + 6 + je)) 24) kFromFfiFollowingAnchor) as Ha.
  change (length kFromFfiPrecedingAnchor) with 6%nat in Hb. change (length kFromFfiFollowingAnchor) with 6%nat in Ha.
  change (Z.of_nat 6) with 6 in Hb, Ha.
  destruct (has_anchor mem _ p kFromFfiPrecedingAnchor); cbn [negb].
  - case_if; boolp.
    + split; [done|]. intros (_ & _ & _ & before & after & _ & Hq). lia.
    + rewrite Ha. destruct (proj1 Hb eq_refl) as (b & ? & ? & Hl). split.
      * intros (a & ? & ? & ?). split_and!; [lia..|done|]. exists b, a. split_and!; try done; lia.
      * intros (_ & _ & _ & _ & a & _ & ? & ? & ? & ?). exists a. split_and!; try done; lia.
  - split; [done|]. intros (_ & _ & _ & b & _ & (? & ? & ? & ?) & _).
    apply Hb. exists b. split_and!; try done; lia.
Qed.

Lemma hint_matches_site mem image_size sections hint :
  hint_matches mem image_size sections hint = true ->
  exists sec, sec ∈ sections /\ from_ffi_site mem sec hint.
Proof.
  unfold hint_matches. case_if; [done|]. destruct (find_first _ _) as [sec|] eqn:Esec; [|done].
  apply find_first_In in Esec as [Hsec _]. rewrite Validate_iff. eauto.
Qed.

Lemma scan_sections_sites mem sections p :
  p ∈ scan_sections mem sections <-> exists sec, sec ∈ sections /\ from_ffi_site mem sec p.
Proof.
  rewrite scan_sections_in. by setoid_rewrite section_candidates_in; setoid_rewrite Validate_iff.
Qed.

Lemma fold_add_match_nodup l matches : NoDup matches -> NoDup (fold_left add_match l matches).
Proof.
  revert matches. induction l as [|x l IH]; intros matches Hm; cbn [fold_left]; [done|]. apply IH.
  unfold add_match. destruct (contains x matches) eqn:E; [done|]. apply NoDup_app.
  split_and!; [done| |apply NoDup_singleton]. intros y Hy ->%list_elem_of_singleton.
  apply contains_true in Hy. congruence.
Qed.

Lemma scan_sections_nodup mem sections : NoDup (scan_sections mem sections).
Proof.
  unfold scan_sections. generalize (NoDup_nil_2 (A := Z)). generalize (@nil Z).
  induction sections as [|sec sections IH]; intros acc Hacc; cbn [fold_left]; [done|].
  by apply IH, fold_add_match_nodup.
Qed.

Lemma single_of_set (l : list Z) x : NoDup l -> (forall y, y ∈ l <-> y = x) -> l = [x].
Proof.
  intros Hn Hl. destruct l as [|a l]; [exfalso; apply (not_elem_of_nil x), Hl; done|].
  assert (a = x) as -> by (apply Hl; left). f_equal. destruct l as [|b l]; [done|].
  assert (b = x) as -> by (apply Hl; right; left). apply NoDup_cons in Hn as [[] _]. left.
Qed.

(** C24 The patch site that is found lies in an executable section and has, byte for
    byte, the shape of [from_ffi_site]: the original or the patched compare, the
    conditional jump behind it and both anchors at their distances. It is one of the two
    known addresses or the only place of that shape in all the executable sections. And
    a place of that shape that is the only one there is always found. *)
Theorem FindFromFfiPatchSite_site mem region image_size sections
    (Hsections : ReadMappedImageSections mem region = Ok (image_size, sections)) :
  (forall site, FindFromFfiPatchSite mem region = Ok site ->
     (exists sec, sec ∈ sections /\ from_ffi_site mem sec site) /\
     (site ∈ kKnownCandidateRvas \/
      forall sec p, sec ∈ sections -> from_ffi_site mem sec p -> p = site)) /\
  (forall site, (exists sec, sec ∈ sections /\ from_ffi_site mem sec site) ->
     (forall sec p, sec ∈ sections -> from_ffi_site mem sec p -> p = site) ->
     FindFromFfiPatchSite mem region = Ok site).
Proof.
  unfold FindFromFfiPatchSite. rewrite Hsections. cbn [mbind result_bind].
  set (matches := List.filter (hint_matches mem image_size sections) kKnownCandidateRvas).
  assert (forall p, p ∈ matches -> p ∈ kKnownCandidateRvas /\
    exists sec, sec ∈ sections /\ from_ffi_site mem sec p) as Hhints.
  { intros p Hp%list_elem_of_In. apply filter_In in Hp as [? ?%hint_matches_site]. by rewrite list_elem_of_In. }
  assert (NoDup matches) as Hnodup.
  { apply NoDup_ListNoDup, List.NoDup_filter, NoDup_ListNoDup. by apply (bool_decide_unpack _). }
  pose proof (scan_sections_sites mem sections) as Hscan.
  pose proof (scan_sections_nodup mem sections) as Hscan_nodup.
  clearbody matches. destruct matches as [|hint hints]; split.
  - intros site Hsite.
    assert (scan_sections mem sections = [site]) as Es
      by (destruct (scan_sections mem sections) as [|a [|b l]]; by simplify_eq).
    rewrite Es in Hscan. split; [apply Hscan; left|]. right. intros sec p Hsec Hp.
    apply list_elem_of_singleton, Hscan. eauto.
  - intros site Hsite Honly. rewrite (single_of_set (scan_sections mem sections) site); [done..|].
    intros y. rewrite Hscan. split; [intros (sec & ? & ?); by eapply Honly|by intros ->].
  - intros site Hsite. destruct hints; simplify_eq. destruct (Hhints site ltac:(left)). auto.
  - intros site Hsite Honly.
    assert (forall y, y ∈ hint :: hints -> y = site) as Hy.
    { intros z (_ & sec & ? & ?)%Hhints. by eapply Honly. }
    enough (hint :: hints = [site]) as [= -> ->] by done. apply single_of_set; [done|].
    intros y. split; [apply Hy|]. intros ->. rewrite <- (Hy hint); left.
Qed.

(** ** The bypass patch *)

Lemma find_pattern_spec mem n p :
  find_first (fun p => bytes_are mem p kPattern) (seqZ 0 n) = Some p ->
  bytes_are mem p kPattern = true.
Proof. intros H. by apply find_first_In in H as [_ ?]. Qed.

(** C25 The event-type bypass is not idempotent: the searched pattern ends with the
    very byte the patch changes, so after a success a second application finds
    no site and fails, wherever the pattern occurred once. *)
Theorem ApplyEventTypeBypassPatch_twice protect protect' mem mem' found :
  (forall p, bytes_are mem p kPattern = true -> p = found) ->
  ApplyEventTypeBypassPatch true protect mem = (Ok tt, mem') ->
  is_Ok (ApplyEventTypeBypassPatch true protect' mem').1 = false /\
  (ApplyEventTypeBypassPatch true protect' mem').2 = mem'.
Proof.
  intros Huniq H.
  assert (forall p, bytes_are mem' p kPattern = false) as Hnone.
  { unfold ApplyEventTypeBypassPatch in H. cbn [negb] in H.
    case_if_in H; [done|]. cbv zeta in H. case_if_in H; [done|].
    destruct (find_first _ _) as [f|] eqn:Ef; [|done].
    pose proof (find_pattern_spec _ _ _ Ef) as Hf. pose proof (Huniq f Hf) as ->.
    pose proof Hf as Hlast. rewrite bytes_are_spec in Hlast.
    specialize (Hlast 11%nat 0x72 eq_refl). change (Z.of_nat 11) with kPatchIndex in Hlast.
    rewrite Hlast in H. cbn [Z.eqb Pos.eqb] in H.
    apply rewrite_protected_cases in H as [[_ ->]|[? _]]; [|done].
    intros p. apply not_true_iff_false. intros Hp.
    assert (~ (p <= found + kPatchIndex < p + 12)) as Hout.
    { intros Hin. rewrite bytes_are_spec in Hp.
      destruct (lookup_lt_is_Some_2 kPattern (Z.to_nat (found + kPatchIndex - p))) as [b Hb];
        [simpl; lia|].
      pose proof (Hp _ _ Hb) as Hv.
      replace (p + Z.of_nat (Z.to_nat (found + kPatchIndex - p)))
        with (found + kPatchIndex + Z.of_nat 0) in Hv by lia.
      rewrite (write_bytes_in mem _ [0xEB] 0 0xEB) in Hv by done.
      assert (b <> 0xEB) as Hne; [|by subst b].
      assert (b ∈ kPattern) as Hbin by (by eapply list_elem_of_lookup_2).
      intros ->. vm_compute in Hbin. set_solver. }
    assert (bytes_are mem p kPattern = true) as Hold.
    { rewrite bytes_are_spec in *. intros i b Hb. rewrite <- (Hp i b Hb). f_equal. symmetry.
      apply write_bytes_out. apply lookup_lt_Some in Hb. simpl length in *.
      unfold kPatchIndex in *. lia. }
    apply Huniq in Hold. subst p. unfold kPatchIndex in Hout. lia. }
  unfold ApplyEventTypeBypassPatch. cbn [negb]. case_if; [done|]. cbv zeta. case_if; [done|].
  destruct (find_first _ _) as [f|] eqn:Ef; [|done].
  apply find_pattern_spec in Ef. rewrite Hnone in Ef. done.
Qed.

(** ** An image *)

(** One executable section of 256 bytes at 1024; the check at 1048 between its
    anchors, and the bypass pattern at 1100. *)
Definition example_bytes : list Z :=
  fold_left (fun l (c : Z * list Z) => list_inserts (Z.to_nat c.1) c.2 l)
    [ (0, [0x4D; 0x5A]); (60, [64]); (64, [0x50; 0x45]); (70, [1]); (84, [240]); (88, [0x0B; 2]);
      (144, [0; 16]); (336, [0; 1]); (340, [0; 4]); (367, [0x20]);
      (1040, kFromFfiPrecedingAnchor); (1048, kFromFfiOriginalBytes); (1054, [0x0F; 0x84]);
      (1060, kFromFfiFollowingAnchor); (1100, kPattern) ]
    (replicate 1300 0).

Definition example_image : memory := fun a => default 0 (example_bytes !! Z.to_nat a).
Definition example_region : region_query := inr (0, 4096).
Definition allow : nat -> Z -> Z -> Z -> Z + Z := fun _ _ _ _ => inl 0x20.
Definition example_hooks : CompatPatchHooks := mkHooks (Some true) None (Some allow).

Lemma ApplyFromFfiCompatPatch_idempotent_witness :
  let mem' := write_bytes example_image 1048 kFromFfiPatchedBytes in
  ApplyFromFfiCompatPatchWithHooks example_hooks example_region example_image = (Ok tt, mem') /\
  ApplyFromFfiCompatPatchWithHooks example_hooks example_region mem' = (Ok tt, mem').
Proof.
  intros mem'.
  assert (ApplyFromFfiCompatPatchWithHooks example_hooks example_region example_image =
    (Ok tt, mem')) as H by (vm_compute; reflexivity).
  split; [exact H|].
  apply (ApplyFromFfiCompatPatch_idempotent example_hooks example_hooks example_region
    example_image mem' allow H); [vm_compute; reflexivity|reflexivity|reflexivity].
Defined.

(** The only place of the shape in the section of the example. *)
Lemma FindFromFfiPatchSite_site_witness :
  ReadMappedImageSections example_image example_region = Ok (4096, [mkSection 1024 256]) /\
  FindFromFfiPatchSite example_image example_region = Ok 1048 /\
  (exists sec, sec ∈ [mkSection 1024 256] /\ from_ffi_site example_image sec 1048).
Proof.
  assert (ReadMappedImageSections example_image example_region = Ok (4096, [mkSection 1024 256])) as Hs
    by (vm_compute; reflexivity).
  assert (FindFromFfiPatchSite example_image example_region = Ok 1048) as H by (vm_compute; reflexivity).
  split; [exact Hs|]. split; [exact H|].
  exact (proj1 (proj1 (FindFromFfiPatchSite_site example_image example_region 4096 _ Hs) 1048 H)).
Defined.

Lemma example_pattern_once p : bytes_are example_image p kPattern = true -> p = 1100.
Proof.
  rewrite bytes_are_spec. intros H. specialize (H 0%nat 0x44 eq_refl).
  rewrite Z.add_0_r in H. unfold example_image in H.
  destruct (example_bytes !! Z.to_nat p) as [b|] eqn:E; [|done]. simpl in H.
  enough (Z.to_nat p = 1100%nat) by lia.
  assert (forallb (fun i => match example_bytes !! i with
                            | Some b => negb (u8 b =? 0x44) || (i =? 1100)%nat
                            | None => true end) (seq 0 (length example_bytes)) = true) as Hall
    by (vm_compute; reflexivity).
  rewrite forallb_forall in Hall. specialize (Hall (Z.to_nat p)).
  rewrite E, H in Hall. cbn [Z.eqb Pos.eqb negb orb] in Hall.
  apply Nat.eqb_eq, Hall, in_seq. apply lookup_lt_Some in E. lia.
Qed.

Lemma ApplyEventTypeBypassPatch_twice_witness :
  let mem' := write_bytes example_image 1111 [0xEB] in
  ApplyEventTypeBypassPatch true allow example_image = (Ok tt, mem') /\
  is_Ok (ApplyEventTypeBypassPatch true allow mem').1 = false /\
  (ApplyEventTypeBypassPatch true allow mem').2 = mem'.
Proof.
  intros mem'.
  assert (ApplyEventTypeBypassPatch true allow example_image = (Ok tt, mem')) as H
    by (vm_compute; reflexivity).
  split; [exact H|].
  apply (ApplyEventTypeBypassPatch_twice allow allow example_image mem' 1100
    example_pattern_once H).
Defined.
