(* ===== verification/Api.v ===== *)
(** The runtime linker of espclient.dll (src/esptool/src/esp/EspApi.{h,cpp}), its
    export catalog (EspExports.inc) and the two tables of export names
    (EspCatalog.h). The Windows loader is the record [Loader]. *)
From S2P Require Import Prelude Text Core.

(** A literal [L"..."]. *)
Definition wide (s : string) : wstring := code <$> chars s.

Definition kEspClientDll : wstring := wide "espclient.dll".

Record ExportDescriptor := mkExport {
  ed_name : string;
  ed_arity : nat;
  ed_signature : string;
  ed_address : Z
}.

(** [BuildCatalog]: the entries of EspExports.inc, in order. *)
Definition BuildCatalog : list ExportDescriptor :=
  [mkExport "_DllMainCRTStartup" 3 "BOOL __stdcall DllMainCRTStartup(HINSTANCE hinstDLL, DWORD fdwReason, LPVOID lpReserved)" 0;
   mkExport "EspAllocateEventNotification" 0 "__int64 EspAllocateEventNotification()" 0;
   mkExport "EspArmEventNotification" 2 "__int64 __fastcall EspArmEventNotification(__int64 *a1, __int64 a2)" 0;
   mkExport "EspClearEventQueue" 1 "__int64 __fastcall EspClearEventQueue(__int64 *a1)" 0;
   mkExport "EspCloseCollection" 1 "__int64 __fastcall EspCloseCollection(struct _GUID **a1)" 0;
   mkExport "EspCloseEventObjectReference" 1 "__int64 __fastcall EspCloseEventObjectReference(__int64 *a1)" 0;
   mkExport "EspCloseEventQueue" 1 "__int64 __fastcall EspCloseEventQueue(RTL_SRWLOCK **a1)" 0;
   mkExport "EspCloseFilter" 1 "__int64 __fastcall EspCloseFilter(_QWORD *a1)" 0;
   mkExport "EspCloseRule" 1 "__int64 __fastcall EspCloseRule(_QWORD *a1)" 0;
   mkExport "EspCompleteEventNotification" 1 "__int64 __fastcall EspCompleteEventNotification(__int64 a1)" 0;
   mkExport "EspConnectClient" 2 "__int64 __fastcall EspConnectClient(_OWORD *a1, _QWORD *a2)" 0;
   mkExport "EspConnectEventQueueWithCallback" 4 "__int64 __fastcall EspConnectEventQueueWithCallback(__int64 *a1, __int64 a2, __int64 a3, __int64 a4)" 0;
   mkExport "EspConnectEventQueueWithIocp" 3 "__int64 __fastcall EspConnectEventQueueWithIocp(__int64 *a1, __int64 a2, _QWORD *a3)" 0;
   mkExport "EspCreateAndFilter" 3 "__int64 __fastcall EspCreateAndFilter(__int64 *a1, __int64 *a2, void **a3)" 0;
   mkExport "EspCreateClientFilter" 4 "__int64 __fastcall EspCreateClientFilter(int a1, int a2, __int64 a3, void **a4)" 0;
   mkExport "EspCreateCollection" 3 "__int64 __fastcall EspCreateCollection(void ***a1, __int64 a2, utl::_RefCountBase *a3)" 0;
   mkExport "EspCreateDesktopFilter" 4 "__int64 __fastcall EspCreateDesktopFilter(int a1, int a2, __int64 a3, void **a4)" 0;
   mkExport "EspCreateDesktopReference" 3 "__int64 __fastcall EspCreateDesktopReference(__int64 a1, const wchar_t *a2, _QWORD *a3)" 0;
   mkExport "EspCreateDiskFilter" 4 "__int64 __fastcall EspCreateDiskFilter(int a1, int a2, __int64 a3, void **a4)" 0;
   mkExport "EspCreateDiskReference" 3 "__int64 __fastcall EspCreateDiskReference(__int128 **a1, __int64 a2, __int64 a3)" 0;
   mkExport "EspCreateEventFilter" 4 "__int64 __fastcall EspCreateEventFilter(int a1, int a2, __int64 a3, void **a4)" 0;
   mkExport "EspCreateEventObjectReference" 2 "__int64 __fastcall EspCreateEventObjectReference(__int64 a1, _QWORD *a2)" 0;
   mkExport "EspCreateEventObjectReferenceById" 3 "__int64 __fastcall EspCreateEventObjectReferenceById(__int64 a1, __int64 a2, _QWORD *a3)" 0;
   mkExport "EspCreateEventQueue" 3 "__int64 __fastcall EspCreateEventQueue(__int64 a1, __int64 a2, utl::_RefCountBase *a3)" 0;
   mkExport "EspCreateFileFilter" 4 "__int64 __fastcall EspCreateFileFilter(int a1, int a2, __int64 a3, void **a4)" 0;
   mkExport "EspCreateFileObjectFilter" 4 "__int64 __fastcall EspCreateFileObjectFilter(int a1, int a2, __int64 a3, void **a4)" 0;
   mkExport "EspCreateFileReferenceById" 4 "__int64 __fastcall EspCreateFileReferenceById(__int64 a1, __int128 *a2, __int64 a3, volatile signed __int32 *a4)" 0;
   mkExport "EspCreateFileReferenceByPath" 3 "__int64 __fastcall EspCreateFileReferenceByPath(__int128 **a1, __int64 a2, __int64 a3)" 0;
   mkExport "EspCreateFileStreamFilter" 4 "__int64 __fastcall EspCreateFileStreamFilter(int a1, int a2, __int64 a3, void **a4)" 0;
   mkExport "EspCreateFileStreamReferenceById" 0 "__int64 __fastcall EspCreateFileStreamReferenceById(" 0;
   mkExport "EspCreateFileStreamReferenceByPath" 3 "__int64 __fastcall EspCreateFileStreamReferenceByPath(__int128 **a1, __int64 a2, __int64 a3)" 0;
   mkExport "EspCreateFilter" 3 "__int64 __fastcall EspCreateFilter(int a1, __int64 a2, void **a3)" 0;
   mkExport "EspCreateKtmTransactionFilter" 4 "__int64 __fastcall EspCreateKtmTransactionFilter(int a1, int a2, __int64 a3, void **a4)" 0;
   mkExport "EspCreateMailslotFilter" 4 "__int64 __fastcall EspCreateMailslotFilter(int a1, int a2, __int64 a3, void **a4)" 0;
   mkExport "EspCreateMailslotReference" 3 "__int64 __fastcall EspCreateMailslotReference(__int128 **a1, __int64 a2, __int64 a3)" 0;
   mkExport "EspCreateNotFilter" 2 "__int64 __fastcall EspCreateNotFilter(__int64 *a1, _QWORD *a2)" 0;
   mkExport "EspCreateOrFilter" 3 "__int64 __fastcall EspCreateOrFilter(__int64 *a1, __int64 *a2, void **a3)" 0;
   mkExport "EspCreatePipeFilter" 4 "__int64 __fastcall EspCreatePipeFilter(int a1, int a2, __int64 a3, void **a4)" 0;
   mkExport "EspCreatePipeReference" 3 "__int64 __fastcall EspCreatePipeReference(__int128 **a1, __int64 a2, __int64 a3)" 0;
   mkExport "EspCreateProcessFilter" 4 "__int64 __fastcall EspCreateProcessFilter(int a1, int a2, __int64 a3, void **a4)" 0;
   mkExport "EspCreateProcessReference" 3 "__int64 __fastcall EspCreateProcessReference(__int64 a1, int a2, _QWORD *a3)" 0;
   mkExport "EspCreateProcessTokenReference" 3 "__int64 __fastcall EspCreateProcessTokenReference(__int64 a1, int a2, _QWORD *a3)" 0;
   mkExport "EspCreateRegistryKeyFilter" 4 "__int64 __fastcall EspCreateRegistryKeyFilter(int a1, int a2, __int64 a3, void **a4)" 0;
   mkExport "EspCreateRegistryKeyObjectFilter" 4 "__int64 __fastcall EspCreateRegistryKeyObjectFilter(int a1, int a2, __int64 a3, void **a4)" 0;
   mkExport "EspCreateRegistryKeyReference" 3 "__int64 __fastcall EspCreateRegistryKeyReference(__int64 a1, __int64 a2, volatile signed __int32 *a3)" 0;
   mkExport "EspCreateRule" 2 "__int64 __fastcall EspCreateRule(__int64 *a1, _QWORD *a2)" 0;
   mkExport "EspCreateThreadFilter" 4 "__int64 __fastcall EspCreateThreadFilter(int a1, int a2, __int64 a3, void **a4)" 0;
   mkExport "EspCreateThreadReference" 3 "__int64 __fastcall EspCreateThreadReference(__int64 a1, int a2, _QWORD *a3)" 0;
   mkExport "EspCreateThreadTokenReference" 3 "__int64 __fastcall EspCreateThreadTokenReference(__int64 a1, int a2, _QWORD *a3)" 0;
   mkExport "EspCreateTokenFilter" 4 "__int64 __fastcall EspCreateTokenFilter(int a1, int a2, __int64 a3, void **a4)" 0;
   mkExport "EspCreateVolumeFilter" 4 "__int64 __fastcall EspCreateVolumeFilter(int a1, int a2, __int64 a3, void **a4)" 0;
   mkExport "EspCreateVolumeReference" 3 "__int64 __fastcall EspCreateVolumeReference(__int64 a1, struct _GUID *a2, _QWORD *a3)" 0;
   mkExport "EspCreateXorFilter" 3 "__int64 __fastcall EspCreateXorFilter(__int64 *a1, __int64 *a2, void **a3)" 0;
   mkExport "EspDisconnectClient" 1 "__int64 __fastcall EspDisconnectClient(struct _GUID **a1)" 0;
   mkExport "EspDisconnectEventQueue" 1 "__int64 __fastcall EspDisconnectEventQueue(__int64 *a1)" 0;
   mkExport "EspDuplicateEventObjectReference" 2 "__int64 __fastcall EspDuplicateEventObjectReference(__int64 *a1, __int64 **a2)" 0;
   mkExport "EspEnumerateAllClientContextKeys" 3 "__int64 __fastcall EspEnumerateAllClientContextKeys(__int64 a1, int *a2, _QWORD *a3)" 0;
   mkExport "EspEnumerateAllEventObjectContextKeys" 3 "__int64 __fastcall EspEnumerateAllEventObjectContextKeys(__int64 *a1, int *a2, _QWORD *a3)" 0;
   mkExport "EspEnumerateAllRulesForClient" 3 "__int64 __fastcall EspEnumerateAllRulesForClient(__int64 a1, int *a2, _QWORD *a3)" 0;
   mkExport "EspEnumerateCollectionEntries" 3 "__int64 __fastcall EspEnumerateCollectionEntries(__int64 a1, int *a2, utl::_RefCountBase **a3)" 0;
   mkExport "EspEnumerateCollectionIds" 4 "__int64 __fastcall EspEnumerateCollectionIds(__int64 a1, int a2, int *a3, _QWORD *a4)" 0;
   mkExport "EspEnumerateConnectedClients" 2 "__int64 __fastcall EspEnumerateConnectedClients(int *a1, _QWORD *a2)" 0;
   mkExport "EspEnumerateEventQueueIds" 4 "__int64 __fastcall EspEnumerateEventQueueIds(__int64 a1, int a2, int *a3, _QWORD *a4)" 0;
   mkExport "EspEnumerateRegisteredClients" 2 "__int64 __fastcall EspEnumerateRegisteredClients(int *a1, _QWORD *a2)" 0;
   mkExport "EspEnumerateRuleIds" 4 "__int64 __fastcall EspEnumerateRuleIds(__int64 a1, int a2, int *a3, _QWORD *a4)" 0;
   mkExport "EspFreeEventNotification" 1 "__int64 __fastcall EspFreeEventNotification(struct ESP_EVENT_NOTIFICATION *a1)" 0;
   mkExport "EspFreeMemory" 1 "__int64 __fastcall EspFreeMemory(void *a1)" 0;
   mkExport "EspGetCollectionId" 2 "__int64 __fastcall EspGetCollectionId(__int64 a1, struct _GUID *a2)" 0;
   mkExport "EspGetCollectionType" 2 "__int64 __fastcall EspGetCollectionType(__int64 *a1, int *a2)" 0;
   mkExport "EspGetEventCapabilities" 3 "__int64 __fastcall EspGetEventCapabilities(__int64 a1, int a2, int *a3)" 0;
   mkExport "EspGetEventObjectFromReference" 2 "__int64 __fastcall EspGetEventObjectFromReference(__int64 *a1, _QWORD *a2)" 0;
   mkExport "EspGetEventObjectId" 2 "__int64 __fastcall EspGetEventObjectId(__int64 a1, __int64 *a2)" 0;
   mkExport "EspGetEventObjectType" 2 "__int64 __fastcall EspGetEventObjectType(__int64 a1, int *a2)" 0;
   mkExport "EspGetEventQueueId" 2 "__int64 __fastcall EspGetEventQueueId(__int64 *a1, struct _GUID *a2)" 0;
   mkExport "EspGetRuleId" 2 "__int64 __fastcall EspGetRuleId(__int64 a1, struct _GUID *a2)" 0;
   mkExport "EspInitUnicodeString" 2 "__int64 __fastcall EspInitUnicodeString(__int64 a1, __int64 a2)" 0;
   mkExport "EspIsClientPropertySupported" 3 "__int64 __fastcall EspIsClientPropertySupported(__int64 a1, unsigned int a2, _DWORD *a3)" 0;
   mkExport "EspIsDesktopPropertySupported" 3 "__int64 __fastcall EspIsDesktopPropertySupported(__int64 a1, unsigned int a2, _DWORD *a3)" 0;
   mkExport "EspIsDiskPropertySupported" 3 "__int64 __fastcall EspIsDiskPropertySupported(__int64 a1, unsigned int a2, _DWORD *a3)" 0;
   mkExport "EspIsEventPropertySupported" 3 "__int64 __fastcall EspIsEventPropertySupported(__int64 a1, unsigned int a2, _DWORD *a3)" 0;
   mkExport "EspIsFileObjectPropertySupported" 3 "__int64 __fastcall EspIsFileObjectPropertySupported(__int64 a1, unsigned int a2, _DWORD *a3)" 0;
   mkExport "EspIsFilePropertySupported" 3 "__int64 __fastcall EspIsFilePropertySupported(__int64 a1, unsigned int a2, _DWORD *a3)" 0;
   mkExport "EspIsFileStreamPropertySupported" 3 "__int64 __fastcall EspIsFileStreamPropertySupported(__int64 a1, unsigned int a2, _DWORD *a3)" 0;
   mkExport "EspIsKtmTransactionPropertySupported" 3 "__int64 __fastcall EspIsKtmTransactionPropertySupported(__int64 a1, unsigned int a2, _DWORD *a3)" 0;
   mkExport "EspIsMailslotPropertySupported" 3 "__int64 __fastcall EspIsMailslotPropertySupported(__int64 a1, unsigned int a2, _DWORD *a3)" 0;
   mkExport "EspIsPipePropertySupported" 3 "__int64 __fastcall EspIsPipePropertySupported(__int64 a1, unsigned int a2, _DWORD *a3)" 0;
   mkExport "EspIsProcessPropertySupported" 3 "__int64 __fastcall EspIsProcessPropertySupported(__int64 a1, unsigned int a2, _DWORD *a3)" 0;
   mkExport "EspIsRegistryKeyObjectPropertySupported" 3 "__int64 __fastcall EspIsRegistryKeyObjectPropertySupported(__int64 a1, unsigned int a2, _DWORD *a3)" 0;
   mkExport "EspIsRegistryKeyPropertySupported" 3 "__int64 __fastcall EspIsRegistryKeyPropertySupported(__int64 a1, unsigned int a2, _DWORD *a3)" 0;
   mkExport "EspIsThreadPropertySupported" 3 "__int64 __fastcall EspIsThreadPropertySupported(__int64 a1, unsigned int a2, _DWORD *a3)" 0;
   mkExport "EspIsTokenPropertySupported" 3 "__int64 __fastcall EspIsTokenPropertySupported(__int64 a1, unsigned int a2, _DWORD *a3)" 0;
   mkExport "EspIsVolumePropertySupported" 3 "__int64 __fastcall EspIsVolumePropertySupported(__int64 a1, unsigned int a2, _DWORD *a3)" 0;
   mkExport "EspOpenCollection" 3 "__int64 __fastcall EspOpenCollection(__int64 a1, struct _GUID *a2, _QWORD *a3)" 0;
   mkExport "EspOpenEventQueue" 3 "__int64 __fastcall EspOpenEventQueue(__int64 a1, struct _GUID *a2, volatile signed __int32 *a3)" 0;
   mkExport "EspQueryClientDescriptor" 2 "__int64 __fastcall EspQueryClientDescriptor(struct _GUID *a1, _QWORD *a2)" 0;
   mkExport "EspQueryClientProperties" 4 "__int64 __fastcall EspQueryClientProperties(__int64 *a1, unsigned int a2, const unsigned int *a3, _QWORD *a4)" 0;
   mkExport "EspQueryDesktopProperties" 4 "__int64 __fastcall EspQueryDesktopProperties(__int64 a1, unsigned int a2, const unsigned int *a3, __int64 a4)" 0;
   mkExport "EspQueryDiskProperties" 4 "__int64 __fastcall EspQueryDiskProperties(__int64 a1, unsigned int a2, const unsigned int *a3, __int64 a4)" 0;
   mkExport "EspQueryFileObjectProperties" 4 "__int64 __fastcall EspQueryFileObjectProperties(__int64 a1, unsigned int a2, const unsigned int *a3, __int64 a4)" 0;
   mkExport "EspQueryFileProperties" 4 "__int64 __fastcall EspQueryFileProperties(__int64 a1, unsigned int a2, const unsigned int *a3, __int64 a4)" 0;
   mkExport "EspQueryFileStreamProperties" 4 "__int64 __fastcall EspQueryFileStreamProperties(__int64 a1, unsigned int a2, const unsigned int *a3, __int64 a4)" 0;
   mkExport "EspQueryKtmTransactionProperties" 4 "__int64 __fastcall EspQueryKtmTransactionProperties(__int64 a1, unsigned int a2, const unsigned int *a3, __int64 a4)" 0;
   mkExport "EspQueryMailslotProperties" 4 "__int64 __fastcall EspQueryMailslotProperties(__int64 a1, unsigned int a2, const unsigned int *a3, __int64 a4)" 0;
   mkExport "EspQueryPipeProperties" 4 "__int64 __fastcall EspQueryPipeProperties(__int64 a1, unsigned int a2, const unsigned int *a3, __int64 a4)" 0;
   mkExport "EspQueryProcessProperties" 4 "__int64 __fastcall EspQueryProcessProperties(__int64 a1, unsigned int a2, const unsigned int *a3, __int64 a4)" 0;
   mkExport "EspQueryRegistryKeyObjectProperties" 4 "__int64 __fastcall EspQueryRegistryKeyObjectProperties(__int64 a1, unsigned int a2, const unsigned int *a3, __int64 a4)" 0;
   mkExport "EspQueryRegistryKeyProperties" 4 "__int64 __fastcall EspQueryRegistryKeyProperties(__int64 a1, unsigned int a2, const unsigned int *a3, __int64 a4)" 0;
   mkExport "EspQueryThreadProperties" 4 "__int64 __fastcall EspQueryThreadProperties(__int64 a1, unsigned int a2, const unsigned int *a3, __int64 a4)" 0;
   mkExport "EspQueryTokenProperties" 4 "__int64 __fastcall EspQueryTokenProperties(__int64 a1, unsigned int a2, const unsigned int *a3, __int64 a4)" 0;
   mkExport "EspQueryVolumeProperties" 4 "__int64 __fastcall EspQueryVolumeProperties(__int64 a1, unsigned int a2, const unsigned int *a3, __int64 a4)" 0;
   mkExport "EspRegisterClient" 1 "__int64 __fastcall EspRegisterClient(__int64 a1)" 0;
   mkExport "EspRemoveAllRulesForClient" 1 "__int64 __fastcall EspRemoveAllRulesForClient(__int64 a1)" 0;
   mkExport "EspRemoveEventQueueStateChangeCallback" 1 "__int64 __fastcall EspRemoveEventQueueStateChangeCallback(RTL_SRWLOCK **a1)" 0;
   mkExport "EspRemoveRulesForClient" 2 "__int64 __fastcall EspRemoveRulesForClient(__int64 a1, int a2)" 0;
   mkExport "EspSetClientContextKey" 2 "__int64 __fastcall EspSetClientContextKey(__int64 a1, _DWORD *a2)" 0;
   mkExport "EspSetEventObjectContextKey" 2 "__int64 __fastcall EspSetEventObjectContextKey(__int64 *a1, _DWORD *a2)" 0;
   mkExport "EspSetEventQueueStateChangeCallback" 0 "__int64 __fastcall EspSetEventQueueStateChangeCallback(" 0;
   mkExport "EspStringMatchesPattern" 3 "__int64 __fastcall EspStringMatchesPattern(__int64 a1, __int16 *a2, _DWORD *a3)" 0;
   mkExport "EspUnregisterClient" 1 "__int64 __fastcall EspUnregisterClient(_OWORD *a1)" 0;
   mkExport "EspUpdateCollection" 4 "__int64 __fastcall EspUpdateCollection(__int64 a1, unsigned int a2, unsigned int a3, __int64 a4)" 0;
   mkExport "EspUpdateRules" 4 "__int64 __fastcall EspUpdateRules(__int64 a1, unsigned int a2, unsigned int a3, __int64 a4)" 0].

(** ** Export name tables *)

Definition kTypedFilterExports : list string :=
  [""; "EspCreateClientFilter"; "EspCreateDesktopFilter"; "EspCreateDiskFilter";
   "EspCreateEventFilter"; "EspCreateFileFilter"; "EspCreateFileObjectFilter";
   "EspCreateFileStreamFilter"; "EspCreateRegistryKeyFilter";
   "EspCreateRegistryKeyObjectFilter"; "EspCreateProcessFilter"; "EspCreateThreadFilter";
   "EspCreateTokenFilter"; "EspCreateVolumeFilter"; "EspCreatePipeFilter";
   "EspCreateMailslotFilter"; "EspCreateKtmTransactionFilter"].

Definition kPropertyQueryExports : list string :=
  ["EspQueryClientProperties"; "EspQueryDesktopProperties"; "EspQueryDiskProperties";
   "EspQueryFileObjectProperties"; "EspQueryFileProperties"; "EspQueryFileStreamProperties";
   "EspQueryKtmTransactionProperties"; "EspQueryMailslotProperties"; "EspQueryPipeProperties";
   "EspQueryProcessProperties"; "EspQueryRegistryKeyObjectProperties";
   "EspQueryRegistryKeyProperties"; "EspQueryThreadProperties"; "EspQueryTokenProperties";
   "EspQueryVolumeProperties"].

(** ** State and loader *)

Record EspApi := mkApi {
  api_module : handle;
  api_loaded_path : wstring;
  api_last_error : string;
  api_exports : list ExportDescriptor
}.

Definition new_api : EspApi := mkApi 0 [] "" BuildCatalog.

Record Loader := mkLoader {
  ld_CurrentImagePath : wstring;
  (** the module, 0 for a failure *)
  ld_LoadLibraryEx : wstring -> Z -> handle;
  (** the module, 0 for a failure, and the last error *)
  ld_LoadLibrary : wstring -> handle * Z;
  ld_GetProcAddress : handle -> string -> Z;
  ld_WideCharToMultiByte : wstring -> option string
}.

Definition LOAD_WITH_ALTERED_SEARCH_PATH : Z := 8.
Definition ERROR_MOD_NOT_FOUND : Z := 126.

(** ** Operations *)

Definition is_separator (unit : Z) : bool := (unit =? code "\") || (unit =? code "/").

(** [path.substr(0, find_last_of(L"\\/") + 1)], empty without a separator. *)
Definition directory_of (path : wstring) : wstring :=
  reverse (drop_while (fun u => negb (is_separator u)) (reverse path)).

Definition ExecutableDirectory (ld : Loader) : wstring := directory_of (ld_CurrentImagePath ld).

Definition Unload (api : EspApi) : EspApi :=
  mkApi 0 [] (api_last_error api)
    ((fun d => mkExport (ed_name d) (ed_arity d) (ed_signature d) 0) <$> api_exports api).

Definition candidates (ld : Loader) (explicit_path : wstring) : list wstring :=
  match explicit_path with
  | _ :: _ => [explicit_path]
  | [] =>
      let directory := ExecutableDirectory ld in
      (if nonempty directory then [directory ++ kEspClientDll] else []) ++ [kEspClientDll]
  end.

Definition load_one (ld : Loader) (candidate : wstring) : handle * Z :=
  let has_directory := existsb is_separator candidate in
  let flags := if has_directory then LOAD_WITH_ALTERED_SEARCH_PATH else 0 in
  let module := ld_LoadLibraryEx ld candidate flags in
  if handle_ok module then (module, 0) else ld_LoadLibrary ld candidate.

(** The first candidate that loads, or the last error. *)
Fixpoint load_first (ld : Loader) (l : list wstring) (load_error : Z) : (handle * wstring) + Z :=
  match l with
  | [] => inr load_error
  | candidate :: rest =>
      let '(module, error) := load_one ld candidate in
      if handle_ok module then inl (module, candidate) else load_first ld rest error
  end.

Definition resolve (ld : Loader) (module : handle) (d : ExportDescriptor) : ExportDescriptor :=
  mkExport (ed_name d) (ed_arity d) (ed_signature d) (ld_GetProcAddress ld module (ed_name d)).

Definition is_resolved (d : ExportDescriptor) : bool := negb (ed_address d =? 0).

Definition ResolvedCount (api : EspApi) : nat := length (List.filter is_resolved (api_exports api)).

Definition Missing (api : EspApi) : list string :=
  ed_name <$> List.filter (fun d => negb (is_resolved d)) (api_exports api).

Definition Load (ld : Loader) (explicit_path : wstring) (api : EspApi) : bool * EspApi :=
  let api := Unload api in
  match load_first ld (candidates ld explicit_path) ERROR_MOD_NOT_FOUND with
  | inr load_error =>
      let attempted := match explicit_path with [] => kEspClientDll | _ => explicit_path end in
      (false, mkApi 0 [] ("could not load " +:+ ToUtf8 (ld_WideCharToMultiByte ld) attempted +:+
                          " (error " +:+ dec load_error +:+ ")") (api_exports api))
  | inl (module, path) =>
      let api := mkApi module path "" (resolve ld module <$> api_exports api) in
      if (ResolvedCount api =? 0)%nat
      then (false, Unload (mkApi module path
              "the loaded library exports none of the expected symbols" (api_exports api)))
      else (true, api)
  end.

Definition FindExport (name : string) (api : EspApi) : option ExportDescriptor :=
  find_first (fun d => (ed_name d =? name)%string) (api_exports api).

Definition Resolve (name : string) (api : EspApi) : Z :=
  match FindExport name api with Some d => ed_address d | None => 0 end.

(** An export that can be called: it is in the catalog and it was resolved. *)
Definition available (api : EspApi) (name : string) : bool :=
  match FindExport name api with Some d => is_resolved d | None => false end.

(** * Theorems *)

Lemma load_first_inl ld l e module path :
  load_first ld l e = inl (module, path) -> handle_ok module = true /\ path ∈ l.
Proof.
  revert e. induction l as [|c l IH]; intros e; simpl; [done|].
  destruct (load_one ld c) as [m err]. destruct (handle_ok m) eqn:Hm.
  - intros [= <- <-]. split; [done|left].
  - intros [? ?]%IH. split; [done|by right].
Qed.

Lemma unload_none_resolved api : List.filter is_resolved (api_exports (Unload api)) = [].
Proof. unfold Unload. cbn [api_exports]. induction (api_exports api) as [|d l IH]; [done|]. exact IH. Qed.

Lemma find_resolved ld module name l :
  find_first (fun d => (ed_name d =? name)%string) (resolve ld module <$> l) =
  resolve ld module <$> find_first (fun d => (ed_name d =? name)%string) l.
Proof. induction l as [|d l IH]; [done|]. simpl. by destruct (ed_name d =? name)%string. Qed.

Lemma find_name name l :
  match find_first (fun d => (ed_name d =? name)%string) l with
  | Some d => ed_name d = name /\ name ∈ ed_name <$> l
  | None => name ∉ ed_name <$> l
  end.
Proof.
  destruct (find_first _ l) eqn:E.
  - apply find_first_In in E as [Hin Hn]. apply String.eqb_eq in Hn. split; [done|].
    rewrite <- Hn. by apply list_elem_of_fmap_2.
  - apply find_first_None in E. intros (d & -> & Hd)%list_elem_of_fmap.
    rewrite Forall_forall in E. specialize (E _ Hd). by rewrite String.eqb_refl in E.
Qed.

Lemma unload_names api : ed_name <$> api_exports (Unload api) = ed_name <$> api_exports api.
Proof. unfold Unload. simpl. by rewrite <- list_fmap_compose. Qed.

Lemma resolve_names ld module (l : list ExportDescriptor) : ed_name <$> (resolve ld module <$> l) = ed_name <$> l.
Proof. by rewrite <- list_fmap_compose. Qed.

(** After a successful load exactly the catalogued exports that the loaded
    library has can be called; after a failed one no module is held, no export can
    be called and a reason is kept. An explicit path is never replaced. *)
Lemma Load_spec ld explicit_path api :
  let '(ok, api') := Load ld explicit_path api in
  (ok = true ->
     handle_ok (api_module api') = true /\ api_loaded_path api' ∈ candidates ld explicit_path /\
     forall name, available api' name = true <->
       name ∈ ed_name <$> api_exports api /\ ld_GetProcAddress ld (api_module api') name <> 0) /\
  (ok = false ->
     api_module api' = 0 /\ ResolvedCount api' = 0%nat /\ api_last_error api' <> "") /\
  (explicit_path <> [] -> ok = true -> api_loaded_path api' = explicit_path).
Proof.
  unfold Load.
  destruct (load_first _ _ _) as [[module path]|e] eqn:E.
  2:{ split; [done|]. split; [|done]. intros _. split; [done|]. split; [|done].
      unfold ResolvedCount. simpl. apply length_zero_iff_nil, (unload_none_resolved api). }
  apply load_first_inl in E as [Hm Hin].
  case_if.
  - split; [done|]. split; [|done]. intros _. split; [done|]. split; [|done].
    unfold ResolvedCount. by rewrite unload_none_resolved.
  - split; [|split; [done|]].
    + intros _. split; [done|]. split; [done|]. intros name.
      unfold available, FindExport. cbn [api_exports api_module].
      rewrite find_resolved.
      pose proof (find_name name (api_exports (Unload api))) as Hf.
      rewrite unload_names in Hf.
      destruct (find_first _ _) as [d|]; cbn [fmap option_fmap option_map].
      * destruct Hf as [Hn Hin']. unfold is_resolved, resolve. cbn [ed_address]. rewrite Hn.
        rewrite negb_true_iff, Z.eqb_neq. naive_solver.
      * naive_solver.
    + intros Hp _. cbn [api_loaded_path]. destruct explicit_path; [done|].
      simpl in Hin. set_solver.
Qed.

(** Every export is either resolved or listed as missing. *)
Lemma resolved_or_missing api :
  (ResolvedCount api + length (Missing api) = length (api_exports api))%nat.
Proof.
  unfold ResolvedCount, Missing. rewrite length_fmap.
  induction (api_exports api) as [|d l IH]; [done|]. simpl. destruct (is_resolved d); simpl; lia.
Qed.

Lemma catalog_names : NoDup (ed_name <$> BuildCatalog).
Proof. apply (bool_decide_unpack _). vm_compute. exact I. Qed.
