(* ===== verification/NtPath.v ===== *)
(** Path expansion (src/esptool/src/esp/EspNtPath.{h,cpp}). What Windows answers
    about files, drives and the current user is the record [PathSystem]; the log
    line of [ExpandFilterValue] is not modelled. *)
From S2P Require Import Prelude Text Core Api.

Definition kNtPathPrefix : string := "$nt:".
Definition kFileNameBufferChars : nat := 512.
Definition MAX_PATH : Z := 260.
Definition backslash : Z := code "\".
Definition colon : Z := code ":".

Record PathSystem := mkPathSystem {
  ps_MultiByteToWideChar : string -> option wstring;
  (** the handle, 0 or -1 for a failure *)
  ps_CreateFile : wstring -> handle;
  (** status, length in bytes and the characters; absent without ntdll or its export *)
  ps_NtQueryInformationFile : option (handle -> Z * Z * wstring);
  (** characters written and the buffer *)
  ps_GetFinalPathNameByHandle : handle -> Z * wstring;
  (** characters written and the first string of the buffer *)
  ps_QueryDosDevice : wstring -> Z * wstring;
  (** [cFileName] of the match *)
  ps_FindFirstFile : wstring -> option wstring;
  (** the SID string of the process user *)
  ps_UserSid : option wstring
}.

(** [starts_with] on the bytes of a [string_view]. *)
Definition starts_with_string (p s : string) : bool := String.prefix p s.

Definition LooksLikeNtPathPrefix (value : string) : bool :=
  (String.length kNtPathPrefix <? String.length value)%nat && starts_with_string kNtPathPrefix value.

Definition LooksLikeNtDevicePath (value : string) : bool :=
  starts_with_string "\Device\" value || starts_with_string "\??\" value ||
  starts_with_string "\DosDevices\" value.

(** [std::wstring_view::substr(n)] of a string of at least [n] bytes. *)
Definition drop_string (n : nat) (s : string) : string := of_chars (drop n (chars s)).

(** The pieces between separators, empty ones kept. *)
Fixpoint components (separator : Z) (l : wstring) : list wstring :=
  match l with
  | [] => [[]]
  | u :: rest =>
      if u =? separator then [] :: components separator rest
      else match components separator rest with
           | piece :: pieces => (u :: piece) :: pieces
           | [] => [[u]]
           end
  end.

(** [_wcsnicmp] in the "C" locale: only the ASCII letters are folded. *)
Definition fold_wide (u : Z) : Z := if (code "A" <=? u) && (u <=? code "Z") then u + 32 else u.

Definition prefixed (prefix l : wstring) : bool :=
  bool_decide (fold_wide <$> take (length prefix) l = fold_wide <$> prefix).

Section Expand.
  Context (ps : PathSystem).

Definition to_wide (s : string) : wstring := ToUtf16 (ps_MultiByteToWideChar ps) s.

Definition valid_file (h : handle) : bool := handle_ok h && negb (h =? -1).

Definition QueryOnDiskFileName (file : handle) : wstring :=
  match ps_NtQueryInformationFile ps with
  | None => []
  | Some query =>
      let '(status, bytes, name) := query file in
      if (status <? 0) || (bytes =? 0) || negb (Z.land bytes 1 =? 0) then []
      else
        let count := Z.to_nat (bytes / 2) in
        if (count =? 0)%nat || (kFileNameBufferChars <=? count)%nat then [] else take count name
  end.

Definition DevicePrefixForDrive (drive : Z) : wstring :=
  let '(written, device) := ps_QueryDosDevice ps [drive; colon] in
  if (written =? 0) || negb (nonempty device) then [] else device.

(** "\Device\HarddiskVolumeN\..." to "\Device\HarddiskVolumeN". *)
Definition DevicePrefixFromFinalPath (nt : wstring) : wstring :=
  match nt with
  | u :: rest =>
      if (length nt <? 9)%nat || negb (u =? backslash) then []
      else match components backslash rest with
           | first :: second :: _ => u :: first ++ backslash :: second
           | _ => []
           end
  | [] => []
  end.

(** The walk over the components, each replaced by its name on disk. *)
Fixpoint walk (pieces : list wstring) (current result : wstring) : wstring :=
  match pieces with
  | [] => result
  | piece :: rest =>
      if negb (nonempty piece) then result
      else
        let name := match ps_FindFirstFile ps (current ++ piece) with
                    | Some found => found | None => piece end in
        walk rest (current ++ name ++ [backslash]) (result ++ backslash :: name)
  end.

Definition ExpandWithOnDiskCasing (win32 device : wstring) : wstring :=
  if negb (nonempty device) || (length win32 <? 3)%nat then []
  else
    let current := take 1 win32 ++ [colon; backslash] in
    let rest := drop_while (fun u => u =? backslash) (drop 2 win32) in
    walk (components backslash rest) current device.

Definition ExpandWin32ToNtDevice (win32 : string) : wstring :=
  let w := to_wide win32 in
  if negb (bool_decide (w !! 1%nat = Some colon)) then w
  else
    let file := ps_CreateFile ps w in
    let on_disk := if valid_file file then QueryOnDiskFileName file else [] in
    let final_nt :=
      if valid_file file then
        let '(written, nt) := ps_GetFinalPathNameByHandle ps file in
        if (0 <? written) && (written <? MAX_PATH) && bool_decide (head nt = Some backslash)
        then take (Z.to_nat written) nt else []
      else [] in
    let device := DevicePrefixForDrive (nth 0 w 0) in
    let device := if negb (nonempty device) && nonempty final_nt
                  then DevicePrefixFromFinalPath final_nt else device in
    let walked := if nonempty device then ExpandWithOnDiskCasing w device else [] in
    if nonempty walked then walked
    else if nonempty device && nonempty on_disk then
      device ++ (if bool_decide (head on_disk = Some backslash) then [] else [backslash]) ++ on_disk
    else if nonempty final_nt then final_nt
    else if nonempty device && (2 <? length w)%nat then device ++ drop 2 w
    else w.

Definition ExpandFilterValue (value : string) : wstring :=
  if LooksLikeNtPathPrefix value
  then ExpandWin32ToNtDevice (drop_string (String.length kNtPathPrefix) value)
  else to_wide value.

(** What follows a hive name, without one leading backslash. *)
Definition hive_tail (n : nat) (w : wstring) : wstring :=
  match drop n w with u :: rest => if u =? backslash then rest else u :: rest | [] => [] end.

(** A root and a tail, joined by a backslash unless the tail is empty. *)
Definition under (root : string) (tail : wstring) : wstring :=
  wide root ++ (if nonempty tail then backslash :: tail else []).

Definition ExpandRegistryPath (value : string) : wstring :=
  let body := if LooksLikeNtPathPrefix value
              then drop_string (String.length kNtPathPrefix) value else value in
  let w := to_wide body in
  if prefixed (wide "\Registry\") w then w
  else if prefixed (wide "HKLM") w then under "\Registry\Machine" (hive_tail 4 w)
  else if prefixed (wide "HKEY_LOCAL_MACHINE") w then under "\Registry\Machine" (hive_tail 18 w)
  else if prefixed (wide "HKCR") w then under "\Registry\Machine\Software\Classes" (hive_tail 4 w)
  else if prefixed (wide "HKU") w then under "\Registry\User" (hive_tail 3 w)
  else if prefixed (wide "HKCU") w || prefixed (wide "HKEY_CURRENT_USER") w then
    let sid := from_option id (wide ".DEFAULT") (ps_UserSid ps) in
    let tail := if prefixed (wide "HKEY_CURRENT_USER") w then hive_tail 17 w else hive_tail 4 w in
    wide "\Registry\User\" ++ sid ++ (if nonempty tail then backslash :: tail else [])
  else w.
End Expand.

(** * Theorems *)

Lemma components_cons separator l : exists piece pieces, components separator l = piece :: pieces.
Proof.
  induction l as [|u l (p & ps & IH)]; simpl; [eauto|].
  destruct (u =? separator); [eauto|]. rewrite IH. eauto.
Qed.

(** Without a match on disk, the walk keeps the names it was given. *)
Lemma walk_unknown ps pieces current result :
  (forall p, ps_FindFirstFile ps p = None) -> Forall (fun p => p <> []) pieces ->
  walk ps pieces current result = result ++ (pieces ≫= fun p => backslash :: p).
Proof.
  intros Hno. revert current result.
  induction pieces as [|p pieces IH]; intros current result Hall; simpl; [by rewrite app_nil_r|].
  inversion Hall as [|?? Hp Hrest]; subst. destruct p as [|u p]; [done|].
  cbn [nonempty negb]. rewrite Hno, IH by done. by rewrite <- app_assoc.
Qed.

Lemma prefixed_app p l : prefixed p (p ++ l) = true.
Proof. unfold prefixed. apply bool_decide_eq_true. by rewrite take_app_length. Qed.

(** An expanded registry path is either the text as given or an absolute
    "\Registry\" path: every hive name the code knows is rewritten to its root,
    whatever its case. *)
Lemma ExpandRegistryPath_absolute ps value :
  let body := if LooksLikeNtPathPrefix value then drop_string 4 value else value in
  let out := ExpandRegistryPath ps value in
  (prefixed (wide "\Registry\") out = true /\
     (existsb (fun hive => prefixed (wide hive) (to_wide ps body))
        ["\Registry\"; "HKLM"; "HKEY_LOCAL_MACHINE"; "HKCR"; "HKU"; "HKCU"; "HKEY_CURRENT_USER"]
      = true)) \/
  (out = to_wide ps body /\
     existsb (fun hive => prefixed (wide hive) (to_wide ps body))
        ["\Registry\"; "HKLM"; "HKEY_LOCAL_MACHINE"; "HKCR"; "HKU"; "HKCU"; "HKEY_CURRENT_USER"]
      = false).
Proof.
  cbv zeta. unfold ExpandRegistryPath. change (String.length kNtPathPrefix) with 4%nat.
  set (w := to_wide ps _). cbn [existsb].
  repeat (match goal with |- context [prefixed (wide ?s) w] =>
            destruct (prefixed (wide s) w) eqn:? end; cbn [orb]);
  first [left; split; [first [assumption | reflexivity] | reflexivity]
        | right; split; reflexivity].
Qed.
