(* ===== verification/Logging.v ===== *)
(** The process-wide log (src/esptool/src/util/Log.{h,cpp}): levels, the lines written
    to the standard error stream and to an attached file. Its lock is not modelled: a
    line is written in one step. *)
From S2P Require Import Prelude.

(** [LogLevel]; [Warning] is the source's [Warn]. *)
Inductive LogLevel := Trace | Debug | Info | Warning | Error.

Definition level_value (level : LogLevel) : Z :=
  match level with Trace => 0 | Debug => 1 | Info => 2 | Warning => 3 | Error => 4 end.

Definition LevelTag (level : LogLevel) : string :=
  match level with
  | Trace => "TRACE" | Debug => "DEBUG" | Info => "INFO " | Warning => "WARN " | Error => "ERROR"
  end.

(** The level, what was written to the standard error stream and, when a file is
    attached, what was written there since. *)
Record LogState := mkLogState { lg_level : LogLevel; lg_stderr : string; lg_file : option string }.

Definition initial_log : LogState := mkLogState Info "" None.

Definition SetLevel (level : LogLevel) (g : LogState) : LogState := mkLogState level (lg_stderr g) (lg_file g).

Definition WouldLog (level : LogLevel) (g : LogState) : bool := level_value (lg_level g) <=? level_value level.

(** [WritePieces]: what one line appends. *)
Definition pieces (level : LogLevel) (message : string) : string :=
  "[" +:+ LevelTag level +:+ "] " +:+ message +:+ newline.

(** [opened]: whether the file could be opened; a file attached before is closed. *)
Definition AttachFile (opened : bool) (g : LogState) : bool * LogState :=
  (opened, mkLogState (lg_level g) (lg_stderr g) (if opened then Some "" else None)).

Definition DetachFile (g : LogState) : LogState := mkLogState (lg_level g) (lg_stderr g) None.

Definition Write (level : LogLevel) (message : string) (g : LogState) : LogState :=
  if negb (WouldLog level g) then g
  else mkLogState (lg_level g) (lg_stderr g +:+ pieces level message)
         ((fun text => text +:+ pieces level message) <$> lg_file g).

(** The lines a run hands to the log, written in order. *)
Definition write_all (lines : list (LogLevel * string)) (g : LogState) : LogState :=
  fold_left (fun g line => Write line.1 line.2 g) lines g.

(** A line is written exactly when its level is at least the current one, so asking
    [WouldLog] first changes nothing. *)
Lemma WouldLog_guard level message g :
  (if WouldLog level g then Write level message g else g) = Write level message g.
Proof. unfold Write. by destruct (WouldLog level g). Qed.

Definition kept (level : LogLevel) (lines : list (LogLevel * string)) : list (LogLevel * string) :=
  List.filter (fun line => level_value level <=? level_value line.1) lines.

Lemma string_app_assoc (a b c : string) : (a +:+ b) +:+ c = a +:+ b +:+ c.
Proof. apply chars_inj. by rewrite !chars_app, app_assoc. Qed.

Definition line_text (lines : list (LogLevel * string)) : string :=
  foldr (fun line text => pieces line.1 line.2 +:+ text) "" lines.

Lemma string_app_nil (a : string) : a +:+ "" = a.
Proof. apply chars_inj. by rewrite chars_app, app_nil_r. Qed.

(** The stream and the file get the same lines: those of the current level and above, in
    the order they were logged. *)
Lemma write_all_kept lines g :
  let text := line_text (kept (lg_level g) lines) in
  write_all lines g =
  mkLogState (lg_level g) (lg_stderr g +:+ text) ((fun t => t +:+ text) <$> lg_file g).
Proof.
  cbv zeta. revert g. induction lines as [|[level message] lines IH]; intros g.
  - destruct g as [l e [f|]]; simpl; by rewrite ?string_app_nil.
  - cbn [write_all fold_left]. fold (write_all lines). rewrite IH. cbn [fst snd]. unfold Write, WouldLog.
    cbn [kept List.filter fst]. fold (kept (lg_level g) lines).
    destruct (level_value (lg_level g) <=? level_value level); [|done]. simpl.
    destruct g as [l e [f|]]; simpl; by rewrite ?string_app_assoc.
Qed.
