(* ===== verification/Session.v ===== *)
(** The session (src/esptool/src/esp/EspSession.{h,cpp}): its state, the calls
    into espclient.dll, the connection and queue operations, and the frame lemmas
    used by the components above it. Notifications are in Pump, references and
    collections in Refs, filters in FilterBuild, rules in RuleInstall. *)
From S2P Require Import Prelude Text Core Events RuleModel MemoryView EnforceCompat Api NtPath Logging.
From coqutil Require Export Datatypes.RecordSetters.
Export TriangleBracketNotations.
Open Scope record_set.

(** ** What the library is given *)

Record NumericComparandRaw := mkNumeric { nc_comparison : Z; nc_rhs_kind : Z; nc_value : Z }.
Record BoolComparandRaw := mkBool { bc_comparison : Z; bc_rhs_kind : Z; bc_value : Z }.
Record StringComparandRaw := mkString {
  sc_comparison : Z; sc_string_kind : Z; sc_utf16_bytes : Z; sc_text : wstring
}.
Record FilePathComparandRaw := mkFilePath { fp_kind : Z; fp_string : StringComparandRaw }.
Record CollectionComparandRaw := mkCollectionComparand { cc_comparison : Z; cc_collection : handle }.
Record CollectionUpdateEntry := mkCollectionEntry {
  ce_operation : Z; ce_utf16_bytes : Z; ce_text : wstring
}.
Record CollectionIntegerUpdateEntry := mkIntegerEntry { ie_operation : Z; ie_value : Z }.
Record CollectionBinaryUpdateEntry := mkBinaryEntry {
  be_operation : Z; be_byte_count : Z; be_data : list Z
}.
Record EventModifyBlob := mkEventModify { em_count : Z; em_entries : Z }.
Record AccessMaskModification := mkAccessMask { am_mask : Z; am_flags : Z }.

(** The blobs a session keeps alive for the calls that point at them. A pointer
    stored in one of these is a number; a string is kept by value, as none is
    changed once it is stored. *)
Record Storage := mkStorage {
  path_storage : list wstring;
  file_id_storage : list (list Z);
  binary_storage : list (list Z);
  integer_entries : list CollectionIntegerUpdateEntry;
  binary_entries : list CollectionBinaryUpdateEntry;
  filter_strings : list wstring;
  filter_blobs : list StringComparandRaw;
  numeric_blobs : list NumericComparandRaw;
  bool_blobs : list BoolComparandRaw;
  file_path_blobs : list FilePathComparandRaw;
  collection_blobs : list CollectionComparandRaw;
  collection_entries : list CollectionUpdateEntry;
  event_modify_blobs : list EventModifyBlob;
  access_masks : list AccessMaskModification;
  subrule_handles : list handle;
  fo_io_configs : list blob;
  dynamic_queries : list (list Z)
}.

Definition empty_storage : Storage := mkStorage [] [] [] [] [] [] [] [] [] [] [] [] [] [] [] [] [].

(** Places whose address is written into a blob. *)
Inductive Loc :=
| LFoIoConfig (index : nat)
| LDynamicQuery (index : nat)
| LEventModify (index : nat)
| LAccessMask (index : nat)
| LSubrule (size : nat)
| LEmptySubrules
| LProcessIds | LThreadIds | LPipeIds | LFileObjectIds | LRegistryIds | LMailslotIds | LChildBind.

Inductive Arg :=
| AHandle (h : handle)
| AWord (z : Z)
| AWords (l : list Z)
| AGuid (g : Guid)
| AText (s : wstring)
| ABytes (b : blob)
| ANumeric (b : NumericComparandRaw)
| ABool (b : BoolComparandRaw)
| AString (b : StringComparandRaw)
| AFilePath (b : FilePathComparandRaw)
| ACollection (b : CollectionComparandRaw)
| ACollectionEntry (e : CollectionUpdateEntry)
| AIntegerEntry (e : CollectionIntegerUpdateEntry)
| ABinaryEntry (e : CollectionBinaryUpdateEntry)
| APath (kind byte_length : Z) (buffer : wstring)
| AFileId (kind : Z) (id : list Z)
| AContextKey (words : list Z)
| ARegister (id : Guid) (name altitude : wstring)
| ARuleDescriptor (d : blob) (s : Storage)
| ARuleEntry (operation : Z) (rule : handle).

(** A reply: the returned result, the out-slot handle or pointer (null before the
    call), the out-slot number and what an out-slot pointer leads to. *)
Record Reply := mkReply { re_result : EspResult; re_out : handle; re_count : Z; re_guids : list Guid }.

(** ** State *)

Record StepResult := mkStep { sr_step : string; sr_result : EspResult; sr_ok : bool }.

Record Session := mkSession {
  registered_this_session : bool;
  client_handle : handle;
  queue_handle : handle;
  notification : handle;
  pump_event : handle;
  client_id : Guid;
  notifications_received : Z;
  rules : list handle;
  filters : list handle;
  collections : list handle;
  named_collections : list (string * handle);
  object_refs : list handle;
  notify_queries : list (Z * QueryRecipe);
  storage : Storage;
  unregister_on_disconnect : bool;
  iocp_pump : bool;
  enforce_compat : bool;
  enforce_compat_patch_attempted : bool;
  enforce_compat_patch_ok : bool;
  enforce_compat_error : string;
  notify_fallback_pid : Z;
  notify_fallback_path : wstring;
  steps : list StepResult;
  warnings : list string
}.

Definition new_session : Session :=
  mkSession false 0 0 0 0 null_guid 0 [] [] [] [] [] [] empty_storage true false false false false ""
    0 [] [] [].

(** What happened outside the session, in order: the calls into the library with
    their arguments and replies, and writes outside a blob. *)
Inductive Event :=
| Called (export : string) (args : list Arg) (reply : Reply)
| OutOfBounds.

(** Everything the session relies on: the linked library and Windows, over a state
    [D] of their own that no code here looks into. *)
Record Env (D : Type) := mkEnv {
  env_api : EspApi;
  env_call : string -> list Arg -> D -> Reply * D;
  env_addr : Loc -> Z;
  env_paths : PathSystem;
  env_WideCharToMultiByte : wstring -> option string;
  env_CoCreateGuid : D -> (EspResult * Guid) * D;
  env_memory : D -> memory;
  env_set_memory : memory -> D -> D;
  env_hooks : D -> CompatPatchHooks;
  env_region : D -> region_query;
  env_view : D -> View;
  env_GetTickCount64 : D -> Z * D;
  env_CreateEvent : D -> handle * D;
  (** the wait result and the notifications the library's thread delivered to
      the callback meanwhile *)
  env_WaitForSingleObject : handle -> Z -> D -> (Z * list handle) * D;
  (** the OVERLAPPED of the completion, if there was one *)
  env_GetQueuedCompletionStatus : handle -> Z -> D -> option handle * D;
  env_sleep : Z -> D -> D
}.
Arguments env_api {D} e. Arguments env_call {D} e. Arguments env_addr {D} e.
Arguments env_paths {D} e. Arguments env_WideCharToMultiByte {D} e.
Arguments env_CoCreateGuid {D} e. Arguments env_memory {D} e. Arguments env_set_memory {D} e.
Arguments env_hooks {D} e. Arguments env_region {D} e. Arguments env_view {D} e.
Arguments env_GetTickCount64 {D} e. Arguments env_CreateEvent {D} e.
Arguments env_WaitForSingleObject {D} e. Arguments env_GetQueuedCompletionStatus {D} e.
Arguments env_sleep {D} e.

Record World (D : Type) := mkWorld {
  w_session : Session;
  w_driver : D;
  w_trace : list Event;
  w_log : list (LogLevel * string);
  w_out : list string
}.
Arguments mkWorld {D}. Arguments w_session {D} w. Arguments w_driver {D} w.
Arguments w_trace {D} w. Arguments w_log {D} w. Arguments w_out {D} w.

(** ** Primitives *)

Section Session.
  Context {D : Type} (env : Env D).

Local Abbreviation M := (ST (World D)).

Definition gets {A} (f : Session -> A) : M A := fun w => (f (w_session w), w).

Definition update (f : Session -> Session) : M unit :=
  fun w => (tt, mkWorld (f (w_session w)) (w_driver w) (w_trace w) (w_log w) (w_out w)).

Definition update_storage (f : Storage -> Storage) : M unit :=
  update (fun s => s <| storage ::= f |>).

Definition system {A} (f : D -> A * D) : M A :=
  fun w => let '(a, d) := f (w_driver w) in (a, mkWorld (w_session w) d (w_trace w) (w_log w) (w_out w)).

Definition emit (e : Event) : M unit :=
  fun w => (tt, mkWorld (w_session w) (w_driver w) (w_trace w ++ [e]) (w_log w) (w_out w)).

Definition Log (level : LogLevel) (line : string) : M unit :=
  fun w => (tt, mkWorld (w_session w) (w_driver w) (w_trace w) (w_log w ++ [(level, line)]) (w_out w)).

(** A line on the standard output. *)
Definition printf (line : string) : M unit :=
  fun w => (tt, mkWorld (w_session w) (w_driver w) (w_trace w) (w_log w) (w_out w ++ [line])).

Definition LogInfo : string -> M unit := Log Info.

(** A call through an export's address. *)
Definition Call (export : string) (args : list Arg) : M Reply :=
  reply ← system (env_call env export args);
  emit (Called export args reply);; mret reply.

(** The value of a bounds-checked write; a failed one is noted in the trace. *)
Definition checked {A} (o : option A) (default : A) : M A :=
  match o with Some a => mret a | None => emit OutOfBounds;; mret default end.

Definition RecordStep (step : string) (result : EspResult) (ok : option bool) : M unit :=
  update (fun s => s <| steps ::= fun l => l ++ [mkStep step result (from_option id (Succeeded result) ok)] |>).

Definition Warn (message : string) : M unit :=
  update (fun s => s <| warnings ::= fun l => l ++ [message] |>).

(** [Require] and [RequireTyped]: whether the export can be called. *)
Definition Require (name : string) : M bool :=
  if available (env_api env) name then mret true
  else Warn ("export not available: " +:+ name);; mret false.

(** [Adopt]: makes the call, records it under [step] and keeps a non-null handle
    of a call that did not fail. *)
Definition Adopt (step : string) (args : list Arg) : M (option handle) :=
  reply ← Call step args;
  RecordStep step (re_result reply) None;;
  mret (if Failed (re_result reply) || negb (handle_ok (re_out reply)) then None
        else Some (re_out reply)).

Definition from_slot (h : option handle) : handle := from_option id 0 h.

(** A call whose result is recorded and decides the outcome. *)
Definition Checked (step : string) (args : list Arg) : M (bool * Reply) :=
  reply ← Call step args;
  RecordStep step (re_result reply) None;;
  mret (Succeeded (re_result reply), reply).

Definition FreeEspBuffer (buffer : handle) : M unit :=
  if negb (handle_ok buffer) then mret tt
  else ok ← Require "EspFreeMemory";
       if (ok : bool) then _ ← Call "EspFreeMemory" [AWord buffer]; mret tt else mret tt.

(** [CloseOne] without the reset of the slot. *)
Definition CloseHandle (closer : string) (h : handle) : M unit :=
  if negb (handle_ok h) then mret tt
  else ok ← Require closer;
       if (ok : bool) then _ ← Call closer [AHandle h]; mret tt else mret tt.

Fixpoint CloseOwned (closer : string) (handles : list handle) : M unit :=
  match handles with
  | [] => mret tt
  | h :: rest => CloseHandle closer h;; CloseOwned closer rest
  end.

(** ** Connection *)

(** [0x%08x]. *)
Definition hex_result (result : EspResult) : string := "0x" +:+ of_chars (hex_lower_fixed 8 (u32 result)).

Definition dec_wide (z : Z) : wstring := wide (dec z).

Definition altitude_base (altitude : string) : Z :=
  if is_empty altitude then kDefaultClientAltitudeValue
  else match ParseUnsigned altitude with
       | Some parsed => if negb (parsed =? 0) && (parsed <=? u32_max) then parsed
                        else kDefaultClientAltitudeValue
       | None => kDefaultClientAltitudeValue
       end.

(** The altitude of an attempt, in 32-bit arithmetic. *)
Definition attempt_altitude (base : Z) (attempt : nat) : Z :=
  if (attempt =? 0)%nat then base
  else u32 ((if base =? 0 then kDefaultClientAltitudeValue else base) +
            Z.of_nat attempt * kAltitudeCollisionStep).

(** The registration loop: [remaining] attempts are left. *)
Fixpoint register_attempts (id : Guid) (name : wstring) (base : Z) (attempt remaining : nat)
    (register_result : EspResult) : M EspResult :=
  match remaining with
  | O => mret register_result
  | S remaining' =>
      reply ← Call "EspRegisterClient" [ARegister id name (dec_wide (attempt_altitude base attempt))];
      if re_result reply =? kOk then mret (re_result reply)
      else if negb (re_result reply =? kAlreadyExists) then mret (re_result reply)
      else
        Log Debug ("EspRegisterClient: collision at altitude " +:+
                   ToUtf8 (env_WideCharToMultiByte env) (dec_wide (attempt_altitude base attempt)) +:+ ", retrying with bump");;
        register_attempts id name base (S attempt) remaining' (re_result reply)
  end.

Definition UnregisterIfOwned : M unit :=
  registered ← gets registered_this_session; unregister ← gets unregister_on_disconnect;
  if negb registered || negb unregister then mret tt
  else
    ok ← Require "EspUnregisterClient";
    (if (ok : bool) then
       id ← gets client_id;
       reply ← Call "EspUnregisterClient" [AGuid id];
       RecordStep "EspUnregisterClient" (re_result reply) None
     else mret tt);;
    update (fun s => s <| registered_this_session := false |>).

Definition connect_client : M bool :=
  id ← gets client_id;
  h ← Adopt "EspConnectClient" [AGuid id];
  update (fun s => s <| client_handle := from_slot h |>);;
  mret (match h with Some _ => true | None => false end).

Definition Connect (client : ClientSpec) : M bool :=
  connect_fn ← Require "EspConnectClient"; register_fn ← Require "EspRegisterClient";
  if negb connect_fn || negb register_fn then mret false
  else
    update (fun s => s <| client_id := cl_guid client |>);;
    generated ← (if IsNull (cl_guid client) then
                   '(hr, guid) ← system (env_CoCreateGuid env);
                   if Failed hr then
                     RecordStep "EspConnectClient" hr None;;
                     Warn "could not generate a client GUID";; mret false
                   else update (fun s => s <| client_id := guid |>);; mret true
                 else mret true);
    if negb generated then mret false
    else
      id ← gets client_id;
      let name := to_wide (env_paths env)
                    (if is_empty (cl_name client) then kDefaultClientName else cl_name client) in
      register_result ← register_attempts id name (altitude_base (cl_altitude client)) 0
                          kAltitudeCollisionTries kFail;
      RecordStep "EspRegisterClient" register_result None;;
      if negb (register_result =? kOk) then mret false
      else
        update (fun s => s <| registered_this_session := true |>);;
        connected ← connect_client;
        if (connected : bool) then mret true else UnregisterIfOwned;; mret false.

Definition ConnectExisting (id : Guid) : M bool :=
  connect_fn ← Require "EspConnectClient";
  if negb connect_fn || IsNull id then mret false
  else
    update (fun s => s <| client_id := id |> <| registered_this_session := false |>);;
    connect_client.

Definition CloseQueue : M unit :=
  queue ← gets queue_handle;
  CloseHandle "EspCloseEventQueue" queue;;
  update (fun s => s <| queue_handle := 0 |>).

Definition clear_storage (s : Storage) : Storage :=
  s <| fo_io_configs := [] |> <| numeric_blobs := [] |> <| bool_blobs := [] |>
    <| file_path_blobs := [] |> <| filter_blobs := [] |> <| filter_strings := [] |>
    <| collection_blobs := [] |> <| collection_entries := [] |> <| event_modify_blobs := [] |>
    <| access_masks := [] |> <| subrule_handles := [] |>.

Definition Disconnect : M unit :=
  n ← gets notification;
  (if handle_ok n then
     ok ← Require "EspFreeEventNotification";
     (if (ok : bool) then _ ← Call "EspFreeEventNotification" [AWord n]; mret tt else mret tt);;
     update (fun s => s <| notification := 0 |>)
   else mret tt);;
  l ← gets filters; CloseOwned "EspCloseFilter" l;; update (fun s => s <| filters := [] |>);;
  l ← gets rules; CloseOwned "EspCloseRule" l;; update (fun s => s <| rules := [] |>);;
  l ← gets object_refs; CloseOwned "EspCloseEventObjectReference" l;;
  update (fun s => s <| object_refs := [] |>);;
  l ← gets collections; CloseOwned "EspCloseCollection" l;;
  update (fun s => s <| collections := [] |> <| named_collections := [] |> <| notify_queries := [] |>);;
  CloseQueue;;
  client ← gets client_handle; CloseHandle "EspDisconnectClient" client;;
  update (fun s => s <| client_handle := 0 |>);;
  update_storage clear_storage;;
  UnregisterIfOwned.

(** ** Queue *)

(** [EventQueueDescriptor{}]: a null id and the four accepted words. *)
Definition queue_descriptor : list Z := null_guid ++ le_bytes 4 1 ++ le_bytes 4 1 ++ le_bytes 4 0 ++ le_bytes 4 1.

Definition adopt_queue (export : string) (arg : Arg) : M bool :=
  ok ← Require export; client ← gets client_handle;
  if negb ok || negb (handle_ok client) then mret false
  else
    h ← Adopt export [AHandle client; arg];
    update (fun s => s <| queue_handle := from_slot h |>);;
    mret (match h with Some _ => true | None => false end).

Definition CreateQueue : M bool := adopt_queue "EspCreateEventQueue" (ABytes queue_descriptor).
Definition OpenQueue (queue_id : Guid) : M bool := adopt_queue "EspOpenEventQueue" (AGuid queue_id).
Definition OpenQueueById (queue_id : Guid) : M bool := OpenQueue queue_id.

(** A recorded call on the queue, when there is one; likewise on the client. *)
Definition on_queue (export : string) (args : list Arg) : M (option (bool * Reply)) :=
  ok ← Require export; queue ← gets queue_handle;
  if negb ok || negb (handle_ok queue) then mret None
  else r ← Checked export (AHandle queue :: args); mret (Some r).

Definition on_client (export : string) (args : list Arg) : M (option (bool * Reply)) :=
  ok ← Require export; client ← gets client_handle;
  if negb ok || negb (handle_ok client) then mret None
  else r ← Checked export (AHandle client :: args); mret (Some r).

Definition succeeded (r : option (bool * Reply)) : bool :=
  match r with Some (ok, _) => ok | None => false end.

Definition reply_count (r : option (bool * Reply)) : Z :=
  match r with Some (_, reply) => re_count reply | None => 0 end.

Definition ConnectQueueToIocp (completion_port : handle) : M bool :=
  r ← on_queue "EspConnectEventQueueWithIocp" [AWord completion_port]; mret (succeeded r).

(** The outcome and the port. *)
Definition CreateIocpQueue : M (bool * handle) :=
  r ← on_queue "EspConnectEventQueueWithIocp" [AWord 0];
  mret (match r with
        | Some (ok, reply) => (ok && handle_ok (re_out reply), re_out reply)
        | None => (false, 0)
        end).

(** The callback and its context, the session itself, are fixed addresses. *)
Definition ConnectQueueToCallback : M bool :=
  r ← on_queue "EspConnectEventQueueWithCallback" [AWord 0]; mret (succeeded r).

Definition ClearQueue : M bool := r ← on_queue "EspClearEventQueue" []; mret (succeeded r).

Definition GetQueueId : M (bool * list Guid) :=
  r ← on_queue "EspGetEventQueueId" [];
  mret (match r with Some (ok, reply) => (ok, re_guids reply) | None => (false, []) end).

Definition ArmNotification : M bool :=
  allocate_fn ← Require "EspAllocateEventNotification"; arm_fn ← Require "EspArmEventNotification";
  queue ← gets queue_handle;
  if negb allocate_fn || negb arm_fn || negb (handle_ok queue) then mret false
  else
    n ← gets notification;
    allocated ← (if handle_ok n then mret true
                 else
                   reply ← Call "EspAllocateEventNotification" [];
                   if negb (handle_ok (re_out reply)) then
                     RecordStep "EspAllocateEventNotification" kOutOfMemory None;; mret false
                   else
                     update (fun s => s <| notification := re_out reply |>);;
                     RecordStep "EspAllocateEventNotification" kOk None;; mret true);
    if negb allocated then mret false
    else
      n ← gets notification;
      reply ← Call "EspArmEventNotification" [AHandle queue; AWord n];
      let armed := Succeeded (re_result reply) || (re_result reply =? kIoPending) in
      RecordStep "EspArmEventNotification" (re_result reply) (Some armed);;
      mret armed.

Definition CompleteNotification : M bool :=
  ok ← Require "EspCompleteEventNotification"; n ← gets notification;
  if negb ok || negb (handle_ok n) then mret false
  else '(ok, _) ← Checked "EspCompleteEventNotification" [AWord n]; mret ok.

(** ** Enumeration and removal *)

(** The outcome, the count and the identifiers behind the list pointer. *)
Definition EnumerateClients : M (bool * Z * list Guid) :=
  ok ← Require "EspEnumerateRegisteredClients";
  if negb ok then mret (false, 0, [])
  else
    '(ok, reply) ← Checked "EspEnumerateRegisteredClients" [];
    mret (ok, re_count reply,
          if ok && (0 <? re_count reply) && handle_ok (re_out reply)
          then take (Z.to_nat (re_count reply)) (re_guids reply) else []).

Definition UnregisterClientId (id : Guid) : M bool :=
  ok ← Require "EspUnregisterClient";
  if negb ok then mret false
  else '(ok, _) ← Checked "EspUnregisterClient" [AGuid id]; mret ok.

Definition EnumerateRuleIds (lifetime : Z) : M (bool * Z) :=
  r ← on_client "EspEnumerateRuleIds" [AWord lifetime]; mret (succeeded r, reply_count r).

Definition EnumerateAllRules : M (bool * Z) :=
  r ← on_client "EspEnumerateAllRulesForClient" []; mret (succeeded r, reply_count r).

Definition RemoveAllRules : M bool :=
  r ← on_client "EspRemoveAllRulesForClient" []; mret (succeeded r).

Definition RemoveRulesForLifetime (lifetime : Z) : M bool :=
  r ← on_client "EspRemoveRulesForClient" [AWord lifetime]; mret (succeeded r).

(** [EspApi::Invoke]: an unresolved export is 0 without a call. *)
Definition Invoke (descriptor : ExportDescriptor) (arguments : list Z) : M Z :=
  if is_resolved descriptor then
    reply ← Call (ed_name descriptor) (AWord <$> arguments); mret (re_result reply)
  else mret 0.

Definition CallRaw (descriptor : ExportDescriptor) (arguments : list Z) : M EspResult :=
  result ← Invoke descriptor arguments;
  RecordStep ("call:" +:+ ed_name descriptor) (i32 result) None;;
  mret (i32 result).

(** The queries of [QueryAllProperties], and whether one was made. *)
Fixpoint query_exports_of (names : list string) (any : bool) : M bool :=
  match names with
  | [] => mret any
  | name :: rest =>
      ok ← Require name;
      if negb ok then query_exports_of rest any
      else
        client ← gets client_handle;
        '(_, reply) ← Checked name [AHandle client; AWord 0];
        printf ("query-smoke " +:+ name +:+ " " +:+ hex_result (re_result reply) +:+ " (count 0, client handle)");;
        FreeEspBuffer (re_out reply);;
        query_exports_of rest true
  end.

Definition QueryAllProperties : M bool := query_exports_of kPropertyQueryExports false.

Definition ExerciseContextKeys : M bool :=
  set_key ← Require "EspSetClientContextKey";
  enumerate ← Require "EspEnumerateAllClientContextKeys";
  if negb set_key || negb enumerate then mret false
  else
    client ← gets client_handle;
    Checked "EspSetClientContextKey" [AHandle client; AWords (replicate kContextKeyDwords 0)];;
    Checked "EspEnumerateAllClientContextKeys" [AHandle client];;
    mret true.
End Session.

(** * Theorems *)

(** The calls of a trace, without their replies. *)
Definition call_of (e : Event) : option (string * list Arg) :=
  match e with Called export args _ => Some (export, args) | OutOfBounds => None end.

Definition calls {D} (w : World D) : list (string * list Arg) := omap call_of (w_trace w).

(** Runs the primitive operations of a goal. *)
Ltac run :=
  repeat first [rewrite st_bind_unfold
               | progress cbn [fst snd w_session w_driver w_trace w_log w_out
                   gets update update_storage emit Log LogInfo printf mret st_ret]].

(** A part of the session that the bookkeeping of steps and warnings leaves alone. *)
Class Quiet {A} (f : Session -> A) : Prop := {
  quiet_steps s l : f (s <| steps := l |>) = f s;
  quiet_warnings s l : f (s <| warnings := l |>) = f s
}.

Section Primitives.
  Context {D : Type} (env : Env D).
  Implicit Types (w : World D) (s : Session).

(** The world with one more warning, unless the export is there. *)
Definition warned (name : string) w : World D :=
  if available (env_api env) name then w
  else mkWorld ((w_session w) <| warnings ::= fun l => l ++ ["export not available: " +:+ name] |>)
         (w_driver w) (w_trace w) (w_log w) (w_out w).

Lemma Require_run name w : Require env name w = (available (env_api env) name, warned name w).
Proof. unfold Require, warned. by destruct (available _ _). Qed.

Lemma warned_available name w : available (env_api env) name = true -> warned name w = w.
Proof. unfold warned. by intros ->. Qed.

Lemma warned_quiet {A} (f : Session -> A) `{!Quiet f} name w :
  f (w_session (warned name w)) = f (w_session w).
Proof. unfold warned. destruct (available _ _); [done|]. cbn. apply quiet_warnings. Qed.

Lemma warned_trace name w : w_trace (warned name w) = w_trace w.
Proof. unfold warned. by destruct (available _ _). Qed.

Lemma warned_driver name w : w_driver (warned name w) = w_driver w.
Proof. unfold warned. by destruct (available _ _). Qed.

Lemma warned_calls name w : calls (warned name w) = calls w.
Proof. unfold calls. by rewrite warned_trace. Qed.

(** The reply of a call and the world after it. *)
Definition reply_of (export : string) (args : list Arg) w : Reply :=
  (env_call env export args (w_driver w)).1.

Definition called (export : string) (args : list Arg) w : World D :=
  mkWorld (w_session w) (env_call env export args (w_driver w)).2
    (w_trace w ++ [Called export args (reply_of export args w)]) (w_log w) (w_out w).

Lemma Call_run export args w :
  Call env export args w = (reply_of export args w, called export args w).
Proof. unfold Call, called, reply_of. run. unfold system. by destruct (env_call _ _ _ _). Qed.

Lemma called_calls export args w : calls (called export args w) = calls w ++ [(export, args)].
Proof. unfold calls, called. cbn. by rewrite omap_app. Qed.

(** *** Frames *)

(** The events that are calls of the allowed exports. *)
Definition event_allowed (allowed : string -> bool) (e : Event) : Prop :=
  match e with Called export _ _ => allowed export = true | OutOfBounds => False end.

Section Frame.
  Context (may : Event -> Prop) {T} (keep : Session -> T) `{!Quiet keep}.

(** Only such events happened, and [keep] is as it was. *)
Definition framed w w' : Prop :=
  (exists new, w_trace w' = w_trace w ++ new /\ Forall may new) /\
  keep (w_session w') = keep (w_session w).

#[export] Instance framed_preorder : PreOrder framed.
Proof.
  split.
  - intros w. split; [|done]. exists []. by rewrite app_nil_r.
  - intros w1 w2 w3 [(n1 & H1 & F1) K1] [(n2 & H2 & F2) K2]. split; [|congruence].
    exists (n1 ++ n2). rewrite H2, H1, app_assoc. split; [done|]. by apply Forall_app.
Qed.

(** A computation that stays within the frame. *)
Definition frames {A} (m : ST (World D) A) : Prop := forall w, framed w (m w).2.

Lemma frames_bind {A B} (m : ST (World D) A) (f : A -> ST (World D) B) :
  frames m -> (forall a, frames (f a)) -> frames (m ≫= f).
Proof. intros Hm Hf w. rewrite st_bind_unfold. etransitivity; [apply Hm|apply Hf]. Qed.

Lemma frames_ret {A} (a : A) : frames (mret a).
Proof. intros w. reflexivity. Qed.

Lemma frames_gets {A} (f : Session -> A) : frames (gets f).
Proof. intros w. reflexivity. Qed.

Lemma frames_system {A} (f : D -> A * D) : frames (system f).
Proof.
  intros w. unfold system. destruct (f _). split; [|done]. exists []. by rewrite app_nil_r.
Qed.

Lemma frames_log level line : frames (Log level line).
Proof. intros w. split; [|done]. exists []. by rewrite app_nil_r. Qed.

Lemma frames_printf line : frames (printf line).
Proof. intros w. split; [|done]. exists []. by rewrite app_nil_r. Qed.

Lemma frames_update f : (forall s, keep (f s) = keep s) -> frames (update f).
Proof. intros Hf w. split; [|apply Hf]. exists []. by rewrite app_nil_r. Qed.

Lemma frames_step step result ok : frames (RecordStep step result ok).
Proof. apply frames_update. intros s. apply quiet_steps. Qed.

Lemma frames_warn message : frames (Warn message).
Proof. apply frames_update. intros s. apply quiet_warnings. Qed.

Lemma frames_require name : frames (Require env name).
Proof.
  unfold Require. destruct (available _ _); [apply frames_ret|].
  apply frames_bind; [apply frames_warn|intros; apply frames_ret].
Qed.

Lemma frames_call export args :
  (forall reply, may (Called export args reply)) -> frames (Call env export args).
Proof.
  intros H w. rewrite Call_run. split; [|done]. eexists. split; [done|]. by apply Forall_singleton.
Qed.

Lemma frames_emit e : may e -> frames (emit e).
Proof. intros H w. split; [|done]. eexists. split; [done|]. by apply Forall_singleton. Qed.

Lemma frames_checked {A} (o : option A) default : is_Some o -> frames (checked o default).
Proof. intros [a ->]. apply frames_ret. Qed.

Lemma frames_checked_any {A} (o : option A) default : may OutOfBounds -> frames (checked o default).
Proof.
  intros H. destruct o; [apply frames_ret|]. apply frames_bind; [by apply frames_emit|intros; apply frames_ret].
Qed.

Lemma frames_adopt export args :
  (forall reply, may (Called export args reply)) -> frames (Adopt env export args).
Proof.
  intros H. apply frames_bind; [by apply frames_call|]. intros.
  apply frames_bind; [apply frames_step|]. intros. apply frames_ret.
Qed.

Lemma frames_Checked export args :
  (forall reply, may (Called export args reply)) -> frames (Checked env export args).
Proof.
  intros H. apply frames_bind; [by apply frames_call|]. intros.
  apply frames_bind; [apply frames_step|]. intros. apply frames_ret.
Qed.
End Frame.
End Primitives.

(** Walks through a computation and leaves the obligations on its calls, updates
    and bounds-checked writes. *)
Ltac frame_step :=
  lazymatch goal with
  | |- frames _ _ (mbind _ _) => apply frames_bind; [|intro]
  | |- frames _ _ (mret _) => apply frames_ret
  | |- frames _ _ (gets _) => apply frames_gets
  | |- frames _ _ (system _) => apply frames_system
  | |- frames _ _ (Log _ _) => apply frames_log
  | |- frames _ _ (LogInfo _) => apply frames_log
  | |- frames _ _ (printf _) => apply frames_printf
  | |- frames _ _ (RecordStep _ _ _) => apply frames_step; try exact _
  | |- frames _ _ (Warn _) => apply frames_warn; try exact _
  | |- frames _ _ (Require _ _) => apply frames_require; try exact _
  | |- frames _ _ (Call _ _ _) => apply frames_call; intro; try exact eq_refl
  | |- frames _ _ (Adopt _ _ _) => apply frames_adopt; [exact _|intro; try exact eq_refl]
  | |- frames _ _ (Checked _ _ _) => apply frames_Checked; [exact _|intro; try exact eq_refl]
  | |- frames _ _ (update_storage _) => apply frames_update; try (intros; reflexivity)
  | |- frames _ _ (update _) => apply frames_update; try (intros; reflexivity)
  | |- frames _ _ (if ?b then _ else _) => destruct b
  | |- frames _ _ (match ?x with _ => _ end) => destruct x
  | |- frames _ _ (let _ := _ in _) => cbv zeta
  end.

Ltac frame := repeat first [frame_step | progress intros | progress cbn beta iota].

#[export] Instance rules_quiet : Quiet rules. Proof. by split. Qed.
#[export] Instance client_handle_quiet : Quiet client_handle. Proof. by split. Qed.
#[export] Instance queue_handle_quiet : Quiet queue_handle. Proof. by split. Qed.
#[export] Instance client_id_quiet : Quiet client_id. Proof. by split. Qed.
#[export] Instance registered_quiet : Quiet registered_this_session. Proof. by split. Qed.
#[export] Instance unregister_quiet : Quiet unregister_on_disconnect. Proof. by split. Qed.
#[export] Instance notification_quiet : Quiet notification. Proof. by split. Qed.
#[export] Instance filters_quiet : Quiet filters. Proof. by split. Qed.
#[export] Instance object_refs_quiet : Quiet object_refs. Proof. by split. Qed.
#[export] Instance collections_quiet : Quiet collections. Proof. by split. Qed.
#[export] Instance storage_quiet : Quiet storage. Proof. by split. Qed.

Section Connection.
  Context {D : Type} (env : Env D).
  Implicit Types (w : World D) (s : Session).

(** *** Registration *)

Definition registration (id : Guid) (name : wstring) (base : Z) (attempt : nat) (r : Reply) : Event :=
  Called "EspRegisterClient" [ARegister id name (dec_wide (attempt_altitude base attempt))] r.

Lemma register_attempts_run id name base attempt remaining r0 w :
  exists replies, (length replies <= remaining)%nat /\ (remaining <> 0%nat -> replies <> []) /\
  let '(r, w') := register_attempts env id name base attempt remaining r0 w in
  w_trace w' = w_trace w ++ imap (fun i => registration id name base (attempt + i)%nat) replies /\
  w_session w' = w_session w /\
  r = from_option re_result r0 (last replies) /\
  (forall i reply, replies !! i = Some reply -> (S i < length replies)%nat ->
     re_result reply = kAlreadyExists) /\
  ((length replies < remaining)%nat -> r <> kAlreadyExists).
Proof.
  revert attempt r0 w. induction remaining as [|remaining IH]; intros attempt r0 w.
  { exists []. simpl. rewrite app_nil_r. naive_solver lia. }
  cbn [register_attempts]. rewrite st_bind_unfold, Call_run. cbn [fst snd].
  set (r := reply_of _ _ _ _). set (w1 := called _ _ _ _).
  assert (forall x, x = (re_result r, w1) ->
    re_result r <> kAlreadyExists ->
    exists replies, (length replies <= S remaining)%nat /\ (S remaining <> 0%nat -> replies <> []) /\
    let '(r', w') := x in
    w_trace w' = w_trace w ++ imap (fun i => registration id name base (attempt + i)%nat) replies /\
    w_session w' = w_session w /\ r' = from_option re_result r0 (last replies) /\
    (forall i reply, replies !! i = Some reply -> (S i < length replies)%nat ->
       re_result reply = kAlreadyExists) /\
    ((length replies < S remaining)%nat -> r' <> kAlreadyExists)) as Hstop.
  { intros ? -> Hr. exists [r]. split; [simpl; lia|]. split; [done|]. cbn.
    rewrite Nat.add_0_r. repeat split; [|done]. intros i reply _ ?. lia. }
  destruct (re_result r =? kOk) eqn:Eok.
  { apply Hstop; [done|]. apply Z.eqb_eq in Eok. rewrite Eok. done. }
  destruct (re_result r =? kAlreadyExists) eqn:Eex; cbn [negb];
    [|apply Hstop; [done|by apply Z.eqb_neq]].
  rewrite st_bind_unfold. set (w2 := (Log _ _ w1).2).
  destruct (IH (S attempt) (re_result r) w2) as (replies & Hlen & Hne & Hrun).
  exists (r :: replies). split; [simpl; lia|]. split; [done|].
  destruct (register_attempts _ _ _ _ _ _ _ _) as [r' w'].
  destruct Hrun as (Ht & Hs & Hr & Hall & Hlt). repeat split.
  - rewrite Ht. unfold w2, w1, called. cbn [Log snd w_trace imap]. rewrite Nat.add_0_r, <- app_assoc. simpl.
    do 2 f_equal. apply imap_ext. intros i x _. cbn. by rewrite Nat.add_succ_r.
  - by rewrite Hs.
  - rewrite Hr, last_cons. by destruct (last replies).
  - intros [|i] reply; cbn; [|intros Hi Hl; apply (Hall i); [done|lia]].
    intros [= <-] _. by apply Z.eqb_eq.
  - cbn. intros. apply Hlt. lia.
Qed.

(** A run of registrations: at most 32, each but the last one a collision, and the
    last one no collision unless all attempts were used. *)
Definition registrations (id : Guid) (name : wstring) (base : Z) (events : list Event) (r : EspResult)
    : Prop :=
  exists replies, events = imap (fun i => registration id name base i) replies /\
    (0 < length replies <= kAltitudeCollisionTries)%nat /\ from_option re_result 0 (last replies) = r /\
    (forall i reply, replies !! i = Some reply -> (S i < length replies)%nat ->
       re_result reply = kAlreadyExists) /\
    ((length replies < kAltitudeCollisionTries)%nat -> r <> kAlreadyExists).

(** What [Connect] may do with the library. *)
Inductive connect_run (client : ClientSpec) (unregister : bool) (id : Guid) : bool -> list Event -> Prop :=
| connect_not_started : connect_run client unregister id false []
| connect_refused name r events :
    registrations id name (altitude_base (cl_altitude client)) events r -> r <> kOk ->
    connect_run client unregister id false events
| connect_open name events reply :
    registrations id name (altitude_base (cl_altitude client)) events kOk ->
    Succeeded (re_result reply) = true -> handle_ok (re_out reply) = true ->
    connect_run client unregister id true (events ++ [Called "EspConnectClient" [AGuid id] reply])
| connect_undone name events reply undo :
    registrations id name (altitude_base (cl_altitude client)) events kOk ->
    Succeeded (re_result reply) && handle_ok (re_out reply) = false ->
    (if unregister && available (env_api env) "EspUnregisterClient"
     then exists r, undo = [Called "EspUnregisterClient" [AGuid id] r] else undo = []) ->
    connect_run client unregister id false
      (events ++ [Called "EspConnectClient" [AGuid id] reply] ++ undo).

Lemma connect_client_run w :
  let reply := reply_of env "EspConnectClient" [AGuid (client_id (w_session w))] w in
  let ok := Succeeded (re_result reply) && handle_ok (re_out reply) in
  let '(connected, w') := connect_client env w in
  connected = ok /\
  w_trace w' = w_trace w ++ [Called "EspConnectClient" [AGuid (client_id (w_session w))] reply] /\
  client_handle (w_session w') = (if ok then re_out reply else 0) /\
  registered_this_session (w_session w') = registered_this_session (w_session w) /\
  unregister_on_disconnect (w_session w') = unregister_on_disconnect (w_session w) /\
  client_id (w_session w') = client_id (w_session w).
Proof.
  cbv zeta. unfold connect_client, Adopt. run. rewrite Call_run. run.
  rewrite Failed_Succeeded. destruct (Succeeded _); cbn; [|done].
  by destruct (handle_ok _).
Qed.

Lemma UnregisterIfOwned_run w :
  let s := w_session w in let w' := (UnregisterIfOwned env w).2 in
  registered_this_session (w_session w') = registered_this_session s && negb (unregister_on_disconnect s) /\
  exists undo, w_trace w' = w_trace w ++ undo /\
  (if registered_this_session s && unregister_on_disconnect s &&
      available (env_api env) "EspUnregisterClient"
   then exists r, undo = [Called "EspUnregisterClient" [AGuid (client_id s)] r] else undo = []).
Proof.
  cbv zeta. unfold UnregisterIfOwned. run.
  destruct (registered_this_session (w_session w)) eqn:Er; cbn [negb orb andb].
  2:{ run. split; [done|]. exists []. by rewrite app_nil_r. }
  destruct (unregister_on_disconnect (w_session w)) eqn:Eu; cbn [negb orb andb].
  2:{ run. split; [done|]. exists []. by rewrite app_nil_r. }
  run. rewrite Require_run. run.
  destruct (available _ _) eqn:Ea.
  - unfold RecordStep. run. rewrite Call_run. run. rewrite warned_available by done. split; [done|].
    eexists. split; [done|]. by eexists.
  - run. split; [done|]. exists []. by rewrite warned_trace, app_nil_r.
Qed.

Definition outcome (client : ClientSpec) w (ok : bool) (id : Guid) w' : Prop :=
  (ok = true -> handle_ok (client_handle (w_session w')) = true /\
     registered_this_session (w_session w') = true /\ client_id (w_session w') = id) /\
  (ok = false -> registered_this_session (w_session w') = true ->
     registered_this_session (w_session w) = true \/ unregister_on_disconnect (w_session w) = false).

(** The part of [Connect] after the identity was chosen. *)
Lemma register_and_connect client name w :
  let id := client_id (w_session w) in
  let '(r, w1) := register_attempts env id name (altitude_base (cl_altitude client)) 0
                    kAltitudeCollisionTries kFail w in
  let '(ok, w') :=
    (RecordStep "EspRegisterClient" r None;;
     if negb (r =? kOk) then mret false
     else
       update (fun s => s <| registered_this_session := true |>);;
       connected ← connect_client env;
       if (connected : bool) then mret true else UnregisterIfOwned env;; mret false) w1 in
  exists new, w_trace w' = w_trace w ++ new /\
    connect_run client (unregister_on_disconnect (w_session w)) id ok new /\ outcome client w ok id w'.
Proof.
  cbv zeta. set (id := client_id _).
  destruct (register_attempts_run id name (altitude_base (cl_altitude client)) 0
              kAltitudeCollisionTries kFail w) as (replies & Hlen & Hne & Hrun).
  destruct (register_attempts _ _ _ _ _ _ _ _) as [r w1].
  destruct Hrun as (Ht & Hs & Hr & Hall & Hlt).
  set (events := imap _ replies) in Ht.
  assert (registrations id name (altitude_base (cl_altitude client)) events r) as Hreg.
  { exists replies. specialize (Hne ltac:(done)). split; [done|]. split; [split; [destruct replies; [done|simpl; lia]|done]|].
    split; [|done]. destruct (last replies) eqn:El; [by rewrite Hr|].
    by apply last_None in El. }
  rewrite st_bind_unfold. cbn [RecordStep update fst snd].
  destruct (r =? kOk) eqn:Eok; cbn [negb].
  2:{ apply Z.eqb_neq in Eok. cbn. exists events. split; [done|]. split.
      - by eapply connect_refused.
      - split; [done|]. rewrite Hs. by left. }
  apply Z.eqb_eq in Eok. subst r. rewrite Eok in Hreg.
  rewrite st_bind_unfold. cbn [update fst snd].
  set (w2 := mkWorld _ _ _ _ _).
  pose proof (connect_client_run w2) as Hc. cbv zeta in Hc.
  rewrite st_bind_unfold. destruct (connect_client env w2) as [connected w3]. cbn [fst snd].
  set (reply := reply_of _ _ _ _) in Hc. destruct Hc as (-> & Ht3 & Hh & Hreg3 & Hun3 & Hid3).
  assert (client_id (w_session w2) = id) as Hid by (cbn; by rewrite Hs).
  assert (unregister_on_disconnect (w_session w2) = unregister_on_disconnect (w_session w)) as Hun
    by (cbn; by rewrite Hs).
  cbn [w_trace w2] in Ht3. rewrite Hid in *. rewrite Ht in Ht3.
  destruct (Succeeded (re_result reply) && handle_ok (re_out reply)) eqn:Econn.
  - cbn. eexists. rewrite Ht3, <- app_assoc. split; [done|]. split.
    + apply andb_true_iff in Econn as [? ?]. by eapply connect_open.
    + split; [|done]. intros _. rewrite Hh, Hreg3. apply andb_true_iff in Econn as [? ?]. done.
  - rewrite st_bind_unfold. pose proof (UnregisterIfOwned_run w3) as [Hr3 (undo & Hu & Hundo)].
    rewrite Hreg3, Hun3, Hun, Hid3 in *. cbn [registered_this_session w_session w2] in *.
    exists (events ++ [Called "EspConnectClient" [AGuid id] reply] ++ undo). split.
    { cbn. by rewrite Hu, Ht3, <- !app_assoc. }
    split; [by eapply connect_undone|]. split; [done|]. intros _. cbn. rewrite Hr3. cbn.
    intros ?%negb_true_iff. by right.
Qed.

Lemma Connect_run client w :
  let '(ok, w') := Connect env client w in
  exists id new, w_trace w' = w_trace w ++ new /\
    (IsNull (cl_guid client) = false -> new <> [] -> id = cl_guid client) /\
    connect_run client (unregister_on_disconnect (w_session w)) id ok new /\
    outcome client w ok id w'.
Proof.
  unfold Connect. rewrite st_bind_unfold, Require_run. cbn [fst snd].
  rewrite st_bind_unfold, Require_run. cbn [fst snd].
  set (w1 := warned env _ (warned env _ w)).
  assert (w_trace w1 = w_trace w) as Ht1 by (unfold w1; by rewrite !warned_trace).
  assert (registered_this_session (w_session w1) = registered_this_session (w_session w)) as Hr1
    by (unfold w1; by rewrite !(warned_quiet env registered_this_session)).
  assert (unregister_on_disconnect (w_session w1) = unregister_on_disconnect (w_session w)) as Hu1
    by (unfold w1; by rewrite !(warned_quiet env unregister_on_disconnect)).
  clearbody w1.
  assert (forall w', w_trace w' = w_trace w ->
     registered_this_session (w_session w') = registered_this_session (w_session w) ->
     exists id new, w_trace w' = w_trace w ++ new /\
       (IsNull (cl_guid client) = false -> new <> [] -> id = cl_guid client) /\
       connect_run client (unregister_on_disconnect (w_session w)) id false new /\
       outcome client w false id w') as Hstop.
  { intros w' Ht Hr. exists null_guid, []. rewrite app_nil_r. split; [done|]. split; [done|].
    split; [constructor|]. split; [done|]. rewrite Hr. by left. }
  destruct (negb _ || negb _); [by apply Hstop|].
  rewrite st_bind_unfold. cbn [update fst snd].
  set (w2 := mkWorld _ _ _ _ _). rewrite st_bind_unfold.
  destruct (_ w2) as [generated w3] eqn:Eg. cbn [fst snd].
  assert (w_trace w3 = w_trace w /\
    registered_this_session (w_session w3) = registered_this_session (w_session w) /\
    unregister_on_disconnect (w_session w3) = unregister_on_disconnect (w_session w) /\
    (IsNull (cl_guid client) = false -> client_id (w_session w3) = cl_guid client)) as (Ht3 & Hr3 & Hu3 & Hid).
  { destruct (IsNull (cl_guid client)); cbn in Eg.
    - unfold mbind, st_bind, system in Eg. destruct (env_CoCreateGuid env _) as [[hr guid] d].
      destruct (Failed hr); injection Eg as <- <-; done.
    - by injection Eg as <- <-. }
  clearbody w2. clear Eg. destruct generated; cbn [negb]; [|by apply Hstop].
  rewrite st_bind_unfold. cbn [gets fst snd]. rewrite st_bind_unfold.
  pose proof (register_and_connect client
    (to_wide (env_paths env) (if is_empty (cl_name client) then kDefaultClientName else cl_name client)) w3)
    as Hrun. cbv zeta in Hrun.
  destruct (register_attempts _ _ _ _ _ _ _ _) as [r w4]. cbn [fst snd].
  match type of Hrun with context [match ?m with pair _ _ => _ end] => destruct m as [ok w'] end.
  destruct Hrun as (new & Ht & Hrun & Hout).
  exists (client_id (w_session w3)), new. rewrite Ht, Ht3. split; [done|]. split; [by auto|].
  rewrite Hu3 in Hrun. split; [done|].
  unfold outcome in *. by rewrite Hr3, Hu3 in Hout.
Qed.


(** *** Disconnection *)

Definition close_calls (closer : string) (handles : list handle) : list (string * list Arg) :=
  if available (env_api env) closer
  then (fun h => (closer, [AHandle h])) <$> List.filter handle_ok handles else [].

(** [w'] made these calls more than [w], and else only warned. *)
Definition closed_more (made : list (string * list Arg)) w w' : Prop :=
  calls w' = calls w ++ made /\ exists l, w_session w' = (w_session w) <| warnings := l |>.

Lemma warned_more name w : closed_more [] w (warned env name w).
Proof.
  split; [by rewrite warned_calls, app_nil_r|]. unfold warned.
  destruct (available _ _); [|by eexists]. exists (warnings (w_session w)). by destruct (w_session w).
Qed.

Lemma CloseHandle_run closer h w :
  closed_more (close_calls closer [h]) w (CloseHandle env closer h w).2.
Proof.
  unfold CloseHandle, close_calls. cbn [List.filter].
  assert (closed_more [] w w) as Hsame.
  { split; [by rewrite app_nil_r|]. exists (warnings (w_session w)). by destruct (w_session w). }
  destruct (handle_ok h); cbn [negb]; [|by destruct (available _ _)].
  run. rewrite Require_run. run. destruct (available _ _) eqn:E; run.
  - rewrite Call_run. run. rewrite warned_available by done.
    split; [by rewrite called_calls|apply Hsame].
  - apply warned_more.
Qed.

Lemma CloseOwned_run closer handles w :
  closed_more (close_calls closer handles) w (CloseOwned env closer handles w).2.
Proof.
  revert w. induction handles as [|h handles IH]; intros w.
  { cbn. split; [unfold close_calls; by destruct (available _ _); rewrite app_nil_r|].
    exists (warnings (w_session w)). by destruct (w_session w). }
  cbn [CloseOwned]. rewrite st_bind_unfold. destruct (CloseHandle_run closer h w) as [H1 [l1 K1]].
  destruct (IH (CloseHandle env closer h w).2) as [H2 [l2 K2]]. split.
  - rewrite H2, H1, <- app_assoc. f_equal. unfold close_calls. destruct (available _ _); [|done].
    rewrite <- fmap_app. f_equal. cbn [List.filter]. by destruct (handle_ok h).
  - exists l2. by rewrite K2, K1.
Qed.

(** What [Disconnect] releases: everything the session can still own. *)
Definition released s : list (string * list Arg) :=
  (if handle_ok (notification s) && available (env_api env) "EspFreeEventNotification"
   then [("EspFreeEventNotification", [AWord (notification s)])] else []) ++
  close_calls "EspCloseFilter" (filters s) ++ close_calls "EspCloseRule" (rules s) ++
  close_calls "EspCloseEventObjectReference" (object_refs s) ++
  close_calls "EspCloseCollection" (collections s) ++
  close_calls "EspCloseEventQueue" [queue_handle s] ++
  close_calls "EspDisconnectClient" [client_handle s] ++
  (if registered_this_session s && unregister_on_disconnect s &&
      available (env_api env) "EspUnregisterClient"
   then [("EspUnregisterClient", [AGuid (client_id s)])] else []).

Definition owns_nothing s : Prop :=
  notification s = 0 /\ filters s = [] /\ rules s = [] /\ object_refs s = [] /\ collections s = [] /\
  queue_handle s = 0 /\ client_handle s = 0.

Lemma UnregisterIfOwned_calls w :
  calls (UnregisterIfOwned env w).2 = calls w ++
    (if registered_this_session (w_session w) && unregister_on_disconnect (w_session w) &&
        available (env_api env) "EspUnregisterClient"
     then [("EspUnregisterClient", [AGuid (client_id (w_session w))])] else []).
Proof.
  destruct (UnregisterIfOwned_run w) as [_ (undo & Ht & Hu)]. unfold calls. rewrite Ht, omap_app. f_equal.
  destruct (_ && _ && _); [|by subst]. by destruct Hu as [r ->].
Qed.

(** The session that owns nothing and has no registration left to give back. *)
Definition given_back s : Prop :=
  owns_nothing s /\ registered_this_session s && unregister_on_disconnect s = false.

Lemma UnregisterIfOwned_keeps w :
  owns_nothing (w_session w) -> given_back (w_session (UnregisterIfOwned env w).2).
Proof.
  unfold UnregisterIfOwned, given_back, owns_nothing. run.
  destruct (registered_this_session (w_session w)) eqn:Er; cbn [negb orb]; [|run; by rewrite Er].
  destruct (unregister_on_disconnect (w_session w)) eqn:Eu; cbn [negb orb]; [|run; by rewrite Er, Eu].
  run. rewrite Require_run. run.
  destruct (available _ _); run; [unfold RecordStep; run; rewrite Call_run; run|];
  cbn; unfold warned; destruct (available _ _); done.
Qed.

Lemma CloseQueue_run w :
  let w' := (CloseQueue env w).2 in
  calls w' = calls w ++ close_calls "EspCloseEventQueue" [queue_handle (w_session w)] /\
  exists l, w_session w' = (w_session w) <| warnings := l |> <| queue_handle := 0 |>.
Proof.
  cbv zeta. unfold CloseQueue. run.
  destruct (CloseHandle_run "EspCloseEventQueue" (queue_handle (w_session w)) w) as [Hc [l Hs]].
  split; [done|]. exists l. by rewrite Hs.
Qed.

(** Runs one closing step of the goal and names the world after it. *)
Ltac name_world H w' :=
  let Hc := fresh "Hc" in let Hs := fresh "Hs" in let l := fresh "l" in
  clearbody w'; destruct H as [Hc [l Hs]].

Ltac close_step :=
  rewrite st_bind_unfold; cbn [gets fst snd];
  rewrite st_bind_unfold;
  match goal with
  | |- context [(CloseOwned env ?c ?l ?w).2] =>
      let H := fresh "H" in pose proof (CloseOwned_run c l w) as H;
      let w' := fresh "w" in set (w' := (CloseOwned env c l w).2) in *; name_world H w'
  | |- context [(CloseHandle env ?c ?l ?w).2] =>
      let H := fresh "H" in pose proof (CloseHandle_run c l w) as H;
      let w' := fresh "w" in set (w' := (CloseHandle env c l w).2) in *; name_world H w'
  end;
  rewrite st_bind_unfold; cbn [update fst snd].

(** Frees the notification, if there is one. *)
Lemma free_notification_run w :
  let s := w_session w in
  let w' := ((if handle_ok (notification s) then
     ok ← Require env "EspFreeEventNotification";
     (if (ok : bool) then _ ← Call env "EspFreeEventNotification" [AWord (notification s)]; mret tt
      else mret tt);;
     update (fun s => s <| notification := 0 |>)
   else mret tt) w).2 in
  calls w' = calls w ++ (if handle_ok (notification s) && available (env_api env) "EspFreeEventNotification"
                         then [("EspFreeEventNotification", [AWord (notification s)])] else []) /\
  exists l, w_session w' = s <| warnings := l |> <| notification := 0 |>.
Proof.
  cbv zeta. destruct (handle_ok (notification (w_session w))) eqn:En; cbn [andb].
  2:{ cbn. split; [by rewrite app_nil_r|]. exists (warnings (w_session w)).
      unfold handle_ok in En. apply negb_false_iff, Z.eqb_eq in En.
      destruct (w_session w); cbn in *. by subst. }
  run. rewrite Require_run. run. destruct (warned_more "EspFreeEventNotification" w) as [Hc [l Hs]].
  destruct (available _ _) eqn:E; run.
  - rewrite Call_run. run. rewrite warned_available in * by done.
    split; [apply called_calls|]. exists l. by rewrite <- Hs.
  - split; [done|]. exists l. by rewrite Hs.
Qed.

Lemma Disconnect_run w :
  let w' := (Disconnect env w).2 in
  calls w' = calls w ++ released (w_session w) /\ given_back (w_session w').
Proof.
  cbv zeta.
  unfold Disconnect. rewrite st_bind_unfold. cbn [gets fst snd]. rewrite st_bind_unfold.
  destruct (free_notification_run w) as [Hn [ln Hsn]].
  set (w0 := (_ w).2) in *. clearbody w0.
  close_step. close_step. close_step. close_step.
  rewrite st_bind_unfold.
  match goal with |- context [(CloseQueue env ?w).2] =>
    pose proof (CloseQueue_run w) as H; cbv zeta in H; set (w5 := (CloseQueue env w).2) in *; name_world H w5
  end.
  close_step. rewrite st_bind_unfold. cbn [update_storage update fst snd].
  match goal with |- context [(UnregisterIfOwned env ?w).2] => set (w7 := w) end.
  rewrite UnregisterIfOwned_calls.
  unfold calls in *. cbn [w_session w_trace] in *.
  rewrite Hs2, Hs1, Hs0, Hs, Hsn in *. rewrite Hs3 in *.
  split; [|by apply UnregisterIfOwned_keeps; unfold owns_nothing; subst w7; cbn; rewrite Hs4].
  subst w7. cbn [w_session w_trace] in *. rewrite Hs4, Hc4, Hc3, Hc2, Hc1, Hc0, Hc, Hn.
  unfold released. rewrite <- !app_assoc. reflexivity.
Qed.

Lemma released_nothing s : given_back s -> released s = [].
Proof.
  unfold given_back, owns_nothing, released. intros [(-> & -> & -> & -> & -> & -> & ->) ->].
  unfold close_calls. by repeat destruct (available _ _).
Qed.

(** C7 Disconnecting makes exactly the closing calls of what the session owned, in
    the order notification, filters, rules, references, collections, queue, client,
    registration: each held handle once, null ones not at all; nothing is owned
    afterwards, and disconnecting again calls nothing. *)
Theorem Disconnect_releases w :
  let '(_, w') := Disconnect env w in
  calls w' = calls w ++ released (w_session w) /\ owns_nothing (w_session w') /\
  calls (Disconnect env w').2 = calls w'.
Proof.
  destruct (Disconnect_run w) as [Hc Hg]. destruct (Disconnect env w) as [u w']. cbn [snd] in *.
  destruct (Disconnect_run w') as [Hc' _]. rewrite Hc', (released_nothing (w_session w') Hg), app_nil_r.
  by destruct Hg.
Qed.
End Connection.

(** ** A library to run on *)

(** Every export is there; a call is refused with a given result or succeeds with
    the next handle. *)
Section Example.
  Context (refuse : string -> list Arg -> option EspResult).

Definition example_reply (export : string) (args : list Arg) (next : Z) : Reply * Z :=
  match refuse export args with
  | Some result => (mkReply result 0 0 [], next)
  | None => (mkReply kOk next 0 [], next + 1)
  end.

Definition example_api : EspApi :=
  mkApi 1 kEspClientDll ""
    ((fun d => mkExport (ed_name d) (ed_arity d) (ed_signature d) 1) <$> BuildCatalog).

Definition example_paths : PathSystem :=
  mkPathSystem (fun s => Some (wide s)) (fun _ => 0) None (fun _ => (0, [])) (fun _ => (0, []))
    (fun _ => None) None.

Definition loc_index (l : Loc) : Z :=
  match l with
  | LFoIoConfig i => 16 * Z.of_nat i | LDynamicQuery i => 16 * Z.of_nat i + 1
  | LEventModify i => 16 * Z.of_nat i + 2 | LAccessMask i => 16 * Z.of_nat i + 3
  | LSubrule n => 16 * Z.of_nat n + 4 | LEmptySubrules => 5 | LProcessIds => 6 | LThreadIds => 7
  | LPipeIds => 8 | LFileObjectIds => 9 | LRegistryIds => 10 | LMailslotIds => 11 | LChildBind => 12
  end.

Definition example_env : Env Z :=
  mkEnv Z example_api example_reply (fun l => 0x10000 + 8 * loc_index l) example_paths
    (fun w => Some (of_chars (char_of_code <$> w))) (fun d => ((kOk, replicate 16 7), d))
    (fun _ _ => 0) (fun _ d => d) (fun _ => mkHooks (Some false) None None) (fun _ => inl 1)
    (fun _ => mkView (fun _ => 0) (fun _ _ => false))
    (fun d => (d, d + 1)) (fun d => (1, d)) (fun _ _ d => ((0, [d]), d)) (fun _ _ d => (None, d))
    (fun _ d => d).

Definition example_world : World Z := mkWorld new_session 1000 [] [] [].
End Example.

Definition accept : string -> list Arg -> option EspResult := fun _ _ => None.
