(* ===== verification/FilterBuild.v ===== *)
(** Building predicates (src/esptool/src/esp/EspFilterBuild.cpp, and the string
    collections of EspSession.cpp): a filter tree of the document becomes a tree of
    library filters, one call per node. *)
From S2P Require Import Prelude Text Core Events RuleModel MemoryView Api NtPath Session.

Definition kCollectionTypeString : Z := 2.
Definition kCollectionStringSubtype : Z := 1.
Definition kCollectionUpdateAdd : Z := 1.
Definition kBoolComparandEquals : Z := 1.
Definition kBoolRhsKindImmediate : Z := 1.
Definition kStringKindInlineUtf16 : Z := 1.
Definition kNumericRhsKindImmediate : Z := 1.
Definition kFilePathWrapperKind : Z := 1.

(** The export of a constructor, [None] for 0 and for what is past the table
    (a negative constructor is a huge [size_t]). *)
Definition TypedFilterExportName (selector : Z) : option string :=
  if selector <=? 0 then None else kTypedFilterExports !! Z.to_nat selector.

Definition LeafProperty (node : FilterNode) : Z :=
  if fn_propertyId node =? 0 then u32 (fn_operand node) else fn_propertyId node.

(** [std::from_chars] of the whole text into an unsigned 64-bit value. *)
Definition from_chars_u64 (text : string) : option Z :=
  if is_empty text then None
  else v ← digits_value 10 (chars text) 0; if v <=? u64_max then Some v else None.

Definition FillNumericComparand (node : FilterNode) : option NumericComparandRaw :=
  if (fn_comparand node <? kNumericOperatorMin) || (kNumericOperatorMax <? fn_comparand node) ||
     is_empty (fn_value node)
  then None
  else numeric ← from_chars_u64 (fn_value node);
       Some (mkNumeric (fn_comparand node) kNumericRhsKindImmediate numeric).

Definition FillStringComparand (ps : PathSystem) (node : FilterNode) : option StringComparandRaw :=
  if (fn_comparand node <? kStringComparandMin) || (kStringComparandMax <? fn_comparand node) ||
     is_empty (fn_value node)
  then None
  else
    let w := ExpandFilterValue ps (fn_value node) in
    let utf16_bytes := Z.of_nat (length w) * 2 in
    if negb (nonempty w) || (kMaxUtf16Bytes <? utf16_bytes) then None
    else Some (mkString (fn_comparand node) kStringKindInlineUtf16 utf16_bytes w).

Definition FillBoolComparand (node : FilterNode) : BoolComparandRaw :=
  mkBool kBoolComparandEquals kBoolRhsKindImmediate
    (if (fn_value node =? "1")%string || EqualsIgnoreCase (fn_value node) "true" then 1 else 0).

Definition BinaryFilterExport (kind : FilterKind) : string :=
  match kind with
  | And => "EspCreateAndFilter" | Or => "EspCreateOrFilter" | _ => "EspCreateXorFilter"
  end.

(** The 32-byte description of a new collection. *)
Definition WriteCollectionCreateDesc (type : Z) : option blob :=
  d ← WriteU32At 16 type (replicate 32 0); WriteU32At 20 kCollectionStringSubtype d.

Section FilterBuild.
  Context {D : Type} (env : Env D).
  Local Abbreviation M := (ST (World D)).

Definition FindNamedCollection (name : string) : M handle :=
  l ← gets named_collections;
  mret (match find_first (fun e => (e.1 =? name)%string) l with Some e => e.2 | None => 0 end).

(** Makes and remembers a collection described by [type]. *)
Definition create_collection (type : Z) : M (option handle) :=
  client ← gets client_handle;
  desc ← checked (WriteCollectionCreateDesc type) [];
  h ← Adopt env "EspCreateCollection" [AHandle client; ABytes desc];
  match h with
  | Some h => update (fun s => s <| collections ::= fun l => l ++ [h] |>);; mret (Some h)
  | None => mret None
  end.

(** The outcome and the collection. *)
Definition CreateStringCollection (value : wstring) : M (bool * handle) :=
  create_fn ← Require env "EspCreateCollection"; update_fn ← Require env "EspUpdateCollection";
  client ← gets client_handle;
  if negb create_fn || negb update_fn || negb (handle_ok client) || negb (nonempty value)
  then mret (false, 0)
  else
    h ← create_collection kCollectionTypeString;
    match h with
    | None => mret (false, 0)
    | Some out =>
        update_storage (fun s => s <| filter_strings ::= fun l => l ++ [value] |>);;
        let bytes := Z.of_nat (length value) * 2 in
        if (bytes =? 0) || (kMaxUtf16Bytes <? bytes) then mret (false, out)
        else
          let entry := mkCollectionEntry kCollectionUpdateAdd (u16 bytes) value in
          update_storage (fun s => s <| collection_entries ::= fun l => l ++ [entry] |>);;
          '(ok, _) ← Checked env "EspUpdateCollection"
                       [AHandle out; AWord 0; AWord 1; ACollectionEntry entry];
          mret (ok, out)
    end.

(** The call that constructs a leaf; the result is kept even when it failed. *)
Definition invoke (export : string) (property size_class : Z) (payload : Arg) : M (EspResult * handle) :=
  reply ← Call env export [AWord (i32 property); AWord size_class; payload];
  mret (re_result reply, re_out reply).

(** The collection a leaf compares with: a named one, or one made of its value. *)
Definition leaf_collection (node : FilterNode) : M (option handle) :=
  if negb (is_empty (fn_collectionName node)) then
    h ← FindNamedCollection (fn_collectionName node);
    mret (if handle_ok h then Some h else None)
  else if is_empty (fn_value node) then mret None
  else
    '(ok, h) ← CreateStringCollection (ExpandFilterValue (env_paths env) (fn_value node));
    mret (if ok && handle_ok h then Some h else None).

Definition CreateLeafFilter (node : FilterNode) : M (EspResult * handle) :=
  match TypedFilterExportName (fn_type node) with
  | None => mret (kInvalidArg, 0)
  | Some export_name =>
      fn ← Require env export_name;
      let property := LeafProperty node in
      if negb fn then mret (kInvalidArg, 0)
      else if property =? 0 then mret (kInvalidArg, 0)
      else if fn_comparand node =? kStringComparandCollection then
        if negb (IsObservedStringProperty (fn_type node) property) then mret (kInvalidArg, 0)
        else
          collection ← leaf_collection node;
          match collection with
          | None => mret (kInvalidArg, 0)
          | Some h =>
              let blob := mkCollectionComparand kStringComparandCollection h in
              update_storage (fun s => s <| collection_blobs ::= fun l => l ++ [blob] |>);;
              invoke export_name property kStringPayloadSizeClass (ACollection blob)
          end
      else if IsObservedNumericProperty (fn_type node) property then
        match FillNumericComparand node with
        | None => mret (kInvalidArg, 0)
        | Some blob =>
            update_storage (fun s => s <| numeric_blobs ::= fun l => l ++ [blob] |>);;
            invoke export_name property kNumericPayloadSizeClass (ANumeric blob)
        end
      else if IsObservedBoolProperty (fn_type node) property then
        let blob := FillBoolComparand node in
        update_storage (fun s => s <| bool_blobs ::= fun l => l ++ [blob] |>);;
        invoke export_name property kBoolPayloadSizeClass (ABool blob)
      else if negb (IsObservedStringProperty (fn_type node) property) then mret (kInvalidArg, 0)
      else
        match FillStringComparand (env_paths env) node with
        | None => mret (kInvalidArg, 0)
        | Some blob =>
            update_storage (fun s => s <| filter_strings ::= fun l => l ++ [sc_text blob] |>);;
            if (fn_type node =? kFilterCtorFile) && (property =? 17) then
              let wrapped := mkFilePath kFilePathWrapperKind blob in
              update_storage (fun s => s <| file_path_blobs ::= fun l => l ++ [wrapped] |>);;
              invoke export_name property kFilePathPayloadSizeClass (AFilePath wrapped)
            else
              update_storage (fun s => s <| filter_blobs ::= fun l => l ++ [blob] |>);;
              invoke export_name property kStringPayloadSizeClass (AString blob)
        end
  end.

Definition remember_filters (l : list handle) : M unit :=
  update (fun s => s <| filters ::= fun fs => fs ++ l |>).

Definition CreateBinaryFilter (kind : FilterKind) (lhs rhs : handle) : M (EspResult * handle) :=
  fn ← Require env (BinaryFilterExport kind);
  if negb fn then mret (kInvalidArg, 0)
  else
    reply ← Call env (BinaryFilterExport kind) [AHandle lhs; AHandle rhs];
    remember_filters [lhs; rhs];;
    mret (re_result reply, re_out reply).

Definition CreateNotFilter (child : handle) : M (EspResult * handle) :=
  fn ← Require env "EspCreateNotFilter";
  if negb fn then mret (kInvalidArg, 0)
  else
    reply ← Call env "EspCreateNotFilter" [AHandle child];
    remember_filters [child];;
    mret (re_result reply, re_out reply).

(** A close whose handle is passed whatever it is. *)
Definition close_filter (h : handle) : M unit :=
  fn ← Require env "EspCloseFilter";
  if (fn : bool) then _ ← Call env "EspCloseFilter" [AHandle h]; mret tt else mret tt.

Fixpoint CreateFilterTree (node : FilterNode) : M (EspResult * handle) :=
  match fn_kind node with
  | Leaf => CreateLeafFilter node
  | And | Or | Xor =>
      match fn_children node with
      | child0 :: child1 :: _ =>
          '(result, lhs) ← CreateFilterTree child0;
          if Failed result then mret (result, 0)
          else
            '(result, rhs) ← CreateFilterTree child1;
            if Failed result then close_filter lhs;; mret (result, 0)
            else CreateBinaryFilter (fn_kind node) lhs rhs
      | _ => mret (kInvalidArg, 0)
      end
  | Not =>
      match fn_children node with
      | [child0] =>
          '(result, child) ← CreateFilterTree child0;
          if Failed result then mret (result, 0) else CreateNotFilter child
      | _ => mret (kInvalidArg, 0)
      end
  end.

(** [ExerciseCollections]. *)
Definition ExerciseCollections : M bool :=
  close_fn ← Require env "EspCloseCollection";
  if negb close_fn then mret false
  else
    '(ok, collection) ← CreateStringCollection (wide "*{65535}");
    if negb ok || negb (handle_ok collection) then mret false
    else
      fn ← Require env "EspEnumerateCollectionEntries";
      (if (fn : bool) then
         '(_, reply) ← Checked env "EspEnumerateCollectionEntries" [AHandle collection];
         FreeEspBuffer env (re_out reply)
       else mret tt);;
      fn ← Require env "EspGetCollectionType";
      (if (fn : bool) then _ ← Checked env "EspGetCollectionType" [AHandle collection]; mret tt
       else mret tt);;
      fn ← Require env "EspGetCollectionId";
      (if (fn : bool) then _ ← Checked env "EspGetCollectionId" [AHandle collection]; mret tt
       else mret tt);;
      Checked env "EspCloseCollection" [AHandle collection];;
      update (fun s => s <| collections := [] |>);;
      mret true.
End FilterBuild.

(** * Theorems *)

(** The part of the session the rule installation relies on. *)
Definition rule_state (s : Session) :=
  (rules s, client_handle s, queue_handle s, enforce_compat s,
   (enforce_compat_patch_attempted s, enforce_compat_patch_ok s),
   (subrule_handles (storage s), event_modify_blobs (storage s), access_masks (storage s))).

#[export] Instance rule_state_quiet : Quiet rule_state. Proof. by split. Qed.

(** The calls that concern rules; everything below the installation avoids them. *)
Definition rule_call (export : string) : bool :=
  (export =? "EspCreateRule")%string || (export =? "EspUpdateRules")%string ||
  (export =? "EspCloseRule")%string.

Definition not_rule_call (export : string) : bool := negb (rule_call export).

Lemma TypedFilterExportName_in selector export :
  TypedFilterExportName selector = Some export ->
  export ∈ drop 1 kTypedFilterExports.
Proof.
  unfold TypedFilterExportName. case_if; [done|]. boolp. intros H.
  apply list_elem_of_lookup. exists (Z.to_nat selector - 1)%nat. rewrite lookup_drop.
  replace (1 + (Z.to_nat selector - 1))%nat with (Z.to_nat selector) by lia. done.
Qed.

Lemma typed_exports_not_rule export : export ∈ drop 1 kTypedFilterExports -> not_rule_call export = true.
Proof.
  intros H. assert (Forall (fun e => not_rule_call e = true) (drop 1 kTypedFilterExports)) as Hall
    by (repeat constructor).
  rewrite Forall_forall in Hall. auto.
Qed.

Lemma WriteCollectionCreateDesc_some type : is_Some (WriteCollectionCreateDesc type).
Proof. by vm_compute; eexists. Qed.

Section Framed.
  Context {D : Type} (env : Env D).
  Local Abbreviation fr := (frames (event_allowed not_rule_call) rule_state).

Lemma find_collection_frames name : fr (FindNamedCollection (D:=D) name).
Proof. unfold FindNamedCollection. frame. Qed.

Lemma create_collection_frames type : fr (create_collection env type).
Proof.
  unfold create_collection. frame. apply frames_checked, WriteCollectionCreateDesc_some.
Qed.

Lemma CreateStringCollection_frames value : fr (CreateStringCollection env value).
Proof. unfold CreateStringCollection. frame. apply create_collection_frames. Qed.

Lemma leaf_collection_frames node : fr (leaf_collection env node).
Proof.
  unfold leaf_collection. frame; [apply find_collection_frames|apply CreateStringCollection_frames].
Qed.

Lemma invoke_frames export property size_class payload :
  export ∈ drop 1 kTypedFilterExports -> fr (invoke env export property size_class payload).
Proof. intros H. unfold invoke. frame. by apply typed_exports_not_rule. Qed.

Lemma CreateLeafFilter_frames node : fr (CreateLeafFilter env node).
Proof.
  unfold CreateLeafFilter. destruct (TypedFilterExportName _) as [export|] eqn:E; [|frame].
  apply TypedFilterExportName_in in E.
  frame; try (by apply invoke_frames); apply leaf_collection_frames.
Qed.

Lemma CreateBinaryFilter_frames kind lhs rhs : fr (CreateBinaryFilter env kind lhs rhs).
Proof. unfold CreateBinaryFilter, remember_filters. frame. by destruct kind. Qed.

Lemma CreateNotFilter_frames child : fr (CreateNotFilter env child).
Proof. unfold CreateNotFilter, remember_filters. frame. Qed.

Lemma close_filter_frames h : fr (close_filter env h).
Proof. unfold close_filter. frame. Qed.

Lemma CreateFilterTree_frames node : fr (CreateFilterTree env node).
Proof.
  induction node as [k t c o p pn op v cn children IH] using FilterNode_tree_ind.
  pose proof CreateLeafFilter_frames as Hleaf. pose proof CreateBinaryFilter_frames as Hbin.
  pose proof CreateNotFilter_frames as Hnot. pose proof close_filter_frames as Hclose.
  destruct k; cbn [CreateFilterTree fn_kind fn_children]; [done|..];
    (destruct children as [|c0 [|c1 rest]]; inversion IH as [|?? Hc0 IH1]; subst;
     try (inversion IH1 as [|?? Hc1 IH2]; subst); frame; auto).
Qed.
End Framed.

(** *** Leaves *)

Definition collection_call (export : string) : bool :=
  (export =? "EspCreateCollection")%string || (export =? "EspUpdateCollection")%string.

(** What a leaf sends to its constructor: payload size class and payload. *)
Definition leaf_payload (ps : PathSystem) (node : FilterNode) (collection : handle) : option (Z * Arg) :=
  let property := LeafProperty node in
  let payload := LeafPayload (fn_type node) property in
  if fn_comparand node =? kStringComparandCollection then
    if bool_decide (payload = PayloadString) && handle_ok collection
    then Some (4, ACollection (mkCollectionComparand 4 collection)) else None
  else match payload with
       | PayloadNumeric => b ← FillNumericComparand node; Some (3, ANumeric b)
       | PayloadBool => Some (2, ABool (FillBoolComparand node))
       | PayloadString =>
           b ← FillStringComparand ps node;
           Some (if (fn_type node =? kFilterCtorFile) && (property =? 17)
                 then (5, AFilePath (mkFilePath 1 b)) else (4, AString b))
       | PayloadNone => None
       end.

(** The arguments of a leaf's constructor call. *)
Inductive leaf_call (ps : PathSystem) (node : FilterNode) : string -> list Arg -> Prop :=
| leaf_call_intro export collection size_class payload :
    TypedFilterExportName (fn_type node) = Some export -> LeafProperty node <> 0 ->
    leaf_payload ps node collection = Some (size_class, payload) ->
    leaf_call ps node export [AWord (i32 (LeafProperty node)); AWord size_class; payload].

Section Leaf.
  Context {D : Type} (env : Env D).
  Local Abbreviation fl := (frames (event_allowed collection_call) filters).

Lemma create_collection_leaf type : fl (create_collection env type).
Proof.
  unfold create_collection. frame. apply frames_checked, WriteCollectionCreateDesc_some.
Qed.

Lemma leaf_collection_leaf node : fl (leaf_collection env node).
Proof.
  unfold leaf_collection, CreateStringCollection, FindNamedCollection. frame.
  apply create_collection_leaf.
Qed.

Lemma leaf_collection_ok node w h : (leaf_collection env node w).1 = Some h -> handle_ok h = true.
Proof.
  unfold leaf_collection. destruct (negb (is_empty _)).
  - rewrite st_bind_unfold. cbn. by case_if; intros [= <-].
  - destruct (is_empty _); [done|]. rewrite st_bind_unfold.
    destruct (CreateStringCollection _ _ _) as [[ok h'] w']. cbn.
    destruct ok, (handle_ok h') eqn:E; cbn; try done. by intros [= <-].
Qed.

(** A leaf is refused before any filter call, or it is exactly one such call. *)
Lemma CreateLeafFilter_cases node w :
  let '((r, h), w') := CreateLeafFilter env node w in
  (r = kInvalidArg /\ h = 0 /\ framed (event_allowed collection_call) filters w w') \/
  (exists export args w1, leaf_call (env_paths env) node export args /\
     framed (event_allowed collection_call) filters w w1 /\ w' = called env export args w1 /\
     r = re_result (reply_of env export args w1) /\ h = re_out (reply_of env export args w1)).
Proof.
  unfold CreateLeafFilter.
  assert (framed (event_allowed collection_call) filters w w) as Hw by reflexivity.
  destruct (TypedFilterExportName _) as [export|] eqn:Eexport; [|by left].
  rewrite st_bind_unfold, Require_run. cbn [fst snd].
  assert (framed (event_allowed collection_call) filters w (warned env export w)) as Hw1.
  { pose proof (frames_require env (event_allowed collection_call) filters export w) as H.
    by rewrite Require_run in H. }
  set (w0 := warned _ _ _) in *. clearbody w0.
  destruct (negb (available _ _)); [by left|].
  destruct (LeafProperty node =? 0) eqn:Eprop; [by left|]. apply Z.eqb_neq in Eprop.
  assert (forall collection size_class payload f w1,
    framed (event_allowed collection_call) filters w w1 -> (forall s, filters (f s) = filters s) ->
    leaf_payload (env_paths env) node collection = Some (size_class, payload) ->
    let '((r, h), w') := (update f;; invoke env export (LeafProperty node) size_class payload) w1 in
    exists args w2, leaf_call (env_paths env) node export args /\
      framed (event_allowed collection_call) filters w w2 /\ w' = called env export args w2 /\
      r = re_result (reply_of env export args w2) /\ h = re_out (reply_of env export args w2)) as Hinvoke.
  { intros collection size_class payload f w1 Hf1 Hf Hp. rewrite st_bind_unfold.
    unfold invoke. rewrite st_bind_unfold, Call_run. cbn [update fst snd mret st_ret].
    eexists _, _. split; [by econstructor|]. split; [|done].
    etransitivity; [exact Hf1|]. by apply (frames_update (event_allowed collection_call) filters f). }
  assert (forall (m : ST (World D) (EspResult * handle)) w1,
    (let '((r, h), w') := m w1 in exists args w2, leaf_call (env_paths env) node export args /\
      framed (event_allowed collection_call) filters w w2 /\ w' = called env export args w2 /\
      r = re_result (reply_of env export args w2) /\ h = re_out (reply_of env export args w2)) ->
    let '((r, h), w') := m w1 in
    (r = kInvalidArg /\ h = 0 /\ framed (event_allowed collection_call) filters w w') \/
    (exists export args w1, leaf_call (env_paths env) node export args /\
     framed (event_allowed collection_call) filters w w1 /\ w' = called env export args w1 /\
     r = re_result (reply_of env export args w1) /\ h = re_out (reply_of env export args w1))) as Hright.
  { intros m w1 H. destruct (m w1) as [[r h] w']. right. exists export. done. }
  unfold leaf_payload in Hinvoke.
  unfold IsObservedStringProperty, IsObservedNumericProperty, IsObservedBoolProperty.
  destruct (fn_comparand node =? kStringComparandCollection).
  { case_bool_decide as Estr; cbn [negb andb] in *; [|by left].
    rewrite st_bind_unfold. pose proof (leaf_collection_leaf node w0) as Hfl.
    pose proof (leaf_collection_ok node w0) as Hok.
    destruct (leaf_collection env node w0) as [[h|] w1]; cbn [fst snd] in *.
    - specialize (Hok h eq_refl). apply Hright, (Hinvoke h); [by etransitivity|done|]. by rewrite Hok.
    - left. split; [done|]. split; [done|]. by etransitivity. }
  unfold update_storage.
  destruct (LeafPayload _ _) eqn:Ekind;
    repeat first [rewrite bool_decide_false by done | rewrite bool_decide_true by done]; cbn [negb].
  - by left.
  - destruct (FillStringComparand _ _) as [b|]; [|by left].
    rewrite st_bind_unfold. cbn [update fst snd].
    match goal with |- context [mkWorld ?s ?d ?t ?l ?p] => set (w1 := mkWorld s d t l p) end.
    assert (framed (event_allowed collection_call) filters w w1) as Hf1.
    { etransitivity; [exact Hw1|]. split; [exists []; by rewrite app_nil_r|done]. }
    destruct ((fn_type node =? kFilterCtorFile) && _);
      (apply Hright, (Hinvoke 0); [exact Hf1|done|done]).
  - destruct (FillNumericComparand _) as [b|]; [|by left].
    apply Hright, (Hinvoke 0); done.
  - apply Hright, (Hinvoke 0); done.
Qed.
End Leaf.

(** *** Trees *)

(** A library filter that mirrors a tree: one successful constructor call per leaf,
    one per combinator on the filters of its operands. *)
Inductive built (ps : PathSystem) (t : list Event) : FilterNode -> handle -> Prop :=
| built_leaf node export args reply :
    fn_kind node = Leaf -> leaf_call ps node export args ->
    Called export args reply ∈ t -> Succeeded (re_result reply) = true ->
    built ps t node (re_out reply)
| built_binary node child0 child1 rest lhs rhs reply :
    fn_kind node ∈ [And; Or; Xor] -> fn_children node = child0 :: child1 :: rest ->
    built ps t child0 lhs -> built ps t child1 rhs ->
    Called (BinaryFilterExport (fn_kind node)) [AHandle lhs; AHandle rhs] reply ∈ t ->
    Succeeded (re_result reply) = true ->
    built ps t node (re_out reply)
| built_not node child0 child reply :
    fn_kind node = Not -> fn_children node = [child0] -> built ps t child0 child ->
    Called "EspCreateNotFilter" [AHandle child] reply ∈ t -> Succeeded (re_result reply) = true ->
    built ps t node (re_out reply).

Lemma built_mono ps t t' node h : t ⊆ t' -> built ps t node h -> built ps t' node h.
Proof.
  intros Ht. induction 1; [eapply built_leaf|eapply built_binary|eapply built_not]; eauto.
Qed.

(** Filters made by a trace, and those it closed. *)
Definition creates_filter (export : string) : bool :=
  bool_decide (export ∈ drop 1 kTypedFilterExports) ||
  bool_decide (export ∈ ["EspCreateAndFilter"; "EspCreateOrFilter"; "EspCreateXorFilter";
                         "EspCreateNotFilter"]).

Definition created_filter (e : Event) : option handle :=
  match e with
  | Called export _ reply =>
      if creates_filter export && handle_ok (re_out reply) then Some (re_out reply) else None
  | OutOfBounds => None
  end.

Definition closed_filter (e : Event) : option handle :=
  match e with
  | Called export [AHandle h] _ =>
      if (export =? "EspCloseFilter")%string && handle_ok h then Some h else None
  | _ => None
  end.

Section Tree.
  Context {D : Type} (env : Env D).
  Implicit Types (w : World D).

Lemma CreateBinaryFilter_run kind lhs rhs w :
  let export := BinaryFilterExport kind in
  let '((r, h), w') := CreateBinaryFilter env kind lhs rhs w in
  if available (env_api env) export then
    let reply := reply_of env export [AHandle lhs; AHandle rhs] w in
    r = re_result reply /\ h = re_out reply /\
    w_trace w' = w_trace w ++ [Called export [AHandle lhs; AHandle rhs] reply] /\
    filters (w_session w') = filters (w_session w) ++ [lhs; rhs]
  else r = kInvalidArg /\ h = 0 /\ w_trace w' = w_trace w /\ filters (w_session w') = filters (w_session w).
Proof.
  cbv zeta. unfold CreateBinaryFilter, remember_filters. run. rewrite Require_run. run.
  destruct (available _ _) eqn:E; cbn [negb].
  - rewrite warned_available by done. run. rewrite Call_run. run. done.
  - run. by rewrite warned_trace, (warned_quiet env filters).
Qed.

Lemma CreateNotFilter_run child w :
  let export := "EspCreateNotFilter" in
  let '((r, h), w') := CreateNotFilter env child w in
  if available (env_api env) export then
    let reply := reply_of env export [AHandle child] w in
    r = re_result reply /\ h = re_out reply /\
    w_trace w' = w_trace w ++ [Called export [AHandle child] reply] /\
    filters (w_session w') = filters (w_session w) ++ [child]
  else r = kInvalidArg /\ h = 0 /\ w_trace w' = w_trace w /\ filters (w_session w') = filters (w_session w).
Proof.
  cbv zeta. unfold CreateNotFilter, remember_filters. run. rewrite Require_run. run.
  destruct (available _ _) eqn:E; cbn [negb].
  - rewrite warned_available by done. run. rewrite Call_run. run. done.
  - run. by rewrite warned_trace, (warned_quiet env filters).
Qed.

Lemma close_filter_run h w :
  let '(_, w') := close_filter env h w in
  filters (w_session w') = filters (w_session w) /\
  w_trace w' = w_trace w ++
    (if available (env_api env) "EspCloseFilter"
     then [Called "EspCloseFilter" [AHandle h] (reply_of env "EspCloseFilter" [AHandle h] w)] else []).
Proof.
  unfold close_filter. run. rewrite Require_run. run. destruct (available _ _) eqn:E.
  - rewrite warned_available by done. run. rewrite Call_run. run. done.
  - run. by rewrite warned_trace, (warned_quiet env filters), app_nil_r.
Qed.

Definition grows_built node (r : EspResult) (h : handle) w w' : Prop :=
  exists new, w_trace w' = w_trace w ++ new /\
    (Failed r = false -> built (env_paths env) new node h).

Lemma kInvalidArg_failed : Failed kInvalidArg = true.
Proof. reflexivity. Qed.

Lemma CreateLeafFilter_built node w :
  fn_kind node = Leaf ->
  let '((r, h), w') := CreateLeafFilter env node w in grows_built node r h w w'.
Proof.
  intros Hk. pose proof (CreateLeafFilter_cases env node w) as Hc.
  destruct (CreateLeafFilter env node w) as [[r h] w'].
  destruct Hc as [(-> & -> & [(new & Ht & _) _])|(export & args & w1 & Hleaf & [(new & Ht & _) _] & -> & -> & ->)].
  - by exists new.
  - exists (new ++ [Called export args (reply_of env export args w1)]).
    split; [cbn; by rewrite Ht, app_assoc|].
    rewrite Failed_Succeeded. intros Hs%negb_false_iff.
    eapply built_leaf; [done..|set_solver|done].
Qed.

(** The two operands of a combinator, then the combinator. *)
Lemma binary_built node child0 child1 rest w :
  fn_kind node ∈ [And; Or; Xor] -> fn_children node = child0 :: child1 :: rest ->
  (forall w, let '((r, h), w') := CreateFilterTree env child0 w in grows_built child0 r h w w') ->
  (forall w, let '((r, h), w') := CreateFilterTree env child1 w in grows_built child1 r h w w') ->
  let '((r, h), w') :=
    ('(result, lhs) ← CreateFilterTree env child0;
     if Failed result then mret (result, 0)
     else
       '(result, rhs) ← CreateFilterTree env child1;
       if Failed result then close_filter env lhs;; mret (result, 0)
       else CreateBinaryFilter env (fn_kind node) lhs rhs) w in
  grows_built node r h w w'.
Proof.
  intros Hk Hch H0 H1. rewrite st_bind_unfold. specialize (H0 w).
  destruct (CreateFilterTree env child0 w) as [[r0 lhs] w0]. cbn [fst snd].
  destruct H0 as (n0 & Ht0 & Hb0). destruct (Failed r0) eqn:E0.
  { exists n0. split; [done|]. by rewrite E0. }
  rewrite st_bind_unfold. specialize (H1 w0).
  destruct (CreateFilterTree env child1 w0) as [[r1 rhs] w1]. cbn [fst snd].
  destruct H1 as (n1 & Ht1 & Hb1). destruct (Failed r1) eqn:E1.
  { rewrite st_bind_unfold. pose proof (close_filter_run lhs w1) as Hc.
    destruct (close_filter env lhs w1) as [u w2]. destruct Hc as [_ Hc]. cbn.
    eexists (n0 ++ n1 ++ _). split; [rewrite Hc, Ht1, Ht0, <- !app_assoc; reflexivity|]. by rewrite E1. }
  pose proof (CreateBinaryFilter_run (fn_kind node) lhs rhs w1) as Hr. cbv zeta in Hr.
  destruct (CreateBinaryFilter env (fn_kind node) lhs rhs w1) as [[r h] w2].
  destruct (available _ _).
  - destruct Hr as (-> & -> & Ht2 & _).
    eexists (n0 ++ n1 ++ [_]). split; [rewrite Ht2, Ht1, Ht0, <- !app_assoc; reflexivity|].
    rewrite Failed_Succeeded. intros Hs%negb_false_iff.
    eapply built_binary; [done|done|..|done].
    + eapply built_mono; [|by apply Hb0]. set_solver.
    + eapply built_mono; [|by apply Hb1]. set_solver.
    + set_solver.
  - destruct Hr as (-> & -> & Ht2 & _). exists (n0 ++ n1).
    by rewrite Ht2, Ht1, Ht0, app_assoc.
Qed.

Lemma not_built node child0 w :
  fn_kind node = Not -> fn_children node = [child0] ->
  (forall w, let '((r, h), w') := CreateFilterTree env child0 w in grows_built child0 r h w w') ->
  let '((r, h), w') :=
    ('(result, child) ← CreateFilterTree env child0;
     if Failed result then mret (result, 0) else CreateNotFilter env child) w in
  grows_built node r h w w'.
Proof.
  intros Hk Hch H0. rewrite st_bind_unfold. specialize (H0 w).
  destruct (CreateFilterTree env child0 w) as [[r0 child] w0]. cbn [fst snd].
  destruct H0 as (n0 & Ht0 & Hb0). destruct (Failed r0) eqn:E0.
  { exists n0. split; [done|]. by rewrite E0. }
  pose proof (CreateNotFilter_run child w0) as Hr. cbv zeta in Hr.
  destruct (CreateNotFilter env child w0) as [[r h] w1]. destruct (available _ _).
  - destruct Hr as (-> & -> & Ht1 & _). eexists (n0 ++ [_]).
    split; [rewrite Ht1, Ht0, <- app_assoc; reflexivity|].
    rewrite Failed_Succeeded. intros Hs%negb_false_iff.
    eapply built_not; [done|done|..|done].
    + eapply built_mono; [|by apply Hb0]. set_solver.
    + set_solver.
  - destruct Hr as (-> & -> & Ht1 & _). exists n0. by rewrite Ht1, Ht0.
Qed.

(** C18 When building a predicate reports success, the library has built its mirror
    image during the call: a leaf by its typed constructor with the property,
    comparand and value of the document, a combinator on the filters of its first
    two operands, and the returned handle is the one of the root. *)
Theorem CreateFilterTree_built node w :
  let '((r, h), w') := CreateFilterTree env node w in
  exists new, w_trace w' = w_trace w ++ new /\
    (Failed r = false -> built (env_paths env) new node h).
Proof.
  revert w. induction node as [k t c o p pn op v cn children IH] using FilterNode_tree_ind. intros w.
  assert (forall node r w', r = kInvalidArg -> w' = w -> grows_built node r 0 w w') as Hinvalid.
  { intros node r w' -> ->. exists []. by rewrite app_nil_r. }
  destruct k; cbn [CreateFilterTree fn_kind fn_children];
    [exact (CreateLeafFilter_built (mkFilterNode Leaf t c o p pn op v cn children) w eq_refl)|..];
    (destruct children as [|c0 [|c1 rest]];
     [by apply Hinvalid|rewrite Forall_singleton in IH|apply Forall_cons in IH as [H0 [H1 _]%Forall_cons]]).
  1, 3, 5, 8: by apply Hinvalid.
  - apply (binary_built (mkFilterNode And t c o p pn op v cn (c0 :: c1 :: rest))
             c0 c1 rest w); [cbn; set_solver|done|exact H0|exact H1].
  - apply (binary_built (mkFilterNode Or t c o p pn op v cn (c0 :: c1 :: rest))
             c0 c1 rest w); [cbn; set_solver|done|exact H0|exact H1].
  - apply (binary_built (mkFilterNode Xor t c o p pn op v cn (c0 :: c1 :: rest))
             c0 c1 rest w); [cbn; set_solver|done|exact H0|exact H1].
  - apply (not_built (mkFilterNode Not t c o p pn op v cn [c0]) c0 w); [done|done|exact IH].
Qed.
End Tree.

(** *** No filter is lost *)

(** The exports that the combinators of a tree need. *)
Fixpoint combinators (node : FilterNode) : list string :=
  match fn_kind node with
  | Leaf => []
  | Not => ["EspCreateNotFilter"]
  | kind => [BinaryFilterExport kind]
  end ++ (fn_children node ≫= combinators).

(** Why a filter that was handed out during a build is in nobody's hands after it: the
    call that handed it out failed; the combinator it was made for is not exported; or it
    was the first operand, the second failed and [EspCloseFilter] is not exported. *)
Inductive excused (api : EspApi) (node : FilterNode) (t : list Event) (h : handle) : Prop :=
| excused_failed export args reply :
    Called export args reply ∈ t -> creates_filter export = true ->
    Failed (re_result reply) = true -> h = re_out reply -> excused api node t h
| excused_combinator export :
    export ∈ combinators node -> available api export = false -> excused api node t h
| excused_close :
    combinators node <> [] -> available api "EspCloseFilter" = false -> excused api node t h.

Lemma excused_mono api node node' t t' h :
  combinators node ⊆ combinators node' -> t ⊆ t' -> excused api node t h -> excused api node' t' h.
Proof.
  intros Hn Ht [export args reply Hin|export Hin|Hne].
  - eapply excused_failed; eauto.
  - eapply excused_combinator; eauto.
  - eapply excused_close; [|done]. intros E. rewrite E in Hn. destruct (combinators node) as [|e l]; [done|].
    by apply (not_elem_of_nil e), Hn; left.
Qed.

Lemma typed_creates export : export ∈ drop 1 kTypedFilterExports -> creates_filter export = true.
Proof. intros H. unfold creates_filter. by rewrite bool_decide_true. Qed.

Lemma collection_not_filter export :
  collection_call export = true -> creates_filter export = false /\ export <> "EspCloseFilter".
Proof.
  unfold collection_call. intros [->%String.eqb_eq| ->%String.eqb_eq]%orb_true_iff; done.
Qed.

(** A list of handles without the null ones. *)
Abbreviation live := (List.filter handle_ok).

Lemma live_app l1 l2 : live (l1 ++ l2) = live l1 ++ live l2.
Proof. apply List.filter_app. Qed.

Definition occurs (x : handle) (l : list handle) : nat := count_occ Z.eq_dec l x.

Lemma occurs_app x l1 l2 : occurs x (l1 ++ l2) = (occurs x l1 + occurs x l2)%nat.
Proof. apply count_occ_app. Qed.

Lemma perm_occurs l1 l2 : l1 ≡ₚ l2 <-> forall x, occurs x l1 = occurs x l2.
Proof. apply (Permutation_count_occ Z.eq_dec). Qed.

Section Accounts.
  Context {D : Type} (env : Env D).
  Implicit Types (w : World D).
  Local Abbreviation excused_here := (excused (env_api env)).

(** Where the filters made since [w] are: the result, the remembered ones, the closed ones
    and the lost ones, which there are none of unless the build fails. *)
Definition accounts node (r : EspResult) (h : handle) w w' : Prop :=
  exists new added lost, w_trace w' = w_trace w ++ new /\
    filters (w_session w') = filters (w_session w) ++ added /\
    (Failed r = true -> Forall (excused_here node new) (live [h])) /\
    (Failed r = false -> lost = []) /\
    Forall (excused_here node new) lost /\
    forall x, occurs x (omap created_filter new) =
      (occurs x (live [h]) + occurs x (live added) + occurs x (omap closed_filter new) + occurs x lost)%nat.

Lemma excused_all_mono node node' t t' l :
  combinators node ⊆ combinators node' -> t ⊆ t' ->
  Forall (excused_here node t) l -> Forall (excused_here node' t') l.
Proof. intros Hn Ht H. eapply Forall_impl; [exact H|]. intros h. by apply excused_mono. Qed.

Lemma live_excused node t h : (handle_ok h = true -> excused_here node t h) -> Forall (excused_here node t) (live [h]).
Proof. intros H. cbn. destruct (handle_ok h); [constructor; [by apply H|constructor]|constructor]. Qed.

Lemma collection_trace new :
  Forall (event_allowed collection_call) new ->
  omap created_filter new = [] /\ omap closed_filter new = [].
Proof.
  induction 1 as [|e new He _ [IH1 IH2]]; [done|]. simpl.
  destruct e as [export args reply|]; [|done]. simpl in He. apply collection_not_filter in He as [Hc Hne].
  simpl. rewrite Hc. cbn [andb]. split; [done|].
  destruct args as [|[] [|]]; try done. apply String.eqb_neq in Hne. by rewrite Hne.
Qed.

Lemma created_one export args reply :
  creates_filter export = true ->
  omap created_filter [Called export args reply] = live [re_out reply].
Proof. intros H. cbn. rewrite H. cbn. by destruct (handle_ok _). Qed.

Lemma closed_not_creating export args reply :
  creates_filter export = true -> omap closed_filter [Called export args reply] = [].
Proof.
  intros H. cbn. destruct args as [|[] [|]]; try done.
  destruct (export =? "EspCloseFilter")%string eqn:E; [|done].
  apply String.eqb_eq in E as ->. done.
Qed.

(** A failed constructor may have handed out what it returned. *)
Lemma failed_reply_excused node t export args reply :
  Called export args reply ∈ t -> creates_filter export = true -> Failed (re_result reply) = true ->
  Forall (excused_here node t) (live [re_out reply]).
Proof. intros. apply live_excused. intros _. by eapply excused_failed. Qed.

Lemma CreateLeafFilter_accounts node w :
  let '((r, h), w') := CreateLeafFilter env node w in accounts node r h w w'.
Proof.
  pose proof (CreateLeafFilter_cases env node w) as Hc.
  destruct (CreateLeafFilter env node w) as [[r h] w'].
  destruct Hc as [(-> & -> & [(new & Ht & Hall) Hf])
                 |(export & args & w1 & Hleaf & [(new & Ht & Hall) Hf] & -> & -> & ->)];
    apply collection_trace in Hall as [Hcr Hcl].
  - exists new, [], []. rewrite app_nil_r. split_and!; [done|done|constructor|done|constructor|].
    intros x. by rewrite Hcr, Hcl.
  - assert (creates_filter export = true) as Hce.
    { inversion Hleaf; subst. by eapply typed_creates, TypedFilterExportName_in. }
    exists (new ++ [Called export args (reply_of env export args w1)]), [], [].
    cbn [called w_trace w_session]. rewrite Ht, <- app_assoc, app_nil_r.
    split_and!; [done|done| |done|constructor|].
    + apply failed_reply_excused with export args; [set_solver|done].
    + intros x. rewrite !omap_app, Hcr, Hcl, created_one, closed_not_creating by done. cbn [app].
      change (occurs x (live [])) with 0%nat. change (occurs x []) with 0%nat. lia.
Qed.

Lemma binary_creates kind : creates_filter (BinaryFilterExport kind) = true.
Proof. by destruct kind. Qed.

Lemma live_two l r : live [l; r] = live [l] ++ live [r].
Proof. cbn. by destruct (handle_ok l), (handle_ok r). Qed.

Lemma CreateFilterTree_binary node child0 child1 rest :
  fn_kind node ∈ [And; Or; Xor] -> fn_children node = child0 :: child1 :: rest ->
  CreateFilterTree env node =
    ('(result, lhs) ← CreateFilterTree env child0;
     if Failed result then mret (result, 0)
     else
       '(result, rhs) ← CreateFilterTree env child1;
       if Failed result then close_filter env lhs;; mret (result, 0)
       else CreateBinaryFilter env (fn_kind node) lhs rhs).
Proof.
  destruct node as [k t c o p pn op v cn children]. cbn [fn_kind fn_children]. intros Hk ->.
  destruct k; first [done|set_solver].
Qed.

Lemma combinators_child node child : child ∈ fn_children node -> combinators child ⊆ combinators node.
Proof.
  intros Hin export He. assert (export ∈ fn_children node ≫= combinators) by (apply list_elem_of_bind; eauto).
  destruct node as [k t c o p pn op v cn children]. cbn [combinators fn_kind fn_children] in *. set_solver.
Qed.

Lemma combinators_binary node : fn_kind node ∈ [And; Or; Xor] -> BinaryFilterExport (fn_kind node) ∈ combinators node.
Proof.
  destruct node as [k t c o p pn op v cn children]. cbn [combinators fn_kind]. intros Hk.
  apply elem_of_app. left. destruct k; [set_solver|left..|set_solver].
Qed.

Lemma combinators_not node : fn_kind node = Not -> "EspCreateNotFilter" ∈ combinators node.
Proof.
  destruct node as [k t c o p pn op v cn children]. cbn [combinators fn_kind]. intros ->. left.
Qed.

(** A combinator consumes the filters of its operands into the remembered ones; without
    its export they are lost. *)
Lemma combine_accounts node w w0 w1 w2 n0 n1 a0 a1 lhs rhs export r h :
  creates_filter export = true -> export ∈ combinators node ->
  w_trace w0 = w_trace w ++ n0 -> filters (w_session w0) = filters (w_session w) ++ a0 ->
  (forall x, occurs x (omap created_filter n0) =
     (occurs x (live [lhs]) + occurs x (live a0) + occurs x (omap closed_filter n0) + occurs x [])%nat) ->
  w_trace w1 = w_trace w0 ++ n1 -> filters (w_session w1) = filters (w_session w0) ++ a1 ->
  (forall x, occurs x (omap created_filter n1) =
     (occurs x (live [rhs]) + occurs x (live a1) + occurs x (omap closed_filter n1) + occurs x [])%nat) ->
  (if available (env_api env) export then
     let reply := reply_of env export [AHandle lhs; AHandle rhs] w1 in
     r = re_result reply /\ h = re_out reply /\
     w_trace w2 = w_trace w1 ++ [Called export [AHandle lhs; AHandle rhs] reply] /\
     filters (w_session w2) = filters (w_session w1) ++ [lhs; rhs]
   else r = kInvalidArg /\ h = 0 /\ w_trace w2 = w_trace w1 /\
     filters (w_session w2) = filters (w_session w1)) ->
  accounts node r h w w2.
Proof.
  intros Hce Hexport Ht0 Hf0 Ha0 Ht1 Hf1 Ha1. set (args := [AHandle lhs; AHandle rhs]).
  set (reply := reply_of env export args w1). destruct (available _ export) eqn:Ea.
  - intros (-> & -> & Ht2 & Hf2).
    exists (n0 ++ n1 ++ [Called export args reply]), (a0 ++ a1 ++ [lhs; rhs]), [].
    split_and!; [by rewrite Ht2, Ht1, Ht0, <- !app_assoc|by rewrite Hf2, Hf1, Hf0, <- !app_assoc| |done|constructor|].
    + apply failed_reply_excused with export args; [set_solver|done].
    + intros x. specialize (Ha0 x). specialize (Ha1 x).
      rewrite !omap_app, created_one, closed_not_creating, !live_app, live_two, !occurs_app by done.
      change (occurs x []) with 0%nat in *. lia.
  - intros (-> & -> & Ht2 & Hf2). exists (n0 ++ n1), (a0 ++ a1), (live [lhs; rhs]).
    split_and!; [by rewrite Ht2, Ht1, Ht0, <- app_assoc|by rewrite Hf2, Hf1, Hf0, <- app_assoc|constructor|done| |].
    + apply Forall_forall. intros h _. by eapply excused_combinator.
    + intros x. specialize (Ha0 x). specialize (Ha1 x). rewrite !omap_app, !live_app, live_two, !occurs_app.
      change (occurs x (live [0])) with 0%nat. change (occurs x []) with 0%nat in *. lia.
Qed.

(** Closing the first operand after the second one failed. *)
Lemma close_accounts node child1 w w0 w1 n0 n1 a0 a1 l1 lhs rhs r :
  Failed r = true -> combinators node <> [] -> combinators child1 ⊆ combinators node ->
  w_trace w0 = w_trace w ++ n0 -> filters (w_session w0) = filters (w_session w) ++ a0 ->
  (forall x, occurs x (omap created_filter n0) =
     (occurs x (live [lhs]) + occurs x (live a0) + occurs x (omap closed_filter n0) + occurs x [])%nat) ->
  w_trace w1 = w_trace w0 ++ n1 -> filters (w_session w1) = filters (w_session w0) ++ a1 ->
  Forall (excused_here child1 n1) (live [rhs] ++ l1) ->
  (forall x, occurs x (omap created_filter n1) =
     (occurs x (live [rhs]) + occurs x (live a1) + occurs x (omap closed_filter n1) + occurs x l1)%nat) ->
  accounts node r 0 w (close_filter env lhs w1).2.
Proof.
  intros Hr Hne Hc1 Ht0 Hf0 Ha0 Ht1 Hf1 Hl1 Ha1. pose proof (close_filter_run env lhs w1) as Hc.
  destruct (close_filter env lhs w1) as [u w2]. destruct Hc as [Hf2 Ht2]. cbn [snd].
  destruct (available _ _) eqn:Ea.
  - eexists (n0 ++ n1 ++ _), (a0 ++ a1), (live [rhs] ++ l1).
    split_and!; [rewrite Ht2, Ht1, Ht0, <- !app_assoc; reflexivity|by rewrite Hf2, Hf1, Hf0, <- !app_assoc
                |constructor|congruence| |].
    + eapply excused_all_mono; [exact Hc1| |exact Hl1]. set_solver.
    + intros x. specialize (Ha0 x). specialize (Ha1 x).
      assert (forall reply, omap closed_filter [Called "EspCloseFilter" [AHandle lhs] reply] = live [lhs]) as Hcl
        by (intros; cbn; by destruct (handle_ok lhs)).
      rewrite !omap_app, Hcl, !live_app, !occurs_app.
      change (omap created_filter [Called "EspCloseFilter" [AHandle lhs] _]) with (@nil handle).
      change (live [0%Z]) with (@nil handle) in *. change (occurs x []) with 0%nat in *. lia.
  - rewrite app_nil_r in Ht2. exists (n0 ++ n1), (a0 ++ a1), (live [lhs] ++ live [rhs] ++ l1).
    split_and!; [by rewrite Ht2, Ht1, Ht0, <- app_assoc|by rewrite Hf2, Hf1, Hf0, <- !app_assoc
                |constructor|congruence| |].
    + apply Forall_app_2.
      * apply live_excused. intros _. by apply excused_close.
      * eapply excused_all_mono; [exact Hc1| |exact Hl1]. set_solver.
    + intros x. specialize (Ha0 x). specialize (Ha1 x). rewrite !omap_app, !live_app, !occurs_app.
      change (live [0%Z]) with (@nil handle). change (occurs x []) with 0%nat in *. lia.
Qed.

Lemma binary_accounts node child0 child1 rest w :
  fn_kind node ∈ [And; Or; Xor] -> fn_children node = child0 :: child1 :: rest ->
  (forall w, let '((r, h), w') := CreateFilterTree env child0 w in accounts child0 r h w w') ->
  (forall w, let '((r, h), w') := CreateFilterTree env child1 w in accounts child1 r h w w') ->
  let '((r, h), w') :=
    ('(result, lhs) ← CreateFilterTree env child0;
     if Failed result then mret (result, 0)
     else
       '(result, rhs) ← CreateFilterTree env child1;
       if Failed result then close_filter env lhs;; mret (result, 0)
       else CreateBinaryFilter env (fn_kind node) lhs rhs) w in
  accounts node r h w w'.
Proof.
  intros Hk Hch H0 H1. pose proof (combinators_binary node Hk) as Hexport.
  assert (combinators child0 ⊆ combinators node) as Hc0 by (apply combinators_child; rewrite Hch; left).
  assert (combinators child1 ⊆ combinators node) as Hc1 by (apply combinators_child; rewrite Hch; right; left).
  rewrite st_bind_unfold. specialize (H0 w).
  destruct (CreateFilterTree env child0 w) as [[r0 lhs] w0]. cbn [fst snd].
  destruct H0 as (n0 & a0 & l0 & Ht0 & Hf0 & Hh0 & Hok0 & Hl0 & Ha0). destruct (Failed r0) eqn:E0.
  { exists n0, a0, (live [lhs] ++ l0). split_and!; [done|done|constructor|congruence| |].
    - apply Forall_app_2; (eapply excused_all_mono; [exact Hc0|reflexivity|auto]).
    - intros x. rewrite Ha0, occurs_app. change (occurs x (live [0])) with 0%nat. lia. }
  rewrite (Hok0 eq_refl) in *. clear l0 Hok0 Hl0 Hh0.
  rewrite st_bind_unfold. specialize (H1 w0).
  destruct (CreateFilterTree env child1 w0) as [[r1 rhs] w1]. cbn [fst snd].
  destruct H1 as (n1 & a1 & l1 & Ht1 & Hf1 & Hh1 & Hok1 & Hl1 & Ha1). destruct (Failed r1) eqn:E1.
  - rewrite st_bind_unfold. eapply (close_accounts node child1 w w0 w1 n0 n1 a0 a1 l1 lhs rhs); try done.
    + intros E. rewrite E in Hexport. set_solver.
    + apply Forall_app_2; auto.
  - rewrite (Hok1 eq_refl) in *. clear l1 Hok1 Hl1 Hh1.
    pose proof (CreateBinaryFilter_run env (fn_kind node) lhs rhs w1) as Hr. cbv zeta in Hr.
    destruct (CreateBinaryFilter env (fn_kind node) lhs rhs w1) as [[r h] w2].
    eapply (combine_accounts node w w0 w1 w2 n0 n1 a0 a1 lhs rhs); eauto using binary_creates.
Qed.

Lemma not_accounts node child0 w :
  fn_kind node = Not -> fn_children node = [child0] ->
  (forall w, let '((r, h), w') := CreateFilterTree env child0 w in accounts child0 r h w w') ->
  let '((r, h), w') :=
    ('(result, child) ← CreateFilterTree env child0;
     if Failed result then mret (result, 0) else CreateNotFilter env child) w in
  accounts node r h w w'.
Proof.
  intros Hk Hch H0. pose proof (combinators_not node Hk) as Hexport.
  assert (combinators child0 ⊆ combinators node) as Hc0 by (apply combinators_child; rewrite Hch; left).
  rewrite st_bind_unfold. specialize (H0 w).
  destruct (CreateFilterTree env child0 w) as [[r0 child] w0]. cbn [fst snd].
  destruct H0 as (n0 & a0 & l0 & Ht0 & Hf0 & Hh0 & Hok0 & Hl0 & Ha0). destruct (Failed r0) eqn:E0.
  { exists n0, a0, (live [child] ++ l0). split_and!; [done|done|constructor|congruence| |].
    - apply Forall_app_2; (eapply excused_all_mono; [exact Hc0|reflexivity|auto]).
    - intros x. rewrite Ha0, occurs_app. change (occurs x (live [0])) with 0%nat. lia. }
  rewrite (Hok0 eq_refl) in *. clear l0 Hok0 Hl0 Hh0.
  pose proof (CreateNotFilter_run env child w0) as Hr. cbv zeta in Hr.
  destruct (CreateNotFilter env child w0) as [[r h] w1]. destruct (available _ _) eqn:Ea.
  - destruct Hr as (-> & -> & Ht1 & Hf1).
    set (reply := reply_of env "EspCreateNotFilter" [AHandle child] w0) in *.
    exists (n0 ++ [Called "EspCreateNotFilter" [AHandle child] reply]), (a0 ++ [child]), [].
    split_and!; [by rewrite Ht1, Ht0, <- app_assoc|by rewrite Hf1, Hf0, <- app_assoc| |done|constructor|].
    + apply failed_reply_excused with "EspCreateNotFilter" [AHandle child]; [set_solver|done].
    + intros x. specialize (Ha0 x).
      rewrite !omap_app, created_one, closed_not_creating, !live_app, !occurs_app by done.
      change (occurs x []) with 0%nat in *. lia.
  - destruct Hr as (-> & -> & Ht1 & Hf1). exists n0, a0, (live [child]).
    split_and!; [by rewrite Ht1|by rewrite Hf1|constructor|done| |].
    + apply live_excused. intros _. by eapply excused_combinator.
    + intros x. rewrite Ha0. change (occurs x (live [0])) with 0%nat. change (occurs x []) with 0%nat. lia.
Qed.

(** C17 Where the filters are after a predicate was built or could not be, for any
    library: each filter that was handed out is the returned root, is remembered for the
    disconnection, was closed, or is lost. A build that succeeds loses none. One that
    fails loses a filter, or returns one, only when the call that handed it out had
    failed, when the library lacks the export of a combinator of the predicate, or when
    it lacks [EspCloseFilter]. *)
Theorem CreateFilterTree_accounts node w :
  let '((r, h), w') := CreateFilterTree env node w in
  exists new added lost, w_trace w' = w_trace w ++ new /\
    filters (w_session w') = filters (w_session w) ++ added /\
    omap created_filter new ≡ₚ live (h :: added) ++ omap closed_filter new ++ lost /\
    (Failed r = false -> lost = []) /\
    (Failed r = true -> Forall (excused (env_api env) node new) (live [h] ++ lost)).
Proof.
  assert (forall w, let '((r, h), w') := CreateFilterTree env node w in accounts node r h w w') as H.
  2:{ specialize (H w). destruct (CreateFilterTree env node w) as [[r h] w'].
      destruct H as (new & added & lost & Ht & Hf & Hh & Hok & Hl & Ha). exists new, added, lost.
      split_and!; [done|done| |done|intros Hfail; apply Forall_app_2; auto]. apply perm_occurs. intros x.
      change (h :: added) with ([h] ++ added). rewrite live_app, !occurs_app, Ha. lia. }
  clear w. induction node as [k t c o p pn op v cn children IH] using FilterNode_tree_ind. intros w.
  assert (forall node r w', r = kInvalidArg -> w' = w -> accounts node r 0 w w') as Hinvalid.
  { intros node r w' -> ->. exists [], [], []. rewrite !app_nil_r. split_and!; try done; constructor. }
  destruct k; cbn [CreateFilterTree fn_kind fn_children];
    [exact (CreateLeafFilter_accounts (mkFilterNode Leaf t c o p pn op v cn children) w)|..];
    (destruct children as [|c0 [|c1 rest]];
     [by apply Hinvalid|rewrite Forall_singleton in IH|apply Forall_cons in IH as [H0 [H1 _]%Forall_cons]]).
  1, 3, 5, 8: by apply Hinvalid.
  - apply (binary_accounts (mkFilterNode And t c o p pn op v cn (c0 :: c1 :: rest)) c0 c1 rest w); cbn; set_solver.
  - apply (binary_accounts (mkFilterNode Or t c o p pn op v cn (c0 :: c1 :: rest)) c0 c1 rest w); cbn; set_solver.
  - apply (binary_accounts (mkFilterNode Xor t c o p pn op v cn (c0 :: c1 :: rest)) c0 c1 rest w); cbn; set_solver.
  - by apply (not_accounts (mkFilterNode Not t c o p pn op v cn [c0]) c0 w).
Qed.
End Accounts.

(** Without the export of a binary combinator its operands are lost: both were built, and
    after them nothing is called, closed or remembered. *)
Lemma missing_combinator_leaks {D} (env : Env D) node child0 child1 rest w :
  fn_kind node ∈ [And; Or; Xor] -> fn_children node = child0 :: child1 :: rest ->
  available (env_api env) (BinaryFilterExport (fn_kind node)) = false ->
  let '((r0, lhs), w0) := CreateFilterTree env child0 w in
  let '((r1, rhs), w1) := CreateFilterTree env child1 w0 in
  let '((r, h), w2) := CreateFilterTree env node w in
  Failed r0 = false -> Failed r1 = false ->
  r = kInvalidArg /\ h = 0 /\ w_trace w2 = w_trace w1 /\ filters (w_session w2) = filters (w_session w1).
Proof.
  destruct node as [k t c o p pn op v cn children]. cbn [fn_kind fn_children]. intros Hk -> Ha.
  pose proof (CreateFilterTree_binary env (mkFilterNode k t c o p pn op v cn (child0 :: child1 :: rest))
                child0 child1 rest Hk eq_refl) as ->.
  rewrite st_bind_unfold. destruct (CreateFilterTree env child0 w) as [[r0 lhs] w0]. cbn [fst snd].
  destruct (CreateFilterTree env child1 w0) as [[r1 rhs] w1] eqn:E1.
  destruct (Failed r0); [done|].
  rewrite st_bind_unfold, E1. cbn [fst snd]. destruct (Failed r1).
  - rewrite st_bind_unfold. by destruct (close_filter env lhs w1).
  - pose proof (CreateBinaryFilter_run env k lhs rhs w1) as Hr. cbv zeta in Hr. rewrite Ha in Hr.
    cbn [fn_kind]. by destruct (CreateBinaryFilter env k lhs rhs w1) as [[r h] w2].
Qed.

(** *** A build that fails half way *)

Definition example_leaf (ctor : Z) (value : string) : FilterNode :=
  mkFilterNode Leaf ctor 1 0 1 "" "" value "" [].

Definition example_tree : FilterNode :=
  mkFilterNode And 0 0 0 0 "" "" "" ""
    [example_leaf kFilterCtorProcess "a.exe"; example_leaf kFilterCtorFileObject "b.txt"].

Definition refuse_file_objects : string -> list Arg -> option EspResult :=
  fun export _ => if (export =? "EspCreateFileObjectFilter")%string then Some kAccessDenied else None.

(** The second operand is refused: the first is closed. *)
Example refused_operand_closes :
  (CreateFilterTree (example_env refuse_file_objects) example_tree example_world).1 = (kAccessDenied, 0) /\
  calls (CreateFilterTree (example_env refuse_file_objects) example_tree example_world).2 =
    [("EspCreateProcessFilter", [AWord 1; AWord 4; AString (mkString 1 1 10 (wide "a.exe"))]);
     ("EspCreateFileObjectFilter", [AWord 1; AWord 4; AString (mkString 1 1 10 (wide "b.txt"))]);
     ("EspCloseFilter", [AHandle 1000])].
Proof. split; vm_compute; reflexivity. Qed.

