(* ===== verification/Refs.v ===== *)
(** References, properties and collections (src/esptool/src/esp/EspRefs.cpp). *)
From S2P Require Import Prelude Text Core Events RuleModel MemoryView NotifyFormat Api NtPath Session.
From S2P Require Import FilterBuild.

Definition kCollectionTypeInteger : Z := 1.
Definition kCollectionTypeBinary : Z := 3.
Definition kCollectionLifetimeMin : Z := 1.
Definition kCollectionLifetimeMax : Z := 3.
Definition kPathDescriptorKindDos : Z := 1.
Definition kFileIdDescriptorKind : Z := 2.
Definition kContextKeyId : Z := 1.
Definition kContextKeySource : Z := 1.
Definition kContextKeyUpdateKind : Z := 1.
Definition kContextKeyValueType : Z := 0.
Definition kContextKeyEncodingEmpty : Z := 0.

(** [ContextKeyUpdateRaw{}]: its six words. *)
Definition context_key : list Z :=
  [kContextKeyId; kContextKeySource; kContextKeyUpdateKind; 0; kContextKeyValueType;
   kContextKeyEncodingEmpty].

Definition MakePathDescriptor (path : wstring) : Arg :=
  APath kPathDescriptorKindDos (Z.of_nat (length path) * 2) path.

(** ** Hexadecimal bytes *)

Definition hex_filler (c : ascii) : bool :=
  contains c [" "%char; "009"%char; "013"%char; "010"%char; "-"%char].

Fixpoint parse_pairs (l : list ascii) : option (list Z) :=
  match l with
  | [] => Some []
  | c :: d :: rest =>
      byte ← ParseUnsigned (of_chars ["0"%char; "x"%char; c; d]);
      if 255 <? byte then None else bytes ← parse_pairs rest; Some (byte :: bytes)
  | [_] => None
  end.

Definition ParseHexBytes (text : string) : option (list Z) :=
  let hex := List.filter (fun c => negb (hex_filler c)) (chars text) in
  if negb (nonempty hex) || negb (Nat.even (length hex)) then None else parse_pairs hex.

Section Refs.
  Context {D : Type} (env : Env D).
  Local Abbreviation M := (ST (World D)).

Fixpoint print_lines (lines : list string) : M unit :=
  match lines with [] => mret tt | line :: rest => printf line;; print_lines rest end.

(** ** References *)

(** Makes a reference and remembers it; the caller's slot is null on failure. *)
Definition adopt_reference (export : string) (args : list Arg) : M (option handle) :=
  h ← Adopt env export args;
  match h with
  | Some out => update (fun s => s <| object_refs ::= fun l => l ++ [out] |>);; mret (Some out)
  | None => mret None
  end.

(** The client and the export, with what else a creation requires. *)
Definition with_client (export : string) (required : bool) (create : handle -> M (option handle))
    : M (option handle) :=
  fn ← Require env export; client ← gets client_handle;
  if negb fn || negb (handle_ok client) || negb required then mret None else create client.

Definition CreatePidReference (export_name : string) (pid : Z) : M (option handle) :=
  with_client export_name true (fun client => adopt_reference export_name [AHandle client; AWord pid]).

Definition CreatePathReference (export_name : string) (path : wstring) : M (option handle) :=
  with_client export_name (nonempty path) (fun client =>
    update_storage (fun s => s <| path_storage ::= fun l => l ++ [path] |>);;
    adopt_reference export_name [AHandle client; MakePathDescriptor path]).

Definition CreateDesktopReference (name : wstring) : M (option handle) :=
  with_client "EspCreateDesktopReference" (nonempty name) (fun client =>
    update_storage (fun s => s <| path_storage ::= fun l => l ++ [name] |>);;
    adopt_reference "EspCreateDesktopReference" [AHandle client; AText name]).

Definition CreateVolumeReference (volume : Guid) : M (option handle) :=
  with_client "EspCreateVolumeReference" (negb (IsNull volume)) (fun client =>
    adopt_reference "EspCreateVolumeReference" [AHandle client; AGuid volume]).

Definition CreateFileIdReference (volume : Guid) (file_id : list Z) : M (option handle) :=
  with_client "EspCreateFileReferenceById" (negb (IsNull volume)) (fun client =>
    update_storage (fun s => s <| file_id_storage ::= fun l => l ++ [file_id] |>);;
    adopt_reference "EspCreateFileReferenceById"
      [AHandle client; AGuid volume; AFileId kFileIdDescriptorKind file_id]).

Definition CreateStreamByIdReference (volume : Guid) (file_id : list Z) (stream_name : wstring)
    : M (option handle) :=
  with_client "EspCreateFileStreamReferenceById" (negb (IsNull volume)) (fun client =>
    update_storage (fun s => s <| file_id_storage ::= fun l => l ++ [file_id] |>);;
    adopt_reference "EspCreateFileStreamReferenceById"
      [AHandle client; AGuid volume; AFileId kFileIdDescriptorKind file_id; AText stream_name]).

Definition CreateEventObjectById (event_object_id : Z) : M (option handle) :=
  with_client "EspCreateEventObjectReferenceById" (negb (event_object_id =? 0)) (fun client =>
    adopt_reference "EspCreateEventObjectReferenceById" [AHandle client; AWord event_object_id]).

Definition UnwrapReference (ref : handle) : M (option handle) :=
  fn ← Require env "EspGetEventObjectFromReference";
  if negb fn || negb (handle_ok ref) then mret None
  else Adopt env "EspGetEventObjectFromReference" [AHandle ref].

Definition DuplicateReference (ref : handle) : M (option handle) :=
  fn ← Require env "EspDuplicateEventObjectReference";
  if negb fn || negb (handle_ok ref) then mret None
  else adopt_reference "EspDuplicateEventObjectReference" [AHandle ref].

(** Closes a reference and clears it from the remembered ones. *)
Definition CloseReference (ref : handle) : M unit :=
  CloseHandle env "EspCloseEventObjectReference" ref;;
  update (fun s => s <| object_refs ::= fmap (fun stored => if stored =? ref then 0 else stored) |>).

(** The outcome and the value behind the out-parameter. *)
Definition GetEventObjectId (view : handle) : M (bool * Z) :=
  fn ← Require env "EspGetEventObjectId";
  if negb fn || negb (handle_ok view) then mret (false, 0)
  else
    '(ok, reply) ← Checked env "EspGetEventObjectId" [AHandle view];
    (if (ok : bool) then printf ("event-object-id " +:+ dec (u64 (re_count reply))) else mret tt);;
    mret (ok, u64 (re_count reply)).

Definition GetEventObjectType (view : handle) : M (bool * Z) :=
  fn ← Require env "EspGetEventObjectType";
  if negb fn || negb (handle_ok view) then mret (false, 0)
  else
    '(ok, reply) ← Checked env "EspGetEventObjectType" [AHandle view];
    (if (ok : bool) then printf ("event-object-type " +:+ dec (re_count reply)) else mret tt);;
    mret (ok, re_count reply).

Definition SetEventObjectContextKey (ref : handle) : M bool :=
  fn ← Require env "EspSetEventObjectContextKey";
  if negb fn || negb (handle_ok ref) then mret false
  else '(ok, _) ← Checked env "EspSetEventObjectContextKey" [AHandle ref; AContextKey context_key];
       mret ok.

Definition EnumerateEventObjectContextKeys (ref : handle) : M bool :=
  fn ← Require env "EspEnumerateAllEventObjectContextKeys";
  if negb fn || negb (handle_ok ref) then mret false
  else
    '(ok, reply) ← Checked env "EspEnumerateAllEventObjectContextKeys" [AHandle ref];
    printf ("event-object-context-keys " +:+ dec (re_count reply));;
    FreeEspBuffer env (re_out reply);; mret ok.

(** ** Properties *)

Definition IsPropertySupported (kind : string) (property_id : Z) : M (bool * Z) :=
  client ← gets client_handle;
  match SupportExportForKind kind with
  | None => mret (false, 0)
  | Some export_name =>
      if negb (handle_ok client) then mret (false, 0)
      else
        fn ← Require env export_name;
        if negb fn then mret (false, 0)
        else
          '(ok, reply) ← Checked env export_name [AHandle client; AWord property_id];
          printf ("property-supported " +:+ kind +:+ " " +:+ dec (u32 property_id) +:+ " " +:+ dec (u32 (re_count reply)));;
          mret (ok, re_count reply)
  end.

Definition QueryKind (kind : string) (view : handle) (ids : list Z) : M bool :=
  if (kind =? "event")%string then Warn "EspQueryEventProperties is not exported";; mret false
  else
    match QueryExportForKind kind with
    | None => Warn ("unknown query kind: " +:+ kind);; mret false
    | Some export_name =>
        fn ← Require env export_name;
        if negb fn then mret false
        else
          client ← gets client_handle;
          let is_client := (kind =? "client")%string in
          let object := if is_client then client else view in
          if negb (handle_ok object) then mret false
          else if negb (nonempty ids) then Warn "QueryKind requires count >= 1";; mret false
          else
            '(ok, reply) ← Checked env export_name
                             [AHandle object; AWord (Z.of_nat (length ids)); AWords ids];
            printf ("query " +:+ export_name +:+ " " +:+ hex_result (re_result reply) +:+
                    " buffer=" +:+ of_chars (hex_upper_fixed 16 (re_out reply)));;
            FreeEspBuffer env (re_out reply);; mret ok
    end.

(** ** Collections *)

Definition OpenNamedCollection (id : Guid) : M (option handle) :=
  fn ← Require env "EspOpenCollection"; client ← gets client_handle;
  if negb fn || negb (handle_ok client) || IsNull id then mret None
  else
    h ← Adopt env "EspOpenCollection" [AHandle client; AGuid id];
    match h with
    | Some out => update (fun s => s <| collections ::= fun l => l ++ [out] |>);; mret (Some out)
    | None => mret None
    end.

Definition EnumerateCollectionIds (lifetime : Z) : M (bool * Z * list Guid) :=
  fn ← Require env "EspEnumerateCollectionIds"; client ← gets client_handle;
  if negb fn || negb (handle_ok client) then mret (false, 0, [])
  else if (lifetime <? kCollectionLifetimeMin) || (kCollectionLifetimeMax <? lifetime) then
    Warn "EspEnumerateCollectionIds lifetime must be 1, 2, or 3";; mret (false, 0, [])
  else
    '(ok, reply) ← Checked env "EspEnumerateCollectionIds" [AHandle client; AWord lifetime];
    printf ("collection-ids lifetime=" +:+ dec lifetime +:+ " count=" +:+ dec (re_count reply));;
    let ids := if handle_ok (re_out reply) && (0 <? re_count reply)
               then take (Z.to_nat (re_count reply)) (re_guids reply) else [] in
    print_lines ((fun id => "collection-id " +:+ FormatGuid id) <$> ids);;
    FreeEspBuffer env (re_out reply);;
    mret (ok, re_count reply, ids).

(** One update of a collection; whether it succeeded. *)
Definition update_collection (collection : handle) (entry : Arg) : M bool :=
  '(ok, _) ← Checked env "EspUpdateCollection" [AHandle collection; AWord 0; AWord 1; entry];
  mret ok.

(** One entry of a document collection. *)
Definition install_entry (type : Z) (collection : handle) (entry_text : string) : M bool :=
  if type =? kCollectionTypeInteger then
    match ParseUnsigned entry_text with
    | None => Warn "integer collection entry is not a number";; mret false
    | Some parsed =>
        let entry := mkIntegerEntry kCollectionUpdateAdd (i64 parsed) in
        update_storage (fun s => s <| integer_entries ::= fun l => l ++ [entry] |>);;
        update_collection collection (AIntegerEntry entry)
    end
  else if type =? kCollectionTypeBinary then
    match ParseHexBytes entry_text with
    | None => Warn "binary collection entry is not hex";; mret false
    | Some bytes =>
        update_storage (fun s => s <| binary_storage ::= fun l => l ++ [bytes] |>);;
        let entry := mkBinaryEntry kCollectionUpdateAdd (u32 (Z.of_nat (length bytes))) bytes in
        update_storage (fun s => s <| binary_entries ::= fun l => l ++ [entry] |>);;
        update_collection collection (ABinaryEntry entry)
    end
  else
    let expanded := ExpandFilterValue (env_paths env) entry_text in
    if negb (nonempty expanded) then Warn "string collection entry is empty";; mret false
    else
      update_storage (fun s => s <| filter_strings ::= fun l => l ++ [expanded] |>);;
      let bytes := Z.of_nat (length expanded) * 2 in
      if (bytes =? 0) || (kMaxUtf16Bytes <? bytes) then mret false
      else
        let entry := mkCollectionEntry kCollectionUpdateAdd (u16 bytes) expanded in
        update_storage (fun s => s <| collection_entries ::= fun l => l ++ [entry] |>);;
        update_collection collection (ACollectionEntry entry).

(** All entries are tried, whatever the outcome of the earlier ones. *)
Fixpoint install_entries (type : Z) (collection : handle) (entries : list string) (all_ok : bool) : M bool :=
  match entries with
  | [] => mret all_ok
  | entry :: rest =>
      ok ← install_entry type collection entry;
      install_entries type collection rest (all_ok && ok)
  end.

(** One collection of the document: whether all went well, and its handle. *)
Definition install_collection (spec : CollectionSpec) : M (bool * option handle) :=
  if cs_open spec then
    if negb (cs_hasGuid spec) || IsNull (cs_guid spec) then
      Warn "open collection requires a guid";; mret (false, None)
    else
      h ← OpenNamedCollection (cs_guid spec);
      mret (match h with Some _ => true | None => false end, h)
  else
    h ← create_collection env (cs_type spec);
    match h with
    | None => mret (false, None)
    | Some collection =>
        ok ← install_entries (cs_type spec) collection (cs_entries spec) true;
        mret (ok, Some collection)
    end.

Fixpoint install_collections (specs : list CollectionSpec) (all_ok : bool) : M bool :=
  match specs with
  | [] => mret all_ok
  | spec :: rest =>
      '(ok, h) ← install_collection spec;
      (match h with
       | Some collection =>
           if negb (is_empty (cs_name spec))
           then update (fun s => s <| named_collections ::= fun l => l ++ [(cs_name spec, collection)] |>)
           else mret tt
       | None => mret tt
       end);;
      install_collections rest (all_ok && ok)
  end.

Definition InstallDocumentCollections (document : RuleDocument) : M bool :=
  create_fn ← Require env "EspCreateCollection"; update_fn ← Require env "EspUpdateCollection";
  client ← gets client_handle;
  if negb create_fn || negb update_fn || negb (handle_ok client)
  then mret (negb (nonempty (doc_collections document)))
  else install_collections (doc_collections document) true.

(** ** Exercising and querying *)

(** The collection [ExerciseCollectionsExtended] works on, [None] when a step of its
    creation fails. *)
Definition exercised_collection (create_type : Z) : M (option handle) :=
  if (create_type =? kCollectionTypeInteger) || (create_type =? kCollectionTypeBinary) then
    create_fn ← Require env "EspCreateCollection"; update_fn ← Require env "EspUpdateCollection";
    client ← gets client_handle;
    if negb create_fn || negb update_fn || negb (handle_ok client) then mret None
    else
      h ← create_collection env create_type;
      match h with
      | None => mret None
      | Some created =>
          ok ← (if create_type =? kCollectionTypeInteger then
                  let entry := mkIntegerEntry kCollectionUpdateAdd 42 in
                  update_storage (fun s => s <| integer_entries ::= fun l => l ++ [entry] |>);;
                  update_collection created (AIntegerEntry entry)
                else
                  let bytes := [0x65; 0x73; 0x70] in
                  update_storage (fun s => s <| binary_storage ::= fun l => l ++ [bytes] |>);;
                  let entry := mkBinaryEntry kCollectionUpdateAdd 3 bytes in
                  update_storage (fun s => s <| binary_entries ::= fun l => l ++ [entry] |>);;
                  update_collection created (ABinaryEntry entry));
          mret (if (ok : bool) then Some created else None)
      end
  else
    '(ok, created) ← CreateStringCollection env (wide "esptool-collection-entry");
    mret (if ok && handle_ok created then Some created else None).

(** A recorded call on a collection when its export is there, what is printed then, and its reply. *)
Definition inspect (export : string) (collection : handle) (lines : Reply -> list string) : M (option Reply) :=
  fn ← Require env export;
  if (fn : bool) then
    '(_, reply) ← Checked env export [AHandle collection]; print_lines (lines reply);; mret (Some reply)
  else mret None.

Definition ExerciseCollectionsExtended (lifetime : Z) (enum_ids do_open : bool) (open_id : option Guid)
    (create_type : Z) : M bool :=
  h ← exercised_collection create_type;
  match h with
  | None => mret false
  | Some created =>
      let id_of (reply : Reply) := from_option id null_guid (head (re_guids reply)) in
      id_reply ← inspect "EspGetCollectionId" created (fun reply =>
        if Succeeded (re_result reply) then ["collection-id " +:+ FormatGuid (id_of reply)] else []);
      let created_id := from_option id_of null_guid id_reply in
      inspect "EspGetCollectionType" created (fun reply => ["collection-type " +:+ dec (re_count reply)]);;
      entries ← inspect "EspEnumerateCollectionEntries" created
                  (fun reply => ["collection-entries " +:+ dec (re_count reply)]);
      (match entries with Some reply => FreeEspBuffer env (re_out reply) | None => mret tt end);;
      enumerated ← (if enum_ids then '(ok, _, _) ← EnumerateCollectionIds lifetime; mret ok else mret true);
      opened ← (if do_open then
                  h ← OpenNamedCollection (from_option id created_id open_id);
                  mret (match h with Some _ => true | None => false end)
                else mret true);
      mret (enumerated && opened)
  end.

Definition decode_keys (bytes : Z) : M (bool * NotificationKeys) :=
  system (fun d => (DecodeNotificationKeys (ToUtf8 (env_WideCharToMultiByte env)) bytes (env_view env d), d)).

(** The path a file event's name stands for. *)
Definition notification_path (name : string) : wstring :=
  if is_empty name then []
  else if LooksLikeNtDevicePath name then to_wide (env_paths env) name
  else
    let value := if starts_with_string "\" name && negb (LooksLikeNtPathPrefix name)
                 then kNtPathPrefix +:+ name else name in
    ExpandFilterValue (env_paths env) value.

(** The natural-key reference of a decoded notification. *)
Definition natural_reference (keys : NotificationKeys) : M (option handle) :=
  if IsFoIoEvent (nk_event_type keys) then
    let path := notification_path (nk_name keys) in
    h ← (if nonempty path then CreatePathReference "EspCreateFileReferenceByPath" path else mret None);
    fallback ← gets notify_fallback_path;
    h ← (match h with
         | Some h => mret (Some h)
         | None => if nonempty fallback
                   then CreatePathReference "EspCreateFileReferenceByPath" fallback else mret None
         end);
    match h with
    | Some h => mret (Some h)
    | None => Warn "QueryFromNotification Fo event has no usable path";; mret None
    end
  else
    fallback ← gets notify_fallback_pid;
    let pid := if nk_pid keys =? 0 then u32 fallback else nk_pid keys in
    if pid =? 0 then Warn "QueryFromNotification process event has pid 0";; mret None
    else CreatePidReference "EspCreateProcessReference" (i32 pid).

Fixpoint supported_each (kind : string) (properties : list Z) : M unit :=
  match properties with
  | [] => mret tt
  | property :: rest => IsPropertySupported kind property;; supported_each kind rest
  end.

(** What a recipe asks about the notification's object. *)
Definition run_recipe (recipe : QueryRecipe) (query_view context_ref : handle) : M unit :=
  let kind := qr_kind recipe in
  (if negb (is_empty kind) && negb (kind =? "event")%string && nonempty (qr_properties recipe)
   then _ ← QueryKind kind query_view (qr_properties recipe); mret tt else mret tt);;
  (if negb (is_empty kind) then
     supported_each kind (qr_properties recipe);;
     if (kind =? "event")%string && negb (nonempty (qr_properties recipe))
     then _ ← IsPropertySupported "event" 1; mret tt else mret tt
   else mret tt);;
  (if qr_context_set recipe then _ ← SetEventObjectContextKey context_ref; mret tt else mret tt);;
  (if qr_context_enum recipe then _ ← EnumerateEventObjectContextKeys context_ref; mret tt else mret tt).

(** A recipe of a rule applies unless both event types are known and differ. *)
Definition recipe_applies (event_type notified : Z) : bool :=
  negb (negb (event_type =? 0) && negb (notified =? 0) && negb (event_type =? notified)).

Fixpoint run_recipes (recipes : list (Z * QueryRecipe)) (notified query_view context_ref : Z) : M unit :=
  match recipes with
  | [] => mret tt
  | (event_type, recipe) :: rest =>
      (if recipe_applies event_type notified then run_recipe recipe query_view context_ref else mret tt);;
      run_recipes rest notified query_view context_ref
  end.

(** The event object behind its identifier: its reference and its view. *)
Definition reference_by_id (event_object_id : Z) : M (option handle * option handle) :=
  if event_object_id =? 0 then mret (None, None)
  else
    by_id ← CreateEventObjectById event_object_id;
    match by_id with
    | None => mret (None, None)
    | Some ref => view ← UnwrapReference ref; mret (Some ref, view)
    end.

Definition QueryFromNotification : M bool :=
  n ← gets notification; client ← gets client_handle;
  if negb (handle_ok n) || negb (handle_ok client) then mret false
  else
    '(decoded, keys) ← decode_keys n;
    if negb decoded then Warn "QueryFromNotification could not decode notification keys";; mret false
    else
      natural ← natural_reference keys;
      match natural with
      | None => mret false
      | Some natural =>
          view ← UnwrapReference natural;
          match view with
          | None => CloseReference natural;; mret true
          | Some view =>
              GetEventObjectType view;;
              '(_, event_object_id) ← GetEventObjectId view;
              '(by_id, by_id_view) ← reference_by_id event_object_id;
              let '(query_view, context_ref) :=
                match by_id, by_id_view with
                | Some ref, Some v => (v, ref) | _, _ => (view, natural) end in
              recipes ← gets notify_queries;
              run_recipes recipes (nk_event_type keys) query_view context_ref;;
              CloseReference (from_slot by_id);;
              CloseReference natural;;
              mret true
          end
      end.
End Refs.

(** * Theorems *)

(** ** Hexadecimal bytes *)

Lemma byte_pair b : 0 <= b < 256 ->
  ParseUnsigned (of_chars (["0"%char; "x"%char] ++ hex2 b)) = Some b.
Proof.
  intros Hb.
  assert (forallb (fun n => bool_decide
    (ParseUnsigned (of_chars (["0"%char; "x"%char] ++ hex2 (Z.of_nat n))) = Some (Z.of_nat n)))
    (seq 0 256) = true) as Hall by (vm_compute; reflexivity).
  rewrite forallb_forall in Hall. specialize (Hall (Z.to_nat b)).
  rewrite Z2Nat.id in Hall by lia. apply (bool_decide_eq_true_1 _), Hall, in_seq. lia.
Qed.

Lemma hex_digit_kept d : 0 <= d < 16 -> hex_filler (hex_digit d) = false.
Proof.
  intros Hd.
  assert (forallb (fun n => negb (hex_filler (hex_digit (Z.of_nat n)))) (seq 0 16) = true) as Hall
    by (vm_compute; reflexivity).
  rewrite forallb_forall in Hall. specialize (Hall (Z.to_nat d)).
  rewrite Z2Nat.id in Hall by lia. apply negb_true_iff, Hall, in_seq. lia.
Qed.

Lemma filter_hexs bytes :
  Forall is_byte bytes -> List.filter (fun c => negb (hex_filler c)) (hexs bytes) = hexs bytes.
Proof.
  induction 1 as [|b bytes Hb _ IH]; [done|]. change (hexs (b :: bytes)) with (hex2 b ++ hexs bytes).
  rewrite List.filter_app, IH. f_equal. apply byte_digits in Hb as [H1 H2].
  cbn. by rewrite !hex_digit_kept.
Qed.

Lemma parse_pairs_hexs bytes : Forall is_byte bytes -> parse_pairs (hexs bytes) = Some bytes.
Proof.
  induction 1 as [|b bytes Hb _ IH]; [done|]. change (hexs (b :: bytes)) with (hex2 b ++ hexs bytes).
  pose proof (byte_pair b Hb) as Hp. unfold is_byte in Hb.
  unfold hex2 in *. cbn [app parse_pairs] in *. rewrite Hp. cbn.
  destruct (255 <? b) eqn:E; [apply Z.ltb_lt in E; lia|]. by rewrite IH.
Qed.

(** A byte string written in hexadecimal is read back: the entries of a binary
    collection reach the library as the bytes the document names. *)
Lemma ParseHexBytes_hexs bytes :
  bytes <> [] -> Forall is_byte bytes -> ParseHexBytes (of_chars (hexs bytes)) = Some bytes.
Proof.
  intros Hne Hall. unfold ParseHexBytes. rewrite chars_of_chars, filter_hexs by done.
  rewrite hexs_length, Nat.even_mul. cbn [Nat.even orb negb]. rewrite orb_false_r.
  destruct bytes as [|b bytes]; [done|]. by apply parse_pairs_hexs.
Qed.

Lemma ParseHexBytes_hexs_witness :
  [0x65; 0x73; 0xFF] <> [] /\ ParseHexBytes "6573ff" = Some [0x65; 0x73; 0xFF].
Proof.
  split; [done|]. apply (ParseHexBytes_hexs [0x65; 0x73; 0xFF]); [done|].
  repeat (constructor; [unfold is_byte; lia|]). constructor.
Defined.

(** ** Frames *)

Section RefFrames.
  Context {D : Type} (env : Env D).

(** Installing collections stays away from the rules. *)
Local Abbreviation fr := (frames (event_allowed not_rule_call) rule_state).

Lemma open_collection_frames id : fr (OpenNamedCollection env id).
Proof. unfold OpenNamedCollection. frame. Qed.

Lemma install_entry_frames type collection entry : fr (install_entry env type collection entry).
Proof. unfold install_entry, update_collection. frame. Qed.

Lemma install_entries_frames type collection entries all_ok :
  fr (install_entries env type collection entries all_ok).
Proof.
  revert all_ok. induction entries as [|e entries IH]; intros all_ok; cbn [install_entries]; frame;
    [apply install_entry_frames|apply IH].
Qed.

Lemma install_collection_frames spec : fr (install_collection env spec).
Proof.
  unfold install_collection. frame;
    [apply open_collection_frames|apply create_collection_frames|apply install_entries_frames].
Qed.

Lemma install_collections_frames specs all_ok : fr (install_collections env specs all_ok).
Proof.
  revert all_ok. induction specs as [|s specs IH]; intros all_ok; cbn [install_collections]; frame;
    try (apply install_collection_frames); apply IH.
Qed.

Lemma InstallDocumentCollections_frames document : fr (InstallDocumentCollections env document).
Proof. unfold InstallDocumentCollections. frame. apply install_collections_frames. Qed.

(** *** The named collections *)

#[export] Instance named_quiet : Quiet named_collections. Proof. by split. Qed.

Local Abbreviation fn := (frames (event_allowed (fun _ => true)) named_collections).

Lemma install_entries_named type collection entries all_ok :
  fn (install_entries env type collection entries all_ok).
Proof.
  revert all_ok. induction entries as [|e entries IH]; intros all_ok; cbn [install_entries]; frame;
    [|apply IH]. unfold install_entry, update_collection. frame.
Qed.

Lemma install_collection_named spec : fn (install_collection env spec).
Proof.
  unfold install_collection, OpenNamedCollection, create_collection. frame;
    [apply frames_checked, WriteCollectionCreateDesc_some|apply install_entries_named].
Qed.

Lemma Adopt_handle export args w h : (Adopt env export args w).1 = Some h -> handle_ok h = true.
Proof.
  unfold Adopt. run. rewrite Call_run. run. destruct (Failed _); [done|].
  destruct (handle_ok _) eqn:E; cbn; [|done]. by intros [= <-].
Qed.

Lemma adopt_then_handle export args (f : handle -> Session -> Session) w h :
  ((h ← Adopt env export args;
    match h with Some out => update (f out);; mret (Some out) | None => mret None end) w).1 = Some h ->
  handle_ok h = true.
Proof.
  rewrite st_bind_unfold. pose proof (Adopt_handle export args w) as Ha.
  destruct (Adopt env export args w) as [[out|] w']; [|done]. intros [= <-]. by apply Ha.
Qed.

Lemma install_collection_handle spec w :
  let '(ok, h) := (install_collection env spec w).1 in
  (ok = true -> is_Some h) /\ (forall c, h = Some c -> handle_ok c = true).
Proof.
  unfold install_collection. destruct (cs_open spec).
  - destruct (_ || _); [done|]. rewrite st_bind_unfold. cbn.
    destruct (OpenNamedCollection env (cs_guid spec) w) as [h w'] eqn:E. cbn.
    split; [by destruct h|]. intros c ->. apply (f_equal fst) in E. cbn in E.
    unfold OpenNamedCollection in E. revert E. rewrite st_bind_unfold. rewrite st_bind_unfold.
    destruct (_ || _ || _); [done|]. apply adopt_then_handle.
  - rewrite st_bind_unfold. destruct (create_collection env (cs_type spec) w) as [h w'] eqn:E.
    cbn [fst snd]. destruct h as [c|]; [|done]. rewrite st_bind_unfold. cbn.
    split; [done|]. intros c' [= ->]. apply (f_equal fst) in E. cbn in E.
    unfold create_collection in E. revert E. rewrite st_bind_unfold. rewrite st_bind_unfold.
    apply adopt_then_handle.
Qed.

Lemma install_collections_named specs all_ok w :
  let '(ok, w') := install_collections env specs all_ok w in
  exists added, named_collections (w_session w') = named_collections (w_session w) ++ added /\
    Forall (fun e => handle_ok e.2 = true) added /\
    (ok = true -> all_ok = true /\
       added.*1 = List.filter (fun name => negb (is_empty name)) (cs_name <$> specs)).
Proof.
  revert all_ok w. induction specs as [|spec specs IH]; intros all_ok w; cbn [install_collections].
  { exists []. rewrite app_nil_r. done. }
  rewrite st_bind_unfold. pose proof (install_collection_handle spec w) as Hh.
  pose proof (install_collection_named spec w) as [_ Hk].
  destruct (install_collection env spec w) as [[ok h] w1]. cbn [fst snd] in *. destruct Hh as [Hsome Hok].
  rewrite st_bind_unfold. cbn [fst snd].
  match goal with |- context [(?m w1).2] => set (w2 := (m w1).2) end.
  specialize (IH (all_ok && ok) w2).
  destruct (install_collections _ _ _ _) as [all w']. destruct IH as (added & Hn & Hall & Hall_ok).
  assert (exists here, named_collections (w_session w2) = named_collections (w_session w) ++ here /\
    Forall (fun e => handle_ok e.2 = true) here /\
    (ok = true -> here.*1 = List.filter (fun name => negb (is_empty name)) [cs_name spec]))
    as (here & Hn2 & Hhere & Hnames).
  { subst w2. destruct h as [c|].
    - specialize (Hok c eq_refl). cbn [List.filter]. destruct (negb (is_empty (cs_name spec))) eqn:E.
      + exists [(cs_name spec, c)]. rewrite <- Hk. split; [reflexivity|]. split; [by constructor|done].
      + exists []. cbn. by rewrite Hk, app_nil_r.
    - exists []. cbn. rewrite Hk, app_nil_r. split; [done|]. split; [done|]. intros E.
      destruct (Hsome E) as [? [=]]. }
  exists (here ++ added). rewrite Hn, Hn2, app_assoc. split; [done|].
  split; [by apply Forall_app|]. intros E. destruct (Hall_ok E) as [Hboth Ha].
  apply andb_true_iff in Hboth as [-> ->]. split; [done|].
  rewrite fmap_app, Ha, (Hnames eq_refl), fmap_cons. cbn [List.filter].
  by destruct (negb (is_empty (cs_name spec))).
Qed.

(** When the collections of a document are installed without an error, exactly
    the named ones can be found, in document order, and each stands for a non-null
    handle: no filter that names one falls back to an empty comparand. *)
Lemma InstallDocumentCollections_named document w :
  let '(ok, w') := InstallDocumentCollections env document w in
  exists added, named_collections (w_session w') = named_collections (w_session w) ++ added /\
    Forall (fun e => handle_ok e.2 = true) added /\
    (ok = true ->
       added.*1 = List.filter (fun name => negb (is_empty name)) (cs_name <$> doc_collections document)).
Proof.
  unfold InstallDocumentCollections. rewrite st_bind_unfold, Require_run. cbn [fst snd].
  rewrite st_bind_unfold, Require_run. cbn [fst snd]. rewrite st_bind_unfold. cbn [gets fst snd].
  set (w1 := warned env _ (warned env _ w)).
  assert (named_collections (w_session w1) = named_collections (w_session w)) as Hn1
    by (unfold w1; by rewrite !(warned_quiet env named_collections)).
  destruct (_ || _ || _).
  - cbn. exists []. rewrite Hn1, app_nil_r. split; [done|]. split; [done|].
    by destruct (doc_collections document).
  - pose proof (install_collections_named (doc_collections document) true w1) as H.
    destruct (install_collections _ _ _ _) as [ok w']. destruct H as (added & Hn & Hall & Hok).
    exists added. rewrite Hn, Hn1. split; [done|]. split; [done|]. intros E. by apply Hok.
Qed.
End RefFrames.
