(* ===== verification/Pump.v ===== *)
(** The notification pumps (src/esptool/src/esp/EspSession.cpp). The library's
    callback runs on a thread of its own; here it runs during the wait, which is the
    only place where the pump looks at what it changed. *)
From S2P Require Import Prelude Text Core Events RuleModel MemoryView NotifyFormat Api NtPath Session.
From S2P Require Import FilterBuild Refs.

Definition WAIT_OBJECT_0 : Z := 0.

Section Pump.
  Context {D : Type} (env : Env D).
  Local Abbreviation M := (ST (World D)).

(** The event it signals is part of what [env_WaitForSingleObject] answers. *)
Definition HandleQueueNotification (n : handle) : M unit :=
  if handle_ok n then update (fun s => s <| notification := n |>) else mret tt.

(** [OnQueueNotification], for each notification the library delivers. *)
Fixpoint OnQueueNotifications (l : list handle) : M unit :=
  match l with
  | [] => mret tt
  | n :: rest => HandleQueueNotification n;; OnQueueNotifications rest
  end.

Definition WaitForSingleObject (event : handle) (milliseconds : Z) : M Z :=
  '(r, delivered) ← system (env_WaitForSingleObject env event milliseconds);
  OnQueueNotifications delivered;;
  mret r.

(** The text of a notification, as the process memory is now. *)
Definition notification_line (bytes index : Z) : M string :=
  if handle_ok bytes then
    system (fun d => (FormatQueueNotification (ToUtf8 (env_WideCharToMultiByte env)) bytes index
                        (env_view env d), d))
  else mret (FormatEmptyNotificationLine index).

Definition EmitCompleteAndRearm (max_notifications : Z) : M bool :=
  bytes ← gets notification;
  update (fun s => s <| notifications_received ::= fun n => u32 (n + 1) |>);;
  received ← gets notifications_received;
  line ← notification_line bytes received;
  LogInfo line;;
  RecordStep "notification" kOk None;;
  queries ← gets notify_queries;
  (if nonempty queries then _ ← QueryFromNotification env; mret tt else mret tt);;
  completed ← CompleteNotification env;
  if negb completed then mret false
  else
    received ← gets notifications_received;
    if max_notifications <=? received then mret false else ArmNotification env.

Definition ConsumeNotification (wait_event deadline max_notifications : Z) : M bool :=
  now ← system (env_GetTickCount64 env);
  if deadline <=? now then mret false
  else
    r ← WaitForSingleObject wait_event (u32 (deadline - now));
    if negb (r =? WAIT_OBJECT_0) then mret false else EmitCompleteAndRearm max_notifications.

(** [while (notifications_received_ < max_notifications)]: runs [body] until it
    says to stop. *)
Fixpoint pump_loop (fuel : nat) (max_notifications : Z) (body : M bool) : M unit :=
  match fuel with
  | O => mret tt
  | S fuel =>
      received ← gets notifications_received;
      if received <? max_notifications then
        continue ← body;
        if (continue : bool) then pump_loop fuel max_notifications body else mret tt
      else mret tt
  end.

(** Every turn that goes on has received one more notification. *)
Definition pump_fuel (max_notifications : Z) : nat := Z.to_nat max_notifications.

Definition PumpNotifications (milliseconds max_notifications : Z) : M unit :=
  update (fun s => s <| notifications_received := 0 |>);;
  queue ← gets queue_handle;
  if negb (handle_ok queue) then
    Warn "PumpNotifications has no created event queue; holding without pumping";;
    (if 0 <? milliseconds then system (fun d => (tt, env_sleep env milliseconds d)) else mret tt)
  else
    connected ← ConnectQueueToCallback env;
    if negb connected then mret tt
    else
      event ← system (env_CreateEvent env);
      if negb (handle_ok event) then Warn "could not create the notification wait event"
      else
        update (fun s => s <| pump_event := event |>);;
        armed ← ArmNotification env;
        if negb armed then update (fun s => s <| pump_event := 0 |>)
        else
          now ← system (env_GetTickCount64 env);
          let deadline := u64 (now + milliseconds) in
          pump_loop (pump_fuel max_notifications) max_notifications
            (ConsumeNotification event deadline max_notifications);;
          update (fun s => s <| pump_event := 0 |>);;
          received ← gets notifications_received;
          LogInfo ("notification pump received " +:+ dec received).

(** One turn of the completion-port pump. *)
Definition ConsumeCompletion (port deadline max_notifications : Z) : M bool :=
  now ← system (env_GetTickCount64 env);
  if deadline <=? now then mret false
  else
    overlapped ← system (env_GetQueuedCompletionStatus env port (u32 (deadline - now)));
    match overlapped with
    | None => mret false
    | Some overlapped =>
        n ← gets notification;
        (if handle_ok n then mret tt else update (fun s => s <| notification := overlapped |>));;
        EmitCompleteAndRearm max_notifications
    end.

Definition PumpNotificationsIocp (milliseconds max_notifications : Z) : M unit :=
  update (fun s => s <| notifications_received := 0 |>);;
  queue ← gets queue_handle;
  if negb (handle_ok queue) then Warn "PumpNotificationsIocp requires a created event queue"
  else
    '(ok, port) ← CreateIocpQueue env;
    if negb ok then mret tt
    else
      armed ← ArmNotification env;
      if negb armed then mret tt
      else
        now ← system (env_GetTickCount64 env);
        let deadline := u64 (now + milliseconds) in
        pump_loop (pump_fuel max_notifications) max_notifications
          (ConsumeCompletion port deadline max_notifications);;
        received ← gets notifications_received;
        LogInfo ("iocp pump received " +:+ dec received).
End Pump.

(** * Theorems *)

(** An arming is [true], a completion [false]; the other calls are not turns. *)
Definition turn (e : Event) : option bool :=
  match e with
  | Called export _ _ =>
      if (export =? "EspArmEventNotification")%string then Some true
      else if (export =? "EspCompleteEventNotification")%string then Some false else None
  | OutOfBounds => None
  end.

Definition turns {D} (w : World D) : list bool := omap turn (w_trace w).

(** The values alternate, from [b] on. *)
Fixpoint alternates (b : bool) (l : list bool) : Prop :=
  match l with [] => True | x :: rest => x = b /\ alternates (negb b) rest end.

Definition other_call (export : string) : bool :=
  negb (export =? "EspArmEventNotification")%string &&
  negb (export =? "EspCompleteEventNotification")%string.

#[export] Instance received_quiet : Quiet notifications_received. Proof. by split. Qed.

Lemma export_for_in table kind export : export_for table kind = Some export -> export ∈ table.*2.
Proof.
  unfold export_for. destruct (find_first _ _) as [[k e]|] eqn:E; [|done]. intros [= <-].
  apply find_first_In in E as [Hin _]. apply list_elem_of_fmap. by exists (k, e).
Qed.

Lemma kind_exports_other export :
  export ∈ query_exports.*2 ++ support_exports.*2 -> other_call export = true.
Proof.
  assert (Forall (fun e => other_call e = true) (query_exports.*2 ++ support_exports.*2)) as Hall
    by (repeat constructor).
  rewrite Forall_forall in Hall. auto.
Qed.

Section Pumping.
  Context {D : Type} (env : Env D).
  Implicit Types (w : World D).
  Local Abbreviation fq := (frames (event_allowed other_call) notifications_received).

Lemma free_buffer_frames buffer : fq (FreeEspBuffer env buffer).
Proof. unfold FreeEspBuffer. frame. Qed.

Lemma close_reference_frames ref : fq (CloseReference env ref).
Proof. unfold CloseReference, CloseHandle. frame. Qed.

Lemma unwrap_frames ref : fq (UnwrapReference env ref).
Proof. unfold UnwrapReference. frame. Qed.

Lemma by_id_frames id : fq (reference_by_id env id).
Proof.
  unfold reference_by_id, CreateEventObjectById, with_client, adopt_reference. frame. apply unwrap_frames.
Qed.

Lemma natural_reference_frames keys : fq (natural_reference env keys).
Proof.
  unfold natural_reference, CreatePathReference, CreatePidReference, with_client, adopt_reference. frame.
Qed.

Lemma query_kind_frames kind view ids : fq (QueryKind env kind view ids).
Proof.
  unfold QueryKind. destruct (_ =? _)%string; [frame|].
  destruct (QueryExportForKind kind) as [export|] eqn:E; [|frame].
  apply export_for_in in E. frame; [|apply free_buffer_frames].
  apply kind_exports_other, elem_of_app; auto.
Qed.

Lemma supported_frames kind id : fq (IsPropertySupported env kind id).
Proof.
  unfold IsPropertySupported. destruct (SupportExportForKind kind) as [export|] eqn:E; [|frame].
  apply export_for_in in E. frame. apply kind_exports_other, elem_of_app; auto.
Qed.

Lemma supported_each_frames kind ids : fq (supported_each env kind ids).
Proof. induction ids as [|id ids IH]; cbn [supported_each]; frame; [apply supported_frames|apply IH]. Qed.

Lemma run_recipe_frames recipe view ref : fq (run_recipe env recipe view ref).
Proof.
  unfold run_recipe, SetEventObjectContextKey, EnumerateEventObjectContextKeys. frame;
    first [apply query_kind_frames|apply supported_each_frames|apply supported_frames|apply free_buffer_frames].
Qed.

Lemma run_recipes_frames recipes notified view ref : fq (run_recipes env recipes notified view ref).
Proof.
  induction recipes as [|[event_type recipe] recipes IH]; cbn [run_recipes]; frame;
    [apply run_recipe_frames|apply IH..].
Qed.

Lemma QueryFromNotification_frames : fq (QueryFromNotification env).
Proof.
  unfold QueryFromNotification, decode_keys, GetEventObjectType, GetEventObjectId. frame;
    first [apply natural_reference_frames|apply unwrap_frames|apply close_reference_frames
          |apply by_id_frames|apply run_recipes_frames].
Qed.

Lemma deliver_frames l : fq (OnQueueNotifications (D:=D) l).
Proof.
  induction l as [|n l IH]; cbn [OnQueueNotifications]; [frame|]. unfold HandleQueueNotification.
  frame; apply IH.
Qed.

Lemma framed_turns w w' :
  framed (event_allowed other_call) notifications_received w w' ->
  turns w' = turns w /\ notifications_received (w_session w') = notifications_received (w_session w).
Proof.
  intros [(new & Ht & Hall) Hk]. split; [|done]. unfold turns. rewrite Ht, omap_app.
  assert (omap turn new = []) as ->; [|by rewrite app_nil_r].
  clear Ht. induction Hall as [|[export args reply|] new He _ IH]; [done| |done]. simpl in He.
  apply andb_true_iff in He as [H1%negb_true_iff H2%negb_true_iff]. simpl. rewrite H1, H2. exact IH.
Qed.

(** Completing and arming: the outcome, the turns and the count. *)
Lemma CompleteNotification_turns w :
  let '(ok, w') := CompleteNotification env w in
  notifications_received (w_session w') = notifications_received (w_session w) /\
  ((ok = false /\ turns w' = turns w) \/ turns w' = turns w ++ [false]).
Proof.
  unfold CompleteNotification. rewrite st_bind_unfold, Require_run. cbn [fst snd].
  rewrite st_bind_unfold. cbn [gets fst snd].
  destruct (_ || _).
  - cbn. split; [exact (warned_quiet env notifications_received _ w)|]. left.
    split; [done|]. unfold turns. by rewrite warned_trace.
  - rewrite st_bind_unfold. unfold Checked. run. rewrite Call_run. run. unfold RecordStep. run.
    split; [exact (warned_quiet env notifications_received _ w)|]. right.
    unfold turns, called. cbn. by rewrite omap_app, warned_trace.
Qed.

Lemma arm_turns w n queue :
  let '(armed, w') := (reply ← Call env "EspArmEventNotification" [AHandle queue; AWord n];
      let armed := Succeeded (re_result reply) || (re_result reply =? kIoPending) in
      RecordStep "EspArmEventNotification" (re_result reply) (Some armed);; mret armed) w in
  notifications_received (w_session w') = notifications_received (w_session w) /\
  turns w' = turns w ++ [true].
Proof.
  run. rewrite Call_run. run. unfold RecordStep. run. cbn. split; [done|].
  unfold turns, called. cbn. by rewrite omap_app.
Qed.

Lemma ArmNotification_turns w :
  let '(armed, w') := ArmNotification env w in
  notifications_received (w_session w') = notifications_received (w_session w) /\
  ((armed = false /\ turns w' = turns w) \/ turns w' = turns w ++ [true]).
Proof.
  unfold ArmNotification.
  rewrite st_bind_unfold, Require_run. cbn [fst snd]. rewrite st_bind_unfold, Require_run. cbn [fst snd].
  rewrite st_bind_unfold. cbn [gets fst snd].
  set (w1 := warned env _ (warned env _ w)).
  assert (turns w1 = turns w) as Ht by (unfold w1, turns; by rewrite !warned_trace).
  assert (notifications_received (w_session w1) = notifications_received (w_session w)) as Hr
    by (unfold w1; by rewrite !(warned_quiet env notifications_received)).
  clearbody w1. destruct (_ || _ || _); [cbn; auto|].
  rewrite st_bind_unfold. cbn [gets fst snd]. rewrite st_bind_unfold.
  assert (forall w2 (b : bool), turns w2 = turns w -> 
    notifications_received (w_session w2) = notifications_received (w_session w) ->
    let '(armed, w') := (if negb b then mret false else
      n ← gets notification;
      reply ← Call env "EspArmEventNotification" [AHandle (queue_handle (w_session w1)); AWord n];
      let armed := Succeeded (re_result reply) || (re_result reply =? kIoPending) in
      RecordStep "EspArmEventNotification" (re_result reply) (Some armed);; mret armed) w2 in
    notifications_received (w_session w') = notifications_received (w_session w) /\
    ((armed = false /\ turns w' = turns w) \/ turns w' = turns w ++ [true])) as Hrest.
  { intros w2 b Ht2 Hr2. destruct b; cbn [negb]; [|cbn; auto]. rewrite st_bind_unfold. cbn [gets fst snd].
    pose proof (arm_turns w2 (notification (w_session w2)) (queue_handle (w_session w1))) as Ha.
    rewrite Ht2, Hr2 in Ha. match type of Ha with context [match ?m with pair _ _ => _ end] => destruct m end.
    naive_solver. }
  destruct (handle_ok (notification (w_session w1))); [by apply (Hrest w1 true)|].
  rewrite st_bind_unfold, Call_run. cbn [fst snd].
  assert (turns (called env "EspAllocateEventNotification" [] w1) = turns w) as Ht2.
  { rewrite <- Ht. unfold turns, called. cbn. rewrite omap_app. cbn. by rewrite app_nil_r. }
  destruct (handle_ok (re_out _)); cbn [negb].
  - rewrite st_bind_unfold. cbn [update fst snd]. rewrite st_bind_unfold.
    cbn [RecordStep update fst snd mret st_ret]. by apply (Hrest _ true).
  - rewrite st_bind_unfold. cbn [RecordStep update fst snd mret st_ret]. by apply (Hrest _ false).
Qed.

(** A computation outside the protocol changes neither the turns nor the count. *)
Lemma frame_wp {A B} (P : B * World D -> Prop) (m : ST (World D) A) (f : A -> ST (World D) B) w :
  fq m ->
  (forall a w', turns w' = turns w ->
     notifications_received (w_session w') = notifications_received (w_session w) -> P (f a w')) ->
  P ((m ≫= f) w).
Proof.
  intros Hm Hf. rewrite st_bind_unfold. destruct (framed_turns _ _ (Hm w)) as [Ht Hr]. by apply Hf.
Qed.

(** What one handled notification adds: it is counted, and completed before the next
    one is armed. *)
Definition emitted (max_notifications : Z) w (x : bool * World D) : Prop :=
  let '(continue, w') := x in
  notifications_received (w_session w') = u32 (notifications_received (w_session w) + 1) /\
  exists l, turns w' = turns w ++ l /\ l ∈ [[]; [false]; [false; true]] /\
    (continue = true -> l = [false; true] /\ u32 (notifications_received (w_session w) + 1) < max_notifications).

Lemma EmitCompleteAndRearm_turns max_notifications w :
  emitted max_notifications w (EmitCompleteAndRearm env max_notifications w).
Proof.
  unfold EmitCompleteAndRearm.
  rewrite st_bind_unfold. cbn [gets fst snd]. rewrite st_bind_unfold. cbn [update fst snd].
  match goal with |- context [mkWorld ?s ?d ?t ?l ?p] => set (w1 := mkWorld s d t l p) end.
  set (r := u32 (notifications_received (w_session w) + 1)).
  assert (turns w1 = turns w) as Ht by done.
  assert (notifications_received (w_session w1) = r) as Hr by done. clearbody w1.
  apply frame_wp; [frame|]. intros got w2 Ht2 Hr2.
  apply frame_wp; [unfold notification_line; frame|]. intros line w3 Ht3 Hr3.
  apply frame_wp; [frame|]. intros [] w4 Ht4 Hr4.
  apply frame_wp; [frame|]. intros [] w5 Ht5 Hr5.
  apply frame_wp; [frame|]. intros queries w6 Ht6 Hr6.
  apply frame_wp; [frame; apply QueryFromNotification_frames|]. intros [] w7 Ht7 Hr7.
  rewrite st_bind_unfold. pose proof (CompleteNotification_turns w7) as Hc.
  destruct (CompleteNotification env w7) as [completed w8]. cbn [fst snd]. destruct Hc as [Hr8 Hc].
  assert (turns w7 = turns w) as Ht_w by congruence.
  assert (notifications_received (w_session w8) = r) as Hr_w by congruence.
  destruct completed; cbn [negb].
  2:{ split; [done|]. destruct Hc as [[_ Hc]|Hc]; rewrite Ht_w in Hc.
      - exists []. rewrite app_nil_r. split; [done|]. split; [set_solver|done].
      - exists [false]. split; [done|]. split; [set_solver|done]. }
  destruct Hc as [[? _]|Hc]; [done|]. rewrite Ht_w in Hc.
  rewrite st_bind_unfold. cbn [gets fst snd]. rewrite Hr_w.
  destruct (max_notifications <=? r) eqn:Emax.
  { split; [done|]. exists [false]. split; [done|]. split; [set_solver|done]. }
  apply Z.leb_gt in Emax.
  pose proof (ArmNotification_turns w8) as Ha. destruct (ArmNotification env w8) as [armed w9].
  destruct Ha as [Hr9 Ha]. split; [by rewrite Hr9|]. destruct Ha as [[-> Ha]|Ha]; rewrite Hc in Ha.
  - exists [false]. split; [done|]. split; [set_solver|done].
  - exists [false; true]. split; [by rewrite Ha, <- app_assoc|]. split; [set_solver|done].
Qed.

(** *** The loop *)

(** A turn of either pump: it stops without a turn, or it handles one notification. *)
Definition pump_turn (max_notifications : Z) (body : ST (World D) bool) : Prop :=
  forall w, let '(continue, w') := body w in
  (continue = false /\ turns w' = turns w /\
   notifications_received (w_session w') = notifications_received (w_session w)) \/
  emitted max_notifications w (continue, w').

Definition turn_of max_notifications w (x : bool * World D) : Prop :=
  let '(continue, w') := x in
  (continue = false /\ turns w' = turns w /\
   notifications_received (w_session w') = notifications_received (w_session w)) \/
  emitted max_notifications w (continue, w').

Lemma emitted_later max_notifications w w' x :
  turns w' = turns w -> notifications_received (w_session w') = notifications_received (w_session w) ->
  emitted max_notifications w' x -> turn_of max_notifications w x.
Proof.
  intros Ht Hr H. destruct x as [continue w2]. right. unfold emitted in *. by rewrite Ht, Hr in H.
Qed.

Lemma wait_frames event milliseconds : fq (WaitForSingleObject env event milliseconds).
Proof. unfold WaitForSingleObject. frame. apply deliver_frames. Qed.

Lemma ConsumeNotification_turn event deadline max_notifications :
  pump_turn max_notifications (ConsumeNotification env event deadline max_notifications).
Proof.
  intros w. change (turn_of max_notifications w (ConsumeNotification env event deadline max_notifications w)).
  unfold ConsumeNotification. apply frame_wp; [frame|]. intros now w1 Ht1 Hr1.
  destruct (deadline <=? now); [by left|].
  apply frame_wp; [apply wait_frames|]. intros r w2 Ht2 Hr2.
  destruct (negb _); [left; repeat split; congruence|].
  eapply emitted_later; [..|apply EmitCompleteAndRearm_turns]; congruence.
Qed.

Lemma ConsumeCompletion_turn port deadline max_notifications :
  pump_turn max_notifications (ConsumeCompletion env port deadline max_notifications).
Proof.
  intros w. change (turn_of max_notifications w (ConsumeCompletion env port deadline max_notifications w)).
  unfold ConsumeCompletion. apply frame_wp; [frame|]. intros now w1 Ht1 Hr1.
  destruct (deadline <=? now); [by left|].
  apply frame_wp; [frame|]. intros [overlapped|] w2 Ht2 Hr2; [|left; repeat split; congruence].
  apply frame_wp; [frame|]. intros n w3 Ht3 Hr3.
  apply frame_wp; [frame|]. intros [] w4 Ht4 Hr4.
  eapply emitted_later; [..|apply EmitCompleteAndRearm_turns]; congruence.
Qed.

Lemma alternates_pair l : alternates false l -> alternates false ([false; true] ++ l).
Proof. done. Qed.

(** The loop: the turns it adds alternate from a completion on, two at most for each
    notification counted, and no more than the maximum are counted. *)
Lemma pump_loop_turns max_notifications body fuel w :
  pump_turn max_notifications body -> max_notifications <= u32_max ->
  0 <= notifications_received (w_session w) <= max_notifications ->
  let w' := (pump_loop fuel max_notifications body w).2 in
  exists l, turns w' = turns w ++ l /\ alternates false l /\
    notifications_received (w_session w) <= notifications_received (w_session w') <= max_notifications /\
    Z.of_nat (length l) <= 2 * (notifications_received (w_session w') - notifications_received (w_session w)).
Proof.
  intros Hbody Hmax. cbv zeta. revert w. induction fuel as [|fuel IH]; intros w Hw; cbn [pump_loop].
  { exists []. rewrite app_nil_r. cbn. repeat split; lia. }
  rewrite st_bind_unfold. cbn [gets fst snd]. destruct (_ <? _) eqn:Elt.
  2:{ exists []. rewrite app_nil_r. cbn. repeat split; lia. }
  apply Z.ltb_lt in Elt. rewrite st_bind_unfold. specialize (Hbody w).
  destruct (body w) as [continue w1]. cbn [fst snd].
  destruct Hbody as [(-> & Ht1 & Hr1)|[Hr1 (l & Ht1 & Hl & Hgo)]].
  { exists []. cbn. rewrite Ht1, Hr1, app_nil_r. repeat split; lia. }
  rewrite u32_small in Hr1, Hgo by lia. destruct continue.
  - destruct Hgo as [-> Hlt]; [done|]. destruct (IH w1) as (l & Ht & Ha & Hr & Hlen); [lia|].
    exists ([false; true] ++ l). rewrite Ht, Ht1, app_assoc. split; [done|]. split; [done|].
    split; [lia|]. rewrite length_app. cbn [length]. lia.
  - assert (l = [] \/ l = [false] \/ l = [false; true]) as Hcases by set_solver.
    exists l. cbn. destruct Hcases as [->|[->| ->]]; cbn; repeat split; try done; lia.
Qed.

(** The fuel is enough: more of it changes nothing. *)
Lemma pump_loop_fuel max_notifications body fuel extra w :
  pump_turn max_notifications body -> max_notifications <= u32_max ->
  0 <= notifications_received (w_session w) ->
  max_notifications - notifications_received (w_session w) <= Z.of_nat fuel ->
  pump_loop (fuel + extra) max_notifications body w = pump_loop fuel max_notifications body w.
Proof.
  intros Hbody Hmax. revert w. induction fuel as [|fuel IH]; intros w Hw Hfuel.
  { destruct extra; [done|]. cbn [pump_loop Nat.add]. rewrite st_bind_unfold. cbn [gets fst snd].
    destruct (_ <? _) eqn:E; [lia|done]. }
  cbn [pump_loop Nat.add]. rewrite !st_bind_unfold. cbn [gets fst snd].
  destruct (_ <? _) eqn:Elt; [|done]. apply Z.ltb_lt in Elt. rewrite !st_bind_unfold.
  specialize (Hbody w). destruct (body w) as [continue w1]. cbn [fst snd].
  destruct continue; [|done].
  destruct Hbody as [(? & _)|[Hr1 _]]; [done|]. rewrite u32_small in Hr1 by lia. apply IH; lia.
Qed.

(** *** The pumps *)

Definition protocol (max_notifications : Z) w (x : unit * World D) : Prop :=
  exists l, turns x.2 = turns w ++ l /\ alternates true l /\
    0 <= notifications_received (w_session x.2) <= max_notifications /\
    Z.of_nat (length l) <= 2 * notifications_received (w_session x.2) + 1.

Lemma protocol_idle max_notifications w w' u :
  0 <= max_notifications -> turns w' = turns w -> notifications_received (w_session w') = 0 ->
  protocol max_notifications w (u, w').
Proof.
  intros Hmax Ht Hr. exists []. cbn [fst snd]. rewrite Ht, Hr, app_nil_r. repeat split; cbn; lia.
Qed.

Lemma protocol_bind {A} max_notifications w w1 (m : ST (World D) A) (f : A -> ST (World D) unit) :
  turns w1 = turns w -> notifications_received (w_session w1) = 0 -> fq m ->
  (forall a w', turns w' = turns w -> notifications_received (w_session w') = 0 ->
     protocol max_notifications w (f a w')) ->
  protocol max_notifications w ((m ≫= f) w1).
Proof. intros Ht Hr Hm Hf. apply frame_wp; [done|]. intros a w' Ht' Hr'. apply Hf; congruence. Qed.

(** The armed pump: the loop, and the closing bookkeeping. *)
Lemma protocol_loop max_notifications w w1 body (rest : ST (World D) unit) :
  pump_turn max_notifications body -> 0 <= max_notifications <= u32_max ->
  turns w1 = turns w ++ [true] -> notifications_received (w_session w1) = 0 -> fq rest ->
  protocol max_notifications w ((pump_loop (pump_fuel max_notifications) max_notifications body;; rest) w1).
Proof.
  intros Hbody Hmax Ht Hr Hrest. rewrite st_bind_unfold.
  destruct (pump_loop_turns max_notifications body (pump_fuel max_notifications) w1)
    as (l & Htl & Ha & Hrl & Hlen); [done|lia|lia|].
  destruct (framed_turns _ _ (Hrest (pump_loop (pump_fuel max_notifications) max_notifications body w1).2))
    as [Ht2 Hr2].
  exists ([true] ++ l). rewrite Ht2, Hr2, Htl, Ht, <- app_assoc. split; [done|]. split; [done|].
  split; [lia|]. rewrite length_app. cbn [length]. lia.
Qed.

Lemma protocol_arm max_notifications w w1 (f : bool -> ST (World D) unit) :
  0 <= max_notifications ->
  turns w1 = turns w -> notifications_received (w_session w1) = 0 ->
  fq (f false) ->
  (forall w', turns w' = turns w ++ [true] -> notifications_received (w_session w') = 0 ->
     protocol max_notifications w (f true w')) ->
  (forall w', turns w' = turns w ++ [true] -> notifications_received (w_session w') = 0 ->
     protocol max_notifications w (f false w')) ->
  protocol max_notifications w ((ArmNotification env ≫= f) w1).
Proof.
  intros Hmax Ht Hr Hstop Hgo Hrefused. rewrite st_bind_unfold.
  pose proof (ArmNotification_turns w1) as Ha. destruct (ArmNotification env w1) as [armed w2].
  cbn [fst snd]. destruct Ha as [Hr2 [[-> Ha]|Ha]].
  - destruct (framed_turns _ _ (Hstop w2)) as [Ht3 Hr3].
    destruct (f false w2) as [u w3] eqn:E. apply protocol_idle; [done|cbn in *; congruence..].
  - destruct armed; [apply Hgo|apply Hrefused]; congruence.
Qed.

(** A refused arming is one turn. *)
Lemma protocol_refused max_notifications w w1 (m : ST (World D) unit) :
  0 <= max_notifications -> fq m ->
  turns w1 = turns w ++ [true] -> notifications_received (w_session w1) = 0 ->
  protocol max_notifications w (m w1).
Proof.
  intros Hmax Hm Ht Hr. destruct (framed_turns _ _ (Hm w1)) as [Ht2 Hr2].
  exists [true]. rewrite Ht2, Hr2, Ht, Hr. repeat split; cbn; lia.
Qed.

(** C8 Both pumps keep the notification protocol: armings and completions alternate,
    starting with an arming, so a notification is never armed twice nor completed
    without having been armed; and no more than the asked number is handled. *)
Theorem Pump_protocol milliseconds max_notifications w :
  0 <= max_notifications <= u32_max ->
  protocol max_notifications w (PumpNotifications env milliseconds max_notifications w) /\
  protocol max_notifications w (PumpNotificationsIocp env milliseconds max_notifications w).
Proof.
  intros Hmax. assert (0 <= max_notifications) as Hpos by lia.
  unfold PumpNotifications, PumpNotificationsIocp. split.
  all: rewrite st_bind_unfold; cbn [update fst snd];
    match goal with |- context [mkWorld ?s ?d ?t ?l ?p] => set (w1 := mkWorld s d t l p) end;
    assert (turns w1 = turns w) as Ht1 by done;
    assert (notifications_received (w_session w1) = 0) as Hr1 by done; clearbody w1;
    apply protocol_bind; [done|done|frame|]; intros queue w2 Ht2 Hr2; destruct (negb (handle_ok queue)).
  - apply protocol_bind; [done|done|frame|]. intros [] w3 Ht3 Hr3. by destruct (0 <? milliseconds);
      apply protocol_idle.
  - apply protocol_bind; [done|done|unfold ConnectQueueToCallback, on_queue; frame|].
    intros connected w3 Ht3 Hr3. destruct (negb connected); [by apply protocol_idle|].
    apply protocol_bind; [done|done|frame|]. intros event w4 Ht4 Hr4. destruct (negb _).
    { by apply protocol_idle. }
    apply protocol_bind; [done|done|frame|]. intros [] w5 Ht5 Hr5.
    apply protocol_arm; [done|done|done|cbn [negb]; frame| |].
    + intros w6 Ht6 Hr6. cbn [negb]. apply frame_wp; [frame|]. intros now w7 Ht7 Hr7. cbv zeta.
      apply protocol_loop; [apply ConsumeNotification_turn|done|congruence|congruence|frame].
    + intros w6 Ht6 Hr6. cbn [negb]. apply protocol_refused; [done|frame|done|done].
  - by apply protocol_idle.
  - apply protocol_bind; [done|done|unfold CreateIocpQueue, on_queue; frame|].
    intros [ok port] w3 Ht3 Hr3. destruct (negb ok); [by apply protocol_idle|].
    apply protocol_arm; [done|done|done|cbn [negb]; frame| |].
    + intros w6 Ht6 Hr6. cbn [negb]. apply frame_wp; [frame|]. intros now w7 Ht7 Hr7. cbv zeta.
      apply protocol_loop; [apply ConsumeCompletion_turn|done|congruence|congruence|frame].
    + intros w6 Ht6 Hr6. cbn [negb]. apply protocol_refused; [done|frame|done|done].
Qed.

(** C32 The pumps end: [pump_fuel] turns are enough for every maximum, so that more of
    them would change nothing. *)
Theorem Pump_terminates max_notifications event deadline extra w :
  max_notifications <= u32_max -> 0 <= notifications_received (w_session w) ->
  let fuel := pump_fuel max_notifications in
  let turn := ConsumeNotification env event deadline max_notifications in
  let completion := ConsumeCompletion env event deadline max_notifications in
  pump_loop (fuel + extra) max_notifications turn w = pump_loop fuel max_notifications turn w /\
  pump_loop (fuel + extra) max_notifications completion w = pump_loop fuel max_notifications completion w.
Proof.
  intros Hmax Hr. cbv zeta. unfold pump_fuel.
  split; apply pump_loop_fuel; try lia; [apply ConsumeNotification_turn|apply ConsumeCompletion_turn].
Qed.
End Pumping.

(** ** A pump on the example library *)

Definition queue_world : World Z :=
  mkWorld (new_session <| client_handle := 5 |> <| queue_handle := 6 |>) 1000 [] [] [].

Lemma Pump_protocol_witness :
  turns (PumpNotifications (example_env accept) 100 2 queue_world).2 = [true; false; true; false] /\
  protocol 2 queue_world (PumpNotifications (example_env accept) 100 2 queue_world) /\
  protocol 2 queue_world (PumpNotificationsIocp (example_env accept) 100 2 queue_world).
Proof.
  split; [vm_compute; reflexivity|].
  apply (Pump_protocol (example_env accept) 100 2 queue_world). unfold u32_max. lia.
Defined.

Lemma Pump_terminates_witness :
  let env := example_env accept in
  let turn := ConsumeNotification env 1 5000 3 in
  let completion := ConsumeCompletion env 1 5000 3 in
  notifications_received (w_session (pump_loop (pump_fuel 3) 3 turn queue_world).2) = 3 /\
  pump_loop (pump_fuel 3 + 4) 3 turn queue_world = pump_loop (pump_fuel 3) 3 turn queue_world /\
  pump_loop (pump_fuel 3 + 4) 3 completion queue_world = pump_loop (pump_fuel 3) 3 completion queue_world.
Proof.
  split; [vm_compute; reflexivity|].
  apply (Pump_terminates (example_env accept) 3 1 5000 4 queue_world); [unfold u32_max; lia|cbn; lia].
Defined.
