(* ===== verification/RuleConfig.v ===== *)
(** Rule descriptors and event configurations
    (src/esptool/src/esp/EspRuleAbi.h, EspIoConfigAbi.h, EspEventConfigAbi.h and the
    Attach functions of EspRuleInstall.cpp): fixed-size blobs written at fixed
    offsets, every write checked against the blob's size. *)
From S2P Require Import Prelude Text Core Events RuleModel MemoryView Session.

(** ** Layout *)

Definition kRuleFoIoConfigPtrOffset : nat := 96.
Definition kRuleEventConfigPtrOffset : nat := kRuleFoIoConfigPtrOffset.
Definition kFoIoFileObjectFilterOffset : nat := 936.
Definition kFoIoConfigSize : nat := 2048.
Definition kCfgThreadIncludeOffset : nat := 48.
Definition kCfgProcessIncludeOffset : nat := 568.
Definition kCfgFileObjectIncludeOffset : nat := 960.
Definition kCfgPipeIncludeOffset : nat := 1096.
Definition kCfgFoTargetOffset : nat := 1056.
Definition kCfgIncludeEnabled : Z := 1.
Definition kFoTargetPipe : Z := 3.
Definition kCfgMailslotIncludeOffset : nat := 1384.
(** The [count] and [ptr] members of a [CfgQuerySlot]. *)
Definition slot_count (include : nat) : nat := (include + 16)%nat.
Definition slot_ptr (include : nat) : nat := (include + 24)%nat.

Definition kCfgThreadQueryCountOffset : nat := slot_count kCfgThreadIncludeOffset.
Definition kCfgThreadQueryPtrOffset : nat := slot_ptr kCfgThreadIncludeOffset.
Definition kCfgProcessQueryCountOffset : nat := slot_count kCfgProcessIncludeOffset.
Definition kCfgProcessQueryPtrOffset : nat := slot_ptr kCfgProcessIncludeOffset.
Definition kCfgFileObjectQueryCountOffset : nat := slot_count kCfgFileObjectIncludeOffset.
Definition kCfgFileObjectQueryPtrOffset : nat := slot_ptr kCfgFileObjectIncludeOffset.
Definition kCfgPipeQueryCountOffset : nat := slot_count kCfgPipeIncludeOffset.
Definition kCfgPipeQueryPtrOffset : nat := slot_ptr kCfgPipeIncludeOffset.
Definition kCfgMailslotQueryCountOffset : nat := slot_count kCfgMailslotIncludeOffset.
Definition kCfgMailslotQueryPtrOffset : nat := slot_ptr kCfgMailslotIncludeOffset.

(** The offsets the header asserts. *)
Example config_offsets :
  [kCfgThreadQueryCountOffset; kCfgThreadQueryPtrOffset; kCfgProcessQueryCountOffset; kCfgProcessQueryPtrOffset;
   kCfgFileObjectQueryCountOffset; kCfgFileObjectQueryPtrOffset; kCfgPipeQueryCountOffset; kCfgPipeQueryPtrOffset;
   kCfgMailslotQueryCountOffset; kCfgMailslotQueryPtrOffset] =
  [64; 72; 584; 592; 976; 984; 1112; 1120; 1400; 1408]%nat.
Proof. reflexivity. Qed.

Definition kProcessConfigFilterOffset : nat := 8.
Definition kProcessConfigBindingCountOffset : nat := 36.
Definition kProcessConfigBindingPtrOffset : nat := 40.
Definition kProcessConfigQueryCountOffset : nat := 48.
Definition kProcessConfigQueryPtrOffset : nat := 56.
Definition kProcessConfigNestedOffset : nat := 384.
Definition kImageLoadFileObjectOffset : nat := 392.
Definition kImageLoadFileObjectFilterOffset : nat :=
  (kImageLoadFileObjectOffset + kProcessConfigFilterOffset)%nat.
Definition kRegistryConfigFilterOffset : nat := 8.
Definition kRegistryConfigQueryCountOffset : nat := 48.
Definition kRegistryConfigQueryPtrOffset : nat := 56.

(** [RuleDescriptor]: 1152 bytes, its fields at the asserted offsets. *)
Definition kRuleDescriptorSize : nat := 1152.
Definition kRuleOrderOffset : nat := 16.
Definition kRuleLifetimeOffset : nat := 24.
Definition kRuleFlagsOffset : nat := 28.
Definition kRuleEventTypeOffset : nat := 32.
Definition kRuleEventModifyCountOffset : nat := 1088.
Definition kRuleEventModifySizeOffset : nat := 1092.
Definition kRuleEventModifyPtrOffset : nat := 1096.
Definition kRuleActionSelectorOffset : nat := 1104.
Definition kRuleEventQueueOffset : nat := 1112.
Definition kRuleSubruleCountOffset : nat := 1112.
Definition kRuleSubruleArrayOffset : nat := 1120.
Definition kRuleOrderKey : Z := 100.
Definition kRewriteAccessMaskFlags : Z := 1.

(** [PropertyQueryStore]: the standing property lists. *)
Definition process_ids : list Z := [6; 20; 1; 2].
Definition thread_ids : list Z := [1; 2].
Definition pipe_ids : list Z := [1].
Definition file_object_ids : list Z := [1; 9; 28].
Definition registry_ids : list Z := [1; 2].
Definition mailslot_ids : list Z := [1].

Definition empty_config : blob := replicate kFoIoConfigSize 0.

(** [RuleDescriptor{}] with its default order key. *)
Definition new_descriptor : option blob :=
  write_at kRuleOrderOffset (le_bytes 8 kRuleOrderKey) (replicate kRuleDescriptorSize 0).

(** ** Configuration writes *)

Section Config.
  Context (addr : Loc -> Z).

Definition WriteIncludeQuery (slot : nat) (ids : list Z) (ptr : Z) (blob : blob) : option (list Z) :=
  blob ← WriteU32At slot kCfgIncludeEnabled blob;
  blob ← WriteU32At (slot_count slot) (Z.of_nat (length ids)) blob;
  WritePtrAt (slot_ptr slot) ptr blob.

Definition WriteCountPtrQuery (count_offset ptr_offset : nat) (count ptr : Z) (blob : blob)
    : option (list Z) :=
  blob ← WriteU32At count_offset count blob; WritePtrAt ptr_offset ptr blob.

Definition WriteFilterAt (offset : nat) (filter : handle) (blob : blob) : option (list Z) :=
  if handle_ok filter then WritePtrAt offset filter blob else Some blob.

Definition BindConfigBlob (config : Z) (descriptor : blob) : option blob :=
  WritePtrAt kRuleEventConfigPtrOffset config descriptor.

(** The query of a configuration: the custom list (address and length) if there is
    one, else the standing list. *)
Definition write_query (count_offset ptr_offset : nat) (custom : option (Z * Z)) (ids : list Z) (standing : Loc)
    (blob : blob) : option (list Z) :=
  match custom with
  | Some (ptr, count) =>
      if 0 <? count then
        blob ← WriteU32At count_offset (u32 count) blob; WritePtrAt ptr_offset ptr blob
      else WriteCountPtrQuery count_offset ptr_offset (Z.of_nat (length ids)) (addr standing) blob
  | None => WriteCountPtrQuery count_offset ptr_offset (Z.of_nat (length ids)) (addr standing) blob
  end.

Definition FillTypedIoQueries (file_object_query restrict_pipe mailslot_query : bool) (blob : blob)
    : option (list Z) :=
  blob ← WriteIncludeQuery kCfgThreadIncludeOffset thread_ids (addr LThreadIds) blob;
  blob ← WriteIncludeQuery kCfgProcessIncludeOffset process_ids (addr LProcessIds) blob;
  blob ← WriteU32At kCfgFileObjectIncludeOffset kCfgIncludeEnabled blob;
  blob ← (if restrict_pipe then WriteU32At kCfgFoTargetOffset kFoTargetPipe blob else Some blob);
  blob ← (if file_object_query
          then WriteIncludeQuery kCfgFileObjectIncludeOffset file_object_ids (addr LFileObjectIds) blob
          else Some blob);
  blob ← WriteIncludeQuery kCfgPipeIncludeOffset pipe_ids (addr LPipeIds) blob;
  if mailslot_query
  then WriteIncludeQuery kCfgMailslotIncludeOffset mailslot_ids (addr LMailslotIds) blob else Some blob.

(** Each attach function returns the descriptor and the configuration. *)
Definition AttachTypedIoConfig (spec : RuleSpec) (filter : handle) (config : Z) (descriptor blob : blob)
    : option (list Z * list Z) :=
  let event_type := rs_eventType spec in
  blob ← FillTypedIoQueries (IsFoIoEvent event_type) (RestrictPipeTarget event_type)
           (event_type =? kEventMailslotCreate) blob;
  blob ← (if HasFileObjectLeaf (rs_filter spec) && IsFoIoEvent event_type
          then WriteFilterAt kFoIoFileObjectFilterOffset filter blob else Some blob);
  descriptor ← BindConfigBlob config descriptor;
  Some (descriptor, blob).

Definition AttachRegistryConfig (filter : handle) (custom : option (Z * Z)) (config : Z)
    (descriptor blob : blob) : option (list Z * list Z) :=
  blob ← WriteFilterAt kRegistryConfigFilterOffset filter blob;
  blob ← write_query kRegistryConfigQueryCountOffset kRegistryConfigQueryPtrOffset custom registry_ids
           LRegistryIds blob;
  descriptor ← BindConfigBlob config descriptor;
  Some (descriptor, blob).

Definition AttachThreadConfig (filter : handle) (custom : option (Z * Z)) (config : Z)
    (descriptor blob : blob) : option (list Z * list Z) :=
  blob ← WriteFilterAt kProcessConfigFilterOffset filter blob;
  blob ← write_query kProcessConfigQueryCountOffset kProcessConfigQueryPtrOffset custom thread_ids
           LThreadIds blob;
  descriptor ← BindConfigBlob config descriptor;
  Some (descriptor, blob).

Definition write_binding (count ptr : Z) (blob : blob) : option (list Z) :=
  blob ← WriteU32At kProcessConfigBindingCountOffset count blob;
  WritePtrAt kProcessConfigBindingPtrOffset ptr blob.

Definition FillProcessConfigQueries (filter : handle) (bind_child write_queries : bool)
    (custom : option (Z * Z)) (blob : blob) : option (list Z) :=
  blob ← WriteFilterAt kProcessConfigFilterOffset filter blob;
  blob ← (if bind_child then write_binding 1 (addr LChildBind) blob else Some blob);
  if write_queries
  then write_query kProcessConfigQueryCountOffset kProcessConfigQueryPtrOffset custom process_ids
         LProcessIds blob
  else Some blob.

(** [child]: the address and contents of the nested configuration, if any. *)
Definition AttachProcessCreateConfig (child : option (Z * blob)) (filter image_file_filter : handle)
    (custom : option (Z * Z)) (config : Z) (descriptor blob : blob)
    : option (list Z * list Z * option (list Z)) :=
  let has_image_filter := handle_ok image_file_filter in
  blob ← WriteFilterAt kProcessConfigFilterOffset 0 blob;
  blob ← (if has_image_filter then
            blob ← write_binding 1 (addr LChildBind) blob;
            WriteFilterAt kImageLoadFileObjectFilterOffset image_file_filter blob
          else write_binding 0 0 blob);
  blob ← write_query kProcessConfigQueryCountOffset kProcessConfigQueryPtrOffset custom process_ids
           LProcessIds blob;
  '(blob, nested) ←
    match child with
    | Some (child_ptr, child_blob) =>
        if handle_ok filter then
          child_blob ← FillProcessConfigQueries filter has_image_filter true custom child_blob;
          blob ← WritePtrAt kProcessConfigNestedOffset child_ptr blob;
          Some (blob, Some child_blob)
        else Some (blob, Some child_blob)
    | None => Some (blob, None)
    end;
  descriptor ← BindConfigBlob config descriptor;
  Some (descriptor, blob, nested).

Definition AttachProcessConfig (filter : handle) (custom : option (Z * Z)) (config : Z)
    (descriptor blob : blob) : option (list Z * list Z) :=
  blob ← FillProcessConfigQueries filter false true custom blob;
  descriptor ← BindConfigBlob config descriptor;
  Some (descriptor, blob).

Definition AttachImageLoadConfig (filter : handle) (file_object_leaf : bool) (custom : option (Z * Z))
    (config : Z) (descriptor blob : blob) : option (list Z * list Z) :=
  let offset := if file_object_leaf then kImageLoadFileObjectFilterOffset
                else kProcessConfigFilterOffset in
  blob ← WriteFilterAt offset filter blob;
  blob ← write_query kProcessConfigQueryCountOffset kProcessConfigQueryPtrOffset custom process_ids
           LProcessIds blob;
  descriptor ← BindConfigBlob config descriptor;
  Some (descriptor, blob).

Definition AttachDescriptorFilter (filter_node : FilterNode) (filter : handle) (descriptor : blob)
    : option blob :=
  let filter_offset := FilterRuleOffset filter_node in
  if negb (filter_offset =? 0)%nat && (filter_offset + 8 <=? kRuleDescriptorSize)%nat
  then WritePtrAt filter_offset filter descriptor else Some descriptor.

Definition LifetimeToFfi (spec : RuleSpec) : Z :=
  match rs_lifetime spec with Persistent => kLifetimePersistFfi | Transient => kLifetimeTransientFfi end.

(** ** Custom property lists *)

(** The property list of the first recipe of one of [kinds] that names properties,
    with the required ones added at the end when they are missing. *)
Definition custom_ids (kinds : list string) (required : list Z) (queries : list QueryRecipe)
    : option (list Z) :=
  recipe ← find_first (fun r => contains (qr_kind r) kinds && nonempty (qr_properties r)) queries;
  Some (fold_left (fun custom p => if contains p custom then custom else custom ++ [p]) required
          (i32 <$> qr_properties recipe)).
End Config.

(** * Theorems *)

(** A write that fits its blob succeeds and keeps the size; so does any sequence of
    such writes. *)
Definition keeps_size (size : nat) (f : blob -> option blob) : Prop :=
  forall b, length b = size -> exists b', f b = Some b' /\ length b' = size.

Lemma write_at_keeps size offset value :
  (offset + length value <= size)%nat -> keeps_size size (write_at offset value).
Proof.
  intros H b Hb. destruct (write_at_in_bounds offset value b) as [b' Hb']; [lia|].
  exists b'. split; [done|]. apply write_at_length in Hb'. lia.
Qed.

Lemma WriteU32At_keeps size offset value :
  (offset + 4 <= size)%nat -> keeps_size size (WriteU32At offset value).
Proof. intros. apply write_at_keeps. by rewrite le_bytes_length. Qed.

Lemma WritePtrAt_keeps size offset value :
  (offset + 8 <= size)%nat -> keeps_size size (WritePtrAt offset value).
Proof. intros. apply write_at_keeps. by rewrite le_bytes_length. Qed.

Lemma bind_keeps size f (g : blob -> option blob) :
  keeps_size size f -> keeps_size size g -> keeps_size size (fun b => b' ← f b; g b').
Proof.
  intros Hf Hg b Hb. destruct (Hf b Hb) as (b1 & E1 & L1). destruct (Hg b1 L1) as (b2 & E2 & L2).
  exists b2. simpl. rewrite E1. done.
Qed.

Lemma if_keeps size (c : bool) (f g : blob -> option blob) :
  keeps_size size f -> keeps_size size g -> keeps_size size (fun b => if c then f b else g b).
Proof. by destruct c. Qed.

Lemma same_keeps size : keeps_size size Some.
Proof. intros b Hb. by exists b. Qed.

Ltac fits := apply Nat.leb_le; vm_compute; reflexivity.

Section Keeps.
  Context (addr : Loc -> Z).

Lemma WriteFilterAt_keeps size offset filter :
  (offset + 8 <= size)%nat -> keeps_size size (WriteFilterAt offset filter).
Proof. intros H. unfold WriteFilterAt. apply if_keeps; [by apply WritePtrAt_keeps|apply same_keeps]. Qed.

Lemma WriteIncludeQuery_keeps size slot ids ptr :
  (slot + 32 <= size)%nat -> keeps_size size (WriteIncludeQuery slot ids ptr).
Proof.
  intros H. unfold WriteIncludeQuery, slot_count, slot_ptr.
  repeat apply (bind_keeps size); [apply WriteU32At_keeps|apply WriteU32At_keeps|apply WritePtrAt_keeps]; lia.
Qed.

Lemma write_query_keeps size count_offset ptr_offset custom ids standing :
  (count_offset + 4 <= size)%nat -> (ptr_offset + 8 <= size)%nat ->
  keeps_size size (write_query addr count_offset ptr_offset custom ids standing).
Proof.
  intros Hc Hp. unfold write_query, WriteCountPtrQuery. intros b.
  destruct custom as [[ptr count]|]; [destruct (0 <? count)|];
    apply (bind_keeps size); (apply WriteU32At_keeps || apply WritePtrAt_keeps); done.
Qed.

Lemma write_binding_keeps count ptr : keeps_size kFoIoConfigSize (write_binding count ptr).
Proof.
  unfold write_binding. apply (bind_keeps kFoIoConfigSize); [apply WriteU32At_keeps|apply WritePtrAt_keeps];
    fits.
Qed.

Lemma FillTypedIoQueries_keeps q p m : keeps_size kFoIoConfigSize (FillTypedIoQueries addr q p m).
Proof.
  unfold FillTypedIoQueries.
  apply (bind_keeps kFoIoConfigSize); [apply WriteIncludeQuery_keeps; fits|].
  apply (bind_keeps kFoIoConfigSize); [apply WriteIncludeQuery_keeps; fits|].
  apply (bind_keeps kFoIoConfigSize); [apply WriteU32At_keeps; fits|].
  apply (bind_keeps kFoIoConfigSize); [apply if_keeps; [apply WriteU32At_keeps; fits|apply same_keeps]|].
  apply (bind_keeps kFoIoConfigSize);
    [apply if_keeps; [apply WriteIncludeQuery_keeps; fits|apply same_keeps]|].
  apply (bind_keeps kFoIoConfigSize); [apply WriteIncludeQuery_keeps; fits|].
  apply if_keeps; [apply WriteIncludeQuery_keeps; fits|apply same_keeps].
Qed.

Lemma FillProcessConfigQueries_keeps filter bind_child write_queries custom :
  keeps_size kFoIoConfigSize (FillProcessConfigQueries addr filter bind_child write_queries custom).
Proof.
  unfold FillProcessConfigQueries.
  apply (bind_keeps kFoIoConfigSize); [apply WriteFilterAt_keeps; fits|].
  apply (bind_keeps kFoIoConfigSize); [apply if_keeps; [apply write_binding_keeps|apply same_keeps]|].
  apply if_keeps; [apply write_query_keeps; fits|apply same_keeps].
Qed.

Lemma some_bind {A B} (a : A) (f : A -> option B) : (Some a ≫= f) = f a.
Proof. done. Qed.

(** An attachment succeeds, keeps the sizes, and changes the descriptor only at the
    configuration pointer. *)
Definition attaches (f : blob -> blob -> option (blob * blob)) (config : Z) : Prop :=
  forall d b, length d = kRuleDescriptorSize -> length b = kFoIoConfigSize ->
  exists d' b', f d b = Some (d', b') /\ BindConfigBlob config d = Some d' /\
    length d' = kRuleDescriptorSize /\ length b' = kFoIoConfigSize.

Lemma fill_attaches (fill : blob -> option blob) config :
  keeps_size kFoIoConfigSize fill ->
  attaches (fun d b => b' ← fill b; d' ← BindConfigBlob config d; Some (d', b')) config.
Proof.
  intros Hf d b Hd Hb. destruct (Hf b Hb) as (b' & E & L). simpl. rewrite E. simpl.
  destruct (WritePtrAt_keeps kRuleDescriptorSize kRuleEventConfigPtrOffset config ltac:(fits) d Hd)
    as (d' & Ed & Ld). unfold BindConfigBlob. rewrite Ed. by exists d', b'.
Qed.

Lemma attaches_bind (fill : blob -> option blob) (f : blob -> blob -> option (blob * blob)) config :
  keeps_size kFoIoConfigSize fill -> attaches f config ->
  attaches (fun d b => b' ← fill b; f d b') config.
Proof.
  intros Hf Ha d b Hd Hb. destruct (Hf b Hb) as (b' & E & L). simpl. rewrite E. simpl. by apply Ha.
Qed.

Lemma AttachTypedIoConfig_attaches spec filter config :
  attaches (AttachTypedIoConfig addr spec filter config) config.
Proof.
  apply (attaches_bind (FillTypedIoQueries addr _ _ _)); [apply FillTypedIoQueries_keeps|].
  apply (fill_attaches (fun b =>
    if HasFileObjectLeaf (rs_filter spec) && IsFoIoEvent (rs_eventType spec)
    then WriteFilterAt kFoIoFileObjectFilterOffset filter b else Some b)).
  apply if_keeps; [apply WriteFilterAt_keeps; fits|apply same_keeps].
Qed.

Lemma filter_query_attaches offset count_offset ptr_offset filter custom ids standing config :
  (offset + 8 <= kFoIoConfigSize)%nat -> (count_offset + 4 <= kFoIoConfigSize)%nat ->
  (ptr_offset + 8 <= kFoIoConfigSize)%nat ->
  attaches (fun d b => b ← WriteFilterAt offset filter b;
    b ← write_query addr count_offset ptr_offset custom ids standing b;
    d ← BindConfigBlob config d; Some (d, b)) config.
Proof.
  intros. apply (attaches_bind (WriteFilterAt offset filter)); [by apply WriteFilterAt_keeps|].
  apply (fill_attaches (write_query addr _ _ _ _ _)). by apply write_query_keeps.
Qed.

Lemma AttachRegistryConfig_attaches filter custom config :
  attaches (AttachRegistryConfig addr filter custom config) config.
Proof. apply filter_query_attaches; fits. Qed.

Lemma AttachThreadConfig_attaches filter custom config :
  attaches (AttachThreadConfig addr filter custom config) config.
Proof. apply filter_query_attaches; fits. Qed.

Lemma AttachImageLoadConfig_attaches filter file_object_leaf custom config :
  attaches (AttachImageLoadConfig addr filter file_object_leaf custom config) config.
Proof. unfold AttachImageLoadConfig. destruct file_object_leaf; apply filter_query_attaches; fits. Qed.

Lemma AttachProcessConfig_attaches filter custom config :
  attaches (AttachProcessConfig addr filter custom config) config.
Proof.
  apply (fill_attaches (FillProcessConfigQueries addr filter false true custom)).
  apply FillProcessConfigQueries_keeps.
Qed.

(** Without a nested configuration, as the code calls it. *)
Lemma AttachProcessCreateConfig_attaches filter image_file_filter custom config :
  attaches (fun d b => '(d, b, _) ← AttachProcessCreateConfig addr None filter image_file_filter custom config d b;
                       Some (d, b)) config.
Proof.
  unfold AttachProcessCreateConfig.
  intros d b Hd Hb. cbv zeta. change (WriteFilterAt kProcessConfigFilterOffset 0 b) with (Some b).
  rewrite some_bind.
  assert (keeps_size kFoIoConfigSize (fun b => if handle_ok image_file_filter then
            blob ← write_binding 1 (addr LChildBind) b;
            WriteFilterAt kImageLoadFileObjectFilterOffset image_file_filter blob
          else write_binding 0 0 b)) as Hfill.
  { apply if_keeps; [|apply write_binding_keeps].
    apply (bind_keeps kFoIoConfigSize); [apply write_binding_keeps|apply WriteFilterAt_keeps; fits]. }
  destruct (Hfill b Hb) as (b1 & E1 & L1). rewrite E1, some_bind.
  assert (keeps_size kFoIoConfigSize (write_query addr kProcessConfigQueryCountOffset
    kProcessConfigQueryPtrOffset custom process_ids LProcessIds)) as Hquery
    by (apply write_query_keeps; fits).
  destruct (Hquery b1 L1) as (b2 & -> & L2). rewrite some_bind.
  destruct (WritePtrAt_keeps kRuleDescriptorSize kRuleEventConfigPtrOffset config ltac:(fits) d Hd)
    as (d' & Ed & Ld). unfold BindConfigBlob. rewrite Ed. by exists d', b2.
Qed.

Lemma AttachDescriptorFilter_keeps node filter :
  keeps_size kRuleDescriptorSize (AttachDescriptorFilter node filter).
Proof.
  unfold AttachDescriptorFilter. intros d Hd. destruct (negb _ && _) eqn:E; [|by exists d].
  apply andb_true_iff in E as [_ E%Nat.leb_le]. by apply WritePtrAt_keeps.
Qed.
End Keeps.
