(* ===== verification/RuleInstall.v ===== *)
(** Installing rules (src/esptool/src/esp/EspRuleInstall.cpp): descriptors are built
    for the rules of a document, created, and submitted one by one; rejected ones are
    closed and dropped. *)
From S2P Require Import Logging.
From S2P Require Import Prelude Text Core Events RuleModel RuleParser MemoryView EnforceCompat Api.
From S2P Require Import NtPath Session FilterBuild Refs RuleConfig.

Inductive InstallStatus := Failed_ | Partial | Complete.

#[export] Instance InstallStatus_eq_dec : EqDecision InstallStatus.
Proof. solve_decision. Defined.

(** A created rule that waits for its submission: its handle and, for a rule with
    subrules, the handle of the predecessor of this installation it points at (0 for
    none). *)
Record PendingEntry := mkPending { pe_rule : handle; pe_anchor : handle }.

Definition IsEmptyFilter (node : FilterNode) : bool :=
  bool_decide (fn_kind node = Leaf) && (fn_type node =? 0) && negb (nonempty (fn_children node)).

Definition ResolveActionSelector (action : Z) : Z :=
  if negb (action =? 0) then u32 action else kActionQueueBacked.

Definition rule_label (spec : RuleSpec) : string :=
  if is_empty (rs_name spec) then rs_eventName spec else rs_name spec.

(** The selector of the named action, else of the numeric one. *)
Definition named_selector (spec : RuleSpec) : Z :=
  ActionSelectorForName (rs_actionName spec) (ResolveActionSelector (rs_action spec)).

Definition rule_selector (spec : RuleSpec) : Z := default (named_selector spec) (rs_selector_override spec).

(** Whether an installed rule went through the patched client. *)
Definition patched_install (spec : RuleSpec) : bool :=
  (rule_selector spec =? kActionRewrite) && IsEnforceCompatEventType (rs_eventType spec).

Definition DocumentRequiresEnforceCompat (document : RuleDocument) : bool :=
  existsb patched_install (doc_rules document).

(** Whether an override disagrees with the named action. *)
Definition selector_conflict (spec : RuleSpec) : bool :=
  negb (is_empty (rs_actionName spec)) &&
  match rs_selector_override spec with Some s => negb (s =? named_selector spec) | None => false end.

(** Several fields of a descriptor, written in order. *)
Fixpoint write_fields (fields : list (nat * list Z)) (d : blob) : option blob :=
  match fields with
  | [] => Some d
  | (offset, bytes) :: rest => d ← write_at offset bytes d; write_fields rest d
  end.

(** The fields every rule has. *)
Definition common_fields (spec : RuleSpec) : list (nat * list Z) :=
  [(kRuleOrderOffset, le_bytes 8 kRuleOrderKey);
   (kRuleLifetimeOffset, le_bytes 4 (default (LifetimeToFfi spec) (rs_modifier_override spec)));
   (kRuleFlagsOffset, le_bytes 4 (rs_flags spec));
   (kRuleEventTypeOffset, le_bytes 4 (rs_eventType spec));
   (kRuleActionSelectorOffset, le_bytes 4 (rule_selector spec))].

(** The fields of an enforcing rule. *)
Definition rewrite_fields (kind disposition_param modify_ptr : Z) : list (nat * list Z) :=
  [(kRuleEventQueueOffset, le_bytes 8 disposition_param);
   (kRuleEventModifyCountOffset, le_bytes 4 kind);
   (kRuleEventModifySizeOffset, le_bytes 4 kEventModifyAccessMaskBytes);
   (kRuleEventModifyPtrOffset, le_bytes 8 modify_ptr)].

(** The compaction loop: [n] slots are left to read. *)
Fixpoint compact_loop (n read write : nat) (l : list handle) : list handle * nat :=
  match n with
  | O => (l, write)
  | S n =>
      match l !! read with
      | Some h =>
          if handle_ok h
          then compact_loop n (S read) (S write) (if (write =? read)%nat then l else <[write := h]> l)
          else compact_loop n (S read) write l
      | None => (l, write)
      end
  end.

Definition compact (rules_before : nat) (l : list handle) : list handle :=
  let '(l', write) := compact_loop (length l - rules_before) rules_before rules_before l in take write l'.

Section RuleInstall.
  Context {D : Type} (env : Env D).
  Local Abbreviation M := (ST (World D)).
  Local Abbreviation addr := (env_addr env).

(** [None] when the filter could not be built, else the filter, 0 for an empty one. *)
Definition TryBuildRuleFilter (spec : RuleSpec) : M (option handle) :=
  if IsEmptyFilter (rs_filter spec) then mret (Some 0)
  else
    '(filter_result, filter) ← CreateFilterTree env (rs_filter spec);
    RecordStep ("filter:" +:+ rule_label spec) filter_result None;;
    if Failed filter_result then mret None
    else
      (if handle_ok filter then remember_filters [filter] else mret tt);;
      mret (Some filter).

(** Keeps a custom property list alive and gives its address and length. *)
Definition bind_custom (kinds : list string) (required : list Z) (spec : RuleSpec) : M (option (Z * Z)) :=
  match custom_ids kinds required (rs_queries spec) with
  | None => mret None
  | Some custom =>
      index ← gets (fun s => length (dynamic_queries (storage s)));
      update_storage (fun s => s <| dynamic_queries ::= fun l => l ++ [custom] |>);;
      mret (Some (addr (LDynamicQuery index), Z.of_nat (length custom)))
  end.

(** Fills a new configuration blob and points the descriptor at it. *)
Definition attach_config (attach : Z -> blob -> blob -> option (blob * blob)) (descriptor : blob) : M blob :=
  index ← gets (fun s => length (fo_io_configs (storage s)));
  '(descriptor, config) ← checked (attach (addr (LFoIoConfig index)) descriptor empty_config)
                            (descriptor, empty_config);
  update_storage (fun s => s <| fo_io_configs ::= fun l => l ++ [config] |>);;
  mret descriptor.

(** The image filter of a process-creation rule: the leaf, as a file-object filter. *)
Definition image_filter (spec : RuleSpec) : M handle :=
  let fo := rs_filter spec in
  if HasProcessLeaf fo && bool_decide (fn_kind fo = Leaf) then
    let fo := mkFilterNode (fn_kind fo) kFilterCtorFileObject (fn_comparand fo) (fn_operand fo)
                (if fn_propertyId fo =? 0 then 1 else fn_propertyId fo) (fn_propertyName fo)
                (fn_opName fo) (fn_value fo) (fn_collectionName fo) (fn_children fo) in
    '(fo_result, h) ← CreateLeafFilter env fo;
    RecordStep "filter:child-image-fo" fo_result None;;
    if Succeeded fo_result && handle_ok h then remember_filters [h];; mret h else mret 0
  else mret 0.

Definition AttachFilterToDescriptor (descriptor : blob) (spec : RuleSpec) (filter : handle) : M blob :=
  let event_type := rs_eventType spec in
  if IsThreadEventType event_type then
    custom ← bind_custom ["thread"] [1] spec;
    attach_config (AttachThreadConfig addr filter custom) descriptor
  else if NeedsTypedIoConfig event_type then
    descriptor ← attach_config (AttachTypedIoConfig addr spec filter) descriptor;
    if HasProcessLeaf (rs_filter spec)
    then checked (AttachDescriptorFilter (rs_filter spec) filter descriptor) descriptor
    else mret descriptor
  else if NeedsProcessCreateConfig event_type then
    image_file_filter ← image_filter spec;
    custom ← bind_custom ["process"] [6; 20] spec;
    attach_config (fun config d b =>
      '(d, b, _) ← AttachProcessCreateConfig addr None 0 image_file_filter custom config d b; Some (d, b))
      descriptor
  else if NeedsProcessConfig event_type then
    custom ← bind_custom ["process"] [6] spec;
    attach_config (AttachProcessConfig addr filter custom) descriptor
  else if NeedsImageLoadConfig event_type then
    custom ← bind_custom ["process"] [6] spec;
    attach_config (AttachImageLoadConfig addr filter (HasFileObjectLeaf (rs_filter spec)) custom) descriptor
  else if IsRegistryEventType event_type then
    custom ← bind_custom ["registry"; "registry-key-object"] [1] spec;
    attach_config (AttachRegistryConfig addr filter custom) descriptor
  else if handle_ok filter
  then checked (AttachDescriptorFilter (rs_filter spec) filter descriptor) descriptor
  else mret descriptor.

Definition SubmitRuleBatch (entry : handle) : M bool :=
  update_rules_fn ← Require env "EspUpdateRules";
  if negb update_rules_fn then mret false
  else
    client ← gets client_handle;
    '(ok, _) ← Checked env "EspUpdateRules"
                 [AHandle client; AWord 0; AWord 1; ARuleEntry kRuleUpdateOperationAdd entry];
    mret ok.

(** [ApplyFromFfiCompatPatch] on the process memory. *)
Definition apply_patch : M (result unit) :=
  system (fun d =>
    let '(r, mem) := ApplyFromFfiCompatPatchWithHooks (env_hooks env d) (env_region env d)
                       (env_memory env d) in
    (r, env_set_memory env mem d)).

Definition EnsureEnforceCompatPatch : M bool :=
  attempted ← gets enforce_compat_patch_attempted;
  if (attempted : bool) then gets enforce_compat_patch_ok
  else
    update (fun s => s <| enforce_compat_patch_attempted := true |>);;
    r ← apply_patch;
    update (fun s => s <| enforce_compat_patch_ok := is_Ok r |>
                       <| enforce_compat_error := match r with Ok _ => "" | Err e => e end |>);;
    RecordStep "ApplyFromFfiCompatPatch" (if is_Ok r then kOk else kFail) None;;
    gets enforce_compat_patch_ok.

Definition refuse {A} (message : string) : M (option A) := Warn message;; mret None.

(** The event modify kind of an enforcing rule, [None] when it must be refused. *)
Definition enforce_kind (spec : RuleSpec) : M (option Z) :=
  let rule := "rule '" +:+ rule_label spec +:+ "': " in
  let event_type := rs_eventType spec in
  kind ← (if IsEnforceCompatEventType event_type then
            compat ← gets enforce_compat;
            if negb compat then
              refuse (rule +:+ "event type " +:+ dec event_type +:+
                      " needs the espclient.dll enforce-compat patch; re-run with " +:+
                      "--enforce-compat to install this deny rule")
            else
              patched ← EnsureEnforceCompatPatch;
              if negb patched then
                error ← gets enforce_compat_error;
                refuse (rule +:+ "the enforce-compat patch is unavailable (" +:+ error +:+
                        "); refusing the deny rule")
              else mret (Some kEventModifyKindFoCreate)
          else if EventModifyKindForEvent event_type =? 0 then
            refuse (rule +:+ "event type " +:+ dec event_type +:+
                    " has no event modify kind; the enforcing action is unavailable " +:+
                    "for this event type")
          else mret (Some (EventModifyKindForEvent event_type)));
  match kind with
  | None => mret None
  | Some kind =>
      if negb (SupportsEnforcePayload event_type) then
        refuse (rule +:+ "the enforcing action is unavailable for event type " +:+ dec event_type +:+
                " (no enforce-capable driver bit or no DENY callback)")
      else mret (Some kind)
  end.

(** Stores the payload of an enforcing rule and gives the address of its header. *)
Definition store_payload : M Z :=
  mask ← gets (fun s => length (access_masks (storage s)));
  update_storage (fun s => s <| access_masks ::= fun l => l ++ [mkAccessMask kRewriteAccessMask kRewriteAccessMaskFlags] |>);;
  header ← gets (fun s => length (event_modify_blobs (storage s)));
  update_storage (fun s => s <| event_modify_blobs ::= fun l => l ++ [mkEventModify 1 (addr (LAccessMask mask))] |>);;
  mret (addr (LEventModify header)).

(** The subrule array of a rule: its address, its length, and the anchor. *)
Definition subrule_array (rules_before : nat) (entries : list PendingEntry) : M (Z * Z * handle) :=
  l ← gets rules;
  match last l with
  | None => mret (addr LEmptySubrules, 0, 0)
  | Some predecessor =>
      update_storage (fun s => s <| subrule_handles ::= fun h => h ++ [predecessor] |>);;
      size ← gets (fun s => length (subrule_handles (storage s)));
      anchor ← (if (rules_before <? length l)%nat
                then checked (pe_rule <$> last entries) 0 else mret 0);
      mret (addr (LSubrule size), 1, anchor)
  end.

(** The action of a rule, written into its descriptor: the descriptor and the
    anchor, [None] when the rule must be refused. *)
Definition write_action (spec : RuleSpec) (rules_before : nat) (entries : list PendingEntry) (descriptor : blob)
    : M (option (blob * handle)) :=
  let selector := rule_selector spec in
  if selector =? kActionRewrite then
    kind ← enforce_kind spec;
    match kind with
    | None => mret None
    | Some kind =>
        let disposition_param := default kind (rs_modify_kind_override spec) in
        modify_ptr ← store_payload;
        d ← checked (write_fields (rewrite_fields kind disposition_param modify_ptr) descriptor) descriptor;
        mret (Some (d, 0))
    end
  else if selector =? kActionMatchSubrules then
    '(array, count, anchor) ← subrule_array rules_before entries;
    d ← checked (write_fields [(kRuleSubruleCountOffset, le_bytes 4 count);
                               (kRuleSubruleArrayOffset, le_bytes 8 array)] descriptor) descriptor;
    mret (Some (d, anchor))
  else
    queue ← (if selector =? kActionQueueBacked then gets queue_handle else mret 0);
    d ← checked (write_fields [(kRuleEventQueueOffset, le_bytes 8 queue)] descriptor) descriptor;
    mret (Some (d, 0)).

(** Creates the rule and remembers it. *)
Definition create_rule (spec : RuleSpec) (descriptor : blob) (anchor : handle) : M (option PendingEntry) :=
  s ← gets storage;
  reply ← Call env "EspCreateRule" [ARuleDescriptor descriptor s];
  RecordStep ("EspCreateRule:" +:+ rule_label spec) (re_result reply) None;;
  if Failed (re_result reply) || negb (handle_ok (re_out reply)) then mret None
  else
    update (fun s => s <| rules ::= fun l => l ++ [re_out reply] |>);;
    (if patched_install spec
     then Log Warning ("enforce-compat: rule '" +:+ rule_label spec +:+
                       "' installed via in-memory client patch; confirm live denial with canary trigger")
     else mret tt);;
    mret (Some (mkPending (re_out reply) anchor)).

(** One turn of the build loop: [None] when the rule was refused. *)
Definition build_rule (spec : RuleSpec) (rules_before : nat) (entries : list PendingEntry)
    : M (option PendingEntry) :=
  let label := rule_label spec in
  if rs_eventType spec =? 0 then refuse ("rule has no event type: " +:+ label)
  else
    filter ← TryBuildRuleFilter spec;
    match filter with
    | None => mret None
    | Some filter =>
        if selector_conflict spec then
          refuse ("rule '" +:+ label +:+ "': selector " +:+ dec (default 0 (rs_selector_override spec)) +:+
                  " conflicts with action " +:+ quoted (rs_actionName spec))
        else
          (if is_empty (rs_actionName spec) && (rule_selector spec =? kActionNotifySuppress) then
             Warn ("rule '" +:+ label +:+
                   "': selector 4 suppresses the queued notification and does not deny; use action=" +:+
                   quoted "deny" +:+ " for enforcement")
           else mret tt);;
          descriptor ← checked (d ← new_descriptor; write_fields (common_fields spec) d) [];
          action ← write_action spec rules_before entries descriptor;
          match action with
          | None => mret None
          | Some (descriptor, anchor) =>
              descriptor ← AttachFilterToDescriptor descriptor spec filter;
              create_rule spec descriptor anchor
          end
    end.

Fixpoint build_rules (specs : list RuleSpec) (rules_before : nat) (entries : list PendingEntry) (all_ok : bool)
    : M (list PendingEntry * bool) :=
  match specs with
  | [] => mret (entries, all_ok)
  | spec :: rest =>
      entry ← build_rule spec rules_before entries;
      match entry with
      | Some e => build_rules rest rules_before (entries ++ [e]) all_ok
      | None => build_rules rest rules_before entries false
      end
  end.

(** Closes the rejected rule at [slot] of [rules_] and empties the slot. *)
Definition reject_rule (close_fn : bool) (slot : nat) : M unit :=
  l ← gets rules;
  h ← checked (l !! slot) 0;
  (if handle_ok h && close_fn then _ ← Call env "EspCloseRule" [AHandle h]; mret tt else mret tt);;
  update (fun s => s <| rules ::= <[slot := 0]> |>).

(** The submission loop: the numbers of committed and of refused entries. *)
Fixpoint submit_entries (close_fn : bool) (slot : nat) (entries : list PendingEntry) (rejected : list handle)
    (committed refused : nat) : M (nat * nat) :=
  match entries with
  | [] => mret (committed, refused)
  | entry :: rest =>
      let anchor_rejected := handle_ok (pe_anchor entry) && contains (pe_anchor entry) rejected in
      submitted ← (if anchor_rejected then mret false else SubmitRuleBatch (pe_rule entry));
      if (submitted : bool) then submit_entries close_fn (S slot) rest rejected (S committed) refused
      else
        reject_rule close_fn slot;;
        submit_entries close_fn (S slot) rest (rejected ++ [pe_rule entry]) committed (S refused)
  end.

Definition DocumentNeedsQueue (document : RuleDocument) : bool :=
  existsb (fun spec => ResolvedActionNeedsQueue (rs_action spec) (rs_actionName spec) (rs_selector_override spec))
    (doc_rules document).

(** The recipes of the rules, with their event types. *)
Definition document_queries (document : RuleDocument) : list (Z * QueryRecipe) :=
  doc_rules document ≫= fun spec => (fun recipe => (rs_eventType spec, recipe)) <$> rs_queries spec.

(** Builds and submits the rules, once all the checks have passed. *)
Definition install_rules (document : RuleDocument) : M InstallStatus :=
  rules_before ← gets (fun s => length (rules s));
  '(entries, all_ok) ← build_rules (doc_rules document) rules_before [] true;
  if negb (nonempty entries) then mret Failed_
  else
    close_fn ← Require env "EspCloseRule";
    '(committed, refused) ← submit_entries close_fn rules_before entries [] 0 0;
    (if (refused =? 0)%nat then mret tt
     else update (fun s => s <| rules ::= compact rules_before |>));;
    mret (if (committed =? 0)%nat then Failed_
          else if all_ok && (refused =? 0)%nat then Complete else Partial).

Definition InstallRules (document : RuleDocument) : M InstallStatus :=
  client ← gets client_handle;
  if negb (handle_ok client) || negb (nonempty (doc_rules document)) then
    Warn "InstallRules requires a connected client and at least one rule";; mret Failed_
  else
    queue ← gets queue_handle;
    if DocumentNeedsQueue document && negb (handle_ok queue) then
      Warn "InstallRules requires a created queue for queue-backed rules";; mret Failed_
    else
      create_rule_fn ← Require env "EspCreateRule";
      update_rules_fn ← (if (create_rule_fn : bool) then Require env "EspUpdateRules" else mret false);
      if negb (update_rules_fn : bool) then mret Failed_
      else
        update (fun s => s <| notify_queries := [] |> <| named_collections := [] |>);;
        collections_ok ← InstallDocumentCollections env document;
        if negb collections_ok then Warn "InstallDocumentCollections failed";; mret Failed_
        else
          update (fun s => s <| notify_queries ::= fun l => l ++ document_queries document |>);;
          install_rules document.
End RuleInstall.

(** * Theorems *)

(** ** Compaction *)

Lemma compact_loop_spec n (before kept rest slack : list handle) :
  length rest = n ->
  let l := before ++ kept ++ slack ++ rest in
  let '(l', write) := compact_loop n (length before + length kept + length slack)
                        (length before + length kept) l in
  take write l' = before ++ kept ++ live rest.
Proof.
  intros Hn. cbv zeta. revert kept slack rest Hn.
  induction n as [|n IH]; intros kept slack rest Hn; cbn [compact_loop].
  { destruct rest; [|done]. cbn [List.filter]. rewrite !app_nil_r, app_assoc.
    apply take_app_length'. by rewrite length_app. }
  destruct rest as [|h rest]; [done|]. injection Hn as Hn.
  assert ((before ++ kept ++ slack ++ h :: rest) !! (length before + length kept + length slack)%nat = Some h)
    as ->.
  { rewrite !lookup_app_r by lia. by replace (_ - _ - _ - _)%nat with 0%nat by lia. }
  cbn [List.filter]. destruct (handle_ok h).
  - replace (S (length before + length kept)) with (length before + length (kept ++ [h]))%nat
      by (rewrite length_app; cbn; lia).
    destruct slack as [|x slack].
    + cbn [length app]. rewrite Nat.add_0_r, Nat.eqb_refl.
      specialize (IH (kept ++ [h]) [] rest Hn). cbn [length app] in IH.
      rewrite Nat.add_0_r in IH. rewrite <- !app_assoc in IH. cbn [app] in IH.
      replace (S (length before + length kept)) with (length before + length (kept ++ [h]))%nat
        by (rewrite length_app; cbn; lia). exact IH.
    + destruct (Nat.eqb_spec (length before + length kept) (length before + length kept + length (x :: slack)))
        as [E|_]; [cbn in E; lia|].
      specialize (IH (kept ++ [h]) (slack ++ [h]) rest Hn).
      replace (S (length before + length kept + length (x :: slack)))
        with (length before + length (kept ++ [h]) + length (slack ++ [h]))%nat
        by (rewrite !length_app; cbn; lia).
      replace (<[(length before + length kept)%nat:=h]> (before ++ kept ++ (x :: slack) ++ h :: rest))
        with (before ++ (kept ++ [h]) ++ (slack ++ [h]) ++ rest); cycle 1.
      { rewrite insert_app_r_alt by lia. f_equal. rewrite insert_app_r_alt by lia.
        rewrite <- !app_assoc. f_equal. by replace (_ - _ - _)%nat with 0%nat by lia. }
      replace (S (length before + length kept)) with (length before + length (kept ++ [h]))%nat
        by (rewrite length_app; cbn; lia).
      rewrite <- (app_assoc kept [h] (live rest)) in IH. exact IH.
  - specialize (IH kept (slack ++ [h]) rest Hn). rewrite <- !app_assoc in IH. cbn [app] in IH.
    replace (S (length before + length kept + length slack))
      with (length before + length kept + length (slack ++ [h]))%nat by (rewrite length_app; cbn; lia).
    exact IH.
Qed.

(** The in-place loop keeps the rules of before and the live ones after them. *)
Lemma compact_spec (before rest : list handle) : compact (length before) (before ++ rest) = before ++ live rest.
Proof.
  unfold compact. rewrite length_app. replace (length before + length rest - length before)%nat
    with (length rest) by lia.
  pose proof (compact_loop_spec (length rest) before [] rest [] eq_refl) as H.
  cbn [length app] in H. rewrite !Nat.add_0_r in H.
  by destruct (compact_loop _ _ _ _).
Qed.
