(* ===== verification/RuleInstallRun.v ===== *)
(** The rule installation, step by step: what a rule descriptor holds, and the build and
    submission loops of RuleInstall.v as relations on the calls they make. *)
From S2P Require Import Prelude Text Core Events RuleModel RuleParser MemoryView EnforceCompat Api.
From S2P Require Import NtPath Session FilterBuild Refs RuleConfig RuleInstall.

(** ** The rule part of a trace *)

Definition is_rule_event (e : Event) : bool :=
  match e with Called export _ _ => rule_call export | OutOfBounds => true end.

Definition rule_events {D} (w : World D) : list Event := List.filter is_rule_event (w_trace w).

(** What the patch of the client leaves alone. *)
Definition base_state (s : Session) :=
  (rules s, client_handle s, queue_handle s, enforce_compat s).

#[export] Instance base_state_quiet : Quiet base_state. Proof. by split. Qed.

(** The fields of a descriptor below the configuration pointer and the event modify
    fields above it are as they were. *)
Definition same_fields (d d' : blob) : Prop :=
  length d' = length d /\
  forall n offset, (offset + n <= 40 \/ 1088 <= offset)%nat -> read_at n offset d' = read_at n offset d.

#[export] Instance same_fields_preorder : PreOrder same_fields.
Proof.
  split; [by split|]. intros d1 d2 d3 [L1 R1] [L2 R2]. split; [congruence|].
  intros n offset H. by rewrite R2, R1.
Qed.

Lemma write_same_fields offset value d d' :
  (40 <= offset)%nat -> (offset + length value <= 1088)%nat ->
  write_at offset value d = Some d' -> same_fields d d'.
Proof.
  intros H1 H2 H. split; [by eapply write_at_length|]. intros n o Ho.
  eapply read_write_other; [|done]. lia.
Qed.

Lemma BindConfigBlob_same config d d' : BindConfigBlob config d = Some d' -> same_fields d d'.
Proof. apply write_same_fields; rewrite ?le_bytes_length; fits. Qed.

Lemma AttachDescriptorFilter_same node filter d d' :
  AttachDescriptorFilter node filter d = Some d' -> same_fields d d'.
Proof.
  unfold AttachDescriptorFilter. destruct (FilterRuleOffset node =? 0)%nat eqn:E0; [by intros [= <-]|].
  cbn [negb andb]. destruct (_ <=? _)%nat; [|by intros [= <-]].
  pose proof (FilterRuleOffset_values node) as Hv. rewrite !elem_of_cons in Hv.
  destruct Hv as [Hv|[Hv|[Hv|Hv]]]; [by rewrite Hv in E0|rewrite Hv..|by apply not_elem_of_nil in Hv];
    apply write_same_fields; rewrite ?le_bytes_length; fits.
Qed.

Section Building.
  Context {D : Type} (env : Env D).
  Implicit Types (w : World D).
  Local Abbreviation addr := (env_addr env).
  Local Abbreviation fr := (frames (event_allowed not_rule_call) rule_state).
  Local Abbreviation within := (framed (event_allowed not_rule_call) rule_state).

Lemma within_events {T} (keep : Session -> T) w w' :
  framed (event_allowed not_rule_call) keep w w' -> rule_events w' = rule_events w.
Proof.
  intros [(new & Ht & Hall) _]. unfold rule_events. rewrite Ht, List.filter_app.
  replace (List.filter is_rule_event new) with (@nil Event); [by rewrite app_nil_r|].
  clear Ht. induction Hall as [|e new He _ IH]; [done|]. cbn [List.filter].
  destruct e as [export args reply|]; [|done]. cbn in He |- *. unfold not_rule_call in He.
  by destruct (rule_call export).
Qed.

(** A computation on the descriptor that keeps its fields, whatever else it calls. *)
Definition attaching (m : blob -> ST (World D) blob) : Prop :=
  forall d w, length d = kRuleDescriptorSize ->
  within w (m d w).2 /\ same_fields d (m d w).1.

Lemma attaching_bind {A} (m : ST (World D) A) (f : A -> blob -> ST (World D) blob) :
  fr m -> (forall a, attaching (f a)) -> attaching (fun d => a ← m; f a d).
Proof.
  intros Hm Hf d w Hd. rewrite st_bind_unfold. destruct (Hf (m w).1 d (m w).2 Hd) as [H1 H2].
  split; [|done]. etransitivity; [apply Hm|done].
Qed.

Lemma attach_config_attaching (f : Z -> blob -> blob -> option (blob * blob)) :
  (forall config, attaches (f config) config) -> attaching (attach_config env f).
Proof.
  intros Hf d w Hd. unfold attach_config. run.
  destruct (Hf (addr (LFoIoConfig (length (fo_io_configs (storage (w_session w)))))) d empty_config Hd)
    as (d' & b' & -> & Hbind & _); [by apply length_replicate|].
  cbn [checked]. run. split; [|by eapply BindConfigBlob_same].
  split; [|done]. exists []. by rewrite app_nil_r.
Qed.

Lemma attach_filter_attaching node filter :
  attaching (fun d => checked (AttachDescriptorFilter node filter d) d).
Proof.
  intros d w Hd. destruct (AttachDescriptorFilter_keeps node filter d Hd) as (d' & E & _).
  rewrite E. split; [reflexivity|]. by eapply AttachDescriptorFilter_same.
Qed.

Lemma bind_custom_frames kinds required spec : fr (bind_custom env kinds required spec).
Proof. unfold bind_custom. frame. Qed.

Lemma image_filter_frames spec : fr (image_filter env spec).
Proof. unfold image_filter, remember_filters. frame. apply CreateLeafFilter_frames. Qed.

Lemma AttachFilterToDescriptor_attaching spec filter :
  attaching (fun d => AttachFilterToDescriptor env d spec filter).
Proof.
  unfold AttachFilterToDescriptor. cbv zeta.
  pose proof bind_custom_frames as Hcustom. pose proof image_filter_frames as Himage.
  destruct (IsThreadEventType _).
  { apply attaching_bind; [done|]. intros. apply attach_config_attaching. intros.
    apply AttachThreadConfig_attaches. }
  destruct (NeedsTypedIoConfig _).
  { intros d w Hd. rewrite st_bind_unfold.
    destruct (attach_config_attaching (AttachTypedIoConfig addr spec filter)
                (AttachTypedIoConfig_attaches addr spec filter) d w Hd) as [H1 H2].
    destruct (HasProcessLeaf _); [|done].
    destruct (attach_filter_attaching (rs_filter spec) filter (attach_config env (AttachTypedIoConfig addr spec filter) d w).1
                (attach_config env (AttachTypedIoConfig addr spec filter) d w).2) as [H3 H4]; [by rewrite (proj1 H2)|].
    split; etransitivity; done. }
  destruct (NeedsProcessCreateConfig _).
  { apply attaching_bind; [done|]. intros image. apply attaching_bind; [done|]. intros.
    apply attach_config_attaching. intros. apply AttachProcessCreateConfig_attaches. }
  destruct (NeedsProcessConfig _).
  { apply attaching_bind; [done|]. intros. apply attach_config_attaching. intros.
    apply AttachProcessConfig_attaches. }
  destruct (NeedsImageLoadConfig _).
  { apply attaching_bind; [done|]. intros. apply attach_config_attaching. intros.
    apply AttachImageLoadConfig_attaches. }
  destruct (IsRegistryEventType _).
  { apply attaching_bind; [done|]. intros. apply attach_config_attaching. intros.
    apply AttachRegistryConfig_attaches. }
  destruct (handle_ok filter); [apply attach_filter_attaching|].
  intros d w Hd. split; reflexivity.
Qed.

Lemma TryBuildRuleFilter_frames spec : fr (TryBuildRuleFilter env spec).
Proof. unfold TryBuildRuleFilter, remember_filters. frame. apply CreateFilterTree_frames. Qed.
End Building.

(** ** Descriptor fields *)

(** Whether the writes leave the [n] bytes at [offset] alone. *)
Definition clear_of (n offset : nat) (fields : list (nat * list Z)) : bool :=
  forallb (fun f => (offset + n <=? f.1)%nat || (f.1 + length f.2 <=? offset)%nat) fields.

Lemma write_fields_some fields d :
  forallb (fun f => (f.1 + length f.2 <=? length d)%nat) fields = true ->
  exists d', write_fields fields d = Some d' /\ length d' = length d.
Proof.
  revert d. induction fields as [|[o b] fields IH]; intros d; [by exists d|].
  cbn [forallb fst snd]. intros [Hb%Nat.leb_le Hf]%andb_true_iff.
  destruct (write_at_in_bounds o b d Hb) as [d1 E]. cbn [write_fields]. rewrite E, some_bind.
  apply write_at_length in E. destruct (IH d1) as (d' & Ed & L); [by rewrite E|].
  exists d'. split; [done|congruence].
Qed.

Lemma write_fields_other n offset fields d d' :
  write_fields fields d = Some d' -> clear_of n offset fields = true ->
  read_at n offset d' = read_at n offset d.
Proof.
  revert d. induction fields as [|[o b] fields IH]; intros d; cbn [write_fields]; [by intros [= <-]|].
  intros (d1 & E & H)%bind_Some. unfold clear_of. cbn [forallb fst snd].
  intros [Hc Hf]%andb_true_iff. rewrite (IH d1 H Hf). eapply read_write_other; [|exact E].
  apply orb_true_iff in Hc as [Hc|Hc]; apply Nat.leb_le in Hc; auto.
Qed.

Lemma write_fields_read n offset z before after d d' :
  write_fields (before ++ (offset, le_bytes n z) :: after) d = Some d' ->
  clear_of n offset after = true -> read_at n offset d' = z mod 2 ^ (8 * Z.of_nat n).
Proof.
  revert d. induction before as [|[o b] before IH]; intros d; cbn [write_fields app].
  - intros (d1 & E & H)%bind_Some Hc. rewrite (write_fields_other n offset after d1) by done.
    by eapply read_write_mod.
  - intros (d1 & E & H)%bind_Some Hc. by eapply IH.
Qed.

(** The fields every rule has, in a descriptor. *)
Record common_ok (spec : RuleSpec) (d : blob) : Prop := {
  co_size : length d = kRuleDescriptorSize;
  co_order : read_at 8 kRuleOrderOffset d = kRuleOrderKey;
  co_lifetime : read_at 4 kRuleLifetimeOffset d = u32 (default (LifetimeToFfi spec) (rs_modifier_override spec));
  co_flags : read_at 4 kRuleFlagsOffset d = u32 (rs_flags spec);
  co_event_type : read_at 4 kRuleEventTypeOffset d = u32 (rs_eventType spec);
  co_selector : read_at 4 kRuleActionSelectorOffset d = u32 (rule_selector spec)
}.

Lemma common_descriptor spec :
  exists d, (d ← new_descriptor; write_fields (common_fields spec) d) = Some d /\ common_ok spec d.
Proof.
  destruct new_descriptor as [d0|] eqn:E0; [|by vm_compute in E0]. rewrite some_bind.
  assert (length d0 = kRuleDescriptorSize) as L0
    by (unfold new_descriptor in E0; apply write_at_length in E0; by rewrite E0, length_replicate).
  destruct (write_fields_some (common_fields spec) d0) as (d & E & L); [by rewrite L0|].
  exists d. split; [done|]. unfold common_fields in E. split.
  - congruence.
  - exact (write_fields_read 8 kRuleOrderOffset kRuleOrderKey [] (drop 1 (common_fields spec)) d0 d E eq_refl).
  - exact (write_fields_read 4 _ _ (take 1 (common_fields spec)) (drop 2 (common_fields spec)) d0 d E eq_refl).
  - exact (write_fields_read 4 _ _ (take 2 (common_fields spec)) (drop 3 (common_fields spec)) d0 d E eq_refl).
  - exact (write_fields_read 4 _ _ (take 3 (common_fields spec)) (drop 4 (common_fields spec)) d0 d E eq_refl).
  - exact (write_fields_read 4 _ _ (take 4 (common_fields spec)) [] d0 d E eq_refl).
Qed.

(** Writes above the action selector keep the common fields; so do attachments. *)
Lemma common_ok_reads spec d d' :
  length d' = length d ->
  (forall n offset, (offset + n <= 40)%nat -> read_at n offset d' = read_at n offset d) ->
  read_at 4 kRuleActionSelectorOffset d' = read_at 4 kRuleActionSelectorOffset d ->
  common_ok spec d -> common_ok spec d'.
Proof. intros L R S []. split; rewrite ?L, ?S, ?R by fits; done. Qed.

Lemma common_ok_same spec d d' : same_fields d d' -> common_ok spec d -> common_ok spec d'.
Proof. intros [L R]. apply common_ok_reads; auto. apply R. right. fits. Qed.

(** ** What may be submitted *)

(** Why an enforcing rule is refused: outside the native and the compat types, or a
    compat type without the patch. *)
Definition enforce_blocked (compat patched : bool) (event_type : Z) : bool :=
  (if IsEnforceCompatEventType event_type then negb (compat && patched)
   else EventModifyKindForEvent event_type =? 0) ||
  negb (SupportsEnforcePayload event_type).

(** Why a rule is refused, apart from its filter. *)
Definition blocked (compat patched : bool) (spec : RuleSpec) : bool :=
  (rs_eventType spec =? 0) || selector_conflict spec ||
  ((rule_selector spec =? kActionRewrite) && enforce_blocked compat patched (rs_eventType spec)).

(** The action fields of a descriptor. [l]: the rules of the session. *)
Definition action_ok (addr : Loc -> Z) (queue : handle) (l : list handle) (spec : RuleSpec) (d : blob)
    (st : Storage) : Prop :=
  let selector := rule_selector spec in
  if selector =? kActionRewrite then
    read_at 4 kRuleEventModifyCountOffset d = kEventModifyKindFoCreate /\
    read_at 4 kRuleEventModifySizeOffset d = kEventModifyAccessMaskBytes /\
    read_at 8 kRuleEventQueueOffset d = u64 (default kEventModifyKindFoCreate (rs_modify_kind_override spec)) /\
    exists header mask,
      read_at 8 kRuleEventModifyPtrOffset d = u64 (addr (LEventModify header)) /\
      event_modify_blobs st !! header = Some (mkEventModify 1 (addr (LAccessMask mask))) /\
      access_masks st !! mask = Some (mkAccessMask kRewriteAccessMask kRewriteAccessMaskFlags)
  else if selector =? kActionMatchSubrules then
    match last l with
    | None => read_at 4 kRuleSubruleCountOffset d = 0 /\
              read_at 8 kRuleSubruleArrayOffset d = u64 (addr LEmptySubrules)
    | Some predecessor =>
        read_at 4 kRuleSubruleCountOffset d = 1 /\
        read_at 8 kRuleSubruleArrayOffset d = u64 (addr (LSubrule (length (subrule_handles st)))) /\
        last (subrule_handles st) = Some predecessor
    end
  else read_at 8 kRuleEventQueueOffset d = (if selector =? kActionQueueBacked then u64 queue else 0).

(** The rule of this installation that a new rule points at, 0 for none. *)
Definition anchor_of (entries : list PendingEntry) (spec : RuleSpec) : handle :=
  if rule_selector spec =? kActionMatchSubrules then from_option pe_rule 0 (last entries) else 0.

(** One turn of the build loop: the pending entry and the rule events. *)
Inductive build_step (addr : Loc -> Z) (compat patched : bool) (queue : handle) (before : list handle)
    (entries : list PendingEntry) (spec : RuleSpec) : option PendingEntry -> list Event -> Prop :=
| step_blocked : blocked compat patched spec = true ->
    build_step addr compat patched queue before entries spec None []
| step_unfiltered : IsEmptyFilter (rs_filter spec) = false ->
    build_step addr compat patched queue before entries spec None []
| step_created d st reply :
    blocked compat patched spec = false -> common_ok spec d ->
    action_ok addr queue (before ++ (pe_rule <$> entries)) spec d st ->
    build_step addr compat patched queue before entries spec
      (if Succeeded (re_result reply) && handle_ok (re_out reply)
       then Some (mkPending (re_out reply) (anchor_of entries spec)) else None)
      [Called "EspCreateRule" [ARuleDescriptor d st] reply].

(** The build loop: the rules, the entries before and after, whether no rule was
    refused, and the rule events. *)
Inductive build_run (addr : Loc -> Z) (compat patched : bool) (queue : handle) (before : list handle)
    : list RuleSpec -> list PendingEntry -> list PendingEntry -> bool -> list Event -> Prop :=
| build_nil entries : build_run addr compat patched queue before [] entries entries true []
| build_cons spec specs entries entry final ok first rest :
    build_step addr compat patched queue before entries spec entry first ->
    build_run addr compat patched queue before specs (entries ++ option_list entry) final ok rest ->
    build_run addr compat patched queue before (spec :: specs) entries final
      (bool_decide (is_Some entry) && ok) (first ++ rest).

Lemma enforced_kind compat patched event_type :
  enforce_blocked compat patched event_type = false ->
  (if IsEnforceCompatEventType event_type then kEventModifyKindFoCreate
   else EventModifyKindForEvent event_type) = kEventModifyKindFoCreate.
Proof.
  unfold enforce_blocked, SupportsEnforcePayload. intros [H1 H2]%orb_false_iff.
  destruct (IsEnforceCompatEventType event_type); [done|].
  rewrite orb_false_r in H2. apply negb_false_iff, Z.eqb_eq in H2. by subst.
Qed.

Section Runs.
  Context {D : Type} (env : Env D).
  Implicit Types (w : World D).
  Local Abbreviation addr := (env_addr env).

(** The patch is attempted once, and its outcome stays. *)
Definition patch_le w w' : Prop :=
  enforce_compat_patch_attempted (w_session w) = true ->
  enforce_compat_patch_attempted (w_session w') = true /\
  enforce_compat_patch_ok (w_session w') = enforce_compat_patch_ok (w_session w).

#[export] Instance patch_le_preorder : PreOrder patch_le.
Proof. split; unfold patch_le; [by intros w|]. intros w1 w2 w3 H1 H2 H. naive_solver congruence. Qed.

(** No rule call, and nothing changed but the patch. *)
Definition stable w w' : Prop := framed (event_allowed not_rule_call) base_state w w' /\ patch_le w w'.

#[export] Instance stable_preorder : PreOrder stable.
Proof.
  split; [intros w; split; reflexivity|]. intros w1 w2 w3 [F1 P1] [F2 P2]. split; etransitivity; done.
Qed.

Lemma within_stable w w' : framed (event_allowed not_rule_call) rule_state w w' -> stable w w'.
Proof.
  intros [Ht Hk]. unfold rule_state in Hk. injection Hk as ? ? ? ? ? ? ? ? ?. split.
  - split; [done|]. unfold base_state. congruence.
  - intros Ha. split; congruence.
Qed.

Lemma warn_stable message w : stable w (Warn message w).2.
Proof. apply within_stable. apply frames_warn. exact _. Qed.

Lemma EnsureEnforceCompatPatch_run w :
  let '(patched, w') := EnsureEnforceCompatPatch env w in
  stable w w' /\ enforce_compat_patch_attempted (w_session w') = true /\
  enforce_compat_patch_ok (w_session w') = patched.
Proof.
  unfold EnsureEnforceCompatPatch, RecordStep, apply_patch. run.
  destruct (enforce_compat_patch_attempted (w_session w)) eqn:E; [run; done|].
  run. unfold system. destruct (ApplyFromFfiCompatPatchWithHooks _ _ _) as [r mem]. cbn.
  split; [|done]. split; [|by intros H; rewrite E in H].
  split; [|done]. exists []. by rewrite app_nil_r.
Qed.

Lemma enforce_kind_run spec w :
  let '(kind, w') := enforce_kind env spec w in
  stable w w' /\
  forall patched, (enforce_compat_patch_attempted (w_session w') = true ->
                   enforce_compat_patch_ok (w_session w') = patched) ->
  match kind with
  | Some kind => enforce_blocked (enforce_compat (w_session w)) patched (rs_eventType spec) = false /\
                 kind = kEventModifyKindFoCreate
  | None => enforce_blocked (enforce_compat (w_session w)) patched (rs_eventType spec) = true
  end.
Proof.
  pose proof enforced_kind as Hkind. unfold enforce_kind, enforce_blocked in *. cbv zeta.
  destruct (IsEnforceCompatEventType (rs_eventType spec)) eqn:Ec.
  - assert (SupportsEnforcePayload (rs_eventType spec) = true) as Hs
      by (unfold SupportsEnforcePayload; rewrite Ec; apply orb_true_r).
    rewrite Hs. run. destruct (enforce_compat (w_session w)) eqn:Ee; cbn [negb].
    2:{ unfold refuse. run. split; [apply warn_stable|done]. }
    run. pose proof (EnsureEnforceCompatPatch_run w) as H.
    destruct (EnsureEnforceCompatPatch env w) as [patched w1]. destruct H as (Hst & Ha & Hok). cbn [fst snd].
    destruct patched; cbn [negb].
    + run. split; [done|]. intros p Hp. specialize (Hp Ha). by rewrite <- Hp, Hok.
    + run. unfold refuse. run. split; [etransitivity; [done|apply warn_stable]|].
      intros p Hp. assert (p = false) as -> by (rewrite <- Hok; symmetry; exact (Hp Ha)). done.
  - destruct (Z.eqb_spec (EventModifyKindForEvent (rs_eventType spec)) 0) as [E|E]; cbn [orb].
    { unfold refuse. run. split; [apply warn_stable|done]. }
    run. destruct (SupportsEnforcePayload _) eqn:Es; cbn [negb].
    + run. split; [done|]. intros p _. split; [done|].
      specialize (Hkind true true (rs_eventType spec)). rewrite Ec, Es in Hkind.
      apply Hkind. by apply Z.eqb_neq in E as ->.
    + unfold refuse. run. split; [apply warn_stable|done].
Qed.

Lemma checked_some {A} (o : option A) (default a : A) w : o = Some a -> checked o default w = (a, w).
Proof. by intros ->. Qed.

(** Sequences of writes above the lower fields. *)
Lemma write_action_fields spec fields d :
  common_ok spec d ->
  forallb (fun f => (kRuleEventModifyCountOffset <=? f.1)%nat && (f.1 + length f.2 <=? kRuleDescriptorSize)%nat) fields = true ->
  clear_of 4 kRuleActionSelectorOffset fields = true ->
  exists d', write_fields fields d = Some d' /\ common_ok spec d'.
Proof.
  intros Hd Hf Hs. destruct (write_fields_some fields d) as (d' & E & L).
  { rewrite (co_size _ _ Hd). rewrite forallb_forall in *. intros f Hin. by apply Hf, andb_true_iff in Hin as [_ ?]. }
  exists d'. split; [done|]. eapply common_ok_reads; [exact L| |by eapply write_fields_other|done].
  intros n o Ho. eapply write_fields_other; [done|]. unfold clear_of. rewrite forallb_forall in *.
  intros f Hin. apply Hf, andb_true_iff in Hin as [H%Nat.leb_le _]. apply orb_true_iff. left.
  apply Nat.leb_le. unfold kRuleEventModifyCountOffset in H. lia.
Qed.

Lemma store_payload_run w :
  let '(ptr, w') := store_payload env w in
  stable w w' /\ exists header mask, ptr = addr (LEventModify header) /\
    event_modify_blobs (storage (w_session w')) !! header = Some (mkEventModify 1 (addr (LAccessMask mask))) /\
    access_masks (storage (w_session w')) !! mask = Some (mkAccessMask kRewriteAccessMask kRewriteAccessMaskFlags).
Proof.
  unfold store_payload. run. split.
  { split; [|done]. split; [|done]. exists []. by rewrite app_nil_r. }
  eexists _, _. split; [done|]. cbn. split; by apply list_lookup_middle.
Qed.

Lemma action_rewrite_run spec n entries d w :
  common_ok spec d -> (rule_selector spec =? kActionRewrite) = true ->
  let '(r, w') := write_action env spec n entries d w in
  stable w w' /\
  forall patched, (enforce_compat_patch_attempted (w_session w') = true ->
                   enforce_compat_patch_ok (w_session w') = patched) ->
  match r with
  | Some (d', anchor) =>
      enforce_blocked (enforce_compat (w_session w)) patched (rs_eventType spec) = false /\ anchor = 0 /\
      common_ok spec d' /\ forall queue l, action_ok addr queue l spec d' (storage (w_session w'))
  | None => enforce_blocked (enforce_compat (w_session w)) patched (rs_eventType spec) = true
  end.
Proof.
  intros Hd Hs. unfold write_action. cbv zeta. rewrite Hs, st_bind_unfold.
  pose proof (enforce_kind_run spec w) as Hk. destruct (enforce_kind env spec w) as [kind w1].
  destruct Hk as [Hst Hk]. cbn [fst snd]. destruct kind as [kind|]; [|run; split; [done|]; intros p Hp; by apply Hk].
  rewrite st_bind_unfold. pose proof (store_payload_run w1) as Hp.
  destruct (store_payload env w1) as [ptr w2]. destruct Hp as (Hst2 & header & mask & -> & He & Hm).
  cbn [fst snd]. rewrite st_bind_unfold.
  destruct (write_action_fields spec (rewrite_fields kind (default kind (rs_modify_kind_override spec))
              (addr (LEventModify header))) d Hd eq_refl eq_refl) as (d' & E & Hd').
  rewrite (checked_some _ _ _ _ E). run. split; [etransitivity; done|].
  intros p Hpatched. destruct (Hk p) as [Hb ->].
  { intros Ha. destruct (proj2 Hst2 Ha) as [Ha2 <-]. by apply Hpatched. }
  split; [done|]. split; [done|]. split; [done|]. intros queue l. unfold action_ok. rewrite Hs.
  set (fields := rewrite_fields _ _ _) in E.
  split; [exact (write_fields_read 4 _ _ (take 1 fields) (drop 2 fields) d d' E eq_refl)|].
  split; [exact (write_fields_read 4 _ _ (take 2 fields) (drop 3 fields) d d' E eq_refl)|].
  split; [exact (write_fields_read 8 _ _ [] (drop 1 fields) d d' E eq_refl)|].
  exists header, mask. split; [|done].
  exact (write_fields_read 8 _ _ (take 3 fields) [] d d' E eq_refl).
Qed.

Lemma subrule_array_run before entries w :
  rules (w_session w) = before ++ (pe_rule <$> entries) ->
  let '((array, count, anchor), w') := subrule_array env (length before) entries w in
  stable w w' /\ anchor = from_option pe_rule 0 (last entries) /\
  match last (rules (w_session w)) with
  | None => count = 0 /\ array = addr LEmptySubrules
  | Some predecessor =>
      count = 1 /\ array = addr (LSubrule (length (subrule_handles (storage (w_session w'))))) /\
      last (subrule_handles (storage (w_session w'))) = Some predecessor
  end.
Proof.
  intros Hl. unfold subrule_array. run. rewrite Hl.
  destruct (last (before ++ (pe_rule <$> entries))) as [predecessor|] eqn:El.
  2:{ apply last_None, app_eq_nil in El as [_ El%fmap_nil_inv]. subst. run. done. }
  run. rewrite length_app, length_fmap.
  assert (stable w (mkWorld ((w_session w) <| storage ::= fun s => s <| subrule_handles ::= fun h => h ++ [predecessor] |> |>)
           (w_driver w) (w_trace w) (w_log w) (w_out w))) as Hst.
  { split; [|done]. split; [|done]. exists []. by rewrite app_nil_r. }
  destruct (Nat.ltb_spec (length before) (length before + length entries)) as [H|H].
  - destruct (last entries) as [e|] eqn:Ee.
    2:{ apply last_None in Ee. subst. cbn in H. lia. }
    run. cbn. split; [done|]. split; [done|]. split; [done|]. split; [done|]. apply last_snoc.
  - destruct entries; [|cbn in H; lia]. run. cbn. split; [done|]. split; [done|]. split; [done|].
    split; [done|]. apply last_snoc.
Qed.

Lemma write_action_run spec before entries d w :
  rules (w_session w) = before ++ (pe_rule <$> entries) -> common_ok spec d ->
  let '(r, w') := write_action env spec (length before) entries d w in
  stable w w' /\
  forall patched, (enforce_compat_patch_attempted (w_session w') = true ->
                   enforce_compat_patch_ok (w_session w') = patched) ->
  match r with
  | Some (d', anchor) =>
      (rule_selector spec =? kActionRewrite) &&
        enforce_blocked (enforce_compat (w_session w)) patched (rs_eventType spec) = false /\
      anchor = anchor_of entries spec /\ common_ok spec d' /\
      action_ok addr (queue_handle (w_session w)) (rules (w_session w)) spec d' (storage (w_session w'))
  | None => (rule_selector spec =? kActionRewrite) &&
              enforce_blocked (enforce_compat (w_session w)) patched (rs_eventType spec) = true
  end.
Proof.
  intros Hl Hd. unfold anchor_of.
  destruct (rule_selector spec =? kActionRewrite) eqn:Es.
  { pose proof (action_rewrite_run spec (length before) entries d w Hd Es) as H.
    destruct (write_action _ _ _ _ _ _) as [r w']. destruct H as [Hst H]. split; [done|].
    intros p Hp. specialize (H p Hp). destruct r as [[d' anchor]|]; [|done].
    destruct H as (? & -> & ? & ?). split; [done|]. split; [|by auto].
    apply Z.eqb_eq in Es. by rewrite Es. }
  unfold write_action, action_ok. cbv zeta. rewrite Es.
  destruct (rule_selector spec =? kActionMatchSubrules) eqn:Em.
  - rewrite st_bind_unfold. pose proof (subrule_array_run before entries w Hl) as H.
    destruct (subrule_array env (length before) entries w) as [[[array count] anchor] w1]. destruct H as (Hst & -> & H).
    cbn [fst snd]. rewrite st_bind_unfold.
    set (fields := [_; _]). destruct (write_action_fields spec fields d Hd eq_refl eq_refl) as (d' & E & Hd').
    rewrite (checked_some _ _ _ _ E). run. split; [done|]. intros p _. split; [done|]. split; [done|]. split; [done|].
    pose proof (write_fields_read 4 kRuleSubruleCountOffset count [] (drop 1 fields) d d' E eq_refl) as Hc.
    pose proof (write_fields_read 8 kRuleSubruleArrayOffset array (take 1 fields) [] d d' E eq_refl) as Ha.
    rewrite Hc, Ha. destruct (last (rules (w_session w))).
    + by destruct H as (-> & -> & ?).
    + by destruct H as (-> & ->).
  - assert (exists queue, (if rule_selector spec =? kActionQueueBacked then gets queue_handle else mret 0) w = (queue, w) /\
      queue = (if rule_selector spec =? kActionQueueBacked then queue_handle (w_session w) else 0)) as (queue & Hq & Eq).
    { by destruct (rule_selector spec =? kActionQueueBacked); eexists. }
    rewrite st_bind_unfold, Hq. cbn [fst snd]. rewrite st_bind_unfold.
    destruct (write_action_fields spec [(kRuleEventQueueOffset, le_bytes 8 queue)] d Hd eq_refl eq_refl)
      as (d' & E & Hd').
    rewrite (checked_some _ _ _ _ E). run. split; [done|]. intros p _. split; [done|]. split; [done|]. split; [done|].
    rewrite (write_fields_read 8 kRuleEventQueueOffset queue [] [] d d' E eq_refl). subst queue.
    by destruct (rule_selector spec =? kActionQueueBacked).
Qed.

(** What building rules leaves alone, whatever rules it creates. *)
Definition steady w w' : Prop :=
  client_handle (w_session w') = client_handle (w_session w) /\
  queue_handle (w_session w') = queue_handle (w_session w) /\
  enforce_compat (w_session w') = enforce_compat (w_session w) /\ patch_le w w'.

#[export] Instance steady_preorder : PreOrder steady.
Proof.
  split; [by intros w; repeat split|]. intros w1 w2 w3 (? & ? & ? & P1) (? & ? & ? & P2).
  split_and!; [congruence..|]. by etransitivity.
Qed.

Lemma stable_steady w w' : stable w w' -> steady w w'.
Proof. intros [[_ Hk] P]. injection Hk as ? ? ? ?. by split_and!. Qed.

Lemma stable_rules w w' : stable w w' -> rules (w_session w') = rules (w_session w).
Proof. intros [[_ Hk] _]. by injection Hk. Qed.

Lemma stable_events w w' : stable w w' -> rule_events w' = rule_events w.
Proof. intros [F _]. by eapply within_events. Qed.

Definition patched_by (patched : bool) w : Prop :=
  enforce_compat_patch_attempted (w_session w) = true -> enforce_compat_patch_ok (w_session w) = patched.

Lemma patched_by_before patched w w' : patch_le w w' -> patched_by patched w' -> patched_by patched w.
Proof. intros P H Ha. destruct (P Ha) as [Ha' <-]. by apply H. Qed.

(** The end of a turn. *)
Lemma create_rule_run spec d anchor w :
  let reply := reply_of env "EspCreateRule" [ARuleDescriptor d (storage (w_session w))] w in
  let entry := if Succeeded (re_result reply) && handle_ok (re_out reply)
               then Some (mkPending (re_out reply) anchor) else None in
  let '(r, w') := create_rule env spec d anchor w in
  r = entry /\
  rule_events w' = rule_events w ++ [Called "EspCreateRule" [ARuleDescriptor d (storage (w_session w))] reply] /\
  rules (w_session w') = rules (w_session w) ++ (pe_rule <$> option_list entry) /\ steady w w'.
Proof.
  cbv zeta. unfold create_rule, RecordStep. run. rewrite Call_run. run.
  set (reply := reply_of _ _ _ _). rewrite Failed_Succeeded.
  destruct (Succeeded (re_result reply)), (handle_ok (re_out reply)); cbn [negb orb andb];
    try (run; unfold rule_events; cbn; rewrite List.filter_app, app_nil_r; done).
  run. destruct (patched_install spec); run; unfold rule_events; cbn; rewrite List.filter_app; done.
Qed.

(** What one turn of the build loop achieves. *)
Definition turn_ok (before : list handle) (entries : list PendingEntry) (spec : RuleSpec)
    (r : option PendingEntry) w w' : Prop :=
  exists new, rule_events w' = rule_events w ++ new /\
    rules (w_session w') = before ++ (pe_rule <$> entries ++ option_list r) /\ steady w w' /\
    forall patched, patched_by patched w' ->
      build_step addr (enforce_compat (w_session w)) patched (queue_handle (w_session w)) before entries
        spec r new.

(** A turn that only refused, after nothing but stable steps. *)
Lemma refused_turn before entries spec w w' :
  rules (w_session w) = before ++ (pe_rule <$> entries) -> stable w w' ->
  (forall patched, patched_by patched w' ->
     blocked (enforce_compat (w_session w)) patched spec = true \/ IsEmptyFilter (rs_filter spec) = false) ->
  turn_ok before entries spec None w w'.
Proof.
  intros Hl Hst Hb. exists []. rewrite (stable_events _ _ Hst), (stable_rules _ _ Hst), !app_nil_r.
  split; [done|]. split; [done|]. split; [by apply stable_steady|]. intros p Hp.
  destruct (Hb p Hp); by constructor.
Qed.

(** The turn once its filter is built and its selector accepted. *)
Definition finish_rule (spec : RuleSpec) (rules_before : nat) (entries : list PendingEntry) (filter : handle)
    : ST (World D) (option PendingEntry) :=
  descriptor ← checked (d ← new_descriptor; write_fields (common_fields spec) d) [];
  action ← write_action env spec rules_before entries descriptor;
  match action with
  | None => mret None
  | Some (descriptor, anchor) =>
      descriptor ← AttachFilterToDescriptor env descriptor spec filter;
      create_rule env spec descriptor anchor
  end.

Lemma action_ok_same queue l spec d d' st :
  same_fields d d' -> action_ok addr queue l spec d st -> action_ok addr queue l spec d' st.
Proof.
  intros [_ R]. unfold action_ok.
  assert (forall n o, (1088 <= o)%nat -> read_at n o d' = read_at n o d) as R' by auto.
  rewrite !(R' _ kRuleEventModifyCountOffset), !(R' _ kRuleEventModifySizeOffset),
    !(R' _ kRuleEventModifyPtrOffset), !(R' _ kRuleEventQueueOffset), !(R' _ kRuleSubruleArrayOffset) by fits.
  done.
Qed.

Lemma within_storage w w' : framed (event_allowed not_rule_call) rule_state w w' ->
  subrule_handles (storage (w_session w')) = subrule_handles (storage (w_session w)) /\
  event_modify_blobs (storage (w_session w')) = event_modify_blobs (storage (w_session w)) /\
  access_masks (storage (w_session w')) = access_masks (storage (w_session w)).
Proof. intros [_ Hk]. unfold rule_state in Hk. by injection Hk. Qed.

Lemma action_ok_within queue l spec d w w' :
  framed (event_allowed not_rule_call) rule_state w w' -> action_ok addr queue l spec d (storage (w_session w)) ->
  action_ok addr queue l spec d (storage (w_session w')).
Proof. intros F. unfold action_ok. by destruct (within_storage _ _ F) as (-> & -> & ->). Qed.

Lemma finish_rule_run spec before entries filter w :
  rules (w_session w) = before ++ (pe_rule <$> entries) ->
  (rs_eventType spec =? 0) = false -> selector_conflict spec = false ->
  let '(r, w') := finish_rule spec (length before) entries filter w in turn_ok before entries spec r w w'.
Proof.
  intros Hl He Hc. unfold finish_rule. rewrite st_bind_unfold.
  destruct (common_descriptor spec) as (d & Ed & Hd). rewrite (checked_some _ _ _ _ Ed). cbn [fst snd].
  rewrite st_bind_unfold. pose proof (write_action_run spec before entries d w Hl Hd) as H.
  destruct (write_action _ _ _ _ _ _) as [r w1]. destruct H as [Hst H]. cbn [fst snd].
  destruct r as [[d1 anchor]|].
  2:{ run. apply refused_turn; [done|done|]. intros p Hp. left. unfold blocked. by rewrite He, Hc, (H p Hp). }
  rewrite st_bind_unfold.
  assert (common_ok spec d1) as Hd1.
  { destruct (H (enforce_compat_patch_ok (w_session w1))) as (_ & _ & ? & _); auto. }
  destruct (AttachFilterToDescriptor_attaching env spec filter d1 w1 (co_size _ _ Hd1)) as [Hw Hsame].
  destruct (AttachFilterToDescriptor env d1 spec filter w1) as [d2 w2]. cbn [fst snd] in *.
  pose proof (create_rule_run spec d2 anchor w2) as Hcr. cbv zeta in Hcr.
  destruct (create_rule env spec d2 anchor w2) as [r w3]. destruct Hcr as (-> & Hev & Hrules & Hsteady).
  assert (stable w w2) as Hst2 by (etransitivity; [done|by apply within_stable]).
  eexists. rewrite Hev, (stable_events _ _ Hst2). split; [done|].
  rewrite Hrules, (stable_rules _ _ Hst2), Hl, <- app_assoc, fmap_app. split; [done|].
  split; [etransitivity; [by apply stable_steady|done]|]. intros p Hp.
  destruct (H p) as (Hb & -> & _ & Ha).
  { eapply patched_by_before; [|exact Hp].
    etransitivity; [apply (within_stable _ _ Hw)|apply Hsteady]. }
  apply step_created; [unfold blocked; by rewrite He, Hc, Hb|by eapply common_ok_same|].
  rewrite <- Hl. eapply action_ok_within; [done|]. by eapply action_ok_same.
Qed.

Lemma turn_after before entries spec r w w1 w' :
  stable w w1 -> turn_ok before entries spec r w1 w' -> turn_ok before entries spec r w w'.
Proof.
  intros Hst (new & He & Hl & Hs & Hb). exists new. rewrite He, (stable_events _ _ Hst).
  destruct (stable_steady _ _ Hst) as (E1 & E2 & E3 & _). rewrite <- E2, <- E3.
  split; [done|]. split; [done|]. split; [|done].
  etransitivity; [by apply stable_steady|done].
Qed.

Lemma try_filter_failed spec w w' :
  TryBuildRuleFilter env spec w = (None, w') -> IsEmptyFilter (rs_filter spec) = false.
Proof. unfold TryBuildRuleFilter. destruct (IsEmptyFilter _); [by intros [=]|done]. Qed.

Lemma build_rule_run spec before entries w :
  rules (w_session w) = before ++ (pe_rule <$> entries) ->
  let '(r, w') := build_rule env spec (length before) entries w in turn_ok before entries spec r w w'.
Proof.
  intros Hl. unfold build_rule. cbv zeta. destruct (rs_eventType spec =? 0) eqn:He.
  { unfold refuse. run. apply refused_turn; [done|apply warn_stable|]. intros. left. unfold blocked. by rewrite He. }
  rewrite st_bind_unfold. pose proof (within_stable _ _ (TryBuildRuleFilter_frames env spec w)) as Hst.
  pose proof (try_filter_failed spec w) as Hfail.
  destruct (TryBuildRuleFilter env spec w) as [[filter|] w1]; cbn [fst snd] in *.
  2:{ apply refused_turn; [done|done|]. intros. right. by eapply Hfail. }
  clear Hfail. apply (stable_rules) in Hst as Hl1. rewrite Hl in Hl1.
  destruct (selector_conflict spec) eqn:Hc.
  { unfold refuse. run. apply refused_turn; [done|etransitivity; [done|apply warn_stable]|]. intros. left.
    unfold blocked. by rewrite Hc, orb_true_r. }
  rewrite st_bind_unfold.
  assert (forall (c : bool) message, stable w1 ((if c then Warn message else mret tt) w1).2) as Hwarn
    by (intros [] message; [apply warn_stable|reflexivity]).
  match goal with |- context [((if ?c then Warn ?m else mret tt) w1).2] =>
    specialize (Hwarn c m); set (w2 := ((if c then Warn m else mret tt) w1).2) in *; clearbody w2 end.
  pose proof (finish_rule_run spec before entries filter w2) as H. unfold finish_rule in H.
  match goal with |- context [match ?m with pair _ _ => _ end] => destruct m as [r w'] end.
  eapply turn_after; [etransitivity; [exact Hst|exact Hwarn]|]. apply H; [|done|done].
  by rewrite (stable_rules _ _ Hwarn).
Qed.

Lemma build_rules_run specs before entries all_ok w :
  rules (w_session w) = before ++ (pe_rule <$> entries) ->
  let '((final, ok), w') := build_rules env specs (length before) entries all_ok w in
  exists new ok', rule_events w' = rule_events w ++ new /\ ok = all_ok && ok' /\
    rules (w_session w') = before ++ (pe_rule <$> final) /\ steady w w' /\
    forall patched, patched_by patched w' ->
      build_run addr (enforce_compat (w_session w)) patched (queue_handle (w_session w)) before
        specs entries final ok' new.
Proof.
  revert entries all_ok w. induction specs as [|spec specs IH]; intros entries all_ok w Hl.
  { cbn. exists [], true. rewrite app_nil_r, andb_true_r. repeat split; try done. constructor. }
  cbn [build_rules]. rewrite st_bind_unfold. pose proof (build_rule_run spec before entries w Hl) as Ht.
  destruct (build_rule env spec (length before) entries w) as [r w1].
  destruct Ht as (first & He & Hl1 & Hs & Hb). cbn [fst snd].
  assert (build_rules env specs (length before) (entries ++ option_list r) (all_ok && bool_decide (is_Some r)) w1 =
    match r with
    | Some e => build_rules env specs (length before) (entries ++ [e]) all_ok
    | None => build_rules env specs (length before) entries false
    end w1) as <-.
  { destruct r; cbn [option_list].
    - by rewrite bool_decide_eq_true_2, andb_true_r by done.
    - by rewrite bool_decide_eq_false_2, andb_false_r, app_nil_r by (by intros []). }
  specialize (IH (entries ++ option_list r) (all_ok && bool_decide (is_Some r)) w1 Hl1).
  destruct (build_rules _ _ _ _ _ w1) as [[final ok] w2].
  destruct IH as (rest & ok' & He2 & -> & Hl2 & Hs2 & Hb2).
  exists (first ++ rest), (bool_decide (is_Some r) && ok'). rewrite He2, He, <- app_assoc, andb_assoc.
  split; [done|]. split; [done|]. split; [done|]. split; [by etransitivity|]. intros p Hp.
  destruct Hs as (_ & Eq & Ec & _). rewrite Eq, Ec in Hb2. econstructor; [|by apply Hb2].
  apply Hb. eapply patched_by_before; [apply Hs2|done].
Qed.

(** ** Submission *)

Definition submitted_event (client : handle) (h : handle) (reply : Reply) : Event :=
  Called "EspUpdateRules" [AHandle client; AWord 0; AWord 1; ARuleEntry kRuleUpdateOperationAdd h] reply.

Lemma SubmitRuleBatch_run h w :
  available (env_api env) "EspUpdateRules" = true ->
  let client := client_handle (w_session w) in
  let '(ok, w') := SubmitRuleBatch env h w in
  exists reply, ok = Succeeded (re_result reply) /\
    rule_events w' = rule_events w ++ [submitted_event client h reply] /\
    rules (w_session w') = rules (w_session w) /\ client_handle (w_session w') = client.
Proof.
  intros Ha. cbv zeta. unfold SubmitRuleBatch, Checked, RecordStep. run. rewrite Require_run, Ha. cbn [fst snd negb]. run.
  rewrite Call_run. run. rewrite (warned_available _ _ _ Ha). eexists. split; [done|]. cbn.
  unfold rule_events. cbn. by rewrite List.filter_app.
Qed.

Definition close_events (close : bool) (h : handle) (reply : Reply) : list Event :=
  if close then [Called "EspCloseRule" [AHandle h] reply] else [].

(** The submission loop: the handles rejected so far, the entries, the handles the
    driver accepts, and the rule events. *)
Inductive submit_run (client : handle) (close : bool) :
    list handle -> list PendingEntry -> list handle -> list Event -> Prop :=
| submit_nil rejected : submit_run client close rejected [] [] []
| submit_accepted rejected e entries accepted rest reply :
    handle_ok (pe_anchor e) && contains (pe_anchor e) rejected = false ->
    Succeeded (re_result reply) = true -> submit_run client close rejected entries accepted rest ->
    submit_run client close rejected (e :: entries) (pe_rule e :: accepted)
      (submitted_event client (pe_rule e) reply :: rest)
| submit_refused rejected e entries accepted rest reply close_reply :
    handle_ok (pe_anchor e) && contains (pe_anchor e) rejected = false ->
    Succeeded (re_result reply) = false ->
    submit_run client close (rejected ++ [pe_rule e]) entries accepted rest ->
    submit_run client close rejected (e :: entries) accepted
      (submitted_event client (pe_rule e) reply :: close_events close (pe_rule e) close_reply ++ rest)
| submit_unanchored rejected e entries accepted rest close_reply :
    handle_ok (pe_anchor e) && contains (pe_anchor e) rejected = true ->
    submit_run client close (rejected ++ [pe_rule e]) entries accepted rest ->
    submit_run client close rejected (e :: entries) accepted
      (close_events close (pe_rule e) close_reply ++ rest).

Lemma reject_rule_run close prefix h rest w :
  rules (w_session w) = prefix ++ h :: rest -> handle_ok h = true ->
  let w' := (reject_rule env close (length prefix) w).2 in
  (exists reply, rule_events w' = rule_events w ++ close_events close h reply) /\
  rules (w_session w') = (prefix ++ [0]) ++ rest /\
  client_handle (w_session w') = client_handle (w_session w).
Proof.
  intros Hl Hh. cbv zeta. unfold reject_rule. run.
  rewrite (checked_some _ _ h) by (rewrite Hl; by apply list_lookup_middle).
  assert (forall l : list handle, l = prefix ++ h :: rest -> <[length prefix:=0]> l = (prefix ++ [0]) ++ rest) as Hi.
  { intros l ->. rewrite insert_app_r_alt, Nat.sub_diag by lia. by rewrite <- app_assoc. }
  run. rewrite Hh. unfold close_events. destruct close; cbn [andb]; run.
  - rewrite Call_run. run. split; [|split; [|done]]; [|by apply Hi].
    eexists. unfold rule_events. cbn. by rewrite List.filter_app.
  - split; [|split; [|done]]; [|by apply Hi]. exists (mkReply 0 0 0 []). by rewrite app_nil_r.
Qed.


(** The slots of [rules_] after the submission: the accepted handles and empty ones. *)
Definition submitted_ok (client : handle) (close : bool) (prefix : list handle) (entries : list PendingEntry)
    (rejected : list handle) (committed refused : nat) (events : list Event) (r : nat * nat) w' : Prop :=
  exists new slots, rule_events w' = events ++ new /\ rules (w_session w') = prefix ++ slots /\
    submit_run client close rejected entries (live slots) new /\
    r.1 = (committed + length (live slots))%nat /\
    r.2 = (refused + (length entries - length (live slots)))%nat /\
    (length (live slots) <= length entries)%nat /\ (length (live slots) = length entries -> live slots = slots).

Lemma submit_entries_run close entries : forall prefix rejected committed refused w,
  available (env_api env) "EspUpdateRules" = true ->
  rules (w_session w) = prefix ++ (pe_rule <$> entries) ->
  Forall (fun e => handle_ok (pe_rule e) = true) entries ->
  let '(r, w') := submit_entries env close (length prefix) entries rejected committed refused w in
  submitted_ok (client_handle (w_session w)) close prefix entries rejected committed refused (rule_events w) r w'.
Proof.
  induction entries as [|e entries IH]; intros prefix rejected committed refused w Ha Hl Hok.
  { exists [], []. rewrite app_nil_r. split_and!; try done; try (cbn; lia). constructor. }
  apply Forall_cons in Hok as [He Hok]. cbn [submit_entries].
  assert (forall events w1, (forall accepted rest reply,
      submit_run (client_handle (w_session w)) close (rejected ++ [pe_rule e]) entries accepted rest ->
      submit_run (client_handle (w_session w)) close rejected (e :: entries) accepted
        (events ++ close_events close (pe_rule e) reply ++ rest)) ->
    rule_events w1 = rule_events w ++ events ->
    rules (w_session w1) = rules (w_session w) -> client_handle (w_session w1) = client_handle (w_session w) ->
    let '(r, w') := (reject_rule env close (length prefix);;
      submit_entries env close (S (length prefix)) entries (rejected ++ [pe_rule e]) committed (S refused)) w1 in
    submitted_ok (client_handle (w_session w)) close prefix (e :: entries) rejected committed refused
      (rule_events w) r w') as Hreject.
  { intros events w1 Hrun Hev Hl1 Hc1. rewrite st_bind_unfold. rewrite Hl in Hl1.
    destruct (reject_rule_run close prefix (pe_rule e) _ w1 Hl1 He) as ([reply Hev2] & Hl2 & Hc2).
    set (w2 := (reject_rule env close (length prefix) w1).2) in *.
    specialize (IH (prefix ++ [0]) (rejected ++ [pe_rule e]) committed (S refused) w2 Ha Hl2 Hok).
    replace (length (prefix ++ [0])) with (S (length prefix)) in IH by (rewrite length_app; cbn; lia).
    destruct (submit_entries _ _ _ _ _ _ _ w2) as [r w'].
    destruct IH as (new & slots & He' & Hl' & Hs & H1 & H2 & H3 & H4).
    exists (events ++ close_events close (pe_rule e) reply ++ new), (0 :: slots).
    assert (live (0 :: slots) = live slots) as -> by done.
    rewrite He', Hev2, Hev, Hl', <- !app_assoc. rewrite Hc2, Hc1 in Hs. cbn [length].
    split_and!; try done; [by apply Hrun|lia|lia|lia]. }
  destruct (handle_ok (pe_anchor e) && contains (pe_anchor e) rejected) eqn:Eanchor.
  { run. specialize (Hreject [] w). rewrite st_bind_unfold in Hreject. apply Hreject; try done.
    - intros. by apply submit_unanchored.
    - by rewrite app_nil_r. }
  rewrite st_bind_unfold. pose proof (SubmitRuleBatch_run (pe_rule e) w Ha) as Hsub. cbv zeta in Hsub.
  destruct (SubmitRuleBatch env (pe_rule e) w) as [ok w1].
  destruct Hsub as (reply & Eok & Hev & Hl1 & Hc1). cbn [fst snd]. subst ok.
  destruct (Succeeded (re_result reply)) eqn:Ereply.
  - assert (rules (w_session w1) = (prefix ++ [pe_rule e]) ++ (pe_rule <$> entries)) as Hl2
      by (rewrite Hl1, Hl, <- app_assoc; done).
    specialize (IH (prefix ++ [pe_rule e]) rejected (S committed) refused w1 Ha Hl2 Hok).
    replace (length (prefix ++ [pe_rule e])) with (S (length prefix)) in IH by (rewrite length_app; cbn; lia).
    destruct (submit_entries _ _ _ _ _ _ _ w1) as [r w'].
    destruct IH as (new & slots & He' & Hl' & Hs & H1 & H2 & H3 & H4).
    exists (submitted_event (client_handle (w_session w)) (pe_rule e) reply :: new), (pe_rule e :: slots).
    assert (live (pe_rule e :: slots) = pe_rule e :: live slots) as -> by (cbn; by rewrite He).
    rewrite He', Hev, Hl', <- !app_assoc. rewrite Hc1 in Hs. cbn [length].
    split_and!; try done; try lia; [by apply submit_accepted|]. intros. f_equal. apply H4. lia.
  - apply (Hreject [submitted_event (client_handle (w_session w)) (pe_rule e) reply]); try done.
    intros. by apply submit_refused.
Qed.

(** *** The whole installation *)

Definition patch_flags (s : Session) := (enforce_compat_patch_attempted s, enforce_compat_patch_ok s).

#[export] Instance patch_flags_quiet : Quiet patch_flags. Proof. by split. Qed.

Lemma flags_patched_by patched w w' :
  patch_flags (w_session w') = patch_flags (w_session w) -> patched_by patched w' -> patched_by patched w.
Proof. unfold patched_by. intros H. injection H as -> ->. done. Qed.

Lemma SubmitRuleBatch_flags h w :
  patch_flags (w_session (SubmitRuleBatch env h w).2) = patch_flags (w_session w).
Proof.
  assert (frames (event_allowed (fun _ => true)) patch_flags (SubmitRuleBatch env h)) as F by (unfold SubmitRuleBatch; frame).
  apply F.
Qed.

Lemma reject_rule_flags close slot w :
  patch_flags (w_session (reject_rule env close slot w).2) = patch_flags (w_session w).
Proof.
  unfold reject_rule. run.
  assert (forall (o : option handle) w, patch_flags (w_session (checked o 0 w).2) = patch_flags (w_session w)) as Hc
    by (intros [] ?; done).
  specialize (Hc (rules (w_session w) !! slot) w). set (w1 := checked _ _ w) in *.
  destruct (handle_ok w1.1 && close); run; [rewrite Call_run; run|]; done.
Qed.

Lemma submit_entries_flags close entries : forall slot rejected committed refused w,
  patch_flags (w_session (submit_entries env close slot entries rejected committed refused w).2) =
  patch_flags (w_session w).
Proof.
  induction entries as [|e entries IH]; intros; [done|]. cbn [submit_entries].
  destruct (_ && _); run; [by rewrite IH, reject_rule_flags|].
  destruct (SubmitRuleBatch env (pe_rule e) w).1; [by rewrite IH, SubmitRuleBatch_flags|].
  run. by rewrite IH, reject_rule_flags, SubmitRuleBatch_flags.
Qed.

Lemma build_run_handles a c p q before specs entries final ok events :
  build_run a c p q before specs entries final ok events ->
  Forall (fun e => handle_ok (pe_rule e) = true) entries -> Forall (fun e => handle_ok (pe_rule e) = true) final.
Proof.
  induction 1 as [|spec specs entries entry final ok first rest Hstep _ IH]; [done|].
  intros H. apply IH, Forall_app. split; [done|]. inversion Hstep as [| |d st reply]; subst; [constructor..|].
  destruct (Succeeded _ && handle_ok (re_out reply)) eqn:E; [|constructor].
  apply andb_true_iff in E as [_ E]. by apply Forall_singleton.
Qed.

(** The number of entries tells whether a rule was refused. *)
Lemma build_run_count a c p q before specs entries final ok events :
  build_run a c p q before specs entries final ok events ->
  (length entries <= length final <= length entries + length specs)%nat /\
  (ok = true <-> length final = (length entries + length specs)%nat).
Proof.
  induction 1 as [|spec specs entries entry final ok first rest Hstep _ IH]; [cbn; split; [lia|done]|].
  rewrite length_app in IH. cbn [length]. destruct IH as [IH1 IH2]. destruct entry as [e|]; simpl in IH1, IH2.
  - rewrite bool_decide_eq_true_2 by done. cbn [andb]. split; [lia|]. rewrite IH2. lia.
  - rewrite bool_decide_eq_false_2 by (by intros []). cbn [andb]. split; [lia|]. split; [done|lia].
Qed.

Definition install_status (accepted total : nat) : InstallStatus :=
  if (accepted =? 0)%nat then Failed_ else if (accepted =? total)%nat then Complete else Partial.

(** An installation that started: the rules built and then submitted. *)
Definition installed (document : RuleDocument) w (status : InstallStatus) w' : Prop :=
  exists final ok creates accepted submits,
    (forall patched, patched_by patched w' ->
       build_run addr (enforce_compat (w_session w)) patched (queue_handle (w_session w))
         (rules (w_session w)) (doc_rules document) [] final ok creates) /\
    submit_run (client_handle (w_session w)) (available (env_api env) "EspCloseRule") [] final accepted submits /\
    rule_events w' = rule_events w ++ creates ++ submits /\
    rules (w_session w') = rules (w_session w) ++ accepted /\
    status = install_status (length accepted) (length (doc_rules document)).

Lemma live_all_ok l : Forall (fun h => handle_ok h = true) l -> live l = l.
Proof. induction 1 as [|h l H _ IH]; [done|]. cbn. by rewrite H, IH. Qed.

Lemma install_rules_run document w :
  available (env_api env) "EspUpdateRules" = true ->
  let '(status, w') := install_rules env document w in installed document w status w'.
Proof.
  intros Ha. unfold install_rules. run.
  pose proof (build_rules_run (doc_rules document) (rules (w_session w)) [] true w) as Hb.
  rewrite app_nil_r in Hb. specialize (Hb eq_refl).
  destruct (build_rules _ _ _ _ _ w) as [[final ok] w1].
  destruct Hb as (creates & ok' & He1 & -> & Hl1 & Hs1 & Hb). cbn [fst snd andb].
  pose proof (Hb (enforce_compat_patch_ok (w_session w1)) (fun _ => eq_refl)) as Hrun.
  pose proof (build_run_handles _ _ _ _ _ _ _ _ _ _ Hrun ltac:(constructor)) as Hok.
  pose proof (build_run_count _ _ _ _ _ _ _ _ _ _ Hrun) as [Hcount1 Hcount2]. cbn [length] in *. clear Hrun.
  destruct final as [|e final'] eqn:Ef; cbn [nonempty negb].
  { run. exists [], ok', creates, [], []. rewrite app_nil_r in *.
    split_and!; try done; [constructor|by rewrite app_nil_r]. }
  rewrite <- Ef in *. clear Ef e final'. run. rewrite Require_run. cbn [fst snd]. run.
  set (w2 := warned env "EspCloseRule" w1).
  assert (rules (w_session w2) = rules (w_session w) ++ (pe_rule <$> final)) as Hl2
    by (unfold w2; by rewrite (warned_quiet env rules)).
  pose proof (submit_entries_run (available (env_api env) "EspCloseRule") final (rules (w_session w)) [] 0 0 w2
    Ha Hl2 Hok) as Hsub.
  pose proof (submit_entries_flags (available (env_api env) "EspCloseRule") final
    (length (rules (w_session w))) [] 0 0 w2) as Hflags.
  destruct (submit_entries _ _ _ _ _ _ _ w2) as [[committed refused] w3].
  destruct Hsub as (submits & slots & He3 & Hl3 & Hrun & H1 & H2 & H3 & H4). cbn [fst snd] in *. subst.
  run. set (w4 := (_ w3).2).
  assert (w_trace w4 = w_trace w3 /\ patch_flags (w_session w4) = patch_flags (w_session w3) /\
    rules (w_session w4) = rules (w_session w) ++ live slots) as (He4 & Hf4 & Hl4).
  { subst w4. destruct (Nat.eqb_spec (0 + (length final - length (live slots))) 0) as [E|E];
      (split; [done|]; split; [done|]).
    - cbn [mret st_ret snd]. by rewrite Hl3, H4 by lia.
    - change (compact (length (rules (w_session w))) (rules (w_session w3)) = rules (w_session w) ++ live slots).
      by rewrite Hl3, compact_spec. }
  exists final, ok', creates, (live slots), submits. split_and!.
  - intros p Hp. apply Hb. eapply flags_patched_by; [|exact Hp].
    rewrite Hf4, Hflags. unfold w2. apply (warned_quiet env patch_flags).
  - replace (client_handle (w_session w)) with (client_handle (w_session w2)); [done|].
    unfold w2. rewrite (warned_quiet env client_handle). apply Hs1.
  - unfold rule_events in *. rewrite He4, He3. unfold w2. by rewrite warned_trace, He1, app_assoc.
  - done.
  - unfold install_status. cbn [Nat.add]. destruct (length (live slots) =? 0)%nat; [done|].
    destruct ok'; cbn [andb].
    + replace (length final) with (length (doc_rules document)) in * by (symmetry; tauto).
      destruct (Nat.eqb_spec (length (live slots)) (length (doc_rules document))),
        (Nat.eqb_spec (length (doc_rules document) - length (live slots)) 0); done || lia.
    + destruct (Nat.eqb_spec (length (live slots)) (length (doc_rules document))); [|done].
      assert (length final = length (doc_rules document)) as Hf by lia. by apply Hcount2 in Hf.
Qed.
End Runs.
