(* ===== verification/RuleInstallSpec.v ===== *)
(** What the rule installation guarantees: which rules reach the library and with
    what descriptor, how the outcome and the list of rules follow from the library's
    replies, that nothing is leaked and no blob is overrun. *)
From S2P Require Import Prelude Text Core Events RuleModel RuleParser MemoryView EnforceCompat Api.
From S2P Require Import NtPath Session FilterBuild Refs RuleConfig RuleInstall RuleInstallRun.

(** ** Reading the events of a run *)

Definition created_handle (e : Event) : option handle :=
  match e with
  | Called "EspCreateRule" _ reply =>
      if Succeeded (re_result reply) && handle_ok (re_out reply) then Some (re_out reply) else None
  | _ => None
  end.

Definition accepted_handle (e : Event) : option handle :=
  match e with
  | Called "EspUpdateRules" [_; _; _; ARuleEntry _ h] reply =>
      if Succeeded (re_result reply) then Some h else None
  | _ => None
  end.

Definition closed_handle (e : Event) : option handle :=
  match e with Called "EspCloseRule" [AHandle h] _ => Some h | _ => None end.

Section Events.
  Context (addr : Loc -> Z) (compat patched : bool) (queue : handle) (before : list handle).
  Local Abbreviation build_run := (build_run addr compat patched queue before).

Lemma build_step_event entries spec entry first :
  build_step addr compat patched queue before entries spec entry first ->
  omap created_handle first = pe_rule <$> option_list entry /\
  forall e, e ∈ first -> exists d st reply, e = Called "EspCreateRule" [ARuleDescriptor d st] reply.
Proof.
  intros [| |d st reply]; [split; [done|]; set_solver..|]. split.
  - cbn. by destruct (_ && _).
  - intros e ->%list_elem_of_singleton. eauto.
Qed.

Lemma build_run_created specs entries final ok events :
  build_run specs entries final ok events ->
  pe_rule <$> final = (pe_rule <$> entries) ++ omap created_handle events.
Proof.
  induction 1 as [|spec specs entries entry final ok first rest Hstep _ IH]; [by rewrite app_nil_r|].
  destruct (build_step_event _ _ _ _ Hstep) as [Hc _].
  by rewrite IH, fmap_app, omap_app, <- app_assoc, Hc.
Qed.

Lemma build_run_events specs entries final ok events e :
  build_run specs entries final ok events -> e ∈ events ->
  exists d st reply, e = Called "EspCreateRule" [ARuleDescriptor d st] reply.
Proof.
  induction 1 as [|spec specs entries entry final ok first rest Hstep _ IH]; [set_solver|].
  intros [H|H]%elem_of_app; [by eapply build_step_event|auto].
Qed.

(** Every creation comes from a rule that is not blocked. *)
Lemma build_run_described specs entries final ok events d st reply :
  build_run specs entries final ok events -> Called "EspCreateRule" [ARuleDescriptor d st] reply ∈ events ->
  exists spec earlier later, spec ∈ specs /\ blocked compat patched spec = false /\ common_ok spec d /\
    earlier ++ later = final /\ action_ok addr queue (before ++ (pe_rule <$> earlier)) spec d st /\
    (Succeeded (re_result reply) && handle_ok (re_out reply) = true ->
     head later = Some (mkPending (re_out reply) (anchor_of earlier spec))).
Proof.
  induction 1 as [|spec specs entries entry final ok first rest Hstep Hrun IH]; [set_solver|].
  intros [H|H]%elem_of_app.
  2:{ destruct (IH H) as (spec' & earlier & later & ? & ?). exists spec', earlier, later. set_solver. }
  destruct Hstep as [|? |d' st' reply' Hb Hd Ha]; [set_solver..|].
  apply list_elem_of_singleton in H. injection H as <- <- <-.
  assert (exists more, final = (entries ++ option_list (if Succeeded (re_result reply) && handle_ok (re_out reply)
    then Some (mkPending (re_out reply) (anchor_of entries spec)) else None)) ++ more) as [more ->].
  { clear -Hrun. induction Hrun as [|???????? _ _ IH]; [exists []; by rewrite app_nil_r|].
    destruct IH as [more ->]. rewrite <- app_assoc. by eexists. }
  eexists spec, entries, _. rewrite <- app_assoc. split; [set_solver|]. split; [done|]. split; [done|].
  split; [done|]. split; [done|]. by intros ->.
Qed.
End Events.

Section Submission.
  Context (client : handle) (close : bool).
  Local Abbreviation submit_run := (submit_run client close).

(** The events of the submission concern the entries. *)
Lemma submit_run_events rejected entries accepted events e :
  submit_run rejected entries accepted events -> e ∈ events ->
  exists entry reply, entry ∈ entries /\
    (e = submitted_event client (pe_rule entry) reply \/ e = Called "EspCloseRule" [AHandle (pe_rule entry)] reply).
Proof.
  assert (forall h reply, e ∈ close_events close h reply -> e = Called "EspCloseRule" [AHandle h] reply) as Hclose.
  { unfold close_events. destruct close; set_solver. }
  induction 1; [set_solver|..]; rewrite ?elem_of_cons, ?elem_of_app; intros H'.
  - destruct H' as [->|H']; [exists e0; set_solver|]. destruct (IHsubmit_run H') as (x & r & ? & ?).
    exists x, r. set_solver.
  - destruct H' as [->|[H'|H']]; [exists e0; set_solver|exists e0; apply Hclose in H'; set_solver|].
    destruct (IHsubmit_run H') as (x & r & ? & ?). exists x, r. set_solver.
  - destruct H' as [H'|H']; [exists e0; apply Hclose in H'; set_solver|].
    destruct (IHsubmit_run H') as (x & r & ? & ?). exists x, r. set_solver.
Qed.

Lemma submit_run_accepted rejected entries accepted events :
  submit_run rejected entries accepted events -> omap accepted_handle events = accepted.
Proof.
  induction 1 as [|? ? ? ? ? ? _ E _ IH|? ? ? ? ? ? ? _ E _ IH|? ? ? ? ? ? _ _ IH]; [done|..].
  - cbn. by rewrite E, IH.
  - unfold close_events. cbn. rewrite E. by destruct close.
  - unfold close_events. by destruct close.
Qed.

Lemma submit_run_created rejected entries accepted events :
  submit_run rejected entries accepted events -> omap created_handle events = [].
Proof. induction 1; [done|..]; unfold close_events; destruct close; done. Qed.

(** Every entry is kept or, if rules can be closed, closed. *)
Lemma submit_run_accounts rejected entries accepted events :
  close = true -> submit_run rejected entries accepted events ->
  (pe_rule <$> entries) ≡ₚ (accepted ++ omap closed_handle events).
Proof.
  intros ->. induction 1 as [|? ? ? ? ? ? _ _ _ IH|? ? ? ? ? ? ? _ _ _ IH|? ? ? ? ? ? _ _ IH]; [done|..];
    cbn; rewrite IH; [done|by rewrite Permutation_middle..].
Qed.

Lemma closing_prefix h0 r0 rest t1 h reply t2 :
  close_events close h0 r0 ++ rest = t1 ++ submitted_event client h reply :: t2 ->
  exists t1', t1 = close_events close h0 r0 ++ t1' /\ rest = t1' ++ submitted_event client h reply :: t2.
Proof.
  unfold close_events. destruct close; [|intros Ht; by exists t1].
  destruct t1 as [|y t1]; intros Ht; [done|]. injection Ht as -> Ht. by exists t1.
Qed.

(** Nothing in [t1] closes the anchor of [e], a non-null handle outside [rejected]. *)
Definition anchor_open (rejected : list handle) (e : PendingEntry) (t1 : list Event) : Prop :=
  handle_ok (pe_anchor e) = true ->
  (pe_anchor e ∉ rejected) /\ forall r, (Called "EspCloseRule" [AHandle (pe_anchor e)] r) ∉ t1.

Lemma anchor_open_nil rejected e :
  handle_ok (pe_anchor e) && contains (pe_anchor e) rejected = false -> anchor_open rejected e [].
Proof.
  intros H Ha. rewrite Ha in H. split; [|set_solver]. intros Hin%contains_true. by rewrite Hin in H.
Qed.

Lemma anchor_open_submitted rejected e h r t1 :
  anchor_open rejected e t1 -> anchor_open rejected e (submitted_event client h r :: t1).
Proof.
  intros H Ha. destruct (H Ha) as [Hr Hc]. split; [done|]. intros r0. rewrite not_elem_of_cons. by split.
Qed.

Lemma anchor_open_closed rejected e h r t1 :
  anchor_open (rejected ++ [h]) e t1 -> anchor_open rejected e (close_events close h r ++ t1).
Proof.
  intros H Ha. destruct (H Ha) as [Hr Hc]. rewrite not_elem_of_app, list_elem_of_singleton in Hr.
  split; [tauto|]. intros r0. rewrite not_elem_of_app. split; [|apply Hc].
  unfold close_events. destruct close; [|set_solver]. rewrite list_elem_of_singleton. intros [=]. tauto.
Qed.

(** A submitted entry's anchor was not rejected, so not closed, before. *)
Lemma submit_run_anchored rejected entries accepted events t1 h reply t2 :
  submit_run rejected entries accepted events -> events = t1 ++ submitted_event client h reply :: t2 ->
  exists entry, entry ∈ entries /\ pe_rule entry = h /\ anchor_open rejected entry t1.
Proof.
  intros Hrun. revert t1.
  induction Hrun as [|rejected e entries accepted rest r Ha _ _ IH
    |rejected e entries accepted rest r r' Ha _ _ IH|rejected e entries accepted rest r Ha _ IH]; intros t1 Ht.
  - by destruct t1.
  - destruct t1 as [|x t1]; injection Ht as Hx Ht.
    + exists e. split; [set_solver|]. split; [congruence|]. by apply anchor_open_nil.
    + destruct (IH t1 Ht) as (entry & ? & ? & Hopen). exists entry. split; [set_solver|]. split; [done|].
      subst x. by apply anchor_open_submitted.
  - destruct t1 as [|x t1]; injection Ht as Hx Ht.
    + exists e. split; [set_solver|]. split; [congruence|]. by apply anchor_open_nil.
    + apply closing_prefix in Ht as (t1' & -> & Ht).
      destruct (IH t1' Ht) as (entry & ? & ? & Hopen). exists entry. split; [set_solver|]. split; [done|].
      subst x. by apply anchor_open_submitted, anchor_open_closed.
  - apply closing_prefix in Ht as (t1' & -> & Ht).
    destruct (IH t1' Ht) as (entry & ? & ? & Hopen). exists entry. split; [set_solver|]. split; [done|].
    by apply anchor_open_closed.
Qed.
End Submission.

Section Properties.
  Context {D : Type} (env : Env D).
  Implicit Types (w : World D).

(** When an installation goes beyond its first checks. *)
Definition ready (document : RuleDocument) w : bool :=
  handle_ok (client_handle (w_session w)) && nonempty (doc_rules document) &&
  (negb (DocumentNeedsQueue document) || handle_ok (queue_handle (w_session w))) &&
  available (env_api env) "EspCreateRule" && available (env_api env) "EspUpdateRules".

(** An installation that did nothing about rules. *)
Definition refused w (status : InstallStatus) w' : Prop :=
  status = Failed_ /\ rule_events w' = rule_events w /\ rules (w_session w') = rules (w_session w).

Lemma InstallRules_idle document w :
  ready document w = false ->
  let '(status, w') := InstallRules env document w in
  refused w status w' /\ w_trace w' = w_trace w /\ w_driver w' = w_driver w.
Proof.
  unfold ready, InstallRules, refused, rule_events. run. intros Hr.
  destruct (handle_ok (client_handle (w_session w))), (nonempty (doc_rules document)); cbn [andb negb orb] in *;
    try (run; done).
  run. replace (DocumentNeedsQueue document && negb (handle_ok (queue_handle (w_session w))))
    with (negb (negb (DocumentNeedsQueue document) || handle_ok (queue_handle (w_session w))))
    by (by rewrite negb_orb, negb_involutive).
  destruct (negb (DocumentNeedsQueue document) || handle_ok (queue_handle (w_session w))); cbn [andb negb] in *;
    [|run; done].
  rewrite st_bind_unfold, Require_run. cbn [fst snd]. rewrite st_bind_unfold.
  destruct (available (env_api env) "EspCreateRule"); cbn [andb] in Hr;
    [rewrite Require_run, Hr|]; cbn [fst snd mret st_ret negb];
    rewrite ?warned_trace, ?warned_driver, ?(warned_quiet env rules); done.
Qed.

(** What happened before [w1] changes nothing about the rules. *)
Lemma installed_after document w w1 status w' :
  rule_events w1 = rule_events w -> rules (w_session w1) = rules (w_session w) ->
  client_handle (w_session w1) = client_handle (w_session w) ->
  queue_handle (w_session w1) = queue_handle (w_session w) ->
  enforce_compat (w_session w1) = enforce_compat (w_session w) ->
  installed env document w1 status w' -> installed env document w status w'.
Proof. unfold installed. by intros -> -> -> -> ->. Qed.

Lemma no_collections_ok document w :
  doc_collections document = [] -> (InstallDocumentCollections env document w).1 = true.
Proof.
  intros E. unfold InstallDocumentCollections. rewrite E. run. rewrite !Require_run. run.
  by destruct (_ || _ || _).
Qed.

Lemma InstallRules_started document w :
  ready document w = true ->
  let '(status, w') := InstallRules env document w in
  installed env document w status w' \/ (refused w status w' /\ doc_collections document <> []).
Proof.
  intros Hr. unfold ready in Hr. rewrite !andb_true_iff in Hr. destruct Hr as ((((Hc & Hn) & Hq) & Ha) & Hu).
  unfold InstallRules. run. rewrite Hc, Hn. cbn [negb orb]. run.
  replace (DocumentNeedsQueue document && negb (handle_ok (queue_handle (w_session w)))) with false
    by (symmetry; destruct (DocumentNeedsQueue document), (handle_ok (queue_handle (w_session w))); done).
  rewrite st_bind_unfold, Require_run, Ha. cbn [fst snd]. rewrite st_bind_unfold, Require_run, Hu. cbn [fst snd negb].
  rewrite !warned_available by done. run. set (w1 := mkWorld _ _ _ _ _).
  pose proof (InstallDocumentCollections_frames env document w1) as F.
  pose proof (no_collections_ok document w1) as Hnone.
  destruct (InstallDocumentCollections env document w1) as [ok w2]. cbn [fst snd] in *.
  assert (rule_events w2 = rule_events w) as Hev by (by rewrite (within_events _ _ _ F)).
  destruct F as [_ F]. unfold rule_state in F. injection F as Fr Fc Fq Fe _ _ _ _ _.
  destruct ok; cbn [negb].
  - run. set (w3 := mkWorld _ _ _ _ _). pose proof (install_rules_run env document w3 Hu) as H.
    destruct (install_rules env document w3) as [status w']. left.
    eapply (installed_after document w w3); done.
  - run. right. split; [by split_and!|]. intros E. by specialize (Hnone E).
Qed.

(** C4 Installing a document refines the protocol of [installed]: the rules are built
    in document order, each blocked, left out for its filter, or created with the
    descriptor of its specification; the created ones are submitted one by one, and
    rejected ones closed; the session keeps the accepted ones. Unless the client, a
    needed queue and both exports are there nothing at all is called; a document
    without collections is always installed once they are. *)
Theorem InstallRules_refines document w :
  let '(status, w') := InstallRules env document w in
  if ready document w
  then installed env document w status w' \/ (refused w status w' /\ doc_collections document <> [])
  else refused w status w' /\ w_trace w' = w_trace w /\ w_driver w' = w_driver w.
Proof.
  pose proof (InstallRules_started document w) as Hs. pose proof (InstallRules_idle document w) as Hi.
  destruct (InstallRules env document w) as [status w']. destruct (ready document w); auto.
Qed.

Lemma InstallRules_cases document w :
  let '(status, w') := InstallRules env document w in refused w status w' \/ installed env document w status w'.
Proof.
  pose proof (InstallRules_started document w) as Hs. pose proof (InstallRules_idle document w) as Hi.
  destruct (InstallRules env document w) as [status w'].
  destruct (ready document w); [destruct (Hs eq_refl) as [?|[? _]]|destruct (Hi eq_refl) as [? _]]; auto.
Qed.

Lemma blocked_false compat patched spec :
  blocked compat patched spec = false ->
  rs_eventType spec <> 0 /\ selector_conflict spec = false /\
  (rule_selector spec = kActionRewrite ->
   rs_eventType spec = kEventFoCreate \/
   (IsEnforceCompatEventType (rs_eventType spec) = true /\ compat = true /\ patched = true)).
Proof.
  unfold blocked. intros [[He Hc]%orb_false_iff Hb]%orb_false_iff. apply Z.eqb_neq in He.
  split; [done|]. split; [done|]. intros Hs. rewrite Hs, Z.eqb_refl in Hb.
  unfold enforce_blocked in Hb. apply orb_false_iff in Hb as [H1 H2].
  destruct (IsEnforceCompatEventType (rs_eventType spec)) eqn:Et.
  - apply negb_false_iff, andb_true_iff in H1. right. tauto.
  - left. unfold SupportsEnforcePayload in H2. rewrite Et, orb_false_r in H2.
    by apply negb_false_iff, Z.eqb_eq in H2.
Qed.

Lemma deny_selector spec :
  selector_conflict spec = false -> rs_actionName spec = "deny" -> rule_selector spec = kActionRewrite.
Proof.
  unfold selector_conflict, rule_selector, named_selector. intros Hc Hn. rewrite Hn in *.
  change (ActionSelectorForName "deny" _) with kActionDeny in *.
  destruct (rs_selector_override spec) as [o|]; [|done]. cbn in Hc |- *.
  by apply negb_false_iff, Z.eqb_eq in Hc.
Qed.

(** C1 Every rule that reaches EspCreateRule is one of the document, with an event type,
    its fields in the descriptor, the payload of an enforcing selector, the session
    queue of a queue-backed one and the predecessor of a subrule selector. A named
    deny is created with the enforcing selector or not at all, and an enforcing rule
    only for FoCreate or, with the opt-in and a successful patch, a compat type. *)
Theorem InstallRules_creates document w :
  let '(_, w') := InstallRules env document w in
  exists new, rule_events w' = rule_events w ++ new /\
  forall d st reply, Called "EspCreateRule" [ARuleDescriptor d st] reply ∈ new ->
  exists spec earlier, spec ∈ doc_rules document /\ rs_eventType spec <> 0 /\ common_ok spec d /\
    action_ok (env_addr env) (queue_handle (w_session w)) (rules (w_session w) ++ earlier) spec d st /\
    (rs_actionName spec = "deny" -> rule_selector spec = kActionRewrite) /\
    (rule_selector spec = kActionRewrite ->
     rs_eventType spec = kEventFoCreate \/
     (rs_eventType spec ∈ compat_event_types /\ enforce_compat (w_session w) = true /\
      enforce_compat_patch_ok (w_session w') = true)).
Proof.
  pose proof (InstallRules_cases document w) as H. destruct (InstallRules env document w) as [status w'].
  destruct H as [(_ & He & _)|(final & ok & creates & accepted & submits & Hb & Hs & He & _)].
  { exists []. rewrite app_nil_r. split; [done|set_solver]. }
  exists (creates ++ submits). split; [done|]. intros d st reply [Hin|Hin]%elem_of_app.
  2:{ destruct (submit_run_events _ _ _ _ _ _ _ Hs Hin) as (e & r & _ & [?|?]); done. }
  specialize (Hb (enforce_compat_patch_ok (w_session w')) (fun _ => eq_refl)).
  destruct (build_run_described _ _ _ _ _ _ _ _ _ _ _ _ _ Hb Hin)
    as (spec & earlier & later & Hspec & Hblocked & Hd & _ & Ha & _).
  apply blocked_false in Hblocked as (Ht & Hc & Hrewrite).
  exists spec, (pe_rule <$> earlier). split_and!; try done.
  - by apply deny_selector.
  - intros [?|(?%IsEnforceCompatEventType_types & ? & ?)]%Hrewrite; auto.
Qed.

(** The session keeps exactly the accepted rules, and their number decides the outcome. *)
Lemma InstallRules_kept document w :
  let '(status, w') := InstallRules env document w in
  exists new, rule_events w' = rule_events w ++ new /\
    let accepted := omap accepted_handle new in
    rules (w_session w') = rules (w_session w) ++ accepted /\
    (available (env_api env) "EspCloseRule" = true ->
     omap created_handle new ≡ₚ (accepted ++ omap closed_handle new)) /\
    status = install_status (length accepted) (length (doc_rules document)).
Proof.
  pose proof (InstallRules_cases document w) as H. destruct (InstallRules env document w) as [status w'].
  destruct H as [(Hf & He & Hl)|(final & ok & creates & accepted & submits & Hb & Hs & He & Hl & Hst)].
  { exists []. cbn. by rewrite !app_nil_r. }
  exists (creates ++ submits). split; [done|]. cbv zeta.
  specialize (Hb (enforce_compat_patch_ok (w_session w')) (fun _ => eq_refl)).
  assert (omap accepted_handle creates = [] /\ omap closed_handle creates = []) as [Ha0 Hc0].
  { clear -Hb. pose proof (fun e => build_run_events _ _ _ _ _ _ _ _ _ _ e Hb) as Hall. clear Hb.
    induction creates as [|e creates IH]; [done|].
    destruct (Hall e ltac:(set_solver)) as (? & ? & ? & ->). cbn. apply IH. set_solver. }
  rewrite !omap_app, Ha0, Hc0, (submit_run_accepted _ _ _ _ _ _ Hs), (submit_run_created _ _ _ _ _ _ Hs).
  cbn [app]. split; [done|]. split; [|done]. intros Hclose.
  rewrite app_nil_r, <- (submit_run_accounts _ _ _ _ _ _ Hclose Hs), (build_run_created _ _ _ _ _ _ _ _ _ _ Hb).
  done.
Qed.

(** C3 Every rule the library creates is, in the end, kept in the session because the
    library accepted it, or closed: none leaks and none is both. The outcome is
    Failed when none was accepted, Complete when every rule of the document was, and
    Partial otherwise. *)
Theorem InstallRules_accounts document w (Hclose : available (env_api env) "EspCloseRule" = true) :
  let '(status, w') := InstallRules env document w in
  exists new, rule_events w' = rule_events w ++ new /\
    let accepted := omap accepted_handle new in
    rules (w_session w') = rules (w_session w) ++ accepted /\
    omap created_handle new ≡ₚ (accepted ++ omap closed_handle new) /\
    status = install_status (length accepted) (length (doc_rules document)).
Proof.
  pose proof (InstallRules_kept document w) as H. destruct (InstallRules env document w) as [status w'].
  destruct H as (new & He & Hl & Hp & Hst). exists new. cbv zeta in *. by split_and!; auto.
Qed.

(** C5 No write of an installation leaves its blob: whatever the document and the
    library's replies, no descriptor or configuration write, no handle slot and no
    anchor lookup is out of range. *)
Theorem InstallRules_in_bounds document w :
  let '(_, w') := InstallRules env document w in
  exists new, rule_events w' = rule_events w ++ new /\ OutOfBounds ∉ new.
Proof.
  pose proof (InstallRules_cases document w) as H. destruct (InstallRules env document w) as [status w'].
  destruct H as [(_ & He & _)|(final & ok & creates & accepted & submits & Hb & Hs & He & _)].
  { exists []. rewrite app_nil_r. split; [done|set_solver]. }
  exists (creates ++ submits). split; [done|]. intros [Hin|Hin]%elem_of_app.
  - specialize (Hb (enforce_compat_patch_ok (w_session w')) (fun _ => eq_refl)).
    by destruct (build_run_events _ _ _ _ _ _ _ _ _ _ _ Hb Hin) as (? & ? & ? & ?).
  - by destruct (submit_run_events _ _ _ _ _ _ _ Hs Hin) as (? & ? & _ & [?|?]).
Qed.

Lemma selector_range document spec :
  document_wf document -> spec ∈ doc_rules document -> u32 (rule_selector spec) = rule_selector spec.
Proof.
  intros [Hwf _] Hin. rewrite Forall_forall in Hwf. destruct (Hwf spec Hin) as [(_ & _ & Ha & _ & Ho & _) _].
  unfold u32. apply Z.mod_small. unfold rule_selector, named_selector, ResolveActionSelector, ActionSelectorForName.
  destruct (rs_selector_override spec) as [o|]; [unfold in_u32, u32_max in Ho; cbn -[Z.lt Z.pow]; lia|].
  unfold kActionDeny, kActionRewrite, kActionNotifySuppress, kActionQueueBacked. cbn [from_option id].
  repeat case_if; first [lia | apply Z.mod_pos_bound; lia].
Qed.

(** The rule a submission concerns, among the pending entries. *)
Lemma pending_unique (l : list PendingEntry) e e' :
  NoDup (pe_rule <$> l) -> e ∈ l -> e' ∈ l -> pe_rule e = pe_rule e' -> e = e'.
Proof.
  intros Hn [i Hi]%list_elem_of_lookup [j Hj]%list_elem_of_lookup He.
  assert (i = j) as ->; [|congruence]. eapply (NoDup_lookup (pe_rule <$> l)); [done|..];
    rewrite list_lookup_fmap, ?Hi, ?Hj; [done|by rewrite He].
Qed.

(** Where a created subrule rule comes from: its pending entry, anchored at the last
    entry before it, and its predecessor, the last rule at that time. *)
Lemma created_subrule document w patched final ok creates d st created h predecessor :
  document_wf document ->
  build_run (env_addr env) (enforce_compat (w_session w)) patched (queue_handle (w_session w))
    (rules (w_session w)) (doc_rules document) [] final ok creates ->
  Called "EspCreateRule" [ARuleDescriptor d st] created ∈ creates ->
  created_handle (Called "EspCreateRule" [ARuleDescriptor d st] created) = Some h ->
  read_at 4 kRuleActionSelectorOffset d = kActionMatchSubrules ->
  read_at 4 kRuleSubruleCountOffset d = 1 -> last (subrule_handles st) = Some predecessor ->
  exists earlier later,
    final = earlier ++ mkPending h (from_option pe_rule 0 (last earlier)) :: later /\
    last (rules (w_session w) ++ (pe_rule <$> earlier)) = Some predecessor.
Proof.
  intros Hwf Hb Hcreated Hh Hselector Hcount Hlast.
  destruct (build_run_described _ _ _ _ _ _ _ _ _ _ _ _ _ Hb Hcreated)
    as (spec & earlier & later & Hspec & _ & Hd & Hsplit & Haction & Hhead).
  rewrite (co_selector _ _ Hd), (selector_range _ _ Hwf Hspec) in Hselector.
  unfold action_ok in Haction. rewrite Hselector in Haction.
  change (kActionMatchSubrules =? kActionRewrite) with false in Haction. rewrite Z.eqb_refl in Haction.
  destruct (last (rules (w_session w) ++ (pe_rule <$> earlier))) as [p|] eqn:Elast; [|destruct Haction; congruence].
  destruct Haction as (_ & _ & Hp). cbn in Hh. destruct (_ && _) eqn:Eok in Hh; [|done]. injection Hh as <-.
  specialize (Hhead Eok). destruct later as [|e later]; [done|]. injection Hhead as ->.
  unfold anchor_of in Hsplit. rewrite Hselector, Z.eqb_refl in Hsplit.
  exists earlier, later. split; [done|congruence].
Qed.

(** The new events up to a submission: all the creations, and some submissions. *)
Lemma submission_split a c p q before specs final ok creates client close accepted submits t1 h reply t2 :
  build_run a c p q before specs [] final ok creates -> submit_run client close [] final accepted submits ->
  creates ++ submits = t1 ++ submitted_event client h reply :: t2 ->
  exists k, t1 = creates ++ k /\ submits = k ++ submitted_event client h reply :: t2 /\
    (forall e, e ∈ t1 -> e ∈ k \/ exists d st r, e = Called "EspCreateRule" [ARuleDescriptor d st] r) /\
    forall closed r, Called "EspCloseRule" [AHandle closed] r ∈ k -> closed ∈ pe_rule <$> final.
Proof.
  intros Hb Hs Hrun.
  assert (exists k, t1 = creates ++ k /\ submits = k ++ submitted_event client h reply :: t2) as (k & -> & Hsub).
  { apply app_eq_inv in Hrun as [([|x k] & Hk & Hsub)|(k & Hk & Hsub)].
    - exists []. rewrite app_nil_r in *. by subst.
    - injection Hsub as <- _.
      destruct (build_run_events _ _ _ _ _ _ _ _ _ _ (submitted_event client h reply) Hb) as (? & ? & ? & ?);
        [set_solver|done].
    - by exists k. }
  exists k. split; [done|]. split; [done|]. split.
  - intros e [Hin|Hin]%elem_of_app; [right; by eapply build_run_events|by left].
  - intros closed r Hin.
    destruct (submit_run_events _ _ _ _ _ _ (Called "EspCloseRule" [AHandle closed] r) Hs) as (e & r' & He & [?|E]);
      [set_solver|done|]. injection E as -> _. apply list_elem_of_fmap. eauto.
Qed.

(** C2 A subrule rule is never armed over a dead handle: when a rule that points at a
    predecessor is submitted, that predecessor has not been closed, although a
    rejected predecessor is closed as soon as it is rejected. (The library hands out
    fresh handles.) *)
Theorem InstallRules_anchors document w t1 h reply t2 d st created predecessor closed
    (Hwf : document_wf document)
    (Hrun : rule_events (InstallRules env document w).2 =
            rule_events w ++ t1 ++ submitted_event (client_handle (w_session w)) h reply :: t2)
    (Hfresh : NoDup (rules (w_session w) ++ omap created_handle t1))
    (Hcreated : Called "EspCreateRule" [ARuleDescriptor d st] created ∈ t1)
    (Hh : created_handle (Called "EspCreateRule" [ARuleDescriptor d st] created) = Some h)
    (Hselector : read_at 4 kRuleActionSelectorOffset d = kActionMatchSubrules)
    (Hcount : read_at 4 kRuleSubruleCountOffset d = 1)
    (Hlast : last (subrule_handles st) = Some predecessor) :
  Called "EspCloseRule" [AHandle predecessor] closed ∉ t1.
Proof.
  pose proof (InstallRules_cases document w) as H. destruct (InstallRules env document w) as [status w'].
  cbn [snd] in Hrun.
  destruct H as [(_ & He & _)|(final & ok & creates & accepted & submits & Hb & Hs & He & _)].
  { rewrite He in Hrun. apply (f_equal length) in Hrun. rewrite !length_app in Hrun. cbn in Hrun. lia. }
  rewrite He in Hrun. apply app_inv_head in Hrun.
  specialize (Hb (enforce_compat_patch_ok (w_session w')) (fun _ => eq_refl)).
  pose proof (build_run_handles _ _ _ _ _ _ _ _ _ _ Hb ltac:(constructor)) as Hok.
  destruct (submission_split _ _ _ _ _ _ _ _ _ _ _ _ _ _ _ _ _ Hb Hs Hrun) as (k & -> & Hsubmits & Honly & Hclosed).
  pose proof (build_run_created _ _ _ _ _ _ _ _ _ _ Hb) as Hfinal. cbn [fmap list_fmap app] in Hfinal.
  rewrite omap_app, <- Hfinal, app_assoc in Hfresh.
  apply NoDup_app in Hfresh as [(_ & Hold & Hnodup)%NoDup_app _].
  assert (Called "EspCreateRule" [ARuleDescriptor d st] created ∈ creates) as Hc.
  { apply elem_of_app in Hcreated as [?|Hin]; [done|].
    destruct (submit_run_events _ _ _ _ _ _ (Called "EspCreateRule" [ARuleDescriptor d st] created) Hs)
      as (? & ? & _ & [?|?]); [set_solver|done..]. }
  destruct (created_subrule _ _ _ _ _ _ _ _ _ _ _ Hwf Hb Hc Hh Hselector Hcount Hlast)
    as (earlier & later & Hsplit & Elast).
  destruct (submit_run_anchored _ _ _ _ _ _ _ _ _ _ Hs Hsubmits) as (entry & Hentry & Hrule & Hopen).
  assert (entry = mkPending h (from_option pe_rule 0 (last earlier))) as ->.
  { apply (pending_unique final); try done. set_solver. }
  intros [Hin|(? & ? & ? & ?)]%Honly; [|done]. apply Hclosed in Hin as Hfin.
  destruct (last earlier) as [e|] eqn:Ee.
  - apply last_Some in Ee as [l ->]. rewrite fmap_app, app_assoc, list_fmap_singleton, last_snoc in Elast. injection Elast as E.
    unfold anchor_open in Hopen. cbn in Hopen. rewrite E in Hopen. destruct Hopen as [_ Hopen]; [|by eapply Hopen].
    rewrite <- E. rewrite Forall_forall in Hok. apply Hok. set_solver.
  - apply last_None in Ee. subst earlier. rewrite app_nil_r in Elast.
    apply (Hold predecessor); [|done]. apply last_Some in Elast as [l ->]. set_solver.
Qed.
End Properties.

(** ** Process creation *)

(** A field none of the writes of a process-creation configuration covers. *)
Definition unwritten (n offset : nat) : Prop :=
  (offset + n <= kProcessConfigBindingCountOffset \/ kProcessConfigQueryPtrOffset + 8 <= offset)%nat.

Lemma write_query_unwritten addr n offset custom b b' :
  unwritten n offset ->
  write_query addr kProcessConfigQueryCountOffset kProcessConfigQueryPtrOffset custom process_ids LProcessIds b = Some b' ->
  read_at n offset b' = read_at n offset b.
Proof.
  unfold unwritten, write_query, WriteCountPtrQuery, kProcessConfigBindingCountOffset,
    kProcessConfigQueryPtrOffset, kProcessConfigQueryCountOffset. intros Hu H.
  destruct custom as [[ptr count]|]; [destruct (0 <? count)|]; apply bind_Some in H as (b1 & H1 & H2);
    (eapply eq_trans; [eapply read_write_other; [|exact H2]|eapply read_write_other; [|exact H1]]);
    rewrite le_bytes_length; lia.
Qed.

Section ProcessCreate.
  Context {D : Type} (env : Env D).

(** C22 The filter of a process-creation rule reaches the driver only as the image
    filter of a single process leaf: for any other tree the rule is attached to one
    new configuration whose filter slots are empty, whatever filter was built, and
    the descriptor slots stay as they are. *)
Theorem ProcessCreate_drops_filter d spec filter (w : World D)
    (Htype : rs_eventType spec = kEventProcessCreate) (Hsize : length d = kRuleDescriptorSize)
    (Htree : fn_kind (rs_filter spec) <> Leaf) :
  let '(d', w') := AttachFilterToDescriptor env d spec filter w in
  exists config, fo_io_configs (storage (w_session w')) = fo_io_configs (storage (w_session w)) ++ [config] /\
    read_at 8 kProcessConfigFilterOffset config = 0 /\ read_at 8 kImageLoadFileObjectFilterOffset config = 0 /\
    forall slot, slot ∈ [40; 688]%nat -> read_at 8 slot d' = read_at 8 slot d.
Proof.
  unfold AttachFilterToDescriptor. cbv zeta. rewrite Htype.
  change (IsThreadEventType kEventProcessCreate) with false.
  change (NeedsTypedIoConfig kEventProcessCreate) with false.
  change (NeedsProcessCreateConfig kEventProcessCreate) with true. cbn match.
  assert (image_filter env spec w = (0, w)) as Himage.
  { unfold image_filter. rewrite bool_decide_eq_false_2 by done. by rewrite andb_false_r. }
  rewrite st_bind_unfold, Himage. cbn [fst snd]. rewrite st_bind_unfold.
  assert (fo_io_configs (storage (w_session (bind_custom env ["process"] [6; 20] spec w).2)) =
    fo_io_configs (storage (w_session w))) as <-.
  { unfold bind_custom. by destruct (custom_ids _ _ _). }
  destruct (bind_custom env ["process"] [6; 20] spec w) as [custom w1]. cbn [fst snd].
  unfold attach_config. run. set (config := env_addr env _).
  pose proof (AttachProcessCreateConfig_attaches (env_addr env) 0 0 custom config d empty_config Hsize
    ltac:(apply length_replicate)) as (d' & b' & E & Hbind & _). rewrite E. cbn [checked]. run.
  exists b'. split; [done|].
  assert (forall n offset, unwritten n offset -> read_at n offset b' = read_at n offset empty_config) as Hread.
  { intros n offset Hu. apply bind_Some in E as ([[d1 b1] nested] & E & Hd). injection Hd as -> ->.
    unfold AttachProcessCreateConfig in E. cbv zeta in E.
    change (WriteFilterAt kProcessConfigFilterOffset 0 empty_config) with (Some empty_config) in E.
    change (handle_ok 0) with false in E. rewrite some_bind in E.
    apply bind_Some in E as (b2 & Hb2 & E). apply bind_Some in E as (b3 & Hb3 & E).
    rewrite some_bind in E. apply bind_Some in E as (d2 & _ & E). injection E as -> -> _.
    rewrite (write_query_unwritten _ _ _ _ _ _ Hu Hb3).
    apply bind_Some in Hb2 as (b4 & H1 & H2).
    unfold unwritten, kProcessConfigBindingCountOffset, kProcessConfigQueryPtrOffset in Hu.
    eapply eq_trans; [eapply read_write_other; [|exact H2]|eapply read_write_other; [|exact H1]];
      rewrite le_bytes_length; unfold kProcessConfigBindingPtrOffset, kProcessConfigBindingCountOffset; lia. }
  split; [rewrite Hread; [by vm_compute|left; fits]|].
  split; [rewrite Hread; [by vm_compute|right; fits]|].
  intros slot Hslot. eapply read_write_other; [|exact Hbind]. rewrite le_bytes_length.
  rewrite !elem_of_cons in Hslot. unfold kRuleEventConfigPtrOffset, kRuleFoIoConfigPtrOffset.
  destruct Hslot as [->|[->|[]%not_elem_of_nil]]; lia.
Qed.
End ProcessCreate.

(** ** Examples *)

(** A connected session with a queue and the enforce-compat opt-in. *)
Definition install_world : World Z :=
  mkWorld (new_session <| client_handle := 5 |> <| queue_handle := 6 |>) 1000 [] [] [].

Definition example_rule (event : Z) (action : string) (selector : option Z) : RuleSpec :=
  mkRuleSpec "" event "e" Transient 0 0 action selector None None empty_filter [].

(** A queued rule, a native deny, a subrule rule, and a deny without a patch. *)
Definition example_document : RuleDocument :=
  mkRuleDocument empty_client
    [example_rule kEventRegCreateKey "" None; example_rule kEventFoCreate "deny" None;
     example_rule kEventFoCreate "" (Some kActionMatchSubrules); example_rule kEventProcessCreate "deny" None] [] "".

(** The library rejects the first submission. *)
Definition reject_first (export : string) (args : list Arg) : option EspResult :=
  match args with
  | [_; _; _; ARuleEntry _ h] => if h =? 1000 then Some kFail else None
  | _ => None
  end.

Definition example_events : list Event :=
  rule_events (InstallRules (example_env reject_first) example_document install_world).2.

Definition creation_at (i : nat) : blob * Storage * Reply :=
  match example_events !! i with
  | Some (Called _ [ARuleDescriptor d st] reply) => (d, st, reply)
  | _ => ([], empty_storage, mkReply 0 0 0 [])
  end.

Lemma example_document_wf : document_wf example_document.
Proof.
  split; [|constructor]. repeat (apply Forall_cons; split); try apply Forall_nil; try done;
    (split; [|split; [constructor|split; [vm_compute; lia|repeat constructor; vm_compute; intuition discriminate]]]);
    unfold rule_head_wf; cbn -[u32_max u64_max]; unfold u32_max, u64_max; split_and!; try lia; try done; auto;
    vm_compute; intuition discriminate.
Qed.

Lemma InstallRules_accounts_witness :
  let r := InstallRules (example_env reject_first) example_document install_world in
  r.1 = Partial /\ omap created_handle example_events = [1000; 1001; 1002] /\
  omap closed_handle example_events = [1000] /\
  exists new, rule_events r.2 = rule_events install_world ++ new /\
    let accepted := omap accepted_handle new in
    rules (w_session r.2) = rules (w_session install_world) ++ accepted /\
    omap created_handle new ≡ₚ (accepted ++ omap closed_handle new) /\
    r.1 = install_status (length accepted) 4.
Proof.
  cbv zeta. split; [vm_compute; reflexivity|]. split; [vm_compute; reflexivity|]. split; [vm_compute; reflexivity|].
  pose proof (InstallRules_accounts (example_env reject_first) example_document install_world eq_refl) as H.
  destruct (InstallRules (example_env reject_first) example_document install_world). exact H.
Defined.

Lemma InstallRules_anchors_witness :
  last (subrule_handles (creation_at 2).1.2) = Some 1001 /\
  Called "EspCloseRule" [AHandle 1000] (mkReply kOk 1003 0 []) ∈ take 6 example_events /\
  Called "EspCloseRule" [AHandle 1001] (mkReply kOk 1003 0 []) ∉ take 6 example_events.
Proof.
  split; [vm_compute; reflexivity|]. split; [vm_compute; do 4 constructor 2; constructor|].
  apply (InstallRules_anchors (example_env reject_first) example_document install_world (take 6 example_events)
           1002 (mkReply kOk 1005 0 []) [] (creation_at 2).1.1 (creation_at 2).1.2 (creation_at 2).2 1001).
  - apply example_document_wf.
  - vm_compute. reflexivity.
  - apply (bool_decide_unpack _). vm_compute. exact I.
  - vm_compute. do 2 constructor 2. constructor.
  - vm_compute. reflexivity.
  - vm_compute. reflexivity.
  - vm_compute. reflexivity.
  - vm_compute. reflexivity.
Defined.

(** Two process leaves under an Or: the filter handle 77 appears nowhere. *)
Lemma ProcessCreate_drops_filter_witness :
  let leaf := mkFilterNode Leaf kFilterCtorProcess 0 0 2 "" "" "" "" [] in
  let spec := mkRuleSpec "" kEventProcessCreate "e" Transient 0 0 "deny" None None None
                (mkFilterNode Or 0 0 0 0 "" "" "" "" [leaf; leaf]) [] in
  let d := replicate kRuleDescriptorSize 0 in
  let '(d', w') := AttachFilterToDescriptor (example_env accept) d spec 77 install_world in
  exists config, fo_io_configs (storage (w_session w')) = [config] /\
    read_at 8 kProcessConfigFilterOffset config = 0 /\ read_at 8 kImageLoadFileObjectFilterOffset config = 0 /\
    forall slot, slot ∈ [40; 688]%nat -> read_at 8 slot d' = read_at 8 slot d.
Proof.
  exact (ProcessCreate_drops_filter (example_env accept) (replicate kRuleDescriptorSize 0)
    (mkRuleSpec "" kEventProcessCreate "e" Transient 0 0 "deny" None None None
       (mkFilterNode Or 0 0 0 0 "" "" "" ""
          [mkFilterNode Leaf kFilterCtorProcess 0 0 2 "" "" "" "" [];
           mkFilterNode Leaf kFilterCtorProcess 0 0 2 "" "" "" "" []]) [])
    77 install_world eq_refl eq_refl ltac:(discriminate)).
Defined.
