(* ===== verification/Options.v ===== *)
(** The command line (src/esptool/src/cli/Options.cpp): the option tables and their
    parser, permission values, and the plan that decides whether the token is stamped
    or cleaned and whether a worker process is needed. *)
From S2P Require Import Prelude Text Core Api Token.
From coqutil Require Import Datatypes.RecordSetters.
Import TriangleBracketNotations.
Open Scope record_set.

Definition kDefaultDurationMs : Z := 5000.
Definition kDefaultMaxNotifications : Z := 10.

Record Options := mkOptions {
  op_command : string;
  op_positional : list string;
  op_dll_path : string;
  op_rules_path : string;
  op_log_path : string;
  op_pipe_name : string;
  op_service_name : string;
  op_level : string;
  op_target : string;
  op_permission : string;
  op_guid : string;
  op_kind : string;
  op_pid : string;
  op_tid : string;
  op_path : string;
  op_file_id : string;
  op_volume : string;
  op_stream : string;
  op_object_name : string;
  op_event_id : string;
  op_properties : string;
  op_supported : string;
  op_duration_ms : Z;
  op_max_notifications : Z;
  op_collection_type : Z;
  op_collection_lifetime : Z;
  op_duration_set : bool;
  op_max_notifications_set : bool;
  op_collection_type_set : bool;
  op_isolated : bool;
  op_json : bool;
  op_help : bool;
  op_verbose : bool;
  op_no_provision : bool;
  op_no_auto_provision : bool;
  op_force_provision : bool;
  op_force_hop : bool;
  op_no_hop : bool;
  op_clear_attribute : bool;
  op_iocp : bool;
  op_enforce_compat : bool;
  op_bypass_eventtype : bool;
  op_fresh : bool;
  op_worker : bool;
  op_all : bool;
  op_from_notify : bool;
  op_duplicate : bool;
  op_context_set : bool;
  op_context_enum : bool;
  op_enum_ids : bool;
  op_open_collection : bool;
  op_tokens : list wstring
}.

(** [Options{}]. *)
Definition default_options : Options :=
  mkOptions "" [] "" "" "" kDefaultClientName kDefaultClientName "" "" "" "" "" "" "" "" "" "" "" "" "" "" ""
    kDefaultDurationMs kDefaultMaxNotifications 2 1
    false false false false false false false false false false false false false false false false false
    false false false false false false false false [].

(** ** Flags *)

Definition IsFlag (token flag : string) : bool :=
  (token =? flag)%string ||
  (String.prefix flag token && (String.length flag <? String.length token)%nat &&
   bool_decide (String.get (String.length flag) token = Some "="%char)).

(** The text after the first equals sign. *)
Fixpoint after_equals (l : list ascii) : option (list ascii) :=
  match l with
  | [] => None
  | c :: rest => if (c =? "=")%char then Some rest else after_equals rest
  end.

Definition attached_value (token : string) : option string := of_chars <$> after_equals (chars token).

Definition kStringFlags : list (string * (string -> Options -> Options)) :=
  [("--dll", fun v o => o <| op_dll_path := v |>);
   ("--rules", fun v o => o <| op_rules_path := v |>);
   ("--log", fun v o => o <| op_log_path := v |>);
   ("--pipe", fun v o => o <| op_pipe_name := v |>);
   ("--service", fun v o => o <| op_service_name := v |>);
   ("--level", fun v o => o <| op_level := v |>);
   ("--target", fun v o => o <| op_target := v |>);
   ("--permission", fun v o => o <| op_permission := v |>);
   ("--guid", fun v o => o <| op_guid := v |>);
   ("--kind", fun v o => o <| op_kind := v |>);
   ("--pid", fun v o => o <| op_pid := v |>);
   ("--tid", fun v o => o <| op_tid := v |>);
   ("--path", fun v o => o <| op_path := v |>);
   ("--file-id", fun v o => o <| op_file_id := v |>);
   ("--volume", fun v o => o <| op_volume := v |>);
   ("--stream", fun v o => o <| op_stream := v |>);
   ("--name", fun v o => o <| op_object_name := v |>);
   ("--event-id", fun v o => o <| op_event_id := v |>);
   ("--properties", fun v o => o <| op_properties := v |>);
   ("--supported", fun v o => o <| op_supported := v |>)].

Definition kBoolFlags : list (string * (Options -> Options)) :=
  [("--help", fun o => o <| op_help := true |>);
   ("-h", fun o => o <| op_help := true |>);
   ("--verbose", fun o => o <| op_verbose := true |>);
   ("-v", fun o => o <| op_verbose := true |>);
   ("--no-provision", fun o => o <| op_no_provision := true |>);
   ("--no-auto-provision", fun o => o <| op_no_auto_provision := true |>);
   ("--force-provision", fun o => o <| op_force_provision := true |>);
   ("--force-hop", fun o => o <| op_force_hop := true |>);
   ("--no-hop", fun o => o <| op_no_hop := true |>);
   ("--clear-attribute", fun o => o <| op_clear_attribute := true |>);
   ("--isolated", fun o => o <| op_isolated := true |>);
   ("--json", fun o => o <| op_json := true |>);
   ("--iocp", fun o => o <| op_iocp := true |>);
   ("--enforce-compat", fun o => o <| op_enforce_compat := true |>);
   ("--bypass-eventtype", fun o => o <| op_bypass_eventtype := true |>);
   ("--fresh", fun o => o <| op_fresh := true |>);
   ("--all", fun o => o <| op_all := true |>);
   ("--from-notify", fun o => o <| op_from_notify := true |>);
   ("--duplicate", fun o => o <| op_duplicate := true |>);
   ("--context-set", fun o => o <| op_context_set := true |>);
   ("--context-enum", fun o => o <| op_context_enum := true |>);
   ("--enum-ids", fun o => o <| op_enum_ids := true |>);
   ("--open", fun o => o <| op_open_collection := true |>)].

(** The field a count is stored in, and the mark that it was given. *)
Definition kCountFlags : list (string * (Z -> Options -> Options)) :=
  [("--duration", fun n o => o <| op_duration_ms := n |> <| op_duration_set := true |>);
   ("--max", fun n o => o <| op_max_notifications := n |> <| op_max_notifications_set := true |>);
   ("--type", fun n o => o <| op_collection_type := n |> <| op_collection_type_set := true |>);
   ("--lifetime", fun n o => o <| op_collection_lifetime := n |>)].

Definition FindFlag {A} (flags : list (string * A)) (token : string) : option (string * A) :=
  find_first (fun entry => IsFlag token entry.1) flags.

Definition ParseCount (value : string) : option Z :=
  parsed ← ParseUnsigned value; if u32_max <? parsed then None else Some parsed.

Definition missing_value {A} (flag : string) : result A := Err ("missing value for " +:+ flag).

Definition looks_like_flag (token : string) : bool :=
  String.prefix "-" token && negb (token =? "-")%string.

Definition add_word (token : string) (o : Options) : Options :=
  if is_empty (op_command o) then o <| op_command := token |>
  else o <| op_positional ::= fun l => l ++ [token] |>.

Section Parse.
  Context (WideCharToMultiByte : wstring -> option string).
  Local Abbreviation utf8 := (ToUtf8 WideCharToMultiByte).

(** The argument loop; a value that is not attached is the next argument. *)
Fixpoint parse_arguments (positional_only : bool) (argv : list wstring) (o : Options) : result Options :=
  match argv with
  | [] => Ok o
  | argument :: rest =>
      let token := utf8 argument in
      if positional_only then parse_arguments true rest (o <| op_positional ::= fun l => l ++ [token] |>)
      else if (token =? "--")%string then parse_arguments true rest o
      else if negb (looks_like_flag token) then parse_arguments false rest (add_word token o)
      else
        match FindFlag kStringFlags token with
        | Some (flag, set) =>
            match attached_value token with
            | Some value => parse_arguments false rest (set value o)
            | None =>
                match rest with
                | [] => missing_value flag
                | next :: rest => parse_arguments false rest (set (utf8 next) o)
                end
            end
        | None =>
            match FindFlag kBoolFlags token with
            | Some (_, set) => parse_arguments false rest (set o)
            | None =>
                if (token =? "--worker")%string then parse_arguments false rest (o <| op_worker := true |>)
                else
                  match FindFlag kCountFlags token with
                  | Some (flag, set) =>
                      match attached_value token with
                      | Some value =>
                          match ParseCount value with
                          | Some n => parse_arguments false rest (set n o)
                          | None => Err ("invalid value for " +:+ flag +:+ ": " +:+ value)
                          end
                      | None =>
                          match rest with
                          | [] => missing_value flag
                          | next :: rest =>
                              match ParseCount (utf8 next) with
                              | Some n => parse_arguments false rest (set n o)
                              | None => Err ("invalid value for " +:+ flag +:+ ": " +:+ utf8 next)
                              end
                          end
                      end
                  | None => Err ("unknown option: " +:+ token)
                  end
            end
        end
  end.

Definition valid_permission (value : string) : bool :=
  is_empty value || EqualsIgnoreCase value "full" || EqualsIgnoreCase value "restricted" ||
  EqualsIgnoreCase value "abcd" ||
  match ParseUnsigned value with Some num => num <=? u32_max | None => false end.

(** The checks after the loop. *)
Definition check_options (o : Options) : result Options :=
  if op_no_provision o && op_force_provision o then
    Err "cannot specify both --no-provision and --force-provision"
  else if op_no_provision o && negb (is_empty (op_permission o)) then
    Err "cannot specify both --no-provision and --permission"
  else if op_no_hop o && op_force_hop o then Err "cannot specify both --no-hop and --force-hop"
  else if negb (valid_permission (op_permission o)) then
    Err ("invalid value for --permission: " +:+ op_permission o)
  else Ok o.

(** [argv]: the arguments after the program's name. The caller drops the options of a
    failed parse. *)
Definition ParseOptions (argv : list wstring) : result Options :=
  o ← parse_arguments false argv (default_options <| op_tokens := argv |>); check_options o.
End Parse.

(** The lines of [Usage]. *)
Definition usage_lines : list string :=
  ["esptool - runtime linker and exerciser for espclient.dll";
   "";
   "usage: esptool <command> [options] [arguments]";
   "";
   "commands:";
   "  exports                    list the exports and their resolution state";
   "  status                     show the loaded library and the protection state";
   "  connect                    connect a client, create a queue, arm a notification";
   "  rules                      parse --rules and install the rule batch";
   "  monitor                    install --rules and wait for notifications";
   "  clients                    enumerate registered WESP clients";
   "  unregister                 EspUnregisterClient (--guid or --all)";
   "  enum-rules                 enumerate rule IDs for this client";
   "  remove-rules               remove all rules for this client";
   "  persist-rules              install --rules with lifetime FFI 3";
   "  open-queue                 EspGetEventQueueId then EspOpenEventQueue";
   "  trust                      print the connect-tier and open a session";
   "  query                      count-0 client smoke, or --kind query";
   "  refs <kind>                create an object reference and optional query";
   "  collections                create and exercise a collection";
   "  context                    exercise the client context keys";
   "  exercise                   sweep every export (--isolated for child processes)";
   "  call-one <name>            invoke one export with a classified argument vector";
   "  ppl status                 show the current process protection state";
   "  token status               show WESP://Permission on the current token";
   "  token set [full|restricted]  stamp WESP://Permission (requires SYSTEM + SeTcbPrivilege)";
   "  token clear                remove WESP://Permission (requires SYSTEM + SeTcbPrivilege)";
   "  provision                  stamp WESP://Permission and print trust state (requires SYSTEM)";
   "  service install            install a demand-start SYSTEM service";
   "  service uninstall          stop and delete the service";
   "  service run                run the service dispatcher";
   "  service foreground         run the serve loop without the service manager";
   "  ipc ping                   send a ping request to the service";
   "  ipc status                 ask the service for its protection state";
   "  ipc exports                ask the service for its export counts";
   "  ipc exercise               ask the service to run the export sweep";
   "  ipc rules <path>           send and install a rule document over the pipe";
   "";
   "options:";
   "  --dll <path>      espclient.dll to load (default: search order)";
   "  --rules <path>    XML rule document for the rules and monitor commands";
   "  --log <path>      append diagnostics to a UTF-8 log file";
   "  --pipe <name>     named pipe for the ipc and service commands (default esptool)";
   "  --service <name>  Windows service name (default esptool)";
   "  --level <level>   trace|debug|info|warn|error (default info)";
   "  --target <value>  reserved target selector";
   ("  --duration <ms>   notification pump duration (default " +:+ dec kDefaultDurationMs +:+ ")");
   ("  --max <count>     maximum notifications to pump (default " +:+ dec kDefaultMaxNotifications +:+ ")");
   "  --isolated        run the export sweep in one child process per export";
   "  --json            reserved for machine-readable output";
   "  --permission <p>  full|restricted (default: full when PPL-AM, else restricted)";
   "  --no-provision    do not stamp WESP://Permission";
   "  --no-auto-provision  disable automatic test-signing and token-attribute detection";
   "  --force-provision force stamping WESP://Permission even if test-signing is active";
   "  --force-hop       force spawning a child worker process";
   "  --no-hop          execute in current process without child hopping";
   "  --iocp            monitor via EspConnectEventQueueWithIocp flags 0";
   "  --enforce-compat  patch espclient.dll EventModify::from_ffi in memory so a deny rule installs for the driver-ready event types the unpatched client refuses; a compat install is logged, not proven to deny";
   "  --guid <id>       client or collection GUID";
   "  --kind <name>     query/refs object kind";
   "  --pid/--tid       process or thread id (self = current)";
   "  --path <path>     file, registry, disk, pipe, or mailslot path";
   "  --file-id <hex>   FILE_ID_128 for ById creates";
   "  --volume <guid>   volume GUID for ById or volume refs";
   "  --stream <name>   optional NTFS stream name";
   "  --name <desktop>  desktop name for refs desktop";
   "  --event-id <id>   event-object id for refs event";
   "  --properties <id,id>  query property identifiers (count >= 1)";
   "  --supported <id>  EspIs*PropertySupported probe";
   "  --from-notify     refs event via one notify hop";
   "  --duplicate       duplicate the created reference";
   "  --context-set/--context-enum  event-object context keys";
   "  --type <1|2|3>    collection create value type";
   "  --lifetime <1|2|3>  EspEnumerateCollectionIds lifetime";
   "  --enum-ids        enumerate collection identifiers";
   "  --open            EspOpenCollection in the same session";
   "  --all             unregister every enumerated client";
   "  --worker          this process is the worker child (do not relaunch)";
   "  --verbose, -v     enable debug diagnostics";
   "  --help, -h        show this text"].

Definition Usage : string := String.concat "" ((fun line => line +:+ newline) <$> usage_lines).

(** ** Permissions *)

Definition ParsePermission (value : string) : option Z :=
  if EqualsIgnoreCase value "full" then Some kWespPermissionFull
  else if EqualsIgnoreCase value "restricted" then Some kWespPermissionRestricted
  else if EqualsIgnoreCase value "abcd" then Some kWespPermissionAbcdDeny
  else parsed ← ParseUnsigned value; if parsed <=? u32_max then Some parsed else None.

(** [is_ppl]: of the context, or of the current process without one. *)
Definition ResolvePermission (o : Options) (is_ppl : bool) : Z :=
  match ParsePermission (op_permission o) with
  | Some parsed => parsed
  | None => if is_ppl then kWespPermissionFull else kWespPermissionRestricted
  end.

Definition kWorkerCommands : list string :=
  ["connect"; "rules"; "monitor"; "query"; "refs"; "collections"; "context"; "exercise"; "call-one";
   "provision"; "clients"; "unregister"; "enum-rules"; "remove-rules"; "persist-rules"; "open-queue"; "trust"].

Definition CommandNeedsWorker (o : Options) : bool := contains (op_command o) kWorkerCommands.

(** ** The trust plan *)

Record ProvisioningContext := mkContext {
  pc_is_system : bool; pc_is_tcb : bool; pc_is_ppl : bool; pc_test_signing : bool;
  pc_attribute_present : bool; pc_attribute_permission : Z; pc_probe_ok : bool; pc_error : string
}.

Record TrustPlan := mkPlan {
  tp_effective_no_provision : bool; tp_auto_no_provision_applied : bool; tp_stamp_needed : bool;
  tp_clean_needed : bool; tp_child_required : bool; tp_target_permission : Z; tp_reason : string
}.

Definition empty_plan : TrustPlan := mkPlan false false false false false 0 "".

(** The part of the plan on provisioning. *)
Definition provisioning_plan (o : Options) (ctx : ProvisioningContext) : TrustPlan :=
  let provision reason :=
    empty_plan <| tp_target_permission := ResolvePermission o (pc_is_ppl ctx) |> <| tp_reason := reason |> in
  if op_no_provision o then
    empty_plan <| tp_effective_no_provision := true |> <| tp_reason := "explicit --no-provision" |>
  else if op_force_provision o || negb (is_empty (op_permission o)) then
    provision "explicit permission requested"
  else if op_no_auto_provision o then provision "auto-provision disabled via --no-auto-provision"
  else if pc_test_signing ctx && negb (pc_is_ppl ctx) && negb (op_command o =? "provision")%string then
    empty_plan <| tp_effective_no_provision := true |> <| tp_auto_no_provision_applied := true |>
      <| tp_reason := "test-signing active on non-PPL process (automatic --no-provision)" |>
  else provision "production trust required (PPL or test-signing inactive)".

(** The part on the token's attribute. *)
Definition attribute_plan (o : Options) (ctx : ProvisioningContext) (plan : TrustPlan) : TrustPlan :=
  if tp_effective_no_provision plan then
    plan <| tp_stamp_needed := false |>
         <| tp_clean_needed := pc_attribute_present ctx && pc_test_signing ctx && negb (pc_is_ppl ctx) |>
  else if CommandNeedsWorker o then
    plan <| tp_stamp_needed := negb (pc_attribute_present ctx &&
                                     (pc_attribute_permission ctx =? tp_target_permission plan)) |>
  else plan.

(** The part on the worker process. *)
Definition worker_plan (o : Options) (plan : TrustPlan) : TrustPlan :=
  plan <| tp_child_required :=
    if op_worker o then false
    else if op_no_hop o then false
    else if op_force_hop o then CommandNeedsWorker o
    else if negb (CommandNeedsWorker o) then false
    else tp_stamp_needed plan || tp_clean_needed plan |>.

(** [EvaluateTrustPlan] always succeeds. *)
Definition EvaluateTrustPlan (o : Options) (ctx : ProvisioningContext) : TrustPlan :=
  worker_plan o (attribute_plan o ctx (provisioning_plan o ctx)).

(** ** The grammar of the arguments *)

(** One option, command or positional word; [attached] selects the [--flag=value] form.
    The text attached to a flag without a value is ignored. *)
Inductive item :=
| IWord (word : string)
| IString (flag value : string) (attached : bool)
| IBool (flag : string) (ignored : option string)
| IWorker
| ICount (flag value : string) (attached : bool).

Definition with_value (flag value : string) : string := flag +:+ "=" +:+ value.

Definition render_value (flag value : string) (attached : bool) : list string :=
  if attached then [with_value flag value] else [flag; value].

Definition render (i : item) : list string :=
  match i with
  | IWord word => [word]
  | IString flag value attached | ICount flag value attached => render_value flag value attached
  | IBool flag None => [flag]
  | IBool flag (Some ignored) => [with_value flag ignored]
  | IWorker => ["--worker"]
  end.

Definition valid_item (i : item) : Prop :=
  match i with
  | IWord word => looks_like_flag word = false
  | IString flag _ _ => flag ∈ kStringFlags.*1
  | IBool flag _ => flag ∈ kBoolFlags.*1
  | IWorker => True
  | ICount flag value _ => flag ∈ kCountFlags.*1 /\ is_Some (ParseCount value)
  end.

Definition named {A} (flag : string) (table : list (string * A)) : option A :=
  snd <$> find_first (fun entry => entry.1 =? flag)%string table.

Definition apply_item (o : Options) (i : item) : Options :=
  match i with
  | IWord word => add_word word o
  | IString flag value _ => match named flag kStringFlags with Some set => set value o | None => o end
  | IBool flag _ => match named flag kBoolFlags with Some set => set o | None => o end
  | IWorker => o <| op_worker := true |>
  | ICount flag value _ =>
      match named flag kCountFlags, ParseCount value with Some set, Some n => set n o | _, _ => o end
  end.

(** [words]: the arguments after a [--], when there is one. *)
Definition render_line (items : list item) (words : option (list string)) : list string :=
  (items ≫= render) ++ match words with Some words => "--" :: words | None => [] end.

Definition add_positional (words : list string) (o : Options) : Options :=
  o <| op_positional ::= fun l => l ++ words |>.

Definition apply_line (items : list item) (words : option (list string)) (o : Options) : Options :=
  let o := fold_left apply_item items o in
  match words with Some words => add_positional words o | None => o end.

(** ** Flags and their names *)

Definition plain (s : string) : Prop := "="%char ∉ chars s.

#[export] Instance plain_decision s : Decision (plain s).
Proof. unfold plain. apply _. Defined.

Lemma after_equals_attached l v : "="%char ∉ l -> after_equals (l ++ "="%char :: v) = Some v.
Proof.
  induction l as [|c l IH]; simpl; [done|]. intros [Hc Hl]%not_elem_of_cons.
  destruct (Ascii.eqb_spec c "="%char); [congruence|auto].
Qed.

Lemma after_equals_plain l : "="%char ∉ l -> after_equals l = None.
Proof.
  induction l as [|c l IH]; simpl; [done|]. intros [Hc Hl]%not_elem_of_cons.
  destruct (Ascii.eqb_spec c "="%char); [congruence|auto].
Qed.

Lemma chars_with_value f v : chars (with_value f v) = chars f ++ "="%char :: chars v.
Proof. unfold with_value. by rewrite chars_app. Qed.

Lemma attached_with_value f v : plain f -> attached_value (with_value f v) = Some v.
Proof.
  intros. unfold attached_value. rewrite chars_with_value, after_equals_attached by done.
  simpl. by rewrite of_chars_chars.
Qed.

Lemma attached_plain f : plain f -> attached_value f = None.
Proof. intros. unfold attached_value. by rewrite after_equals_plain. Qed.

Lemma with_value_not_plain f v : ~ plain (with_value f v).
Proof. unfold plain. rewrite chars_with_value. set_solver. Qed.

(** A token matches exactly the flag it spells and the flag before its equals sign. *)
Lemma IsFlag_spec token flag :
  IsFlag token flag = true <-> token = flag \/ exists v, token = with_value flag v.
Proof.
  unfold IsFlag, with_value. rewrite orb_true_iff, String.eqb_eq. apply or_iff_compat_l.
  revert token. induction flag as [|c flag IH]; intros token; simpl.
  - destruct token as [|d token]; simpl; [split; [done|by intros [??]]|].
    rewrite bool_decide_eq_true. split; [intros [= ->]; by exists token|by intros [? [= -> ->]]].
  - destruct token as [|d token]; [simpl; split; [done|by intros [??]]|]. simpl.
    destruct (ascii_dec c d) as [->|Hne]; simpl.
    + change (S (String.length flag) <? S (String.length token))%nat
        with (String.length flag <? String.length token)%nat.
      rewrite IH. split; intros [v Hv]; exists v; [by rewrite Hv|by injection Hv].
    + split; [done|]. intros [v [= -> _]]. done.
Qed.

Lemma with_value_inj f g v w : plain f -> plain g -> with_value f v = with_value g w -> f = g /\ v = w.
Proof.
  intros Hf Hg E. assert (Ha := attached_with_value f v Hf).
  rewrite E, attached_with_value in Ha by done. simplify_eq. split; [|done].
  apply chars_inj. apply (f_equal chars) in E. rewrite !chars_with_value in E. by simplify_list_eq.
Qed.

Lemma IsFlag_plain f g : plain f -> IsFlag f g = (g =? f)%string.
Proof.
  intros Hf. apply eq_true_iff_eq. rewrite IsFlag_spec, String.eqb_eq. split; [|by left].
  intros [->|[v ->]]; [done|]. by apply with_value_not_plain in Hf.
Qed.

Lemma IsFlag_with_value f g v : plain f -> plain g -> IsFlag (with_value f v) g = (g =? f)%string.
Proof.
  intros Hf Hg. apply eq_true_iff_eq. rewrite IsFlag_spec, String.eqb_eq. split.
  - intros [<-|[w E]]; [by apply with_value_not_plain in Hg|]. by apply with_value_inj in E as [-> _].
  - intros ->. right. by exists v.
Qed.

Lemma prefix_dash s :
  String.prefix "-" s = match s with String c _ => (c =? "-")%char | EmptyString => false end.
Proof.
  destruct s as [|c s]; [done|]. cbn [String.prefix].
  destruct (Ascii.eqb_spec c "-"%char) as [->|Hne]; [by destruct s|].
  by destruct (ascii_dec "-" c) as [E|]; [rewrite E in Hne|].
Qed.

(** A token that gives the flag, with or without an attached text. *)
Definition spells (flag token : string) : Prop := token = flag \/ exists v, token = with_value flag v.

Definition flag_names : list string := kStringFlags.*1 ++ kBoolFlags.*1 ++ kCountFlags.*1.

Lemma flag_names_shape flag :
  flag ∈ flag_names -> plain flag /\ looks_like_flag flag = true /\ flag <> "--" /\ flag <> "--worker".
Proof.
  revert flag. apply Forall_forall.
  apply (bool_decide_unpack _). by vm_compute.
Qed.

Lemma spells_token flag token :
  flag ∈ flag_names -> spells flag token ->
  (token =? "--")%string = false /\ looks_like_flag token = true /\ (token =? "--worker")%string = false.
Proof.
  intros (Hp & Hl & Hd & Hw)%flag_names_shape Hs.
  assert (Hne : forall s, plain s -> flag <> s -> token <> s).
  { intros s Hps Hne ->. destruct Hs as [->|[v ->]]; [done|]. by apply with_value_not_plain in Hps. }
  assert (Hn : forall s, bool_decide (plain s) = true -> flag <> s -> (token =? s)%string = false).
  { intros s Hps%bool_decide_eq_true Hs'. by apply String.eqb_neq, Hne. }
  split_and!; [by apply Hn| |by apply Hn].
  destruct Hs as [->|[v ->]]; [done|]. unfold looks_like_flag in *. boolp.
  apply andb_true_iff. split.
  - destruct flag as [|c flag]; [done|]. unfold with_value.
    change ((String c flag) +:+ "=" +:+ v) with (String c (flag +:+ "=" +:+ v)). 
    by rewrite prefix_dash in *.
  - apply negb_true_iff, String.eqb_neq. intros E. eapply (with_value_not_plain flag v).
    rewrite E. by apply (bool_decide_unpack _).
Qed.

Lemma FindFlag_spells {A} (table : list (string * A)) flag token :
  plain flag -> Forall plain table.*1 -> spells flag token ->
  FindFlag table token = find_first (fun entry => entry.1 =? flag)%string table.
Proof.
  intros Hf Ht Hs. unfold FindFlag. induction table as [|[g a] table IH]; [done|]. simpl in *.
  apply Forall_cons in Ht as [Hg Ht]. rewrite IH by done.
  replace (IsFlag token g) with (g =? flag)%string; [done|].
  destruct Hs as [->|[v ->]]; symmetry; [by apply IsFlag_plain|by apply IsFlag_with_value].
Qed.

Lemma FindFlag_spelled {A} (table : list (string * A)) token flag a :
  FindFlag table token = Some (flag, a) -> flag ∈ table.*1 /\ spells flag token.
Proof.
  unfold FindFlag. intros [Hin Hf]%find_first_In. split; [by eapply list_elem_of_fmap_2'|].
  by apply IsFlag_spec.
Qed.

Lemma table_plain {A} (table : list (string * A)) : table.*1 ⊆ flag_names -> Forall plain table.*1.
Proof. intros Hs. apply Forall_forall. intros f Hf%Hs. by apply flag_names_shape in Hf as [Hp _]. Qed.

Lemma string_names : kStringFlags.*1 ⊆ flag_names.
Proof. intros f Hf. unfold flag_names. rewrite !elem_of_app. tauto. Qed.
Lemma bool_names : kBoolFlags.*1 ⊆ flag_names.
Proof. intros f Hf. unfold flag_names. rewrite !elem_of_app. tauto. Qed.
Lemma count_names : kCountFlags.*1 ⊆ flag_names.
Proof. intros f Hf. unfold flag_names. rewrite !elem_of_app. tauto. Qed.

Lemma named_entry {A} (table : list (string * A)) flag :
  flag ∈ table.*1 ->
  exists set, find_first (fun entry => entry.1 =? flag)%string table = Some (flag, set) /\
              named flag table = Some set.
Proof.
  intros Hin. unfold named. destruct (find_first _ table) as [[g a]|] eqn:E.
  - apply find_first_In in E as [_ Hg]. boolp. simpl in Hg. subst. by exists a.
  - apply find_first_None in E. apply list_elem_of_fmap in Hin as ([g a] & -> & Hin).
    eapply Forall_forall in E; [|done]. boolp. done.
Qed.

(** The three tables have no flag in common. *)
Lemma tables_disjoint flag :
  (flag ∈ kBoolFlags.*1 \/ flag ∈ kCountFlags.*1 ->
   find_first (fun entry => entry.1 =? flag)%string kStringFlags = None) /\
  (flag ∈ kCountFlags.*1 -> find_first (fun entry => entry.1 =? flag)%string kBoolFlags = None).
Proof.
  assert (forall {A} (table : list (string * A)) (names : list string),
             forallb (fun n => negb (contains n table.*1)) names = true -> flag ∈ names ->
             find_first (fun entry => entry.1 =? flag)%string table = None) as Hd.
  { intros A table names H Hin. apply find_first_None, Forall_forall. intros [g a] Ht.
    rewrite forallb_forall in H. apply String.eqb_neq. intros E. simpl in E. subst g.
    assert (Hn := H flag (proj1 (list_elem_of_In _ _) Hin)). apply negb_true_iff in Hn.
    enough (contains flag table.*1 = true) by congruence.
    apply contains_true. by eapply list_elem_of_fmap_2'. }
  split; [intros [H|H]|intros H]; (eapply Hd; [|exact H]); by vm_compute.
Qed.

(** ** The parser accepts exactly the grammar *)

Section Grammar.
  Context (WideCharToMultiByte : wstring -> option string).
  Local Abbreviation utf8 := (ToUtf8 WideCharToMultiByte).
  Local Abbreviation parse := (parse_arguments WideCharToMultiByte).
  Local Abbreviation entry f table := (find_first (fun entry => entry.1 =? f)%string table).

Lemma parse_positional argv o : parse true argv o = Ok (add_positional (utf8 <$> argv) o).
Proof.
  revert o. induction argv as [|a argv IH]; intros o; simpl.
  - by destruct o; unfold add_positional; simpl; rewrite app_nil_r.
  - rewrite IH. destruct o; unfold add_positional; simpl. by rewrite <- app_assoc.
Qed.

Lemma spells_value flag value : spells flag (with_value flag value).
Proof. right. by exists value. Qed.

Lemma spells_flag flag : spells flag flag.
Proof. by left. Qed.

(** How a value is read when it is not attached. *)
Definition value_argument (flag token : string) (argv : list wstring)
    (k : string -> list wstring -> result Options) : result Options :=
  match attached_value token with
  | Some value => k value argv
  | None => match argv with [] => missing_value flag | next :: rest => k (utf8 next) rest end
  end.

(** One turn of the loop on a token that spells a flag of the tables. *)
Lemma parse_flag f a argv o :
  f ∈ flag_names -> spells f (utf8 a) ->
  parse false (a :: argv) o =
  match entry f kStringFlags with
  | Some (flag, set) => value_argument flag (utf8 a) argv (fun v rest => parse false rest (set v o))
  | None =>
      match entry f kBoolFlags with
      | Some (_, set) => parse false argv (set o)
      | None =>
          match entry f kCountFlags with
          | Some (flag, set) =>
              value_argument flag (utf8 a) argv (fun v rest =>
                match ParseCount v with
                | Some n => parse false rest (set n o)
                | None => Err ("invalid value for " +:+ flag +:+ ": " +:+ v)
                end)
          | None => Err ("unknown option: " +:+ utf8 a)
          end
      end
  end.
Proof.
  intros Hin Hs. destruct (spells_token f (utf8 a) Hin Hs) as (H1 & H2 & H3).
  destruct (flag_names_shape f Hin) as (Hp & _).
  cbn [parse_arguments]. rewrite H1, H2, H3. cbn [negb].
  rewrite !(FindFlag_spells _ f) by
    (done || (apply table_plain; first [apply string_names|apply bool_names|apply count_names])).
  unfold value_argument. repeat case_match; done.
Qed.

Lemma value_argument_render f v att argv rest a :
  f ∈ flag_names -> utf8 <$> a :: argv = render_value f v att ++ rest ->
  spells f (utf8 a) /\ exists argv', utf8 <$> argv' = rest /\
    forall k, value_argument f (utf8 a) argv k = k v argv'.
Proof.
  intros (Hp & _)%flag_names_shape E. unfold value_argument. destruct att; simplify_eq/=.
  - rewrite H, attached_with_value by done. split; [apply spells_value|eauto].
  - destruct argv as [|b argv]; simplify_eq/=. rewrite attached_plain by done.
    split; [apply spells_flag|eauto].
Qed.

(** The arguments of one item are consumed as that item. *)
Lemma parse_item i argv rest o :
  valid_item i -> utf8 <$> argv = render i ++ rest ->
  exists argv', utf8 <$> argv' = rest /\ parse false argv o = parse false argv' (apply_item o i).
Proof.
  intros Hv E. destruct argv as [|a argv]; [by destruct i as [| ? ? []| ? []| | ? ? []]|].
  destruct i as [w|f v att|f ign| |f v att]; simpl in Hv.
  - simplify_eq/=. exists argv. split; [done|]. rewrite Hv.
    assert (Hd : (utf8 a =? "--")%string = false) by (apply String.eqb_neq; intros Hd; by rewrite Hd in Hv).
    by rewrite Hd.
  - assert (Hin := string_names _ Hv). destruct (named_entry kStringFlags f Hv) as (set & Hf & Hn).
    destruct (value_argument_render f v att argv rest a Hin E)
      as (Hs & argv' & Hr & Hk).
    exists argv'. rewrite (parse_flag f) by done. cbn [apply_item]. by rewrite Hf, Hn.
  - assert (Hin := bool_names _ Hv). destruct (named_entry kBoolFlags f Hv) as (set & Hf & Hn).
    destruct (tables_disjoint f) as [Hd _]. exists argv.
    assert (spells f (utf8 a) /\ utf8 <$> argv = rest) as [Hs Hr].
    { destruct ign; simpl in E; injection E as -> ?; split; first [apply spells_value|apply spells_flag|done]. }
    split; [done|]. rewrite (parse_flag f) by done. cbn [apply_item]. by rewrite Hd, Hf, Hn by auto.
  - simplify_eq/=. exists argv. split; [done|]. by rewrite H.
  - destruct Hv as [Hv [n Hc]]. assert (Hin := count_names _ Hv).
    destruct (named_entry kCountFlags f Hv) as (set & Hf & Hn).
    destruct (tables_disjoint f) as [Hd1 Hd2].
    destruct (value_argument_render f v att argv rest a Hin E) as (Hs & argv' & Hr & Hk).
    exists argv'. rewrite (parse_flag f) by done. rewrite Hd1, Hd2, Hf by auto.
    split; [done|]. rewrite Hk. cbn [apply_item]. by rewrite Hn, Hc.
Qed.

Lemma parse_render items words argv o :
  Forall valid_item items -> utf8 <$> argv = render_line items words ->
  parse false argv o = Ok (apply_line items words o).
Proof.
  intros Hv. revert argv o. induction Hv as [|i items Hi Hv IH]; intros argv o E.
  - destruct words as [words|]; [|by apply fmap_nil_inv in E as ->].
    destruct argv as [|a argv]; [done|]. injection E as Ha <-. simpl. rewrite Ha. simpl.
    by rewrite parse_positional.
  - unfold render_line in E. simpl in E. rewrite <- app_assoc in E.
    destruct (parse_item i argv _ o Hi E) as (argv' & E' & ->). by apply IH.
Qed.

Lemma render_line_cons i items words : render_line (i :: items) words = render i ++ render_line items words.
Proof. unfold render_line. simpl. by rewrite app_assoc. Qed.

Lemma value_argument_accepted f a argv k (o : Options) :
  f ∈ flag_names -> spells f (utf8 a) -> value_argument f (utf8 a) argv k = Ok o ->
  exists v att argv', utf8 <$> a :: argv = render_value f v att ++ (utf8 <$> argv') /\
    k v argv' = Ok o /\ (length argv' <= length argv)%nat.
Proof.
  intros (Hp & _)%flag_names_shape Hs. unfold value_argument. simpl. destruct Hs as [->|[v ->]].
  - rewrite attached_plain by done. destruct argv as [|b argv]; [done|]. intros H.
    exists (utf8 b), false, argv. split_and!; [done..|simpl; lia].
  - rewrite attached_with_value by done. intros H. by exists v, true, argv.
Qed.

(** What is accepted is the rendering of some items. *)
Lemma parse_accepted n argv o o' :
  (length argv <= n)%nat -> parse false argv o = Ok o' ->
  exists items words, Forall valid_item items /\ utf8 <$> argv = render_line items words.
Proof.
  revert argv o. induction n as [|n IH]; intros [|a argv] o Hlen H; simpl in Hlen; [|lia| |];
    [by exists [], None..|].
  assert (Hone : forall i argv', valid_item i -> utf8 <$> a :: argv = render i ++ (utf8 <$> argv') ->
            (length argv' <= length argv)%nat -> (exists o1, parse false argv' o1 = Ok o') ->
            exists items words, Forall valid_item items /\ utf8 <$> a :: argv = render_line items words).
  { intros i argv' Hi E Hl [o1 H1]. destruct (IH argv' o1) as (items & words & Hv & E'); [lia|done|].
    exists (i :: items), words. rewrite render_line_cons, E, E'. auto. }
  cbn [parse_arguments] in H. case_if_in H.
  { boolp. exists [], (Some (utf8 <$> argv)). split; [done|rewrite fmap_cons; unfold render_line; cbn; congruence]. }
  case_if_in H; [boolp; apply (Hone (IWord (utf8 a)) argv); [done..|eauto]|].
  destruct (FindFlag kStringFlags _) as [[f set]|] eqn:E1.
  { apply FindFlag_spelled in E1 as [Hf Hs].
    destruct (value_argument_accepted f a argv (fun v rest => parse false rest (set v o)) o')
      as (v & att & argv' & E & Hk & Hl); [by apply string_names|done|done|].
    apply (Hone (IString f v att) argv'); [done..|eauto]. }
  destruct (FindFlag kBoolFlags _) as [[f set]|] eqn:E2.
  { apply FindFlag_spelled in E2 as [Hf [Hs|[v Hs]]].
    - apply (Hone (IBool f None) argv); [done|by rewrite fmap_cons, Hs|done|eauto].
    - apply (Hone (IBool f (Some v)) argv); [done|by rewrite fmap_cons, Hs|done|eauto]. }
  case_if_in H; [boolp; apply (Hone IWorker argv); [done|rewrite fmap_cons; cbn [render app]; congruence|done|eauto]|].
  destruct (FindFlag kCountFlags _) as [[f set]|] eqn:E3; [|done].
  apply FindFlag_spelled in E3 as [Hf Hs].
  destruct (value_argument_accepted f a argv (fun v rest =>
    match ParseCount v with
    | Some n => parse false rest (set n o)
    | None => Err ("invalid value for " +:+ f +:+ ": " +:+ v)
    end) o') as (v & att & argv' & E & Hk & Hl); [by apply count_names|done|done|].
  destruct (ParseCount v) as [m|] eqn:Hm; [|done].
  apply (Hone (ICount f v att) argv'); [by split|done..|eauto].
Qed.

Lemma ParseOptions_iff argv o :
  ParseOptions WideCharToMultiByte argv = Ok o <->
  exists items words, Forall valid_item items /\ utf8 <$> argv = render_line items words /\
    check_options (apply_line items words (default_options <| op_tokens := argv |>)) = Ok o.
Proof.
  unfold ParseOptions. split.
  - destruct (parse false argv _) as [o'|] eqn:E; [|done]. intros H.
    destruct (parse_accepted (length argv) argv _ o' ltac:(lia) E) as (items & words & Hv & Hr).
    exists items, words. rewrite (parse_render items words) in E by done. by simplify_eq.
  - intros (items & words & Hv & E & H). by rewrite (parse_render items words).
Qed.
(** C35 Exactly the argument lists that the grammar renders are accepted, up to the final
    checks, and each option then has the value its item gives. *)
Theorem ParseOptions_grammar argv o :
  ParseOptions WideCharToMultiByte argv = Ok o <->
  exists items words, Forall valid_item items /\ utf8 <$> argv = render_line items words /\
    check_options (apply_line items words (default_options <| op_tokens := argv |>)) = Ok o.
Proof. apply ParseOptions_iff. Qed.
End Grammar.

(** ** Permissions and the trust plan *)

Lemma check_options_ok o o' :
  check_options o = Ok o' ->
  o' = o /\ valid_permission (op_permission o) = true /\
  (op_no_provision o = true -> op_force_provision o = false /\ op_permission o = "").
Proof.
  unfold check_options. repeat case_if; intros; simplify_eq.
  split_and!; [done|by apply negb_false_iff|]. intros Hn.
  rewrite Hn in *. simpl in *. boolp. split; [done|]. by apply is_empty_true.
Qed.

Lemma check_options_iff o :
  check_options o = Ok o <->
  op_no_provision o && op_force_provision o = false /\
  op_no_provision o && negb (is_empty (op_permission o)) = false /\
  op_no_hop o && op_force_hop o = false /\ valid_permission (op_permission o) = true.
Proof.
  unfold check_options.
  destruct (_ && op_force_provision o); [naive_solver|]. destruct (_ && negb _); [naive_solver|].
  destruct (_ && op_force_hop o); [naive_solver|]. destruct (valid_permission _); naive_solver.
Qed.

Lemma ParseOptions_checked WideCharToMultiByte argv o :
  ParseOptions WideCharToMultiByte argv = Ok o -> check_options o = Ok o.
Proof.
  unfold ParseOptions. destruct (parse_arguments _ _ _ _) as [o'|]; [|done].
  intros H. assert (H' := H). apply check_options_ok in H as (-> & _). done.
Qed.

Lemma valid_permission_parses value :
  valid_permission value = true -> value <> "" -> exists p, ParsePermission value = Some p /\ 0 <= p <= u32_max.
Proof.
  unfold valid_permission, ParsePermission. intros H Hne.
  destruct (is_empty value) eqn:He; [by apply is_empty_true in He|]. simpl in H.
  destruct (EqualsIgnoreCase value "full"); [by eexists|].
  destruct (EqualsIgnoreCase value "restricted"); [by eexists|].
  destruct (EqualsIgnoreCase value "abcd"); [by eexists|]. simpl in H |- *.
  destruct (ParseUnsigned value) as [n|] eqn:En; [|done]. simpl. rewrite H. exists n.
  apply ParseUnsigned_range in En. boolp. split; [done|lia].
Qed.

(** C36 The plan stamps a token only for a worker command without the requested
    attribute, cleans it only when provisioning is off on a test-signed unprotected
    process, never both, and asks for a child process exactly when a worker command has
    such work (or a forced hop) and is not a worker already; the worker that the child
    becomes gets the same plan without a further child. *)
Theorem EvaluateTrustPlan_decides o ctx :
  let plan := EvaluateTrustPlan o ctx in
  (tp_stamp_needed plan = true <->
     tp_effective_no_provision plan = false /\ CommandNeedsWorker o = true /\
     ~ (pc_attribute_present ctx = true /\ pc_attribute_permission ctx = tp_target_permission plan)) /\
  (tp_clean_needed plan = true <->
     tp_effective_no_provision plan = true /\ pc_attribute_present ctx = true /\
     pc_test_signing ctx = true /\ pc_is_ppl ctx = false) /\
  ~ (tp_stamp_needed plan = true /\ tp_clean_needed plan = true) /\
  (tp_child_required plan = true <->
     op_worker o = false /\ op_no_hop o = false /\ CommandNeedsWorker o = true /\
     (op_force_hop o = true \/ tp_stamp_needed plan = true \/ tp_clean_needed plan = true)) /\
  EvaluateTrustPlan (o <| op_worker := true |>) ctx = plan <| tp_child_required := false |>.
Proof.
  unfold EvaluateTrustPlan.
  assert (Hs : tp_stamp_needed (provisioning_plan o ctx) = false /\
               tp_clean_needed (provisioning_plan o ctx) = false).
  { unfold provisioning_plan. by repeat case_if. }
  assert (Hw : forall plan, attribute_plan (o <| op_worker := true |>) ctx plan = attribute_plan o ctx plan)
    by done.
  change (provisioning_plan (o <| op_worker := true |>) ctx) with (provisioning_plan o ctx).
  rewrite Hw. destruct (provisioning_plan o ctx) as [enp auto stamp clean child target reason].
  simpl in Hs. destruct Hs as [-> ->]. unfold attribute_plan, worker_plan.
  change (CommandNeedsWorker (o <| op_worker := true |>)) with (CommandNeedsWorker o).
  cbn [tp_effective_no_provision].
  match goal with |- context [if enp then ?a else ?b] => set (plan := if enp then a else b) end.
  assert (Hp : (tp_stamp_needed plan = true <-> enp = false /\ CommandNeedsWorker o = true /\
                  ~ (pc_attribute_present ctx = true /\ pc_attribute_permission ctx = target)) /\
               (tp_clean_needed plan = true <-> enp = true /\ pc_attribute_present ctx = true /\
                  pc_test_signing ctx = true /\ pc_is_ppl ctx = false) /\
               tp_effective_no_provision plan = enp /\ tp_target_permission plan = target).
  { subst plan. unfold constant. destruct enp; simpl.
    - rewrite !andb_true_iff, negb_true_iff. intuition congruence.
    - destruct (CommandNeedsWorker o); simpl; [|intuition congruence].
      rewrite negb_true_iff, andb_false_iff, Z.eqb_neq.
      destruct (pc_attribute_present ctx); intuition congruence. }
  destruct plan as [enp' auto' stamp' clean' child' target' reason']. simpl in *.
  destruct Hp as (Hst & Hcl & -> & ->). split_and!; [done|done|intuition congruence| |done].
  destruct (op_worker o), (op_no_hop o), (CommandNeedsWorker o), (op_force_hop o), stamp', clean';
    simpl; intuition congruence.
Qed.

(** A permission on an accepted command line is parsable and is the one the plan
    asks for: it is never dropped in favour of the default, and automatic detection does
    not override it. *)
Lemma accepted_permission_planned WideCharToMultiByte argv o ctx
    (Hparse : ParseOptions WideCharToMultiByte argv = Ok o) (Hgiven : op_permission o <> "") :
  exists p, ParsePermission (op_permission o) = Some p /\ 0 <= p <= u32_max /\
    tp_effective_no_provision (EvaluateTrustPlan o ctx) = false /\
    tp_target_permission (EvaluateTrustPlan o ctx) = p.
Proof.
  unfold ParseOptions in Hparse. destruct (parse_arguments _ _ _ _) as [o'|]; [|done].
  apply check_options_ok in Hparse as (-> & Hv & Hn).
  destruct (valid_permission_parses _ Hv Hgiven) as (p & Hp & Hr). exists p. split_and!; [done|lia|lia|..];
    unfold EvaluateTrustPlan, provisioning_plan;
    (destruct (op_no_provision o') eqn:E; [by destruct Hn|]);
    (destruct (is_empty (op_permission o')) eqn:He; [by apply is_empty_true in He|]);
    rewrite orb_true_r; unfold attribute_plan, ResolvePermission; simpl; rewrite Hp; by case_if.
Qed.

(** An ASCII conversion, for the examples. *)
Definition ascii_bytes (value : wstring) : option string := Some (of_chars (char_of_code <$> value)).

Lemma accepted_permission_planned_witness :
  exists o p, ParsePermission (op_permission o) = Some p /\ 0 <= p <= u32_max /\
    tp_effective_no_provision (EvaluateTrustPlan o (mkContext true true false true false 0 true "")) = false /\
    tp_target_permission (EvaluateTrustPlan o (mkContext true true false true false 0 true "")) = p.
Proof.
  eexists _.
  apply (accepted_permission_planned ascii_bytes (wide <$> ["rules"; "--permission=0x10"; "--max"; "5"]) _
           (mkContext true true false true false 0 true "")).
  - vm_compute. reflexivity.
  - discriminate.
Defined.

(** ** The usage text *)

(** The flags of the tables that no line of [Usage] mentions. *)
Definition mentions (flag line : string) : bool :=
  bool_decide (String.index 0 flag line <> None).

Definition undocumented_flags : list string :=
  List.filter (fun flag => negb (existsb (mentions flag) usage_lines)) flag_names.

Lemma undocumented_flags_are : undocumented_flags = ["--clear-attribute"; "--bypass-eventtype"; "--fresh"].
Proof. by vm_compute. Qed.

(** A flag that takes no value is set by any attached text. *)
Lemma attached_false_sets :
  (op_iocp <$> match ParseOptions ascii_bytes (wide <$> ["rules"; "--iocp=false"]) with
               | Ok o => Some o | Err _ => None end) = Some true.
Proof. by vm_compute. Qed.
