(* ===== verification/Launch.v ===== *)
(** The worker child (src/esptool/src/process/SameImage.cpp): argument quoting, the
    command line of the child, its creation and the wait for it, and the parent's hop.
    The process calls of Windows are the record [ProcessOs]; how a started program
    reads its command line is the class [ArgvRules]. *)
From S2P Require Import Prelude Text Core Handles Api Token Options.
From coqutil Require Import Datatypes.RecordSetters.
Import TriangleBracketNotations.
Open Scope record_set.

Definition kWorkerFlag : wstring := wide "--worker".
Definition kTerminateDrainMs : Z := 5000.
Definition kMaxPath : nat := 260.
Definition INFINITE : Z := 0xFFFFFFFF.
Definition WAIT_OBJECT_0 : Z := 0.
Definition WAIT_TIMEOUT : Z := 258.
Definition CREATE_NO_WINDOW : Z := 0x08000000.
Definition EXTENDED_STARTUPINFO_PRESENT : Z := 0x00080000.
Definition HANDLE_FLAG_INHERIT : Z := 1.

(** ** Quoting *)

(** The units of [L" "], a tab, a newline, a vertical tab, a quote and a backslash. *)
Definition wSpace : Z := 32.
Definition wTab : Z := 9.
Definition wNewline : Z := 10.
Definition wVerticalTab : Z := 11.
Definition wQuote : Z := 34.
Definition wBackslash : Z := 92.

Definition IsExactWorkerFlag (token : wstring) : bool := bool_decide (token = kWorkerFlag).

Definition needs_quotes (argument : wstring) : bool :=
  match argument with
  | [] => true
  | _ => existsb (fun c => contains c [wSpace; wTab; wNewline; wVerticalTab; wQuote]) argument
  end.

(** The loop of [QuoteArgument] and its closing quote; [backslashes] are held back. *)
Fixpoint quote_loop (backslashes : nat) (argument : wstring) : wstring :=
  match argument with
  | [] => replicate (backslashes * 2) wBackslash ++ [wQuote]
  | ch :: rest =>
      if ch =? wBackslash then quote_loop (S backslashes) rest
      else if ch =? wQuote then replicate (backslashes * 2 + 1) wBackslash ++ wQuote :: quote_loop 0 rest
      else replicate backslashes wBackslash ++ ch :: quote_loop 0 rest
  end.

Definition QuoteArgument (argument : wstring) : wstring :=
  if needs_quotes argument then wQuote :: quote_loop 0 argument else argument.

Definition BuildCommandLine (image : wstring) (arguments : list wstring) : wstring :=
  QuoteArgument image ++ (arguments ≫= fun argument => wSpace :: QuoteArgument argument).

Definition WorkerArguments (tokens : list wstring) : list wstring :=
  kWorkerFlag :: List.filter (fun token => negb (IsExactWorkerFlag token)) tokens.

(** ** The system *)

Record LaunchOptions := mkLaunchOptions {
  la_inherit_stdio : bool;
  la_hidden : bool;
  la_wait_ms : Z;
  la_terminate_on_timeout : bool;
  la_timeout_exit_code : Z
}.

(** [LaunchOptions{}]. *)
Definition default_launch : LaunchOptions :=
  mkLaunchOptions false false INFINITE false (u32 kStatusCancelled).

Record LaunchOutcome := mkOutcome {
  lo_created : bool;
  lo_timed_out : bool;
  lo_exit_code : Z;
  lo_error : string
}.

(** [LaunchOutcome{}]. *)
Definition new_outcome : LaunchOutcome := mkOutcome false false 1 "".

(** What a process is created with; the handles are the list it may inherit, and the
    standard handles when there is such a list. *)
Record Creation := mkCreation {
  cr_image : wstring;
  cr_command_line : wstring;
  cr_inherit : list handle;
  cr_std : option (handle * handle * handle);
  cr_flags : Z
}.

(** A call that can fail gives the value, or the last error. *)
Record ProcessOs (W : Type) := mkProcessOs {
  (** buffer units -> what is written there and the returned length *)
  po_GetModuleFileNameW : nat -> wstring * nat;
  (** input, output, error *)
  po_GetStdHandle : W -> handle * handle * handle;
  po_GetHandleInformation : handle -> W -> (Z + Z) * W;
  po_SetHandleInformation : handle -> W -> (unit + Z) * W;
  (** the size probe: bytes and last error *)
  po_AttributeListSize : W -> Z * Z;
  po_InitializeAttributeList : W -> (unit + Z) * W;
  po_UpdateAttributeList : list handle -> W -> (unit + Z) * W;
  po_CreateProcessW : Creation -> W -> (handle + Z) * W;
  (** the returned value and the last error *)
  po_WaitForSingleObject : handle -> Z -> W -> (Z * Z) * W;
  po_TerminateProcess : handle -> Z -> W -> W;
  po_GetExitCodeProcess : handle -> W -> (Z + Z) * W
}.
Arguments po_GetModuleFileNameW {W} p. Arguments po_GetStdHandle {W} p.
Arguments po_GetHandleInformation {W} p. Arguments po_SetHandleInformation {W} p.
Arguments po_AttributeListSize {W} p. Arguments po_InitializeAttributeList {W} p.
Arguments po_UpdateAttributeList {W} p. Arguments po_CreateProcessW {W} p.
Arguments po_WaitForSingleObject {W} p. Arguments po_TerminateProcess {W} p.
Arguments po_GetExitCodeProcess {W} p.

(** The system, and the processes created so far. *)
Record LaunchState (W : Type) := mkLaunchState { ls_os : W; ls_created : list (Creation * handle) }.
Arguments mkLaunchState {W}. Arguments ls_os {W} l. Arguments ls_created {W} l.

Section Launch.
  Context {W : Type} (os : ProcessOs W).
  Local Abbreviation M := (ST (LaunchState W)).

Definition os_call {A} (f : W -> A * W) : M A :=
  fun s => let '(a, w) := f (ls_os s) in (a, mkLaunchState w (ls_created s)).

(** The doubling loop; [fuel] bounds its turns. *)
Fixpoint image_path (fuel size : nat) : wstring :=
  match fuel with
  | O => []
  | S fuel =>
      let '(buffer, length) := po_GetModuleFileNameW os size in
      if (length =? 0)%nat then []
      else if (length <? size)%nat then take length buffer
      else image_path fuel (size * 2)
  end.

(** Eight turns reach 33280 units, above the longest path Windows has. *)
Definition kPathTurns : nat := 8.

Definition CurrentImagePath : wstring := image_path kPathTurns kMaxPath.

Definition UsableStdHandle (h : handle) : bool := negb (h =? 0) && negb (h =? INVALID_HANDLE_VALUE).

Definition MarkInheritable (h : handle) : M (result unit) :=
  information ← os_call (po_GetHandleInformation os h);
  match information with
  | inr e => mret (Err (Win32Message "GetHandleInformation failed" e))
  | inl flags =>
      if negb (Z.land flags HANDLE_FLAG_INHERIT =? 0) then mret (Ok tt)
      else
        set ← os_call (po_SetHandleInformation os h);
        match set with
        | inr e => mret (Err (Win32Message "SetHandleInformation(HANDLE_FLAG_INHERIT) failed" e))
        | inl _ => mret (Ok tt)
        end
  end.

Definition MakeHandleList (handles : list handle) : M (result unit) :=
  probe ← os_call (fun w => (po_AttributeListSize os w, w));
  if probe.1 =? 0 then
    mret (Err (Win32Message "InitializeProcThreadAttributeList size probe failed" probe.2))
  else
    initialized ← os_call (po_InitializeAttributeList os);
    match initialized with
    | inr e => mret (Err (Win32Message "InitializeProcThreadAttributeList failed" e))
    | inl _ =>
        updated ← os_call (po_UpdateAttributeList os handles);
        match updated with
        | inr e => mret (Err (Win32Message "UpdateProcThreadAttribute(HANDLE_LIST) failed" e))
        | inl _ => mret (Ok tt)
        end
    end.

(** The loop over the candidates: the usable ones, each made inheritable. *)
Fixpoint mark_candidates (candidates : list handle) : M (result (list handle)) :=
  match candidates with
  | [] => mret (Ok [])
  | h :: rest =>
      if negb (UsableStdHandle h) then mark_candidates rest
      else
        marked ← MarkInheritable h;
        match marked with
        | Err e => mret (Err e)
        | Ok _ =>
            others ← mark_candidates rest;
            mret (match others with Ok l => Ok (h :: l) | Err e => Err e end)
        end
  end.

Definition inherit_handles (std : handle * handle * handle) : M (result (list handle)) :=
  let '(input, output, error) := std in
  inherit ← mark_candidates [input; output; error];
  match inherit with
  | Err e => mret (Err e)
  | Ok [] => mret (Ok [])
  | Ok handles =>
      listed ← MakeHandleList handles;
      mret (match listed with Ok _ => Ok handles | Err e => Err e end)
  end.

Definition note_created (c : Creation) (process : handle) : M unit :=
  fun s => (tt, mkLaunchState (ls_os s) (ls_created s ++ [(c, process)])).

Definition create_process (c : Creation) : M (handle + Z) :=
  created ← os_call (po_CreateProcessW os c);
  match created with
  | inl process => note_created c process;; mret (inl process)
  | inr e => mret (inr e)
  end.

(** What follows a created process. *)
Definition await_process (process : handle) (options : LaunchOptions) : M LaunchOutcome :=
  waited ← os_call (po_WaitForSingleObject os process (la_wait_ms options));
  if waited.1 =? WAIT_TIMEOUT then
    if la_terminate_on_timeout options then
      os_call (fun w => (tt, po_TerminateProcess os process (la_timeout_exit_code options) w));;
      _ ← os_call (po_WaitForSingleObject os process kTerminateDrainMs);
      mret (mkOutcome true true (la_timeout_exit_code options) "")
    else mret (mkOutcome false true 1 "the worker process did not finish in time")
  else if negb (waited.1 =? WAIT_OBJECT_0) then
    mret (mkOutcome false false 1 (Win32Message "WaitForSingleObject failed" waited.2))
  else
    code ← os_call (po_GetExitCodeProcess os process);
    match code with
    | inr e => mret (mkOutcome false false 1 (Win32Message "GetExitCodeProcess failed" e))
    | inl exit_code => mret (mkOutcome true false exit_code "")
    end.

Definition RunSameImage (arguments : list wstring) (options : LaunchOptions) : M LaunchOutcome :=
  let image := CurrentImagePath in
  match image with
  | [] => mret (mkOutcome false false 1 "could not resolve the current executable path")
  | _ =>
      let command_line := BuildCommandLine image arguments in
      std ← os_call (fun w => (po_GetStdHandle os w, w));
      inherit ← (if la_inherit_stdio options then inherit_handles std else mret (Ok []));
      match inherit with
      | Err e => mret (mkOutcome false false 1 e)
      | Ok handles =>
          let hidden := if la_hidden options then CREATE_NO_WINDOW else 0 in
          let creation :=
            match handles with
            | [] => mkCreation image command_line [] None hidden
            | _ => mkCreation image command_line handles (Some std) (Z.lor hidden EXTENDED_STARTUPINFO_PRESENT)
            end in
          created ← create_process creation;
          match created with
          | inr e => mret (mkOutcome false false 1 (Win32Message "CreateProcessW failed" e))
          | inl process => await_process process options
          end
      end
  end.

(** ** The parent's hop *)

(** Appends the flag of a set option that the arguments do not spell. *)
Definition ensure_flag (wanted : bool) (flag : string) (arguments : list wstring) : list wstring :=
  if wanted && negb (contains (wide flag) arguments) then arguments ++ [wide flag] else arguments.

Definition worker_command (o : Options) : list wstring :=
  ensure_flag (op_force_provision o) "--force-provision"
    (ensure_flag (op_no_auto_provision o) "--no-auto-provision"
       (ensure_flag (op_clear_attribute o) "--clear-attribute"
          (ensure_flag (op_no_provision o) "--no-provision" (WorkerArguments (op_tokens o))))).

Definition worker_launch (inherit : bool) : LaunchOptions :=
  default_launch <| la_inherit_stdio := inherit |> <| la_wait_ms := INFINITE |>.

Definition LaunchWorker (o : Options) : M LaunchOutcome :=
  if op_worker o then
    mret (mkOutcome false false 1 "internal error: worker process attempted a parent hop")
  else
    let arguments := worker_command o in
    outcome ← RunSameImage arguments (worker_launch true);
    if lo_created outcome then mret outcome
    else
      retry ← RunSameImage arguments (worker_launch false);
      if lo_created retry then mret (retry <| lo_error := "" |>)
      else if negb (is_empty (lo_error outcome)) && negb (is_empty (lo_error retry)) then
        mret (retry <| lo_error := lo_error outcome +:+ "; retry without stdio inherit: " +:+ lo_error retry |>)
      else mret retry.
End Launch.

(** ** How a program reads its command line *)

Definition blank (c : Z) : Prop := c = wSpace \/ c = wTab.

#[export] Instance blank_decision c : Decision (blank c).
Proof. unfold blank. apply _. Defined.

(** Nothing, or blank space before the next argument. *)
Definition at_break (s : wstring) : Prop := match s with [] => True | c :: _ => blank c end.

Definition backslashes (n : nat) : wstring := replicate n wBackslash.

(** The documented rules of the C runtime. [argument_from quoted acc s]: the rest of an
    argument whose units so far are [acc], inside or outside quotation marks, and the
    arguments after it. *)
Class ArgvRules (argv_of arguments_from : wstring -> list wstring)
    (argument_from : bool -> wstring -> wstring -> list wstring) : Prop := {
  (* The program's name ends at the closing quotation mark or at blank space. *)
  argv0_quoted p s : wQuote ∉ p -> at_break s ->
    argv_of (wQuote :: p ++ wQuote :: s) = p :: arguments_from s;
  argv0_plain p s : p <> [] -> Forall (fun c => ~ blank c /\ c <> wQuote) p -> at_break s ->
    argv_of (p ++ s) = p :: arguments_from s;
  (* Arguments are delimited by blank space. *)
  no_arguments : arguments_from [] = [];
  blank_skipped c s : blank c -> arguments_from (c :: s) = arguments_from s;
  argument_starts c s : ~ blank c -> arguments_from (c :: s) = argument_from false [] (c :: s);
  argument_last q acc : argument_from q acc [] = [acc];
  argument_ends acc c s : blank c -> argument_from false acc (c :: s) = acc :: arguments_from s;
  argument_unit q acc c s : c <> wQuote -> c <> wBackslash -> q = true \/ ~ blank c ->
    argument_from q acc (c :: s) = argument_from q (acc ++ [c]) s;
  (* Backslashes are literal unless they precede a quotation mark. *)
  backslashes_literal q acc n s : head s <> Some wQuote -> head s <> Some wBackslash ->
    argument_from q acc (backslashes n ++ s) = argument_from q (acc ++ backslashes n) s;
  (* After an odd number of them the quotation mark is literal, *)
  quote_literal q acc n s :
    argument_from q acc (backslashes (n * 2 + 1) ++ wQuote :: s) =
    argument_from q (acc ++ backslashes n ++ [wQuote]) s;
  (* after an even number it delimits. *)
  quote_opens acc n s :
    argument_from false acc (backslashes (n * 2) ++ wQuote :: s) = argument_from true (acc ++ backslashes n) s;
  quote_closes acc n s : head s <> Some wQuote ->
    argument_from true acc (backslashes (n * 2) ++ wQuote :: s) = argument_from false (acc ++ backslashes n) s
}.

Ltac fold_backslashes :=
  repeat match goal with
         | |- context [replicate ?n wBackslash] => change (replicate n wBackslash) with (backslashes n)
         end.

Lemma backslashes_S n l : backslashes (S n) ++ l = backslashes n ++ wBackslash :: l.
Proof. unfold backslashes. induction n as [|n IH]; [done|]. simpl in *. by rewrite IH. Qed.

Lemma not_blank_quote : ~ blank wQuote.
Proof. by intros []. Qed.

Lemma needs_quotes_false a :
  needs_quotes a = false -> a <> [] /\ Forall (fun c => ~ blank c /\ c <> wQuote) a.
Proof.
  destruct a as [|c0 a]; [done|]. intros H. split; [done|]. apply Forall_forall. intros c Hc.
  assert (Hn : contains c [wSpace; wTab; wNewline; wVerticalTab; wQuote] = false).
  { apply not_true_iff_false. intros Ht. apply not_true_iff_false in H. destruct H.
    apply existsb_exists. exists c. split; [by apply list_elem_of_In|done]. }
  apply bool_decide_eq_false in Hn. unfold blank. set_solver.
Qed.

Section Rules.
  Context {argv_of arguments_from argument_from} `{!ArgvRules argv_of arguments_from argument_from}.

Lemma break_head s : at_break s -> head s <> Some wQuote /\ head s <> Some wBackslash.
Proof. destruct s; [done|]. by intros [-> | ->]. Qed.

Lemma argument_done q acc s : at_break s -> q = false -> argument_from q acc s = acc :: arguments_from s.
Proof.
  intros Hs ->. destruct s as [|c s]; [by rewrite argument_last, no_arguments|].
  by rewrite argument_ends, blank_skipped.
Qed.

Lemma quote_loop_read n a acc s :
  at_break s -> argument_from true acc (quote_loop n a ++ s) = (acc ++ backslashes n ++ a) :: arguments_from s.
Proof.
  intros Hs. destruct (break_head s Hs) as [Hq Hb].
  revert n acc. induction a as [|c a IH]; intros n acc; cbn [quote_loop]; fold_backslashes.
  - rewrite <- app_assoc. simpl. rewrite quote_closes, app_nil_r by done. by apply argument_done.
  - destruct (Z.eqb_spec c wBackslash) as [->|Hcb]; [|destruct (Z.eqb_spec c wQuote) as [->|Hcq]].
    + by rewrite IH, backslashes_S.
    + rewrite <- app_assoc. simpl. rewrite quote_literal, IH. unfold backslashes. simpl.
      by rewrite <- !app_assoc.
    + rewrite <- app_assoc. simpl. rewrite backslashes_literal by (simpl; congruence).
      rewrite argument_unit, IH by auto. unfold backslashes. simpl. by rewrite <- !app_assoc.
Qed.

Lemma plain_read n a acc s :
  at_break s -> Forall (fun c => ~ blank c /\ c <> wQuote) a ->
  argument_from false acc (backslashes n ++ a ++ s) = (acc ++ backslashes n ++ a) :: arguments_from s.
Proof.
  intros Hs Ha. destruct (break_head s Hs) as [Hq Hb].
  revert n acc. induction Ha as [|c a [Hc1 Hc2] Ha IH]; intros n acc; simpl.
  - rewrite backslashes_literal, app_nil_r by done. by apply argument_done.
  - destruct (decide (c = wBackslash)) as [->|Hcb].
    + by rewrite <- backslashes_S, IH, backslashes_S.
    + rewrite backslashes_literal by (simpl; congruence). rewrite argument_unit by auto.
      rewrite (IH O). unfold backslashes. simpl. by rewrite <- !app_assoc.
Qed.

(** A quoted argument is read back, whatever its units. *)
Lemma QuoteArgument_read a s :
  at_break s -> arguments_from (wSpace :: QuoteArgument a ++ s) = a :: arguments_from s.
Proof.
  intros Hs. rewrite blank_skipped by (by left). unfold QuoteArgument. destruct (needs_quotes a) eqn:E.
  - simpl. rewrite argument_starts by apply not_blank_quote.
    etrans; [apply (quote_opens [] 0)|]. simpl. by rewrite quote_loop_read.
  - apply needs_quotes_false in E as [Hne Ha]. destruct a as [|c a]; [done|]. simpl.
    assert (Hc := Ha). apply Forall_cons in Hc as [[Hc _] _].
    rewrite argument_starts by done. by apply (plain_read 0 (c :: a) []).
Qed.

Lemma arguments_read arguments :
  arguments_from (arguments ≫= fun a => wSpace :: QuoteArgument a) = arguments.
Proof.
  induction arguments as [|a l IH]; [apply no_arguments|]. rewrite bind_cons. simpl.
  rewrite QuoteArgument_read, IH; [done|]. destruct l; simpl; [done|by left].
Qed.

(** A file name: no quotation mark, and a name after the last backslash. *)
Definition file_image (image : wstring) : Prop :=
  image <> [] /\ wQuote ∉ image /\ last image <> Some wBackslash.

Lemma quote_loop_image n image :
  wQuote ∉ image -> last (backslashes n ++ image) <> Some wBackslash -> n = 0%nat \/ image <> [] ->
  quote_loop n image = backslashes n ++ image ++ [wQuote].
Proof.
  revert n. induction image as [|c image IH]; intros n Hq Hl Hn; cbn [quote_loop]; fold_backslashes.
  - by destruct Hn as [->|].
  - apply not_elem_of_cons in Hq as [Hc Hq].
    destruct (Z.eqb_spec c wBackslash) as [->|Hcb]; [|destruct (Z.eqb_spec c wQuote); [congruence|]].
    + rewrite IH; [by rewrite backslashes_S|done|by rewrite backslashes_S|].
      right. intros ->. apply Hl. by rewrite last_snoc.
    + rewrite IH; [done|done| |by left]. simpl. rewrite last_app in Hl. simpl in Hl.
      rewrite last_cons in Hl. destruct (last image); congruence.
Qed.

Lemma BuildCommandLine_read image arguments (Himage : file_image image) :
  argv_of (BuildCommandLine image arguments) = image :: arguments.
Proof.
  destruct Himage as (Hne & Hq & Hl). unfold BuildCommandLine.
  assert (Hb : at_break (arguments ≫= fun a => wSpace :: QuoteArgument a))
    by (destruct arguments; simpl; [done|by left]).
  enough (argv_of (QuoteArgument image ++ (arguments ≫= fun a => wSpace :: QuoteArgument a)) =
          image :: arguments_from (arguments ≫= fun a => wSpace :: QuoteArgument a)) as ->
    by (by rewrite arguments_read).
  unfold QuoteArgument at 1. destruct (needs_quotes image) eqn:E.
  - rewrite quote_loop_image by (done || by left). simpl. rewrite <- app_assoc. by apply argv0_quoted.
  - apply needs_quotes_false in E as [_ Ha]. by apply argv0_plain.
Qed.
(** A program that follows the documented rules reads the built command line back as
    the image and the arguments, whatever units the arguments have. *)
Lemma BuildCommandLine_argv image arguments (Himage : file_image image) :
  argv_of (BuildCommandLine image arguments) = image :: arguments.
Proof. by apply BuildCommandLine_read. Qed.
End Rules.

(** ** A program that follows the rules *)

Section Crt.

(** [None] between arguments, otherwise inside quotation marks or not, the pending
    backslashes and the units so far. *)
Fixpoint crt_words (state : option (bool * nat * wstring)) (s : wstring) : list wstring :=
  match s with
  | [] => match state with None => [] | Some (_, n, acc) => [acc ++ backslashes n] end
  | c :: rest =>
      let '(quoted, n, acc) := from_option id (false, 0%nat, []) state in
      if bool_decide (blank c) && negb quoted then
        match state with
        | None => crt_words None rest
        | Some _ => (acc ++ backslashes n) :: crt_words None rest
        end
      else if c =? wBackslash then crt_words (Some (quoted, S n, acc)) rest
      else if c =? wQuote then
        let acc := acc ++ backslashes (n / 2) in
        if Nat.odd n then crt_words (Some (quoted, 0%nat, acc ++ [wQuote])) rest
        else
          match quoted, rest with
          | true, c2 :: rest2 =>
              if c2 =? wQuote then crt_words (Some (true, 0%nat, acc ++ [wQuote])) rest2
              else crt_words (Some (false, 0%nat, acc)) rest
          | _, _ => crt_words (Some (negb quoted, 0%nat, acc)) rest
          end
      else crt_words (Some (quoted, 0%nat, acc ++ backslashes n ++ [c])) rest
  end.

Fixpoint span (stop : Z -> bool) (s : wstring) : wstring * wstring :=
  match s with
  | [] => ([], [])
  | c :: rest => if stop c then ([], s) else let '(p, q) := span stop rest in (c :: p, q)
  end.

Definition crt_argv (s : wstring) : list wstring :=
  match s with
  | [] => []
  | c :: rest =>
      if c =? wQuote then let '(p, q) := span (Z.eqb wQuote) rest in p :: crt_words None (tail q)
      else let '(p, q) := span (fun c => bool_decide (blank c)) s in p :: crt_words None q
  end.

Lemma span_spec stop p s :
  Forall (fun c => stop c = false) p -> match s with [] => True | c :: _ => stop c = true end ->
  span stop (p ++ s) = (p, s).
Proof.
  intros Hp Hs. induction Hp as [|c p Hc Hp IH]; simpl; [by destruct s as [|c s]; simpl; [|rewrite Hs]|].
  by rewrite Hc, IH.
Qed.

Lemma crt_backslashes m n q acc s :
  crt_words (Some (q, n, acc)) (backslashes m ++ s) = crt_words (Some (q, n + m, acc)%nat) s.
Proof.
  revert n. induction m as [|m IH]; intros n; [by rewrite Nat.add_0_r|].
  change (backslashes (S m) ++ s) with (wBackslash :: backslashes m ++ s). simpl. rewrite IH.
  by rewrite Nat.add_succ_r.
Qed.

Lemma even_odd_half n :
  Nat.odd (n * 2) = false /\ (n * 2 / 2 = n)%nat /\ Nat.odd (n * 2 + 1) = true /\ ((n * 2 + 1) / 2 = n)%nat.
Proof.
  split_and!.
  - rewrite <- Nat.negb_even, Nat.even_mul. by rewrite orb_true_r.
  - by apply Nat.div_mul.
  - rewrite Nat.odd_add, <- Nat.negb_even, Nat.even_mul. by rewrite orb_true_r.
  - symmetry. by apply (Nat.div_unique _ _ _ 1); lia.
Qed.

#[export] Instance crt_rules :
  ArgvRules crt_argv (crt_words None) (fun q acc => crt_words (Some (q, 0%nat, acc))).
Proof.
  split.
  - intros p s Hp Hs. simpl. rewrite span_spec; [done| |done].
    apply Forall_forall. intros c Hc. apply Z.eqb_neq. set_solver.
  - intros p s Hne Hp Hs. destruct p as [|c p]; [done|]. unfold crt_argv. cbn [app].
    assert (Hc := Hp). apply Forall_cons in Hc as [[_ Hc] _]. apply Z.eqb_neq in Hc. rewrite Hc.
    change (c :: p ++ s) with ((c :: p) ++ s). rewrite span_spec; [done| |].
    + eapply Forall_impl; [done|]. intros u [Hu _]. by apply bool_decide_eq_false.
    + destruct s; [done|]. by apply bool_decide_eq_true.
  - done.
  - intros c s Hc. simpl. by rewrite bool_decide_eq_true_2.
  - intros c s Hc. simpl. by rewrite bool_decide_eq_false_2.
  - intros q acc. simpl. by rewrite app_nil_r.
  - intros acc c s Hc. simpl. by rewrite bool_decide_eq_true_2, app_nil_r.
  - intros q acc c s Hq Hb Hc. apply Z.eqb_neq in Hq, Hb. simpl. rewrite Hq, Hb.
    by destruct Hc as [->|Hc]; [rewrite andb_false_r|rewrite bool_decide_eq_false_2].
  - intros q acc n s Hq Hb. rewrite crt_backslashes. destruct s as [|c s]; simpl in *.
    + by rewrite app_nil_r.
    + assert (c <> wQuote /\ c <> wBackslash) as [Hcq%Z.eqb_neq Hcb%Z.eqb_neq] by (split; congruence).
      rewrite Hcq, Hcb.
      case_match; unfold backslashes; simpl; [by rewrite app_nil_r|by rewrite <- app_assoc].
  - intros q acc n s. rewrite crt_backslashes, Nat.add_0_l. cbn -[Nat.div Nat.odd Nat.mul Nat.add backslashes].
    destruct (even_odd_half n) as (_ & _ & -> & ->). by rewrite <- app_assoc.
  - intros acc n s. rewrite crt_backslashes, Nat.add_0_l. cbn -[Nat.div Nat.odd Nat.mul Nat.add backslashes].
    destruct (even_odd_half n) as (-> & -> & _). by destruct s.
  - intros acc n s Hs. rewrite crt_backslashes, Nat.add_0_l. cbn -[Nat.div Nat.odd Nat.mul Nat.add backslashes].
    destruct (even_odd_half n) as (-> & -> & _).
    destruct s as [|c s]; [done|]. simpl in Hs.
    rewrite andb_false_r. by destruct (Z.eqb_spec c wQuote); [congruence|].
Qed.
End Crt.

Definition example_image : wstring := wide "C:\Program Files\esptool\esptool.exe".
(** [a b], an empty argument, [C:\dir\ x\] and [say "hi"]. *)
Definition example_arguments : list wstring :=
  [wide "a b"; []; wide "C:\dir\ x\"; wide "say " ++ [wQuote] ++ wide "hi" ++ [wQuote]].

Lemma BuildCommandLine_argv_witness :
  crt_argv (BuildCommandLine example_image example_arguments) = example_image :: example_arguments.
Proof. apply (BuildCommandLine_argv example_image example_arguments). split_and!; apply (bool_decide_unpack _); by vm_compute. Defined.

(** ** The image path *)

(** Whatever path the system reports, the doubling buffer reaches it: the loop ends
    with the whole path, for every path Windows can have. *)
Lemma CurrentImagePath_whole {W} (os : ProcessOs W) path
    (Hpath : path <> []) (Hlength : (length path < 33280)%nat)
    (Hsystem : forall size, po_GetModuleFileNameW os size =
                 if (length path <? size)%nat then (path, length path) else (take size path, size)) :
  CurrentImagePath os = path.
Proof.
  assert (Hl : (length path =? 0)%nat = false) by (by destruct path).
  assert (Hloop : forall fuel size, (0 < size)%nat -> (length path < size * 2 ^ fuel)%nat ->
            image_path os (S fuel) size = path).
  { intros fuel. induction fuel as [|fuel IH]; intros size Hs Hf; cbn [image_path]; rewrite Hsystem.
    - assert ((length path <? size)%nat = true) as E by (apply Nat.ltb_lt; simpl in Hf; lia).
      by rewrite E, Hl, E, take_ge by lia.
    - destruct (length path <? size)%nat eqn:E; [by rewrite Hl, E, take_ge by lia|].
      rewrite (proj2 (Nat.eqb_neq size 0)), Nat.ltb_irrefl by lia.
      apply IH; [lia|]. rewrite Nat.pow_succ_r' in Hf. lia. }
  apply Hloop; [unfold kMaxPath; lia|]. unfold kMaxPath. change (260 * 2 ^ 7)%nat with 33280%nat. done.
Qed.

(** ** What is created *)

Section Created.
  Context {W : Type} (os : ProcessOs W).

(** [m] creates no process. *)
Definition quiet {A} (m : ST (LaunchState W) A) : Prop :=
  forall s, ls_created (m s).2 = ls_created s.

Lemma quiet_ret {A} (a : A) : quiet (mret a).
Proof. done. Qed.

Lemma quiet_os_call {A} (f : W -> A * W) : quiet (os_call f).
Proof. intros s. unfold os_call. by destruct (f (ls_os s)). Qed.

Lemma quiet_bind {A B} (m : ST (LaunchState W) A) (k : A -> ST (LaunchState W) B) :
  quiet m -> (forall a, quiet (k a)) -> quiet (m ≫= k).
Proof. intros Hm Hk s. by rewrite st_bind_unfold, Hk, Hm. Qed.

Ltac quiet_step :=
  first [ apply quiet_ret | apply quiet_os_call | done
        | apply quiet_bind; [|intros ?]
        | match goal with |- quiet (match ?x with _ => _ end) => destruct x end ].

Lemma mark_candidates_quiet candidates : quiet (mark_candidates os candidates).
Proof. induction candidates; simpl; unfold MarkInheritable; repeat quiet_step. Qed.

Lemma inherit_handles_quiet std : quiet (inherit_handles os std).
Proof.
  unfold inherit_handles, MakeHandleList. repeat quiet_step. apply mark_candidates_quiet.
Qed.

Lemma await_process_quiet process options : quiet (await_process os process options).
Proof. unfold await_process. repeat quiet_step. Qed.

(** One run of the image creates at most one process, with the command line of its
    arguments; it reports a created process only when there is one. *)
Lemma RunSameImage_created arguments options s out s' :
  RunSameImage os arguments options s = (out, s') ->
  exists made, ls_created s' = ls_created s ++ made /\ (length made <= 1)%nat /\
    Forall (fun c => cr_image c.1 = CurrentImagePath os /\
              cr_command_line c.1 = BuildCommandLine (CurrentImagePath os) arguments /\
              (la_inherit_stdio options = false -> cr_inherit c.1 = [])) made /\
    (lo_created out = true -> length made = 1%nat).
Proof.
  unfold RunSameImage. destruct (CurrentImagePath os) as [|u image] eqn:Ei.
  { intros [= <- <-]. exists []. rewrite app_nil_r. split_and!; simpl; [done|lia|done..]. }
  rewrite st_bind_unfold. set (s1 := (os_call _ s).2). set (std := (os_call _ s).1).
  assert (H1 : ls_created s1 = ls_created s) by apply quiet_os_call.
  rewrite st_bind_unfold. set (inherit := if la_inherit_stdio options then _ else _).
  assert (Hq : quiet inherit) by (subst inherit; case_if; [apply inherit_handles_quiet|apply quiet_ret]).
  specialize (Hq s1). destruct (inherit s1).1 as [handles|e] eqn:Eh.
  2:{ intros [= <- <-]. exists []. rewrite app_nil_r, Hq, H1. split_and!; simpl; [done|lia|done..]. }
  set (creation := match handles with [] => _ | _ :: _ => _ end).
  assert (Hc : cr_image creation = u :: image /\
               cr_command_line creation = BuildCommandLine (u :: image) arguments /\
               (la_inherit_stdio options = false -> cr_inherit creation = [])).
  { subst creation inherit. destruct (la_inherit_stdio options); [by destruct handles|].
    injection Eh as <-. done. }
  unfold create_process. rewrite !st_bind_unfold.
  assert (Ho := quiet_os_call (po_CreateProcessW os creation) (inherit s1).2).
  destruct (os_call (po_CreateProcessW os creation) (inherit s1).2) as [[process|e] s2]; simpl in Ho |- *.
  - intros E. exists [(creation, process)].
    assert (Ha := await_process_quiet process options (mkLaunchState (ls_os s2) (ls_created s2 ++ [(creation, process)]))).
    simpl in E. rewrite E in Ha. simpl in Ha.
    rewrite Ha, Ho, Hq, H1. split_and!; simpl; [done|lia|auto|done].
  - intros [= <- <-]. exists []. rewrite app_nil_r, Ho, Hq, H1. split_and!; simpl; [done|lia|done..].
Qed.

(** A run that reports a created process has read the exit code of the process it created,
    which is of this image with the command line of its arguments. *)
Definition child_exited (arguments : list wstring) (exit_code : Z) (s s' : LaunchState W) : Prop :=
  exists made creation process w, ls_created s' = ls_created s ++ made ++ [(creation, process)] /\
    (length made <= 1)%nat /\
    cr_image creation = CurrentImagePath os /\
    cr_command_line creation = BuildCommandLine (CurrentImagePath os) arguments /\
    po_GetExitCodeProcess os process w = (inl exit_code, ls_os s').

Lemma await_process_exit process options s :
  la_terminate_on_timeout options = false ->
  let '(out, s') := await_process os process options s in
  ls_created s' = ls_created s /\
  (lo_created out = true -> exists w, po_GetExitCodeProcess os process w = (inl (lo_exit_code out), ls_os s')).
Proof.
  intros Hterm. unfold await_process, os_call. rewrite st_bind_unfold.
  destruct (po_WaitForSingleObject os process (la_wait_ms options) (ls_os s)) as [waited w1]. cbn [fst snd].
  destruct (waited.1 =? WAIT_TIMEOUT); [by rewrite Hterm|]. destruct (negb _); [done|].
  rewrite st_bind_unfold. cbn [ls_os ls_created]. destruct (po_GetExitCodeProcess os process w1) as [[code|e] w2] eqn:E; cbn; [|done].
  split; [done|]. intros _. by exists w1.
Qed.

Lemma RunSameImage_exit arguments options s :
  la_terminate_on_timeout options = false ->
  let '(out, s') := RunSameImage os arguments options s in
  lo_created out = true -> child_exited arguments (lo_exit_code out) s s'.
Proof.
  intros Hterm. unfold RunSameImage. destruct (CurrentImagePath os) as [|u image] eqn:Ei; [done|].
  rewrite st_bind_unfold. set (s1 := (os_call _ s).2). set (std := (os_call _ s).1).
  assert (H1 : ls_created s1 = ls_created s) by apply quiet_os_call.
  rewrite st_bind_unfold. set (inherit := if la_inherit_stdio options then _ else _).
  assert (Hq : quiet inherit) by (subst inherit; case_if; [apply inherit_handles_quiet|apply quiet_ret]).
  specialize (Hq s1). destruct (inherit s1).1 as [handles|e]; [|done].
  set (creation := match handles with [] => _ | _ :: _ => _ end).
  assert (Hc : cr_image creation = u :: image /\ cr_command_line creation = BuildCommandLine (u :: image) arguments).
  { subst creation. by destruct handles. }
  unfold create_process. rewrite !st_bind_unfold.
  assert (Ho := quiet_os_call (po_CreateProcessW os creation) (inherit s1).2).
  destruct (os_call (po_CreateProcessW os creation) (inherit s1).2) as [[process|e] s2]; [|done]. simpl in Ho |- *.
  pose proof (await_process_exit process options (mkLaunchState (ls_os s2) (ls_created s2 ++ [(creation, process)])) Hterm) as Ha.
  destruct (await_process os process options _) as [out s']. destruct Ha as [Hm Hexit]. intros [w Hw]%Hexit.
  exists [], creation, process, w. rewrite Ei. cbn [ls_created] in Hm. rewrite Hm, Ho, Hq, H1.
  destruct Hc. by split_and!; [|simpl; lia|..].
Qed.

Lemma LaunchWorker_exit o s :
  let '(out, s') := LaunchWorker os o s in
  lo_created out = true -> child_exited (worker_command o) (lo_exit_code out) s s'.
Proof.
  unfold LaunchWorker. destruct (op_worker o); [done|]. rewrite st_bind_unfold.
  pose proof (RunSameImage_exit (worker_command o) (worker_launch true) s eq_refl) as H1.
  destruct (RunSameImage os (worker_command o) (worker_launch true) s) as [out s1] eqn:E1. cbn [fst snd].
  destruct (RunSameImage_created _ _ _ _ _ E1) as (first & Hs1 & Hl1 & _).
  destruct (lo_created out) eqn:Ec; [intros _; by apply H1|]. rewrite st_bind_unfold.
  pose proof (RunSameImage_exit (worker_command o) (worker_launch false) s1 eq_refl) as H2.
  destruct (RunSameImage os (worker_command o) (worker_launch false) s1) as [retry s2] eqn:E2. cbn [fst snd].
  destruct (lo_created retry) eqn:Er.
  - cbn. intros _. destruct (H2 eq_refl) as (made & creation & process & w & Hm & Hlen & Hrest).
    destruct (RunSameImage_created _ _ _ _ _ E2) as (second & Hs2 & Hl2 & _ & _).
    assert (made = []) as ->.
    { rewrite Hs2 in Hm. apply app_inv_head in Hm as ->. rewrite length_app in Hl2. cbn in Hl2.
      destruct made; [done|cbn in Hl2; lia]. }
    exists first, creation, process, w. by rewrite Hm, Hs1, <- app_assoc.
  - destruct retry as [created ? ? ?]. cbn in Er. subst created. by destruct (_ && _).
Qed.

Lemma LaunchWorker_made o s :
  exists first second,
    ls_created (LaunchWorker os o s).2 = ls_created s ++ first ++ second /\
    (length first <= 1)%nat /\ (length second <= 1)%nat /\
    (op_worker o = true -> first = [] /\ second = []) /\
    (second <> [] -> lo_created (RunSameImage os (worker_command o) (worker_launch true) s).1 = false) /\
    Forall (fun c => cr_image c.1 = CurrentImagePath os /\
              cr_command_line c.1 = BuildCommandLine (CurrentImagePath os) (worker_command o))
      (first ++ second) /\
    Forall (fun c => cr_inherit c.1 = []) second /\
    (lo_created (LaunchWorker os o s).1 = true -> first ++ second <> []).
Proof.
  unfold LaunchWorker. destruct (op_worker o).
  { exists [], []. simpl. rewrite app_nil_r. split_and!; (done || lia). }
  rewrite st_bind_unfold.
  destruct (RunSameImage os (worker_command o) (worker_launch true) s) as [out s1] eqn:E1.
  destruct (RunSameImage_created _ _ _ _ _ E1) as (first & Hs1 & Hl1 & Hf1 & Hc1). simpl.
  assert (Forall (fun c => cr_image c.1 = CurrentImagePath os /\
    cr_command_line c.1 = BuildCommandLine (CurrentImagePath os) (worker_command o)) first) as Hline1
    by (eapply Forall_impl; [exact Hf1|]; by intros c (? & ? & _)).
  destruct (lo_created out) eqn:Ec.
  { exists first, []. rewrite app_nil_r. simpl. split_and!; try (done || lia). intros _ ->. by specialize (Hc1 eq_refl). }
  rewrite st_bind_unfold.
  destruct (RunSameImage os (worker_command o) (worker_launch false) s1) as [retry s2] eqn:E2.
  destruct (RunSameImage_created _ _ _ _ _ E2) as (second & Hs2 & Hl2 & Hf2 & Hc2). simpl.
  match goal with |- context [(?m s2).2] => assert (exists r, m s2 = (r, s2) /\ lo_created r = lo_created retry) as (r & -> & Hr) end.
  { repeat case_if; by eexists. }
  exists first, second. simpl. rewrite Hs2, Hs1, <- app_assoc. split_and!; try done.
  - apply Forall_app. split; [done|]. eapply Forall_impl; [exact Hf2|]. by intros c (? & ? & _).
  - eapply Forall_impl; [exact Hf2|]. simpl. intros c (_ & _ & Hc). by apply Hc.
  - rewrite Hr. intros Hc%Hc2 [-> ->]%app_nil. done.
Qed.
(** C37 A worker never creates a process. Otherwise at most two are created, all of this
    image and with the same command line; the second is created only after a first run
    that did not report a created process, and inherits no handles. *)
Theorem LaunchWorker_children o s :
  exists first second,
    ls_created (LaunchWorker os o s).2 = ls_created s ++ first ++ second /\
    (length first <= 1)%nat /\ (length second <= 1)%nat /\
    (op_worker o = true -> first = [] /\ second = []) /\
    (second <> [] -> lo_created (RunSameImage os (worker_command o) (worker_launch true) s).1 = false) /\
    Forall (fun c => cr_image c.1 = CurrentImagePath os /\
              cr_command_line c.1 = BuildCommandLine (CurrentImagePath os) (worker_command o))
      (first ++ second) /\
    Forall (fun c => cr_inherit c.1 = []) second /\
    (lo_created (LaunchWorker os o s).1 = true -> first ++ second <> []).
Proof. apply LaunchWorker_made. Qed.
End Created.

(** ** The options of the worker *)

(** An update of the options that no item of a command line reads or undoes. *)
Definition independent (g : Options -> Options) : Prop :=
  forall o i, apply_item (g o) i = g (apply_item o i).

Lemma named_in {A} flag (table : list (string * A)) set :
  named flag table = Some set -> exists f, (f, set) ∈ table.
Proof.
  unfold named. destruct (find_first _ table) as [[f a]|] eqn:E; [|done].
  apply find_first_In in E as [Hin _]. intros [= <-]. by exists f.
Qed.

Lemma independent_by_tables g :
  (forall w o, add_word w (g o) = g (add_word w o)) ->
  Forall (fun entry => forall v o, entry.2 v (g o) = g (entry.2 v o)) kStringFlags ->
  Forall (fun entry => forall o, entry.2 (g o) = g (entry.2 o)) kBoolFlags ->
  Forall (fun entry => forall n o, entry.2 n (g o) = g (entry.2 n o)) kCountFlags ->
  (forall o, (g o) <| op_worker := true |> = g (o <| op_worker := true |>)) ->
  independent g.
Proof.
  intros Hword Hstring Hbool Hcount Hworker o i. rewrite !Forall_forall in *.
  destruct i as [w|f v att|f ign| |f v att]; cbn [apply_item]; [done|..|done|].
  - destruct (named f kStringFlags) as [set|] eqn:E; [|done]. apply named_in in E as [f' Hin]. apply (Hstring _ Hin).
  - destruct (named f kBoolFlags) as [set|] eqn:E; [|done]. apply named_in in E as [f' Hin]. apply (Hbool _ Hin).
  - destruct (named f kCountFlags) as [set|] eqn:E; [|done]. apply named_in in E as [f' Hin].
    destruct (ParseCount v); [|done]. apply (Hcount _ Hin).
Qed.

Lemma worker_independent : independent (fun o => o <| op_worker := true |>).
Proof.
  apply independent_by_tables; [|by repeat constructor..|done].
  intros w o. unfold add_word. by destruct o as [[]].
Qed.

Lemma tokens_independent tokens : independent (fun o => o <| op_tokens := tokens |>).
Proof.
  apply independent_by_tables; [|by repeat constructor..|done].
  intros w o. unfold add_word. by destruct o as [[]].
Qed.

Lemma independent_fold g items o : independent g -> fold_left apply_item items (g o) = g (fold_left apply_item items o).
Proof. intros Hg. revert o. induction items as [|i items IH]; intros o; [done|]. simpl. by rewrite Hg, IH. Qed.

(** Either the flag is appended, or the arguments spell it when it is wanted. *)
Lemma ensure_flag_appends wanted flag l : exists extra, ensure_flag wanted flag l = l ++ (wide <$> extra) /\
  (extra = [flag] /\ wanted = true \/ extra = [] /\ (wanted = true -> wide flag ∈ l)).
Proof.
  unfold ensure_flag. destruct wanted; simpl.
  - destruct (contains (wide flag) l) eqn:E; simpl; [|exists [flag]; auto].
    apply contains_true in E. exists []. rewrite app_nil_r. auto.
  - exists []. rewrite app_nil_r. split; [done|by right].
Qed.

Lemma wide_inj a b : wide a = wide b -> a = b.
Proof.
  intros E. apply chars_inj. unfold wide in E. revert E. generalize (chars a), (chars b). intros l.
  induction l as [|c l IH]; intros [|d m] E; simplify_eq/=; [done|]. f_equal; [by apply code_inj|auto].
Qed.

(** The flags of the options that the parent forwards. *)
Definition forwarded : list (string * (Options -> bool)) :=
  [("--no-provision", op_no_provision); ("--clear-attribute", op_clear_attribute);
   ("--no-auto-provision", op_no_auto_provision); ("--force-provision", op_force_provision)].

(** No other option has one of these flags as its value. *)
Definition spelled_once (argv : list wstring) (o : Options) : Prop :=
  Forall (fun entry => wide entry.1 ∈ argv -> entry.2 o = true) forwarded.

Definition flag_items (flags : list string) : list item := (fun f => IBool f None) <$> flags.

(** What [Dispatch] changes in the options before the hop. *)
Definition trust_options (no_provision clear : bool) (o : Options) : Options :=
  let o := if no_provision then o <| op_no_provision := true |> else o in
  if clear then o <| op_clear_attribute := true |> else o.

Definition effective_options (o : Options) (plan : TrustPlan) : Options :=
  trust_options (tp_auto_no_provision_applied plan) (tp_clean_needed plan) o.

Lemma forward_values no_provision clear o :
  let o' := trust_options no_provision clear o in
  o' = o <| op_no_provision := op_no_provision o' || op_no_provision o |>
         <| op_clear_attribute := op_clear_attribute o' || op_clear_attribute o |>
         <| op_no_auto_provision := op_no_auto_provision o' || op_no_auto_provision o |>
         <| op_force_provision := op_force_provision o' || op_force_provision o |>.
Proof.
  destruct o, no_provision, clear; simpl; rewrite ?orb_diag, ?orb_false_r; reflexivity.
Qed.

(** Membership in a list that is written out, and its absence. *)
Ltac member := repeat first [apply list_elem_of_here | apply list_elem_of_further].
Ltac absent := apply (bool_decide_unpack _); by vm_compute.

(** The appended flags say what the arguments do not. *)
Lemma worker_command_appends no_provision clear o :
  let o' := trust_options no_provision clear o in
  kWorkerFlag ∉ op_tokens o -> spelled_once (op_tokens o) o ->
  exists extra, worker_command o' = WorkerArguments (op_tokens o) ++ (wide <$> extra) /\
    Forall (fun f => f ∈ kBoolFlags.*1) extra /\ fold_left apply_item (flag_items extra) o = o'.
Proof.
  intros o' Hworker Hspelled. assert (Hvalues := forward_values no_provision clear o).
  cbv zeta in Hvalues. fold o' in Hvalues.
  unfold worker_command. assert (op_tokens o' = op_tokens o) as -> by (by subst o'; destruct o, no_provision, clear).
  set (base := WorkerArguments (op_tokens o)).
  assert (Hflags : Forall (fun f => wide f <> kWorkerFlag) forwarded.*1)
    by (apply (bool_decide_unpack _); by vm_compute).
  rewrite Forall_forall in Hflags.
  assert (Hin : forall f more, f ∈ forwarded.*1 -> wide f ∈ base ++ (wide <$> more) -> f ∉ more ->
            wide f ∈ op_tokens o).
  { intros f more Hf Hw Hm. apply elem_of_app in Hw as [Hw|Hw].
    - apply elem_of_cons in Hw as [Hw|Hw].
      + by destruct (Hflags f Hf Hw).
      + apply list_elem_of_In in Hw. apply filter_In in Hw as [Hw _]. by apply list_elem_of_In.
    - apply list_elem_of_fmap in Hw as (g & Hw & Hg). apply wide_inj in Hw. by subst. }
  destruct (ensure_flag_appends (op_no_provision o') "--no-provision" base) as (e1 & -> & H1).
  destruct (ensure_flag_appends (op_clear_attribute o') "--clear-attribute" (base ++ (wide <$> e1)))
    as (e2 & -> & H2).
  rewrite <- app_assoc, <- fmap_app.
  destruct (ensure_flag_appends (op_no_auto_provision o') "--no-auto-provision" (base ++ (wide <$> (e1 ++ e2))))
    as (e3 & -> & H3).
  rewrite <- app_assoc, <- fmap_app.
  destruct (ensure_flag_appends (op_force_provision o') "--force-provision"
              (base ++ (wide <$> ((e1 ++ e2) ++ e3)))) as (e4 & -> & H4).
  rewrite <- app_assoc, <- fmap_app. exists (((e1 ++ e2) ++ e3) ++ e4). split; [done|].
  assert (Hcase : forall f field extra more l, (f, field) ∈ forwarded -> f ∉ more ->
            l = base ++ (wide <$> more) ->
            extra = [f] /\ field o' = true \/ extra = [] /\ (field o' = true -> wide f ∈ l) ->
            extra = [f] /\ field o' = true \/ extra = [] /\ field o' || field o = field o).
  { intros f field extra more l Hf Hm -> [?|[-> Hw]]; [by left|right]. split; [done|].
    destruct (field o') eqn:E; [|done]. unfold spelled_once in Hspelled. rewrite Forall_forall in Hspelled.
    symmetry. apply (Hspelled _ Hf), (Hin f more); [by eapply list_elem_of_fmap_2'|by apply Hw|done]. }
  apply (Hcase _ op_no_provision e1 []) in H1; [|member|absent|by rewrite app_nil_r].
  apply (Hcase _ op_clear_attribute e2 e1) in H2; [|member|destruct H1 as [[-> _]|[-> _]]; absent|done].
  apply (Hcase _ op_no_auto_provision e3 (e1 ++ e2)) in H3;
    [|member|destruct H1 as [[-> _]|[-> _]], H2 as [[-> _]|[-> _]]; absent|done].
  apply (Hcase _ op_force_provision e4 ((e1 ++ e2) ++ e3)) in H4;
    [|member|destruct H1 as [[-> _]|[-> _]], H2 as [[-> _]|[-> _]], H3 as [[-> _]|[-> _]]; absent|done].
  clearbody o'. split.
  - destruct H1 as [[-> _]|[-> _]], H2 as [[-> _]|[-> _]], H3 as [[-> _]|[-> _]], H4 as [[-> _]|[-> _]];
      apply (bool_decide_unpack _); by vm_compute.
  - etrans; [|symmetry; exact Hvalues]. clear Hvalues.
    destruct H1 as [[-> ->]|[-> ->]], H2 as [[-> ->]|[-> ->]], H3 as [[-> ->]|[-> ->]], H4 as [[-> ->]|[-> ->]];
      by destruct o.
Qed.

(** The parsed form of the worker's arguments. *)
Definition as_worker (tokens : list wstring) (o : Options) : Options :=
  o <| op_worker := true |> <| op_tokens := tokens |>.

Lemma as_worker_independent tokens : independent (as_worker tokens).
Proof.
  intros o i. unfold as_worker. etrans; [apply (tokens_independent tokens)|].
  by rewrite (worker_independent o i).
Qed.

Lemma check_options_worker tokens o :
  check_options o = Ok o -> check_options (as_worker tokens o) = Ok (as_worker tokens o).
Proof. unfold check_options. destruct o; simpl. by repeat case_if. Qed.

Section Forward.
  Context (WideCharToMultiByte : wstring -> option string).
  Local Abbreviation utf8 := (ToUtf8 WideCharToMultiByte).
  Local Abbreviation ParseOptions := (ParseOptions WideCharToMultiByte).
  (** ASCII text is encoded as itself. *)
  Context (ascii_kept : forall t, t <> "" -> Forall (fun c => code c < 128) (chars t) ->
             WideCharToMultiByte (wide t) = Some t).

Lemma utf8_flag f : f ∈ "--worker" :: kBoolFlags.*1 -> utf8 (wide f) = f.
Proof.
  intros Hin. assert (f <> "" /\ Forall (fun c => code c < 128) (chars f)) as [Hne Ha].
  { revert f Hin. apply Forall_forall. apply (bool_decide_unpack _). by vm_compute. }
  unfold ToUtf8. destruct (wide f) as [|u w] eqn:E; [by destruct f|].
  rewrite <- E. by rewrite ascii_kept.
Qed.

Lemma worker_parse argv o no_provision clear
    (Hparse : ParseOptions argv = Ok o) (Hdash : "--" ∉ utf8 <$> argv) (Hworker : kWorkerFlag ∉ argv)
    (Hspelled : spelled_once argv o) :
  let o' := trust_options no_provision clear o in
  check_options o' = Ok o' -> ParseOptions (worker_command o') = Ok (as_worker (worker_command o') o').
Proof.
  intros o' Hcheck.
  apply ParseOptions_iff in Hparse as (items & words & Hv & E & Hc).
  assert (words = None) as ->.
  { destruct words as [words|]; [|done]. destruct Hdash. rewrite E. unfold render_line. set_solver. }
  apply check_options_ok in Hc as [Ho _]. unfold apply_line in Ho.
  rewrite (independent_fold _ items _ (tokens_independent argv)) in Ho.
  set (base := fold_left apply_item items default_options) in Ho.
  assert (Htokens : op_tokens o = argv) by (by rewrite Ho).
  destruct (worker_command_appends no_provision clear o) as (extra & Hw & Hb & Hx);
    [by rewrite Htokens|by rewrite Htokens|].
  fold o' in Hw, Hx. set (T := worker_command o') in *. clearbody T.
  assert (Hargs : WorkerArguments (op_tokens o) = kWorkerFlag :: argv).
  { rewrite Htokens. unfold WorkerArguments. f_equal. clear -Hworker.
    induction argv as [|a argv IH]; [done|]. apply not_elem_of_cons in Hworker as [Ha Hr]. simpl.
    unfold IsExactWorkerFlag at 1. rewrite bool_decide_eq_false_2 by congruence. simpl. by rewrite IH. }
  apply ParseOptions_iff. exists (IWorker :: items ++ flag_items extra), None. split_and!.
  - constructor; [done|]. apply Forall_app. split; [done|]. by apply Forall_fmap.
  - rewrite Hw, Hargs. unfold render_line in E |- *. rewrite app_nil_r in E |- *.
    rewrite fmap_app, fmap_cons, E, bind_cons, bind_app. unfold kWorkerFlag.
    rewrite utf8_flag by (by left). simpl. do 2 f_equal. clear -Hb ascii_kept.
    induction Hb as [|f extra Hf Hb IH]; [done|]. rewrite !fmap_cons, IH.
    by rewrite utf8_flag by (by right).
  - unfold apply_line. cbn [fold_left apply_item]. rewrite fold_left_app.
    change (default_options <| op_tokens := T |> <| op_worker := true |>) with (as_worker T default_options).
    rewrite !(independent_fold _ _ _ (as_worker_independent T)). fold base.
    assert (as_worker T (fold_left apply_item (flag_items extra) base) = as_worker T o') as ->.
    { rewrite <- !(independent_fold _ _ _ (as_worker_independent T)), <- Hx, <- (independent_fold _ _ _ (as_worker_independent T)).
      f_equal. rewrite Ho. clearbody base. by destruct base. }
    by apply check_options_worker.
Qed.

(** The plan leaves the options acceptable, and the worker's own plan asks for the same
    work on the token. *)
Lemma effective_options_ok o ctx :
  check_options o = Ok o ->
  let o' := effective_options o (EvaluateTrustPlan o ctx) in check_options o' = Ok o'.
Proof.
  intros Hc. unfold effective_options, trust_options. cbv zeta.
  assert (Hauto : tp_auto_no_provision_applied (EvaluateTrustPlan o ctx) = true ->
            op_force_provision o = false /\ is_empty (op_permission o) = true).
  { unfold EvaluateTrustPlan, worker_plan, attribute_plan, provisioning_plan.
    destruct (op_no_provision o); simpl; [done|].
    destruct (op_force_provision o || negb (is_empty (op_permission o))) eqn:E; simpl; [by repeat case_if|].
    boolp. auto. }
  apply check_options_iff in Hc as (H1 & H2 & H3 & H4). apply check_options_iff.
  destruct (tp_auto_no_provision_applied _).
  - destruct Hauto as [Hf He]; [done|].
    destruct (tp_clean_needed _), o; simpl in *; by rewrite Hf, He.
  - by destruct (tp_clean_needed _), o.
Qed.

Lemma clear_ignored clear o ctx :
  EvaluateTrustPlan (trust_options false clear o) ctx = EvaluateTrustPlan o ctx.
Proof. by destruct clear. Qed.

Lemma trust_options_split no_provision clear o :
  trust_options no_provision clear o = trust_options false clear (trust_options no_provision false o).
Proof. by destruct clear. Qed.

(** Turning provisioning off explicitly, where it is off automatically, changes no work. *)
Lemma explicit_no_provision o ctx :
  let plan := EvaluateTrustPlan o ctx in
  let child := EvaluateTrustPlan (o <| op_no_provision := true |>) ctx in
  tp_auto_no_provision_applied plan = true ->
  tp_stamp_needed child = tp_stamp_needed plan /\ tp_clean_needed child = tp_clean_needed plan /\
  tp_target_permission child = tp_target_permission plan.
Proof.
  cbv zeta. unfold EvaluateTrustPlan, worker_plan, attribute_plan, provisioning_plan. simpl.
  destruct (op_no_provision o); simpl; [done|].
  destruct (op_force_provision o || negb (is_empty (op_permission o))); simpl;
    [by destruct (CommandNeedsWorker o)|].
  destruct (op_no_auto_provision o); simpl; [by destruct (CommandNeedsWorker o)|].
  destruct (pc_test_signing ctx && negb (pc_is_ppl ctx) && negb (op_command o =? "provision")%string); simpl;
    [done|by destruct (CommandNeedsWorker o)].
Qed.

Lemma worker_plan_agrees o ctx tokens :
  let plan := EvaluateTrustPlan o ctx in
  let child := EvaluateTrustPlan (as_worker tokens (effective_options o plan)) ctx in
  tp_stamp_needed child = tp_stamp_needed plan /\ tp_clean_needed child = tp_clean_needed plan /\
  tp_target_permission child = tp_target_permission plan /\ tp_child_required child = false.
Proof.
  cbv zeta. unfold effective_options.
  assert (Hworker : forall o', EvaluateTrustPlan (as_worker tokens o') ctx =
            (EvaluateTrustPlan o' ctx) <| tp_child_required := false |>) by done.
  rewrite Hworker, trust_options_split, clear_ignored.
  destruct (tp_auto_no_provision_applied (EvaluateTrustPlan o ctx)) eqn:Eauto; [|done].
  by destruct (explicit_no_provision o ctx Eauto) as (H1 & H2 & H3).
Qed.

(** C13 Every child created for the options of a command line, with what the trust plan
    changed in them, is given a command line that parses to exactly these options, marked
    as the worker; and the plan the child makes of them asks for the same work on the
    token as the parent's, and for no further child. This holds of every command line on
    which [--worker] and the four forwarded flags are not the value of some other option
    and which has no [--]; without these conditions it does not
    ([worker_value_dropped], [flag_after_dashes_is_word], [flag_value_not_forwarded]).
    The C runtime is assumed to split a command line as documented ([ArgvRules]). *)
Theorem LaunchWorker_forwards {W} (os : ProcessOs W) argv o s ctx
    {argv_of arguments_from argument_from} {rules : ArgvRules argv_of arguments_from argument_from}
    (Hparse : ParseOptions argv = Ok o) (Himage : file_image (CurrentImagePath os))
    (Hdash : "--" ∉ utf8 <$> argv) (Hworker : op_worker o = false -> kWorkerFlag ∉ argv)
    (Hspelled : spelled_once argv o) :
  let plan := EvaluateTrustPlan o ctx in
  let sent := effective_options o plan in
  exists made, ls_created (LaunchWorker os sent s).2 = ls_created s ++ made /\
    Forall (fun c =>
      exists tokens, argv_of (cr_command_line c.1) = CurrentImagePath os :: tokens /\
        ParseOptions tokens = Ok (as_worker tokens sent) /\
        let child := EvaluateTrustPlan (as_worker tokens sent) ctx in
        tp_stamp_needed child = tp_stamp_needed plan /\ tp_clean_needed child = tp_clean_needed plan /\
        tp_target_permission child = tp_target_permission plan /\ tp_child_required child = false) made.
Proof.
  intros plan sent.
  destruct (LaunchWorker_made os sent s) as (first & second & Hmade & _ & _ & Hnone & _ & Hline & _).
  assert (op_worker o = true -> op_worker sent = true) as Hsent.
  { unfold sent, effective_options, trust_options. by destruct o, (tp_auto_no_provision_applied plan), (tp_clean_needed plan). }
  exists (first ++ second). split; [done|].
  destruct (op_worker o) eqn:Eworker.
  { destruct (Hnone (Hsent eq_refl)) as [-> ->]. constructor. }
  eapply Forall_impl; [exact Hline|].
  intros c [_ Hc]. cbv beta in Hc |- *. exists (worker_command sent). split; [|split].
  - rewrite Hc. by apply BuildCommandLine_read.
  - apply (worker_parse argv); [auto..|]. apply effective_options_ok.
    by apply ParseOptions_checked in Hparse.
  - exact (worker_plan_agrees o ctx (worker_command sent)).
Qed.
End Forward.

(** ** Examples *)

(** A system on which a process can be created, and its exit code read or not. *)
Definition example_os (wait : Z) : ProcessOs unit :=
  mkProcessOs unit
    (fun size => if (length example_image <? size)%nat then (example_image, length example_image)
                 else (take size example_image, size))
    (fun _ => (0, 0, 0)) (fun _ w => (inl 0, w)) (fun _ w => (inl tt, w)) (fun _ => (48, 0))
    (fun w => (inl tt, w)) (fun _ w => (inl tt, w)) (fun _ w => (inl 7, w))
    (fun _ _ w => ((wait, 6), w)) (fun _ _ w => w) (fun _ w => (inl 0, w)).

Definition example_argv : list wstring := wide <$> ["rules"; "--rules"; "C:\my rules.xml"; "--no-provision=yes"].

Definition example_options : Options :=
  apply_line [IWord "rules"; IString "--rules" "C:\my rules.xml" false; IBool "--no-provision" (Some "yes")] None
    (default_options <| op_tokens := example_argv |>).

Lemma ascii_bytes_kept t : t <> "" -> Forall (fun c => code c < 128) (chars t) -> ascii_bytes (wide t) = Some t.
Proof.
  intros _ _. unfold ascii_bytes, wide. f_equal. rewrite <- (of_chars_chars t) at 2. f_equal.
  rewrite <- list_fmap_compose. rewrite <- (list_fmap_id (chars t)) at 2. apply list_fmap_ext.
  intros i c _. apply char_of_code_code.
Qed.

Lemma CurrentImagePath_whole_witness : CurrentImagePath (example_os 0) = example_image.
Proof. apply CurrentImagePath_whole; [done|by apply Nat.ltb_lt|done]. Defined.

Lemma LaunchWorker_forwards_witness :
  let ctx := mkContext true true false true false 0 true "" in
  let plan := EvaluateTrustPlan example_options ctx in
  let sent := effective_options example_options plan in
  exists made, ls_created (LaunchWorker (example_os 0) sent (mkLaunchState tt [])).2 = [] ++ made /\
    Forall (fun c =>
      exists tokens, crt_argv (cr_command_line c.1) = CurrentImagePath (example_os 0) :: tokens /\
        ParseOptions ascii_bytes tokens = Ok (as_worker tokens sent) /\
        let child := EvaluateTrustPlan (as_worker tokens sent) ctx in
        tp_stamp_needed child = tp_stamp_needed plan /\ tp_clean_needed child = tp_clean_needed plan /\
        tp_target_permission child = tp_target_permission plan /\ tp_child_required child = false) made.
Proof.
  apply (LaunchWorker_forwards ascii_bytes ascii_bytes_kept (example_os 0) example_argv) with (rules := crt_rules).
  - vm_compute. reflexivity.
  - split_and!; apply (bool_decide_unpack _); by vm_compute.
  - apply (bool_decide_unpack _). by vm_compute.
  - apply (bool_decide_unpack _). by vm_compute.
  - unfold spelled_once. apply (bool_decide_unpack _). by vm_compute.
Defined.

(** The example's child, which is given the appended flag too. *)
Lemma example_child :
  (fun c => cr_command_line c.1) <$> ls_created (LaunchWorker (example_os 0) example_options (mkLaunchState tt [])).2 =
  [[wQuote] ++ example_image ++ [wQuote] ++ wide " --worker rules --rules " ++
   [wQuote] ++ wide "C:\my rules.xml" ++ [wQuote] ++ wide " --no-provision=yes --no-provision"].
Proof. by vm_compute. Qed.

(** A wait that fails is reported like a creation that failed, so the command is started
    a second time. *)
Lemma failed_wait_runs_twice :
  length (ls_created (LaunchWorker (example_os 0xFFFFFFFF) example_options (mkLaunchState tt [])).2) = 2%nat.
Proof. by vm_compute. Qed.

(** A value that reads [--worker] does not reach the child. *)
Lemma worker_value_dropped :
  let argv := wide <$> ["refs"; "desktop"; "--name"; "--worker"] in
  match ParseOptions ascii_bytes argv with
  | Ok o => op_worker o = false /\ op_object_name o = "--worker" /\
      ParseOptions ascii_bytes (worker_command o) = Err "missing value for --name"
  | Err _ => False
  end.
Proof. by vm_compute. Qed.

(** Behind a [--] the appended flag is one more word of the child. *)
Lemma flag_after_dashes_is_word :
  let argv := wide <$> ["refs"; "--"; "desktop"] in
  match ParseOptions ascii_bytes argv with
  | Ok o => op_positional o = ["desktop"] /\
      match ParseOptions ascii_bytes (worker_command (trust_options true false o)) with
      | Ok child => op_positional child = ["desktop"; "--no-provision"] /\ op_no_provision child = false
      | Err _ => False
      end
  | Err _ => False
  end.
Proof. by vm_compute. Qed.

(** A flag that is wanted is not appended when it is the value of another option. *)
Lemma flag_value_not_forwarded :
  let argv := wide <$> ["refs"; "desktop"; "--name"; "--no-provision"] in
  match ParseOptions ascii_bytes argv with
  | Ok o => op_object_name o = "--no-provision" /\
      match ParseOptions ascii_bytes (worker_command (trust_options true false o)) with
      | Ok child => op_no_provision child = false
      | Err _ => False
      end
  | Err _ => False
  end.
Proof. by vm_compute. Qed.
