(* ===== verification/FileHash.v ===== *)
(** The digest of the file behind a module (ComputeFileSha256, ComputeModuleFileSha256 in
    src/esptool/src/esp/EspEnforceCompat.cpp), over the system calls it makes; what is
    opened and closed is logged. *)
From S2P Require Import Prelude Text Core Handles Api Token EnforceCompat Launch.

(** The system; a call that fails gives its last error or its status. *)
Record HashOs (D : Type) := mkHashOs {
  (** the buffer of the given size, the returned length and the last error *)
  hs_GetModuleFileNameW : handle -> nat -> wstring * nat * Z;
  hs_CreateFileW : wstring -> D -> (handle * Z) * D;
  hs_OpenAlgorithmProvider : D -> (handle + NTSTATUS) * D;
  hs_ObjectLength : handle -> D -> Z + NTSTATUS;
  hs_CreateHash : handle -> Z -> D -> (handle + NTSTATUS) * D;
  hs_ReadFile : handle -> nat -> D -> option (list Z) * D;
  hs_GetLastError : D -> Z;
  hs_HashData : handle -> list Z -> D -> NTSTATUS * D;
  hs_FinishHash : handle -> D -> (NTSTATUS * list Z) * D;
  hs_close : string -> handle -> D -> D
}.
Arguments hs_GetModuleFileNameW {D} h. Arguments hs_CreateFileW {D} h. Arguments hs_OpenAlgorithmProvider {D} h.
Arguments hs_ObjectLength {D} h. Arguments hs_CreateHash {D} h. Arguments hs_ReadFile {D} h.
Arguments hs_HashData {D} h. Arguments hs_FinishHash {D} h. Arguments hs_GetLastError {D} h. Arguments hs_close {D} h.

(** What was opened, and the closing calls. *)
Inductive Use := Opened (closer : string) (h : handle) | Closed (closer : string) (h : handle).

Record Hashing (D : Type) := mkHashing { hg_os : D; hg_uses : list Use }.
Arguments mkHashing {D}. Arguments hg_os {D} h. Arguments hg_uses {D} h.

Definition kChunk : nat := 4096.
Definition kDestroyHash : string := "BCryptDestroyHash".
Definition kCloseAlgorithm : string := "BCryptCloseAlgorithmProvider".

Section FileHash.
  Context {D : Type} (os : HashOs D).
  Local Abbreviation M := (ST (Hashing D)).

Definition hash_call {A} (f : D -> A * D) : M A :=
  fun s => let '(a, d) := f (hg_os s) in (a, mkHashing d (hg_uses s)).

Definition note (use : Use) : M unit := st_modify (fun s => mkHashing (hg_os s) (hg_uses s ++ [use])).

Definition close_with (closer : string) (h : handle) (s : Hashing D) : Hashing D :=
  mkHashing (hs_close os closer h (hg_os s)) (hg_uses s ++ [Closed closer h]).

(** The closure [cleanup]. *)
Definition cleanup (algorithm hash : handle) : M unit :=
  (if handle_ok hash then st_modify (close_with kDestroyHash hash) else mret tt);;
  (if handle_ok algorithm then st_modify (close_with kCloseAlgorithm algorithm) else mret tt).

(** The read loop; [None] when [fuel] turns were not enough. *)
Fixpoint read_loop (fuel : nat) (file algorithm hash : handle) : M (option (result unit)) :=
  match fuel with
  | O => mret None
  | S fuel =>
      chunk ← hash_call (hs_ReadFile os file kChunk);
      match chunk with
      | None =>
          cleanup algorithm hash;;
          last_error ← hash_call (fun d => (hs_GetLastError os d, d));
          mret (Some (Err (Win32Message "could not read espclient.dll for hashing" last_error)))
      | Some [] => mret (Some (Ok tt))
      | Some bytes =>
          status ← hash_call (hs_HashData os hash bytes);
          if negb (NT_SUCCESS status) then cleanup algorithm hash;; mret (Some (Err "BCryptHashData failed"))
          else read_loop fuel file algorithm hash
      end
  end.

(** The body, once the file is open. *)
Definition hash_file (fuel : nat) (file : handle) : M (option (result (list Z))) :=
  opened ← hash_call (hs_OpenAlgorithmProvider os);
  match opened with
  | inr _ => mret (Some (Err "BCryptOpenAlgorithmProvider(SHA256) failed"))
  | inl algorithm =>
      note (Opened kCloseAlgorithm algorithm);;
      object_size ← hash_call (fun d => (hs_ObjectLength os algorithm d, d));
      match object_size with
      | inr _ => cleanup algorithm 0;; mret (Some (Err "BCryptGetProperty(BCRYPT_OBJECT_LENGTH) failed"))
      | inl object_size =>
          created ← hash_call (hs_CreateHash os algorithm object_size);
          match created with
          | inr _ => cleanup algorithm 0;; mret (Some (Err "BCryptCreateHash failed"))
          | inl hash =>
              note (Opened kDestroyHash hash);;
              finished_reading ← read_loop fuel file algorithm hash;
              match finished_reading with
              | None => mret None
              | Some (Err e) => mret (Some (Err e))
              | Some (Ok _) =>
                  finished ← hash_call (hs_FinishHash os hash);
                  cleanup algorithm hash;;
                  mret (Some (if NT_SUCCESS finished.1 then Ok finished.2 else Err "BCryptFinishHash failed"))
              end
          end
      end
  end.

Definition ComputeFileSha256 (fuel : nat) (path : wstring) : M (option (result (list Z))) :=
  created ← hash_call (hs_CreateFileW os path);
  let '(h, last_error) := created in
  unique (close_with (Close UniqueHandle)) UniqueHandle (mret h) (fun file =>
    if negb (Usable UniqueHandle file) then
      mret (Some (Err (Win32Message "could not open espclient.dll for hashing" last_error)))
    else note (Opened (Close UniqueHandle) file);; hash_file fuel file).

(** The doubling loop; [fuel] bounds its turns. *)
Fixpoint module_path (fuel : nat) (module : handle) (size : nat) : option (result wstring) :=
  match fuel with
  | O => None
  | S fuel =>
      let '(buffer, length, last_error) := hs_GetModuleFileNameW os module size in
      if (length =? 0)%nat then Some (Err (Win32Message "GetModuleFileNameW failed" last_error))
      else if (length <? size)%nat then Some (Ok (take length buffer))
      else module_path fuel module (size * 2)
  end.

Definition ComputeModuleFileSha256 (fuel : nat) (module : handle) : M (option (result (list Z))) :=
  match module_path kPathTurns module kMaxPath with
  | None => mret None
  | Some (Err e) => mret (Some (Err e))
  | Some (Ok path) => ComputeFileSha256 fuel path
  end.

(** The production hooks, for the module that is loaded (null when none is): the digest is
    computed when the hook is called. *)
Definition DefaultCompatPatchHooks (fuel : nat) (module : handle) (VirtualProtect : nat -> Z -> Z -> Z -> Z + Z) :
    M CompatPatchHooks :=
  digest ← (if handle_ok module then ComputeModuleFileSha256 fuel module else mret None);
  mret (mkHooks (Some (handle_ok module)) digest (Some VirtualProtect)).

End FileHash.

(** ** Theorems *)

(** What the file system and the hash provider promise: a read gives the next bytes of the
    file, none only at its end; the data of a hash object is what was added to it, and
    finishing gives the digest of it; an object that was created is not null. *)
Class HashKernel {D} (os : HashOs D) (file_bytes : wstring -> list Z) (Sha256 : list Z -> list Z) := {
  hk_remaining : D -> handle -> list Z;
  hk_absorbed : D -> handle -> list Z;
  hk_create path d :
    let '((h, _), d') := hs_CreateFileW os path d in
    Usable UniqueHandle h = true -> hk_remaining d' h = file_bytes path;
  hk_open d :
    let '(r, d') := hs_OpenAlgorithmProvider os d in
    (forall h, r = inl h -> handle_ok h = true) /\ forall f, hk_remaining d' f = hk_remaining d f;
  hk_create_hash algorithm size d :
    let '(r, d') := hs_CreateHash os algorithm size d in
    (forall h, r = inl h -> handle_ok h = true /\ hk_absorbed d' h = []) /\
    forall f, hk_remaining d' f = hk_remaining d f;
  hk_read f n d bytes d' :
    hs_ReadFile os f n d = (Some bytes, d') -> (0 < n)%nat ->
    hk_remaining d f = bytes ++ hk_remaining d' f /\ (bytes = [] -> hk_remaining d f = []) /\
    forall h, hk_absorbed d' h = hk_absorbed d h;
  hk_hash h bytes d status d' :
    hs_HashData os h bytes d = (status, d') -> NT_SUCCESS status = true ->
    hk_absorbed d' h = hk_absorbed d h ++ bytes /\ forall f, hk_remaining d' f = hk_remaining d f;
  hk_finish h d status digest d' :
    hs_FinishHash os h d = ((status, digest), d') -> NT_SUCCESS status = true ->
    digest = Sha256 (hk_absorbed d h)
}.

(** No call of the system fails. *)
Record works {D} (os : HashOs D) : Prop := {
  wk_create path d : Usable UniqueHandle (hs_CreateFileW os path d).1.1 = true;
  wk_open d : exists algorithm, (hs_OpenAlgorithmProvider os d).1 = inl algorithm;
  wk_length algorithm d : exists size, hs_ObjectLength os algorithm d = inl size;
  wk_create_hash algorithm size d : exists hash, (hs_CreateHash os algorithm size d).1 = inl hash;
  wk_read f n d : is_Some (hs_ReadFile os f n d).1;
  wk_hash hash bytes d : NT_SUCCESS (hs_HashData os hash bytes d).1 = true;
  wk_finish hash d : NT_SUCCESS (hs_FinishHash os hash d).1.1 = true
}.

(** Everything that was opened is closed, in the reverse order. *)
Definition tidy (opened : list (string * handle)) : list Use :=
  ((fun o => Opened o.1 o.2) <$> opened) ++ ((fun o => Closed o.1 o.2) <$> reverse opened).

Section Theorems.
  Context {D : Type} (os : HashOs D) (file_bytes : wstring -> list Z) (Sha256 : list Z -> list Z)
    `{!HashKernel os file_bytes Sha256}.
  Implicit Types (s : Hashing D) (d : D).

Lemma cleanup_uses algorithm hash s :
  handle_ok algorithm = true ->
  hg_uses (cleanup os algorithm hash s).2 =
  hg_uses s ++ (if handle_ok hash then [Closed kDestroyHash hash] else []) ++ [Closed kCloseAlgorithm algorithm].
Proof.
  intros Ha. unfold cleanup. rewrite st_bind_unfold, Ha. destruct (handle_ok hash); cbn; by rewrite <- ?app_assoc.
Qed.

Lemma hash_bind {A B} (f : D -> A * D) (k : A -> ST (Hashing D) B) s :
  (a ← hash_call f; k a) s = let '(a, d) := f (hg_os s) in k a (mkHashing d (hg_uses s)).
Proof. rewrite st_bind_unfold. unfold hash_call. by destruct (f (hg_os s)). Qed.

Lemma note_bind {B} use (k : ST (Hashing D) B) s : (note use;; k) s = k (mkHashing (hg_os s) (hg_uses s ++ [use])).
Proof. done. Qed.

Lemma cleanup_then {A} (a : A) algorithm hash s :
  (cleanup os algorithm hash;; mret a) s = (a, (cleanup os algorithm hash s).2).
Proof. by rewrite st_bind_unfold. Qed.

(** The loop reads to the end of the file and hashes all of it, or cleans up; enough
    fuel is one turn for every byte and one more. *)
Lemma read_loop_spec fuel file algorithm hash s :
  handle_ok algorithm = true -> handle_ok hash = true ->
  let '(r, s') := read_loop os fuel file algorithm hash s in
  match r with
  | None => (fuel <= length (hk_remaining (hg_os s) file))%nat
  | Some (Ok _) =>
      hg_uses s' = hg_uses s /\
      hk_absorbed (hg_os s') hash = hk_absorbed (hg_os s) hash ++ hk_remaining (hg_os s) file
  | Some (Err _) =>
      hg_uses s' = hg_uses s ++ [Closed kDestroyHash hash; Closed kCloseAlgorithm algorithm] /\ ~ works os
  end.
Proof.
  intros Ha Hh. revert s. induction fuel as [|fuel IH]; intros s; [cbn; lia|].
  cbn [read_loop]. rewrite hash_bind.
  destruct (hs_ReadFile os file kChunk (hg_os s)) as [[bytes|] d'] eqn:Eread; cbn [fst snd].
  2:{ rewrite st_bind_unfold, hash_bind. cbn [hg_uses mret st_ret]. rewrite cleanup_uses, Hh by done. split; [done|].
      intros Hw. destruct (wk_read os Hw file kChunk (hg_os s)) as [? H]. by rewrite Eread in H. }
  destruct (hk_read _ _ _ _ _ Eread ltac:(unfold kChunk; lia)) as (Hrem & Hend & Habs).
  destruct bytes as [|b bytes]; [cbn; by rewrite Habs, (Hend eq_refl), app_nil_r|].
  rewrite hash_bind. cbn [hg_os hg_uses].
  destruct (hs_HashData os hash (b :: bytes) d') as [status d2] eqn:Ehash. cbn [fst snd].
  destruct (NT_SUCCESS status) eqn:Estatus; cbn [negb].
  2:{ rewrite cleanup_then, cleanup_uses, Hh by done. split; [done|].
      intros Hw. pose proof (wk_hash os Hw hash (b :: bytes) d') as H. rewrite Ehash in H. cbn in H. congruence. }
  destruct (hk_hash _ _ _ _ _ Ehash Estatus) as [Habs2 Hrem2].
  specialize (IH (mkHashing d2 (hg_uses s))). cbn [hg_os hg_uses] in IH.
  destruct (read_loop os fuel file algorithm hash (mkHashing d2 (hg_uses s))) as [[[[]|e]|] s'].
  - destruct IH as [Hu Hd]. split; [done|]. by rewrite Hd, Habs2, Habs, Hrem, Hrem2, <- app_assoc.
  - exact IH.
  - rewrite Hrem, length_app. rewrite Hrem2 in IH. cbn. lia.
Qed.

(** What one call of the body or of the function does with the uses [before] it. *)
Definition hashed (fuel : nat) (bytes : list Z) (before : list Use) (out : option (result (list Z)) * Hashing D) : Prop :=
  match out.1 with
  | None => (fuel <= length bytes)%nat
  | Some r =>
      (exists opened, hg_uses out.2 = before ++ tidy opened) /\
      match r with Ok digest => digest = Sha256 bytes | Err _ => ~ works os end
  end.

Lemma hashed_failed fuel bytes before opened e s :
  ~ works os -> hg_uses s = before ++ tidy opened -> hashed fuel bytes before (Some (Err e), s).
Proof. intros Hw H. split; [by exists opened|done]. Qed.

Lemma hash_file_spec fuel file s :
  hashed fuel (hk_remaining (hg_os s) file) (hg_uses s) (hash_file os fuel file s).
Proof.
  unfold hash_file. rewrite hash_bind.
  pose proof (hk_open (hg_os s)) as Hopen.
  destruct (hs_OpenAlgorithmProvider os (hg_os s)) as [[algorithm|e] d1] eqn:Eopen; cbn [fst snd]; destruct Hopen as [Ha Hr1].
  2:{ apply (hashed_failed _ _ _ []); [|by rewrite app_nil_r].
      intros Hw. destruct (wk_open os Hw (hg_os s)) as [? H]. by rewrite Eopen in H. }
  specialize (Ha _ eq_refl). rewrite note_bind. cbn [hg_os hg_uses].
  rewrite hash_bind. cbn [hg_os hg_uses].
  destruct (hs_ObjectLength os algorithm d1) as [size|e] eqn:Elength.
  2:{ rewrite cleanup_then. apply (hashed_failed _ _ _ [(kCloseAlgorithm, algorithm)]).
      { intros Hw. destruct (wk_length os Hw algorithm d1) as [? H]. by rewrite Elength in H. }
      rewrite cleanup_uses by done. cbn. by rewrite <- app_assoc. }
  rewrite hash_bind. cbn [hg_os hg_uses].
  pose proof (hk_create_hash algorithm size d1) as Hcreate.
  destruct (hs_CreateHash os algorithm size d1) as [[hash|e] d2] eqn:Ecreate; cbn [fst snd]; destruct Hcreate as [Hh Hr2].
  2:{ rewrite cleanup_then. apply (hashed_failed _ _ _ [(kCloseAlgorithm, algorithm)]).
      { intros Hw. destruct (wk_create_hash os Hw algorithm size d1) as [? H]. by rewrite Ecreate in H. }
      rewrite cleanup_uses by done. cbn. by rewrite <- app_assoc. }
  destruct (Hh _ eq_refl) as [Hok Habs]. rewrite note_bind. cbn [hg_os hg_uses].
  rewrite st_bind_unfold.
  pose proof (read_loop_spec fuel file algorithm hash
    (mkHashing d2 ((hg_uses s ++ [Opened kCloseAlgorithm algorithm]) ++ [Opened kDestroyHash hash])) Ha Hok) as Hloop.
  destruct (read_loop os fuel file algorithm hash _) as [[[[]|e]|] s']; cbn [fst snd hg_os hg_uses mret st_ret] in *.
  - destruct Hloop as [Hu Hd]. rewrite hash_bind.
    destruct (hs_FinishHash os hash (hg_os s')) as [[status digest] d3] eqn:Efinish. cbn [fst snd].
    rewrite cleanup_then. unfold hashed. cbn [fst snd]. rewrite cleanup_uses, Hok by done. cbn [hg_uses]. split.
    + exists [(kCloseAlgorithm, algorithm); (kDestroyHash, hash)]. rewrite Hu. cbn. by rewrite <- !app_assoc.
    + destruct (NT_SUCCESS status) eqn:Es.
      2:{ intros Hw. pose proof (wk_finish os Hw hash (hg_os s')) as H. rewrite Efinish in H. cbn in H. congruence. }
      rewrite (hk_finish _ _ _ _ _ Efinish Es), Hd, Habs, Hr2, Hr1. done.
  - apply (hashed_failed _ _ _ [(kCloseAlgorithm, algorithm); (kDestroyHash, hash)]); [by destruct Hloop|].
    destruct Hloop as [Hloop _]. rewrite Hloop. cbn. by rewrite <- !app_assoc.
  - unfold hashed. cbn [fst]. by rewrite Hr2, Hr1 in Hloop.
Qed.

Lemma tidy_around o opened : [Opened o.1 o.2] ++ tidy opened ++ [Closed o.1 o.2] = tidy (o :: opened).
Proof. unfold tidy. rewrite reverse_cons, fmap_app. cbn. by rewrite <- app_assoc. Qed.

Lemma ComputeFileSha256_spec fuel path s :
  hashed fuel (file_bytes path) (hg_uses s) (ComputeFileSha256 os fuel path s).
Proof.
  unfold ComputeFileSha256. rewrite hash_bind.
  pose proof (hk_create path (hg_os s)) as Hcreate.
  destruct (hs_CreateFileW os path (hg_os s)) as [[h last_error] d1] eqn:Ecreate. cbn [fst snd].
  rewrite unique_closes. cbn [mret st_ret]. unfold Normalize. destruct (Usable UniqueHandle h) eqn:Eu.
  2:{ rewrite usable_null. cbn [negb mret st_ret]. apply (hashed_failed _ _ _ []); [|by rewrite app_nil_r].
      intros Hw. pose proof (wk_create os Hw path (hg_os s)) as H. rewrite Ecreate in H. cbn [fst] in H. congruence. }
  rewrite Eu. cbn [negb]. rewrite note_bind. cbn [hg_os hg_uses].
  pose proof (hash_file_spec fuel h (mkHashing d1 (hg_uses s ++ [Opened (Close UniqueHandle) h]))) as Hbody.
  cbn [hg_os hg_uses] in Hbody. rewrite (Hcreate eq_refl) in Hbody.
  destruct (hash_file os fuel h _) as [[r|] s']; unfold hashed in *; cbn [fst snd] in *; [|done].
  destruct Hbody as [[opened Hu] Hd]. split; [|done]. exists ((Close UniqueHandle, h) :: opened).
  cbn [close_with hg_uses]. rewrite Hu, <- tidy_around. by rewrite <- !app_assoc.
Qed.

(** The name of the module, as long as it fits into the largest buffer tried. *)
Lemma module_path_name fuel module name size :
  (forall n, exists buffer e,
     hs_GetModuleFileNameW os module n = (buffer, if length name <? n then length name else n, e)%nat /\
     ((length name < n)%nat -> take (length name) buffer = name)) ->
  (0 < length name < size * 2 ^ fuel)%nat -> (0 < size)%nat ->
  module_path os (S fuel) module size = Some (Ok name).
Proof.
  intros Hname. revert size. induction fuel as [|fuel IH]; intros size Hlen Hsize;
    destruct (Hname size) as (buffer & e & Hget & Htake); cbn [module_path]; rewrite Hget.
  - destruct (Nat.ltb_spec (length name) size) as [Hlt|]; [|cbn in Hlen; lia].
    destruct (Nat.eqb_spec (length name) 0) as [|_]; [lia|].
    destruct (Nat.ltb_spec (length name) size) as [_|]; [|lia]. by rewrite Htake.
  - destruct (Nat.ltb_spec (length name) size) as [Hlt|Hge].
    + destruct (Nat.eqb_spec (length name) 0) as [|_]; [lia|].
      destruct (Nat.ltb_spec (length name) size) as [_|]; [|lia]. by rewrite Htake.
    + destruct (Nat.eqb_spec size 0) as [|_]; [lia|]. rewrite Nat.ltb_irrefl. apply IH; [|lia].
      cbn [Nat.pow] in Hlen. nia.
Qed.

(** C38 Hashing the file of a module ends, within one turn for every byte of the file and
    one more, whatever the sizes of the reads; what it opened is closed then, in the
    reverse order, on every path; a digest that it returns is the digest of the whole file;
    and it returns one unless a call of the system failed. *)
Theorem ComputeModuleFileSha256_digest fuel module name s
    (Hname : forall n, exists buffer e,
       hs_GetModuleFileNameW os module n = (buffer, if length name <? n then length name else n, e)%nat /\
       ((length name < n)%nat -> take (length name) buffer = name))
    (Hlen : 0 < Z.of_nat (length name) < 33280)
    (Hfuel : (length (file_bytes name) < fuel)%nat) :
  exists r s' opened, ComputeModuleFileSha256 os fuel module s = (Some r, s') /\
    hg_uses s' = hg_uses s ++ tidy opened /\
    (forall digest, r = Ok digest -> digest = Sha256 (file_bytes name)) /\
    (works os -> r = Ok (Sha256 (file_bytes name))).
Proof.
  unfold ComputeModuleFileSha256. change kPathTurns with 8%nat.
  assert (0 < length name < kMaxPath * 2 ^ 7)%nat as Hfits.
  { split; [lia|]. apply Nat2Z.inj_lt. rewrite Nat2Z.inj_mul, Nat2Z.inj_pow.
    change (Z.of_nat kMaxPath * Z.of_nat 2 ^ Z.of_nat 7) with 33280. lia. }
  rewrite (module_path_name 7 module name kMaxPath Hname Hfits) by (unfold kMaxPath; lia).
  pose proof (ComputeFileSha256_spec fuel name s) as Hspec. unfold hashed in Hspec.
  destruct (ComputeFileSha256 os fuel name s) as [[r|] s']; cbn [fst snd] in Hspec; [|lia].
  destruct Hspec as [[opened Hu] Hd]. exists r, s', opened. split; [done|]. split; [done|].
  destruct r as [digest|e]; (split; [by intros ? [= <-]|]); [by intros _; rewrite Hd|done].
Qed.

End Theorems.

(** ** A system to run on *)

(** The bytes of the file that are left and the data of the hash object; a read gives two
    bytes, and the digest is the length and the sum. *)
Definition example_digest (bytes : list Z) : list Z := [Z.of_nat (length bytes); foldr Z.add 0 bytes].
Definition example_file (path : wstring) : list Z := [1; 2; 3; 4; 5].
Definition example_name : wstring := wide "espclient.dll".

Definition example_hash_os : HashOs (list Z * list Z) :=
  mkHashOs _ (fun _ n => (example_name, if (13 <? n)%nat then 13%nat else n, 122))
    (fun path d => ((5, 0), (example_file path, d.2))) (fun d => (inl 6, d)) (fun _ _ => inl 300)
    (fun _ _ d => (inl 7, (d.1, []))) (fun _ n d => (Some (take (min n 2) d.1), (drop (min n 2) d.1, d.2))) (fun _ => 0)
    (fun _ bytes d => (0, (d.1, d.2 ++ bytes))) (fun _ d => ((0, example_digest d.2), d)) (fun _ _ d => d).

#[export] Instance example_hash_kernel : HashKernel example_hash_os example_file example_digest.
Proof.
  refine {| hk_remaining := fun d _ => d.1; hk_absorbed := fun d _ => d.2 |}; cbn; try done.
  - intros d. split; [|done]. by intros h [= <-].
  - intros algorithm size d. split; [|done]. by intros h [= <-].
  - intros f n [rest data] bytes d'. cbn. intros [= <- <-] Hn. cbn. split; [by rewrite take_drop|]. split; [|done].
    intros Htake. destruct rest as [|b rest]; [done|]. destruct n as [|[|n]]; [lia|done|done].
  - intros h bytes [rest data] status d'. cbn. by intros [= <- <-].
  - intros h [rest data] status digest d'. cbn. by intros [= <- <- <-].
Defined.

Lemma ComputeModuleFileSha256_digest_witness :
  let out := ComputeModuleFileSha256 example_hash_os 6 1 (mkHashing ([], []) []) in
  out.1 = Some (Ok [5; 15]) /\
  hg_uses out.2 = [ Opened "CloseHandle" 5; Opened kCloseAlgorithm 6; Opened kDestroyHash 7;
                    Closed kDestroyHash 7; Closed kCloseAlgorithm 6; Closed "CloseHandle" 5 ] /\
  exists r s' opened, out = (Some r, s') /\ hg_uses s' = [] ++ tidy opened /\
    (forall digest, r = Ok digest -> digest = example_digest (example_file example_name)) /\
    (works example_hash_os -> r = Ok (example_digest (example_file example_name))).
Proof.
  split; [by vm_compute|]. split; [by vm_compute|].
  apply (ComputeModuleFileSha256_digest example_hash_os example_file example_digest 6 1 example_name (mkHashing ([], []) [])).
  - intros n. exists example_name, 122. split; [done|]. by vm_compute.
  - split; reflexivity.
  - change (length (example_file example_name)) with 5%nat. lia.
Defined.
