(* ===== verification/Console.v ===== *)
(** What the commands share (the first part of src/esptool/src/cli/Commands.cpp): the
    machine they run on, their output, the sessions they open, the trust probe, the hop
    to the worker and the preparation of the token. *)
From S2P Require Import Logging.
From S2P Require Import Prelude Text Core RuleModel RuleParser Api Session Token Protection Options.
From S2P Require Import Launch.

(** Everything the commands rely on, over one state [D] of the outside. *)
Record Host (D : Type) := mkHost {
  ho_env : Env D;
  ho_tokens : TokenOs D;
  ho_processes : ProcessOs D;
  (** [NtQueryInformationProcess] for the protection class *)
  ho_protection : D -> option (Z -> NTSTATUS * Z);
  ho_elevation : Z -> D -> option Z;
  ho_code_integrity : D -> option (NTSTATUS * Z);
  ho_secure_boot : D -> Z + (Z + Z);
  ho_GetCurrentProcessId : Z;
  ho_GetCurrentThreadId : Z;
  (** the XML reader, the apartment, and the file system of the rule parser *)
  ho_XmlRead : string -> XmlReader;
  ho_apartment : EspResult;
  ho_read_rules : D -> string -> Z + (Z * (Z + string));
  (** whether espclient.dll is loaded, and [VirtualProtect], for the event-type bypass *)
  ho_bypass : D -> bool * (nat -> Z -> Z -> Z -> Z + Z);
  (** [CreateProcessW] of an image without a window: the process and its identifier *)
  ho_CreateProcess : wstring -> wstring -> D -> option (handle * Z) * D;
  ho_GetTempPath : D -> option wstring;
  ho_GetTempFileName : wstring -> wstring -> D -> option wstring * D;
  (** creates the file and closes it *)
  ho_CreateFile : wstring -> D -> bool * D;
  ho_DeleteFile : wstring -> D -> D;
  (** [TerminateProcess], then a wait of that many milliseconds *)
  ho_TerminateProcess : handle -> Z -> D -> D
}.
Arguments ho_env {D} h. Arguments ho_tokens {D} h. Arguments ho_processes {D} h.
Arguments ho_protection {D} h. Arguments ho_elevation {D} h. Arguments ho_code_integrity {D} h.
Arguments ho_secure_boot {D} h. Arguments ho_GetCurrentProcessId {D} h.
Arguments ho_GetCurrentThreadId {D} h. Arguments ho_XmlRead {D} h. Arguments ho_apartment {D} h.
Arguments ho_read_rules {D} h. Arguments ho_bypass {D} h.
Arguments ho_CreateProcess {D} h. Arguments ho_GetTempPath {D} h. Arguments ho_GetTempFileName {D} h.
Arguments ho_CreateFile {D} h. Arguments ho_DeleteFile {D} h. Arguments ho_TerminateProcess {D} h.

(** What a command has done: the outside, the library calls of its sessions, the lines
    handed to the log, the lines printed to the two streams, the processes created. *)
Record Console (D : Type) := mkConsole {
  co_driver : D;
  co_trace : list Event;
  co_log : list (LogLevel * string);
  co_out : list string;
  co_err : list string;
  co_created : list (Creation * handle)
}.
Arguments mkConsole {D}. Arguments co_driver {D} c. Arguments co_trace {D} c. Arguments co_log {D} c.
Arguments co_out {D} c. Arguments co_err {D} c. Arguments co_created {D} c.

Section Primitives.
  Context {D : Type}.
  Local Abbreviation C := (ST (Console D)).

Definition outside {A} (f : D -> A * D) : C A :=
  fun c => let '(a, d) := f (co_driver c) in
           (a, mkConsole d (co_trace c) (co_log c) (co_out c) (co_err c) (co_created c)).

Definition ask {A} (f : D -> A) : C A := outside (fun d => (f d, d)).

(** [printf] of a line; [fprintf(stderr, ...)] of a line. *)
Definition print (line : string) : C unit :=
  fun c => (tt, mkConsole (co_driver c) (co_trace c) (co_log c) (co_out c ++ [line]) (co_err c) (co_created c)).

Definition eprint (line : string) : C unit :=
  fun c => (tt, mkConsole (co_driver c) (co_trace c) (co_log c) (co_out c) (co_err c ++ [line]) (co_created c)).

(** [Log::Write]; a call guarded by [WouldLog] is the same call. *)
Definition note (level : LogLevel) (line : string) : C unit :=
  fun c => (tt, mkConsole (co_driver c) (co_trace c) (co_log c ++ [(level, line)]) (co_out c) (co_err c)
                  (co_created c)).

(** Runs an operation of a session. *)
Definition on {A} (s : Session) (m : ST (World D) A) : C (A * Session) :=
  fun c => let '(a, w) := m (mkWorld s (co_driver c) (co_trace c) (co_log c) (co_out c)) in
           ((a, w_session w),
            mkConsole (w_driver w) (w_trace w) (w_log w) (w_out w) (co_err c) (co_created c)).

Definition launched {A} (m : ST (LaunchState D) A) : C A :=
  fun c => let '(a, s) := m (mkLaunchState (co_driver c) (co_created c)) in
           (a, mkConsole (ls_os s) (co_trace c) (co_log c) (co_out c) (co_err c) (ls_created s)).

Fixpoint print_all (lines : list string) : C unit :=
  match lines with [] => mret tt | line :: rest => print line;; print_all rest end.
End Primitives.

(** ** Text *)

Definition spaces (n : nat) : string := of_chars (replicate n " "%char).

(** [%-*s]: the text padded on the right to a width. *)
Definition pad (width : nat) (text : string) : string := text +:+ spaces (width - String.length text).

Definition kUniqueAltitudeBase : Z := 450000.
Definition kUniqueAltitudeSpan : Z := 40000.
Definition separator_line : string := "------------------------------------------------------------".

Definition step_line (step : StepResult) : string :=
  pad 4 (if sr_ok step then "ok" else "fail") +:+ " " +:+ pad 40 (sr_step step) +:+ " " +:+
  pad 10 (HexResult (sr_result step)) +:+ " " +:+ DescribeResult (sr_result step).

Definition step_log (step : StepResult) : string :=
  (if sr_ok step then "ok" else "fail") +:+ " " +:+ sr_step step +:+ " " +:+ HexResult (sr_result step) +:+
  " " +:+ DescribeResult (sr_result step).

(** NTSTATUS exception codes are negative results. *)
Definition IsFault (result : Z) : bool := Z.land (u32 result) kNtStatusErrorMask =? kNtStatusErrorMask.

Section Console.
  Context {D : Type} (host : Host D).
  Local Abbreviation C := (ST (Console D)).
  Local Abbreviation tokens := (ho_tokens host).

Definition PrintSeparator : C unit := print separator_line.

Definition Fail (message : string) : C Z := eprint message;; mret 1.

Definition RequireTcbOrFail : C Z :=
  required ← outside (RequireSystemWithTcb tokens);
  match required with Err error => Fail error | Ok _ => mret 0 end.

Definition UniqueClientSpec (prefix : string) : C ClientSpec :=
  tick ← outside (env_GetTickCount64 (ho_env host));
  let stamp := Z.lxor (u32 tick) (u32 (ho_GetCurrentProcessId host)) in
  mret (mkClientSpec (prefix +:+ "-" +:+ of_chars (hex_lower_fixed 8 stamp))
          (dec (kUniqueAltitudeBase + stamp mod kUniqueAltitudeSpan)) null_guid false).

Definition PrintTrustState : C unit :=
  secure_boot ← ask (fun d => QuerySecureBootEnabled (ho_secure_boot host d));
  '(attribute, queried) ← ask (QueryWespPermission tokens);
  tcb ← ask (QueryPrivilege tokens SE_TCB_NAME);
  is_system ← ask (IsSystemAccount tokens);
  print ("account: " +:+ (if (is_system : bool) then "SYSTEM" else "not-SYSTEM"));;
  elevated ← ask (IsElevated tokens (ho_elevation host));
  print ("elevated: " +:+ (if (elevated : bool) then "yes" else "no"));;
  print ("tcb: " +:+ (if pv_present tcb then if pv_enabled tcb then "enabled" else "present" else "absent"));;
  protection ← ask (fun d => QueryCurrentProcess (ho_protection host d));
  print ("protection: " +:+ DescribeProtection protection);;
  print ("attribute: " +:+ Describe attribute);;
  (match queried with
   | Err error => if negb (is_empty error) then print ("attribute-error: " +:+ error) else mret tt
   | Ok _ => mret tt
   end);;
  integrity ← ask (fun d => QueryCodeIntegrity (ho_code_integrity host d));
  print ("codeintegrity: " +:+ DescribeCodeIntegrity integrity);;
  if sb_queried secure_boot
  then print ("secureboot: " +:+ (if sb_enabled secure_boot then "on" else "off"))
  else print ("secureboot: unknown (" +:+ sb_error secure_boot +:+ ")").

Definition CommandNeedsSystemContext (o : Options) : bool :=
  (op_command o =? "token")%string &&
  match op_positional o with [] => false | sub :: _ => negb (sub =? "status")%string end.

Definition status_text (status : NTSTATUS) : string := "0x" +:+ of_chars (hex_upper_fixed 8 (u32 status)).

(** What is known when a query of the probe fails. *)
Definition failed_probe (is_system is_tcb is_ppl test_signing : bool) (error : string) : ProvisioningContext :=
  mkContext is_system is_tcb is_ppl test_signing false 0 false error.

Definition probe_context (d : D) : ProvisioningContext :=
  let is_system := IsSystemAccount tokens d in
  let tcb := QueryPrivilege tokens SE_TCB_NAME d in
  let is_tcb := pv_present tcb && pv_enabled tcb in
  let prot := QueryCurrentProcess (ho_protection host d) in
  if negb (pr_queried prot) || (pr_query_status prot <? 0) then
    failed_probe is_system is_tcb false false
      ("failed to query process protection: status " +:+ status_text (pr_query_status prot))
  else
    let is_ppl := IsAntimalwareLight prot in
    let ci := QueryCodeIntegrity (ho_code_integrity host d) in
    if negb (ci_queried ci) || (ci_query_status ci <? 0) then
      failed_probe is_system is_tcb is_ppl false
        ("failed to query code integrity policy: status " +:+ status_text (ci_query_status ci))
    else
      match QueryWespPermission tokens d with
      | (_, Err error) =>
          failed_probe is_system is_tcb is_ppl (TestSigning ci)
            ("failed to query primary token security attributes: " +:+ error)
      | (attr, Ok _) =>
          mkContext is_system is_tcb is_ppl (TestSigning ci) (ta_present attr) (ta_permission attr) true ""
      end.

Definition ProbeCurrentTrustContext : C ProvisioningContext := ask probe_context.

Definition HopToWorker (o : Options) : C Z :=
  status ← RequireTcbOrFail;
  if negb (status =? 0) then mret status
  else
    note Info "parent: SYSTEM+TCB verified, launching worker";;
    outcome ← launched (LaunchWorker (ho_processes host) o);
    if negb (lo_created outcome) then
      note Error ("parent: worker launch failed: " +:+ lo_error outcome);;
      Fail (lo_error outcome)
    else
      note Info ("parent: worker exited " +:+ dec (lo_exit_code outcome));;
      mret (i32 (lo_exit_code outcome)).

Definition PrepareThisProcess (o : Options) (plan : TrustPlan) : C Z :=
  status ← RequireTcbOrFail;
  if negb (status =? 0) then mret status
  else if tp_clean_needed plan || op_clear_attribute o then
    deleted ← outside (DeleteWespPermission tokens);
    match deleted with
    | Err e => Fail ("could not clear " +:+ kWespPermissionClaim +:+ ": " +:+ e)
    | Ok _ =>
        note Info ("worker: pre-existing " +:+ kWespPermissionClaim +:+
                   " attribute cleared for test-signing compatibility");;
        mret 0
    end
  else if tp_stamp_needed plan then
    stamped ← outside (SetWespPermission tokens (tp_target_permission plan));
    match stamped with
    | Err e => Fail ("could not set " +:+ kWespPermissionClaim +:+ ": " +:+ e)
    | Ok _ =>
        note Info ("worker: " +:+ kWespPermissionClaim +:+ " set to " +:+ dec (tp_target_permission plan));;
        mret 0
    end
  else mret 0.

Definition EnsureWorkerOrTcb (o : Options) (plan : TrustPlan) : C Z :=
  if CommandNeedsWorker o then PrepareThisProcess o plan
  else if CommandNeedsSystemContext o then RequireTcbOrFail
  else mret 0.

(** ** Sessions *)

Definition PrintSteps (s : Session) : C unit := print_all (step_line <$> steps s).

Fixpoint print_warnings (l : list string) : C unit :=
  match l with
  | [] => mret tt
  | warning :: rest => print ("warning: " +:+ warning);; note Warning warning;; print_warnings rest
  end.

Definition PrintWarnings (s : Session) : C unit := print_warnings (warnings s).

Fixpoint log_steps (l : list StepResult) : C unit :=
  match l with [] => mret tt | step :: rest => note Info (step_log step);; log_steps rest end.

Definition LogSteps (s : Session) : C unit := log_steps (steps s).

Definition ReportSession (s : Session) (with_log : bool) : C unit :=
  PrintSteps s;; (if with_log then LogSteps s else mret tt);; PrintWarnings s.

(** A loaded library in place of the host's. *)
Definition with_api (api : EspApi) (e : Env D) : Env D :=
  mkEnv D api (env_call e) (env_addr e) (env_paths e) (env_WideCharToMultiByte e) (env_CoCreateGuid e)
    (env_memory e) (env_set_memory e) (env_hooks e) (env_region e) (env_view e) (env_GetTickCount64 e)
    (env_CreateEvent e) (env_WaitForSingleObject e) (env_GetQueuedCompletionStatus e) (env_sleep e).
End Console.

(** ** The token of the worker *)

Section Prepared.
  Context {D : Type} (host : Host D).
  Local Abbreviation tokens := (ho_tokens host).
  Implicit Types (c : Console D).

Lemma RequireTcbOrFail_run c :
  let '(code, c') := RequireTcbOrFail host c in
  code = (if is_Ok (RequireSystemWithTcb tokens (co_driver c)).1 then 0 else 1) /\
  co_driver c' = (RequireSystemWithTcb tokens (co_driver c)).2.
Proof.
  unfold RequireTcbOrFail. rewrite st_bind_unfold. unfold outside.
  by destruct (RequireSystemWithTcb tokens (co_driver c)) as [[[]|error] d].
Qed.

(** What preparing leaves on the token, by what was to be done. *)
Definition token_reads (present : bool) (permission : Z) (d : D) : Prop :=
  exists verified, QueryWespPermission tokens d = (verified, Ok tt) /\ ta_present verified = present /\
    (present = true -> ta_permission verified = permission).

Lemma PrepareThisProcess_reads o plan c :
  let '(code, c') := PrepareThisProcess host o plan c in
  code = 0 ->
  is_Ok (RequireSystemWithTcb tokens (co_driver c)).1 = true /\
  if tp_clean_needed plan || op_clear_attribute o then token_reads false 0 (co_driver c')
  else if tp_stamp_needed plan then token_reads true (tp_target_permission plan) (co_driver c')
  else co_driver c' = (RequireSystemWithTcb tokens (co_driver c)).2.
Proof.
  unfold PrepareThisProcess. rewrite st_bind_unfold. pose proof (RequireTcbOrFail_run c) as Hr.
  destruct (RequireTcbOrFail host c) as [code c1]. destruct Hr as [-> Hd]. cbn [fst snd].
  destruct (is_Ok _); cbn [Z.eqb negb]; [|done].
  destruct (tp_clean_needed plan || op_clear_attribute o).
  { rewrite st_bind_unfold. unfold outside. pose proof (DeleteWespPermission_reads tokens (co_driver c1)) as Hdel.
    destruct (DeleteWespPermission tokens (co_driver c1)) as [[[]|error] d]; cbn; [|done].
    intros _. split; [done|]. destruct (Hdel eq_refl) as (verified & Hq & Hp). exists verified. by split_and!. }
  destruct (tp_stamp_needed plan); [|by intros _].
  rewrite st_bind_unfold. unfold outside.
  pose proof (SetWespPermission_reads tokens (tp_target_permission plan) (co_driver c1)) as Hset.
  destruct (SetWespPermission tokens _ (co_driver c1)) as [[[]|error] d]; cbn; [|done].
  intros _. split; [done|]. destruct (Hset eq_refl) as (verified & Hq & Hp & Hperm). exists verified. by split_and!.
Qed.

Lemma probe_context_attribute d present permission :
  token_reads present permission d -> pc_probe_ok (probe_context host d) = true ->
  pc_attribute_present (probe_context host d) = present /\
  (present = true -> pc_attribute_permission (probe_context host d) = permission).
Proof.
  intros (verified & Hq & Hp & Hperm). unfold probe_context. repeat case_if; [done..|]. by rewrite Hq.
Qed.

Lemma plan_stamped o ctx ctx' :
  pc_is_ppl ctx' = pc_is_ppl ctx -> pc_attribute_present ctx' = true ->
  pc_attribute_permission ctx' = tp_target_permission (EvaluateTrustPlan o ctx) ->
  tp_effective_no_provision (EvaluateTrustPlan o ctx) = false ->
  tp_stamp_needed (EvaluateTrustPlan o ctx') = false.
Proof.
  intros Hppl Hpresent Hperm Heff. unfold EvaluateTrustPlan, worker_plan, attribute_plan in *.
  rewrite Hpresent, Hperm. revert Heff. unfold provisioning_plan. rewrite Hppl.
  repeat case_if; cbn; intros; simplify_eq; try done; rewrite Z.eqb_refl; done.
Qed.

Lemma plan_cleaned o ctx' :
  pc_attribute_present ctx' = false -> tp_clean_needed (EvaluateTrustPlan o ctx') = false.
Proof.
  intros Hpresent. unfold EvaluateTrustPlan, worker_plan, attribute_plan. rewrite Hpresent.
  unfold provisioning_plan. by repeat case_if.
Qed.

Lemma plan_work_exclusive o ctx :
  tp_stamp_needed (EvaluateTrustPlan o ctx) = true ->
  tp_effective_no_provision (EvaluateTrustPlan o ctx) = false /\ tp_clean_needed (EvaluateTrustPlan o ctx) = false.
Proof.
  unfold EvaluateTrustPlan, worker_plan, attribute_plan, provisioning_plan. by repeat case_if.
Qed.

(** C16 When the preparation of a worker command reports success, the process is SYSTEM
    with the TCB privilege and the work of its trust plan is done: read again, the token
    carries exactly the permission the plan wanted, or no attribute when it was to be
    cleared; and the plan made of a new probe asks for nothing of this work again. *)
Theorem EnsureWorkerOrTcb_prepares o c :
  let ctx := probe_context host (co_driver c) in
  let plan := EvaluateTrustPlan o ctx in
  let '(code, c') := EnsureWorkerOrTcb host o plan c in
  let ctx' := probe_context host (co_driver c') in
  code = 0 -> CommandNeedsWorker o = true ->
  is_Ok (RequireSystemWithTcb tokens (co_driver c)).1 = true /\
  (tp_clean_needed plan || op_clear_attribute o = true ->
     token_reads false 0 (co_driver c') /\
     (pc_probe_ok ctx' = true -> tp_clean_needed (EvaluateTrustPlan o ctx') = false)) /\
  (tp_stamp_needed plan = true -> op_clear_attribute o = false ->
     token_reads true (tp_target_permission plan) (co_driver c') /\
     (pc_probe_ok ctx' = true -> pc_is_ppl ctx' = pc_is_ppl ctx ->
      tp_stamp_needed (EvaluateTrustPlan o ctx') = false)).
Proof.
  cbv zeta. set (plan := EvaluateTrustPlan o _).
  pose proof (PrepareThisProcess_reads o plan c) as Hp. unfold EnsureWorkerOrTcb.
  destruct (CommandNeedsWorker o); [|by destruct (if CommandNeedsSystemContext o then _ else _)].
  destruct (PrepareThisProcess host o plan c) as [code c']. intros Hcode _.
  destruct (Hp Hcode) as [Htcb Hreads]. split; [done|]. split.
  - intros Hw. rewrite Hw in Hreads. split; [done|]. intros Hok.
    apply plan_cleaned. by destruct (probe_context_attribute _ _ _ Hreads Hok).
  - intros Hs Hclear. destruct (plan_work_exclusive o _ Hs) as [Heff Hclean]. fold plan in Hclean.
    rewrite Hclean, Hclear, Hs in Hreads. cbn [orb] in Hreads. split; [done|]. intros Hok Hppl.
    destruct (probe_context_attribute _ _ _ Hreads Hok) as [Hpres Hperm].
    eapply plan_stamped; [exact Hppl|done|by apply Hperm|done].
Qed.
End Prepared.
