(* ===== verification/RulesCommands.v ===== *)
(** The commands on rules, clients and queues (src/esptool/src/cli/Commands.cpp): exports,
    status, connect, rules, monitor, clients, unregister, enum-rules, remove-rules,
    persist-rules, open-queue and trust. *)
From S2P Require Import Logging.
From S2P Require Import Prelude Text Core Events RuleModel RuleParser EnforceCompat Api Session.
From S2P Require Import FilterBuild Refs Pump RuleConfig RuleInstall Options Launch Console.

Definition kLifetimeFfiMin : Z := 1.
Definition kLifetimeFfiMax : Z := 4.

Inductive RulesPrep := FailedConnect | FailedQueue | FailedRemoveRules | FailedInstall | Partial | PrepOk.

Definition prep_ok (prep : RulesPrep) : bool := match prep with PrepOk => true | _ => false end.

Definition as_persistent (document : RuleDocument) : RuleDocument :=
  mkRuleDocument (doc_client document)
    ((fun spec => mkRuleSpec (rs_name spec) (rs_eventType spec) (rs_eventName spec) Persistent (rs_flags spec)
        (rs_action spec) (rs_actionName spec) (rs_selector_override spec) (rs_modifier_override spec)
        (rs_modify_kind_override spec) (rs_filter spec) (rs_queries spec)) <$> doc_rules document)
    (doc_collections document) (doc_sourcePath document).

Section Commands.
  Context {D : Type} (host : Host D) (api : EspApi).
  Local Abbreviation C := (ST (Console D)).
  Local Abbreviation env := (with_api api (ho_env host)).

(** ** Sessions of a command *)

(** The destructor. *)
Definition destroy (s : Session) : C unit := '(_, _) ← on s (Disconnect env); mret tt.

(** [session.Disconnect()], and the destructor at the end of the function. *)
Definition finish (s : Session) (code : Z) : C Z :=
  '(_, s) ← on s (Disconnect env); destroy s;; mret code.

(** The report, the disconnection and the exit code. *)
Definition report_and_finish (s : Session) (code : Z) : C Z := ReportSession s false;; finish s code.

Definition RunConnectedAction (action : ST (World D) unit) : C Z :=
  '(_, s) ← on new_session (Connect env empty_client);
  '(_, s) ← on s action;
  report_and_finish s 0.

(** ** Library and trust *)

Definition RunExports : C Z :=
  PrintSeparator;;
  print (pad 44 "export" +:+ " " +:+ pad 6 "arity" +:+ " resolved");;
  print_all ((fun d => pad 44 (ed_name d) +:+ " " +:+ pad 6 (dec (Z.of_nat (ed_arity d))) +:+ " " +:+
                       (if is_resolved d then "yes" else "no")) <$> api_exports api);;
  PrintSeparator;;
  print ("resolved " +:+ dec (Z.of_nat (ResolvedCount api)) +:+ " of " +:+
         dec (Z.of_nat (length (api_exports api))));;
  print ("missing " +:+ dec (Z.of_nat (length (Missing api))) +:+ ":" +:+
         String.concat "" ((fun name => " " +:+ name) <$> Missing api));;
  mret 0.

Definition RunStatus : C Z :=
  print ("dll: " +:+ ToUtf8 (env_WideCharToMultiByte (ho_env host)) (api_loaded_path api));;
  print ("resolved " +:+ dec (Z.of_nat (ResolvedCount api)) +:+ " of " +:+
         dec (Z.of_nat (length (api_exports api))));;
  PrintTrustState host;;
  mret 0.

Definition RunConnect : C Z :=
  PrintTrustState host;; PrintSeparator;;
  '(connected, s) ← on new_session (Connect env empty_client);
  '(_, s) ← on s (CreateQueue env);
  '(_, s) ← on s (ArmNotification env);
  report_and_finish s (if (connected : bool) then 0 else 1).

Definition RunTrust : C Z :=
  PrintTrustState host;; PrintSeparator;;
  client ← UniqueClientSpec host "esptool-trust";
  '(connected, s) ← on new_session (Connect env client);
  '(_, s) ← on s (CreateQueue env);
  report_and_finish s (if (connected : bool) then 0 else 1).

(** ** Left-over clients *)

(** The probe of one client, on a session of its own: whether it has to be preserved. *)
Definition preserve_client (id : Guid) : C bool :=
  '(connected, checker) ← on new_session (ConnectExisting env id);
  if (connected : bool) then
    '(ids, checker) ← on checker (EnumerateRuleIds env kLifetimePersistFfi);
    '(_, checker) ← on checker (Disconnect env);
    destroy checker;;
    mret (negb ids.1 || (0 <? ids.2))
  else destroy checker;; mret true.

Fixpoint clean_clients (release_persistent : bool) (ids : list Guid) (probe : Session) (cleared : Z)
    : C (Z * Session) :=
  match ids with
  | [] => mret (cleared, probe)
  | id :: rest =>
      preserved ← (if release_persistent then mret false else preserve_client id);
      if (preserved : bool) then clean_clients release_persistent rest probe cleared
      else
        '(released, probe) ← on probe (UnregisterClientId env id);
        clean_clients release_persistent rest probe (if (released : bool) then u32 (cleared + 1) else cleared)
  end.

Definition CleanOrphanClients (release_persistent : bool) (command : string) : C Z :=
  '(clients, probe) ← on new_session (EnumerateClients env);
  let '(enumerated, _, ids) := clients in
  if negb enumerated || negb (nonempty ids) then destroy probe;; mret 0
  else
    '(cleared, probe) ← clean_clients release_persistent ids probe 0;
    (if 0 <? cleared
     then note Info (command +:+ ": released " +:+ dec cleared +:+ " leftover disconnected client(s) on start")
     else mret tt);;
    destroy probe;;
    mret cleared.

(** ** Rules *)

Definition ApplyBypass : C (result unit) :=
  outside (fun d =>
    let '(loaded, protect) := ho_bypass host d in
    let '(r, mem) := ApplyEventTypeBypassPatch loaded protect (env_memory (ho_env host) d) in
    (r, env_set_memory (ho_env host) mem d)).

(** The steps after the connection. *)
Definition prepare_connected (s : Session) (document : RuleDocument) (o : Options) : C (RulesPrep * Session) :=
  let s := s <| enforce_compat := op_enforce_compat o |> in
  bypassed ← (if op_bypass_eventtype o then ApplyBypass else mret (Ok tt));
  match bypassed with
  | Err error => note Error ("event-type bypass failed: " +:+ error);; mret (FailedInstall, s)
  | Ok _ =>
      '(queued, s) ← (if DocumentNeedsQueue document then on s (CreateQueue env) else mret (true, s));
      if negb queued then mret (FailedQueue, s)
      else
        '(removed, s) ← on s (RemoveAllRules env);
        if negb removed then
          note Error "rules: EspRemoveAllRulesForClient failed on start";; mret (FailedRemoveRules, s)
        else
          '(status, s) ← on s (InstallRules env document);
          mret (match status with
                | Failed_ => FailedInstall
                | RuleInstall.Partial => Partial
                | Complete => PrepOk
                end, s)
  end.

Definition PrepareRulesSession (s : Session) (document : RuleDocument) (o : Options) : C (RulesPrep * Session) :=
  '(connected, s) ← on s (Connect env (doc_client document));
  if negb connected then mret (FailedConnect, s) else prepare_connected s document o.

(** [None] when no path was given. *)
Definition LoadRuleDocument (o : Options) (command : string) : C (option (result RuleDocument)) :=
  if is_empty (op_rules_path o) then eprint (command +:+ " requires --rules <path>");; mret None
  else
    parsed ← ask (fun d => ParseRuleFile (ho_XmlRead host) (ho_apartment host) (ho_read_rules host d)
                             (op_rules_path o));
    mret (Some parsed).

Definition Pump (o : Options) (s : Session) (max_events : Z) : C Session :=
  '(_, s) ← (if op_iocp o then on s (PumpNotificationsIocp env (op_duration_ms o) max_events)
             else on s (PumpNotifications env (op_duration_ms o) max_events));
  mret s.

Definition sleep_for (milliseconds : Z) : C unit :=
  outside (fun d => (tt, env_sleep (ho_env host) milliseconds d)).

(** The session is kept for the given time, with its notifications pumped when the
    document has a queue. *)
Definition hold_rules (o : Options) (document : RuleDocument) (s : Session) : C Session :=
  print ("rules-hold " +:+ dec (op_duration_ms o));;
  start_tick ← outside (env_GetTickCount64 (ho_env host));
  s ← (if DocumentNeedsQueue document then
         note Info "rules: rules installed, pumping notifications";;
         s ← Pump o s (if op_max_notifications_set o then op_max_notifications o else u32_max);
         note Info ("rules: received " +:+ dec (notifications_received s) +:+ " notifications");;
         now ← outside (env_GetTickCount64 (ho_env host));
         let elapsed := u64 (now - start_tick) in
         (if elapsed <? op_duration_ms o then sleep_for (op_duration_ms o - elapsed) else mret tt);;
         mret s
       else
         note Info "rules: holding session (in-path rules active, no user-mode queue)";;
         sleep_for (op_duration_ms o);;
         mret s);
  note Info "rules: hold complete";;
  mret s.

Definition RunRules (o : Options) : C Z :=
  loaded ← LoadRuleDocument o "rules";
  match loaded with
  | None => mret 1
  | Some (Err error) => Fail ("rule parse error: " +:+ error)
  | Some (Ok document) =>
      CleanOrphanClients (op_fresh o) "rules";;
      '(prep, s) ← PrepareRulesSession new_session document o;
      match prep with
      | FailedRemoveRules => report_and_finish s 1
      | _ =>
          (match prep with
           | Partial => note Error ("rules: partial install; the committed rules are active but at least " +:+
                                    "one rule was refused")
           | _ => mret tt
           end);;
          ReportSession s false;;
          s ← (if prep_ok prep && op_duration_set o && (0 <? op_duration_ms o)
               then hold_rules o document s else mret s);
          '(_, s) ← on s (Disconnect env);
          note Info "rules: session disconnected";;
          destroy s;;
          mret (if prep_ok prep then 0 else 1)
      end
  end.

Definition prep_error (prep : RulesPrep) : string :=
  match prep with
  | FailedConnect => "monitor: EspConnectClient failed"
  | FailedQueue => "monitor: EspCreateEventQueue failed"
  | FailedRemoveRules => "monitor: EspRemoveAllRulesForClient failed on start"
  | Partial => "monitor: partial install; at least one rule was refused, so the " +:+
               "monitor is not armed for the whole document"
  | _ => "monitor: InstallRules failed"
  end.

Definition RunMonitor (o : Options) : C Z :=
  loaded ← LoadRuleDocument o "monitor";
  match loaded with
  | None => mret 1
  | Some (Err error) => let message := "rule parse error: " +:+ error in note Error message;; Fail message
  | Some (Ok document) =>
      note Info ("monitor: parsed " +:+ dec (Z.of_nat (length (doc_rules document))) +:+ " rules from " +:+
                 op_rules_path o);;
      CleanOrphanClients (op_fresh o) "monitor";;
      '(prep, s) ← PrepareRulesSession new_session document o;
      if negb (prep_ok prep) then note Error (prep_error prep);; ReportSession s true;; finish s 1
      else
        note Info "monitor: rules installed, pumping";;
        s ← Pump o s (op_max_notifications o);
        ReportSession s true;;
        print ("received " +:+ dec (notifications_received s) +:+ " notifications");;
        note Info ("monitor: received " +:+ dec (notifications_received s));;
        '(_, s) ← on s (Disconnect env);
        note Info "monitor: session disconnected";;
        destroy s;;
        mret (if 0 <? notifications_received s then 0 else 1)
  end.

Definition RunPersistRules (o : Options) : C Z :=
  loaded ← LoadRuleDocument o "persist-rules";
  match loaded with
  | None => mret 1
  | Some (Err error) => Fail ("rule parse error: " +:+ error)
  | Some (Ok document) =>
      CleanOrphanClients (op_fresh o) "persist-rules";;
      '(prep, s) ← PrepareRulesSession (new_session <| unregister_on_disconnect := false |>)
                     (as_persistent document) o;
      '(ids, s) ← (if prep_ok prep then on s (EnumerateRuleIds env kLifetimePersistFfi)
                   else mret ((false, 0), s));
      let '(listed, count) := (ids : bool * Z) in
      print ("persist-rules " +:+ dec count);;
      let kept := listed && (1 <=? count) in
      let s := if kept then s else s <| unregister_on_disconnect := true |> in
      report_and_finish s (if kept then 0 else 1)
  end.

Fixpoint enum_lifetimes (lifetimes : list Z) (s : Session) : C Session :=
  match lifetimes with
  | [] => mret s
  | lifetime :: rest =>
      '(ids, s) ← on s (EnumerateRuleIds env lifetime);
      print ("rules-lifetime-" +:+ dec lifetime +:+ " " +:+ dec ids.2);;
      enum_lifetimes rest s
  end.

Definition RunEnumRules : C Z :=
  '(_, s) ← on new_session (Connect env empty_client);
  '(all, s) ← on s (EnumerateAllRules env);
  print ("rules " +:+ dec all.2);;
  s ← enum_lifetimes (seqZ kLifetimeFfiMin (kLifetimeFfiMax - kLifetimeFfiMin + 1)) s;
  report_and_finish s 0.

Definition RunRemoveRules : C Z := RunConnectedAction (_ ← RemoveAllRules env; mret tt).

(** ** Clients *)

Definition RunClients : C Z :=
  '(clients, s) ← on new_session (EnumerateClients env);
  let '(ok, count, ids) := clients in
  print ("registered-clients " +:+ dec count);;
  print_all ((fun id => "client " +:+ FormatGuid id) <$> ids);;
  report_and_finish s (if (ok : bool) then 0 else 1).

Fixpoint unregister_each (ids : list Guid) (s : Session) (cleared : nat) : C (nat * Session) :=
  match ids with
  | [] => mret (cleared, s)
  | id :: rest =>
      '(ok, s) ← on s (UnregisterClientId env id);
      unregister_each rest s (if (ok : bool) then S cleared else cleared)
  end.

Definition RunUnregister (o : Options) : C Z :=
  if op_all o then
    '(clients, s) ← on new_session (EnumerateClients env);
    let '(ok, _, ids) := clients in
    if negb ok then report_and_finish s 1
    else
      '(cleared, s) ← unregister_each ids s 0;
      print ("unregistered " +:+ dec (Z.of_nat cleared));;
      report_and_finish s (if (cleared =? length ids)%nat then 0 else 1)
  else if is_empty (op_guid o) then eprint "unregister requires --guid or --all";; mret 2
  else
    match ParseGuid (op_guid o) with
    | None => eprint "unregister --guid is not a valid GUID";; mret 2
    | Some id =>
        '(ok, s) ← on new_session (UnregisterClientId env id);
        report_and_finish s (if (ok : bool) then 0 else 1)
    end.

(** ** Queues *)

(** The opener's attempt, then the owner's. *)
Definition RunOpenQueue : C Z :=
  client ← UniqueClientSpec host "esptool-oq1";
  '(connected, owner) ← on new_session (Connect env client);
  '(queued, owner) ← (if (connected : bool) then on owner (CreateQueue env) else mret (false, owner));
  if negb queued then report_and_finish owner 1
  else
    '(queue_id, owner) ← on owner (GetQueueId env);
    if negb queue_id.1 then report_and_finish owner 1
    else
      let id := from_option id null_guid (head queue_id.2) in
      client ← UniqueClientSpec host "esptool-oq2";
      '(connected, opener) ← on new_session (Connect env client);
      '(second, opener) ← (if (connected : bool) then on opener (OpenQueueById env id) else mret (false, opener));
      '(opened, owner) ← (if (second : bool) then mret (true, owner) else on owner (OpenQueueById env id));
      print ("open-queue " +:+ (if (opened : bool) then "ok" else "fail"));;
      ReportSession owner false;;
      ReportSession opener false;;
      '(_, opener) ← on opener (Disconnect env);
      '(_, owner) ← on owner (Disconnect env);
      destroy opener;; destroy owner;;
      mret (if (opened : bool) then 0 else 1).
End Commands.
