(* ===== verification/RulesSpec.v ===== *)
(** What the rule commands guarantee: the clean-up of left-over clients, the end of a
    session, and the exit codes of the commands that install rules. *)
From S2P Require Import Logging.
From S2P Require Import Prelude Text Core Events RuleModel RuleParser Api Token Session Options.
From S2P Require Import FilterBuild RuleInstall RuleInstallRun RuleInstallSpec Launch Console RulesCommands.

(** ** Sessions on the console *)

Section Console.
  Context {D : Type} (host : Host D) (api : EspApi).
  Local Abbreviation env := (with_api api (ho_env host)).
  Implicit Types (c : Console D) (s : Session).

(** The world in which a session operation of a command runs. *)
Definition world_of s c : World D := mkWorld s (co_driver c) (co_trace c) (co_log c) (co_out c).

(** The library calls made so far. *)
Definition console_calls c : list (string * list Arg) := omap call_of (co_trace c).

Lemma on_run {A} s (m : ST (World D) A) c :
  on s m c = (((m (world_of s c)).1, w_session (m (world_of s c)).2),
              mkConsole (w_driver (m (world_of s c)).2) (w_trace (m (world_of s c)).2) (w_log (m (world_of s c)).2)
                (w_out (m (world_of s c)).2) (co_err c) (co_created c)).
Proof. unfold on, world_of. by destruct (m _). Qed.

(** [c'] made these calls more than [c]. *)
Definition extends c (new : list Event) c' : Prop := co_trace c' = co_trace c ++ new.

Lemma extends_refl c : extends c [] c.
Proof. unfold extends. by rewrite app_nil_r. Qed.

Lemma extends_trans c1 e1 c2 e2 c3 : extends c1 e1 c2 -> extends c2 e2 c3 -> extends c1 (e1 ++ e2) c3.
Proof. unfold extends. intros H ->. by rewrite H, app_assoc. Qed.

(** A computation of the console that leaves the library alone. *)
Definition silent {A} (m : ST (Console D) A) : Prop := forall c, extends c [] (m c).2.

Lemma silent_bind {A B} (m : ST (Console D) A) (f : A -> ST (Console D) B) :
  silent m -> (forall a, silent (f a)) -> silent (m ≫= f).
Proof.
  intros Hm Hf c. rewrite st_bind_unfold. rewrite <- (app_nil_r []).
  eapply extends_trans; [apply Hm|apply Hf].
Qed.

Lemma silent_ret {A} (a : A) : silent (mret a).
Proof. intros c. apply extends_refl. Qed.

Lemma silent_print line : silent (print line).
Proof. intros c. symmetry. apply app_nil_r. Qed.

Lemma silent_eprint line : silent (eprint line).
Proof. intros c. symmetry. apply app_nil_r. Qed.

Lemma silent_note level line : silent (note level line).
Proof. intros c. symmetry. apply app_nil_r. Qed.

Lemma silent_outside {A} (f : D -> A * D) : silent (outside f).
Proof. intros c. unfold outside. destruct (f _). symmetry. apply app_nil_r. Qed.

Lemma silent_ask {A} (f : D -> A) : silent (ask f).
Proof. apply silent_outside. Qed.

Lemma silent_print_all lines : silent (print_all lines).
Proof.
  induction lines as [|line lines IH]; [apply silent_ret|].
  apply silent_bind; [apply silent_print|done].
Qed.

Lemma silent_warnings l : silent (print_warnings l).
Proof.
  induction l as [|line l IH]; [apply silent_ret|].
  apply silent_bind; [apply silent_print|intros _]. apply silent_bind; [apply silent_note|done].
Qed.

Lemma silent_log_steps l : silent (log_steps l).
Proof.
  induction l as [|step l IH]; [apply silent_ret|]. apply silent_bind; [apply silent_note|done].
Qed.

Lemma silent_fail message : silent (Fail message).
Proof. apply silent_bind; [apply silent_eprint|intros; apply silent_ret]. Qed.

Lemma silent_report s with_log : silent (ReportSession s with_log).
Proof.
  apply silent_bind; [apply silent_print_all|intros _].
  apply silent_bind; [destruct with_log; [apply silent_log_steps|apply silent_ret]|intros _].
  apply silent_warnings.
Qed.

(** *** The end of a session *)

(** The events are exactly these calls, with whatever the library replied. *)
Definition made (l : list (string * list Arg)) (new : list Event) : Prop := call_of <$> new = Some <$> l.

Lemma made_app l1 l2 new1 new2 : made l1 new1 -> made l2 new2 -> made (l1 ++ l2) (new1 ++ new2).
Proof. unfold made. intros H1 H2. by rewrite !fmap_app, H1, H2. Qed.

Lemma made_nil new : made [] new -> new = [].
Proof. by destruct new. Qed.

Lemma made_calls allowed new : Forall (event_allowed allowed) new -> made (omap call_of new) new.
Proof.
  unfold made. induction 1 as [|e new He _ IH]; [done|]. destruct e; [|done]. cbn in *. by rewrite IH.
Qed.

(** The closing calls of a session. *)
Definition closing (s : Session) (new : list Event) : Prop := made (released env s) new.

Lemma disconnect_frames w : framed (event_allowed (fun _ => true)) (fun _ => tt) w (Disconnect env w).2.
Proof.
  assert (forall closer l, frames (event_allowed (fun _ => true)) (fun _ => tt) (CloseOwned env closer l)) as Howned.
  { intros closer l. induction l; cbn [CloseOwned]; unfold CloseHandle; frame; done. }
  revert w. change (frames (event_allowed (fun _ => true)) (fun _ => tt) (Disconnect env)).
  unfold Disconnect, CloseQueue, CloseHandle, UnregisterIfOwned. frame; first [apply Howned|done|idtac].
Qed.

Lemma Disconnect_new w :
  exists new, w_trace (Disconnect env w).2 = w_trace w ++ new /\ closing (w_session w) new /\
    given_back (w_session (Disconnect env w).2).
Proof.
  destruct (disconnect_frames w) as [(new & Ht & Hall) _]. destruct (Disconnect_run env w) as [Hc Hg].
  exists new. split; [done|]. split; [|done]. unfold calls in Hc. rewrite Ht, omap_app in Hc.
  apply app_inv_head in Hc. apply made_calls in Hall. by rewrite Hc in Hall.
Qed.

Lemma disconnect_on s c :
  exists new s' c', on s (Disconnect env) c = ((tt, s'), c') /\ extends c new c' /\ closing s new /\ given_back s'.
Proof.
  rewrite on_run. destruct (Disconnect_new (world_of s c)) as (new & Ht & Hc & Hg).
  destruct (Disconnect env (world_of s c)) as [[] w]. cbn [fst snd] in *. eauto 10.
Qed.

Lemma destroy_run s c : exists new, extends c new (destroy host api s c).2 /\ closing s new.
Proof.
  unfold destroy. rewrite st_bind_unfold.
  destruct (disconnect_on s c) as (new & s' & c' & -> & He & Hc & _). eauto.
Qed.

(** Disconnecting and then destroying a session makes its closing calls once. *)
Lemma disconnect_destroy s c :
  exists new s' c', on s (Disconnect env) c = ((tt, s'), c') /\ extends c new c' /\ closing s new /\
    forall c1, extends c' [] c1 -> exists quiet, extends c1 quiet (destroy host api s' c1).2 /\
      closing s (new ++ quiet).
Proof.
  destruct (disconnect_on s c) as (new & s' & c' & E & He & Hc & Hg).
  exists new, s', c'. split_and!; try done. intros c1 _.
  destruct (destroy_run s' c1) as (quiet & Hq & Hr). exists quiet. split; [done|].
  unfold closing in *. rewrite (released_nothing env s' Hg) in Hr. apply made_nil in Hr. by rewrite Hr, app_nil_r.
Qed.

Lemma finish_run s code c :
  exists new, (finish host api s code c).1 = code /\ extends c new (finish host api s code c).2 /\ closing s new.
Proof.
  unfold finish. rewrite st_bind_unfold.
  destruct (disconnect_destroy s c) as (new & s' & c' & -> & He & _ & Hd). cbn [fst snd].
  destruct (Hd c' (extends_refl c')) as (quiet & Hq & Hc). rewrite st_bind_unfold.
  exists (new ++ quiet). split; [done|]. split; [|done]. by eapply extends_trans.
Qed.

Lemma report_and_finish_run s code c :
  exists new, (report_and_finish host api s code c).1 = code /\
    extends c new (report_and_finish host api s code c).2 /\ closing s new.
Proof.
  unfold report_and_finish. rewrite st_bind_unfold.
  destruct (finish_run s code (ReportSession s false c).2) as (new & H1 & H2 & H3).
  exists new. split; [done|]. split; [|done].
  rewrite <- (app_nil_l new). eapply extends_trans; [apply silent_report|done].
Qed.
End Console.

(** ** Left-over clients *)

Section CleanUp.
  Context {D : Type} (host : Host D) (api : EspApi).
  Local Abbreviation env := (with_api api (ho_env host)).
  Implicit Types (c : Console D) (id : Guid).

(** The client handle a probe opened is the only thing it gives back. *)
Definition disconnected (h : handle) (new : list Event) : Prop :=
  made (close_calls env "EspDisconnectClient" [h]) new.

Definition opened_ok (opened : Reply) : bool := Succeeded (re_result opened) && handle_ok (re_out opened).

(** What the probe of a client does, and whether it says to preserve the client: only
    a client that could be opened, whose persistent rules could be counted and that
    has none is not preserved. *)
Inductive probe_run id : bool -> list Event -> Prop :=
| probe_not_started : probe_run id true []
| probe_refused opened :
    opened_ok opened = false -> probe_run id true [Called "EspConnectClient" [AGuid id] opened]
| probe_unlisted opened closed :
    opened_ok opened = true -> available (env_api env) "EspEnumerateRuleIds" = false ->
    disconnected (re_out opened) closed ->
    probe_run id true (Called "EspConnectClient" [AGuid id] opened :: closed)
| probe_listed opened listed closed :
    opened_ok opened = true -> disconnected (re_out opened) closed ->
    probe_run id (negb (Succeeded (re_result listed)) || (0 <? re_count listed))
      ([Called "EspConnectClient" [AGuid id] opened;
        Called "EspEnumerateRuleIds" [AHandle (re_out opened); AWord kLifetimePersistFfi] listed] ++ closed).

(** The clean-up of a list of clients: with its number of released ones. *)
Inductive clean_run (release_persistent : bool) : list Guid -> nat -> list Event -> Prop :=
| clean_done : clean_run release_persistent [] 0 []
| clean_preserved id ids n probe events :
    release_persistent = false -> probe_run id true probe -> clean_run release_persistent ids n events ->
    clean_run release_persistent (id :: ids) n (probe ++ events)
| clean_released id ids n probe released reply events :
    (if release_persistent then probe = [] else probe_run id false probe) ->
    (if available (env_api env) "EspUnregisterClient"
     then released = [Called "EspUnregisterClient" [AGuid id] reply] else released = []) ->
    clean_run release_persistent ids n events ->
    clean_run release_persistent (id :: ids)
      ((if available (env_api env) "EspUnregisterClient" && Succeeded (re_result reply) then 1 else 0) + n)%nat
      (probe ++ released ++ events).

(** A session that only holds a client it connected to without registering it. *)
Definition only_client (h : handle) (s : Session) : Prop :=
  released env s = close_calls env "EspDisconnectClient" [h].

Lemma only_client_intro h s :
  notification s = 0 -> filters s = [] -> rules s = [] -> object_refs s = [] -> collections s = [] ->
  queue_handle s = 0 -> client_handle s = h -> registered_this_session s = false -> only_client h s.
Proof.
  unfold only_client, released. intros -> -> -> -> -> -> -> ->. unfold close_calls.
  repeat destruct (available _ _); cbn [handle_ok andb List.filter fmap list_fmap app Z.eqb negb];
    by rewrite ?app_nil_r.
Qed.

Lemma close_calls_null closer : close_calls env closer [0] = [].
Proof. unfold close_calls. by destruct (available _ _). Qed.

Lemma ConnectExisting_run id w :
  w_session w = new_session ->
  let '(ok, w') := ConnectExisting env id w in
  exists h, only_client h (w_session w') /\ client_handle (w_session w') = h /\
    if ok then exists opened, opened_ok opened = true /\ h = re_out opened /\
                w_trace w' = w_trace w ++ [Called "EspConnectClient" [AGuid id] opened]
    else h = 0 /\ (w_trace w' = w_trace w \/ exists opened, opened_ok opened = false /\
                w_trace w' = w_trace w ++ [Called "EspConnectClient" [AGuid id] opened]).
Proof.
  intros Hs. unfold ConnectExisting. rewrite st_bind_unfold, Require_run. cbn [fst snd].
  destruct (available (env_api env) "EspConnectClient") eqn:Ea; cbn [negb orb].
  2:{ cbn. exists 0. unfold warned. rewrite Ea, Hs. cbn. split; [by apply only_client_intro|]. auto. }
  rewrite warned_available by done. destruct (IsNull id).
  { cbn. exists 0. rewrite Hs. split; [by apply only_client_intro|]. auto. }
  rewrite st_bind_unfold. cbn [update fst snd].
  unfold connect_client, Adopt. run. rewrite Call_run. run. unfold called. cbn [client_id w_session w_trace w_driver w_log RecordStep update fst snd].
  set (opened := reply_of _ _ _ _). rewrite Failed_Succeeded, Hs.
  exists (if opened_ok opened then re_out opened else 0). unfold opened_ok.
  destruct (Succeeded (re_result opened)) eqn:Eo; cbn [negb orb andb];
    [destruct (handle_ok (re_out opened)) eqn:Eh; cbn [negb]|];
    (split; [by apply only_client_intro|split; [done|]]).
  - exists opened. unfold opened_ok. by rewrite Eo, Eh.
  - split; [done|]. right. exists opened. unfold opened_ok. by rewrite Eo, Eh.
  - split; [done|]. right. exists opened. unfold opened_ok. by rewrite Eo.
Qed.

Lemma only_client_quiet h s steps' warnings' :
  only_client h s -> only_client h (s <| steps := steps' |> <| warnings := warnings' |>).
Proof. done. Qed.

Lemma EnumerateRuleIds_run h w :
  only_client h (w_session w) -> client_handle (w_session w) = h -> handle_ok h = true ->
  let '(ids, w') := EnumerateRuleIds env kLifetimePersistFfi w in
  only_client h (w_session w') /\
  if available (env_api env) "EspEnumerateRuleIds"
  then exists listed, ids = (Succeeded (re_result listed), re_count listed) /\
         w_trace w' = w_trace w ++
           [Called "EspEnumerateRuleIds" [AHandle h; AWord kLifetimePersistFfi] listed]
  else ids = (false, 0) /\ w_trace w' = w_trace w.
Proof.
  intros Ho Hh Hok. unfold EnumerateRuleIds, on_client. run. rewrite Require_run. run.
  rewrite (warned_quiet env client_handle), Hh, Hok. cbn [negb orb].
  destruct (available (env_api env) "EspEnumerateRuleIds") eqn:Ea; cbn [negb orb].
  - rewrite warned_available by done. unfold Checked. run. rewrite Call_run. run.
    split; [exact Ho|]. by eexists.
  - unfold warned. rewrite Ea. split; [exact Ho|done].
Qed.

Lemma closed_only_client h s new : only_client h s -> closing host api s new -> disconnected h new.
Proof. unfold only_client, closing, disconnected. by intros ->. Qed.

Lemma preserve_client_run id c :
  exists events, extends c events (preserve_client host api id c).2 /\
    probe_run id (preserve_client host api id c).1 events.
Proof.
  unfold preserve_client. rewrite st_bind_unfold, on_run.
  pose proof (ConnectExisting_run id (world_of new_session c) eq_refl) as Hconnect.
  destruct (ConnectExisting env id (world_of new_session c)) as [[] w1]; cbn [fst snd];
    destruct Hconnect as (h & Ho & Hh & Htrace).
  - destruct Htrace as (opened & Hopened & -> & Htrace).
    set (c1 := mkConsole _ _ _ _ _ _). rewrite st_bind_unfold, on_run.
    assert (world_of (w_session w1) c1 = w1) as -> by (by destruct w1).
    apply andb_true_iff in Hopened as Hok. destruct Hok as [_ Hok].
    pose proof (EnumerateRuleIds_run _ w1 Ho Hh Hok) as Hlist.
    destruct (EnumerateRuleIds env kLifetimePersistFfi w1) as [[ok count] w2]. cbn [fst snd].
    destruct Hlist as [Ho2 Hlist]. set (c2 := mkConsole _ _ _ _ _ _). rewrite st_bind_unfold.
    destruct (disconnect_destroy host api (w_session w2) c2) as (new & s' & c3 & -> & He & _ & Hd).
    cbn [fst snd]. destruct (Hd c3 (extends_refl c3)) as (quiet & Hq & Hc). rewrite st_bind_unfold.
    apply (closed_only_client _ _ _ Ho2) in Hc. cbn [mret st_ret fst snd].
    assert (extends c2 (new ++ quiet) (destroy host api s' c3).2) as Hend by (by eapply extends_trans).
    unfold extends in *. subst c2. cbn [co_trace] in Hend. rewrite Hend.
    destruct (available (env_api env) "EspEnumerateRuleIds") eqn:Ea.
    + destruct Hlist as (listed & [= -> ->] & Ht2). rewrite Ht2, Htrace, <- !app_assoc.
      eexists. split; [reflexivity|]. by apply (probe_listed id opened listed).
    + destruct Hlist as ([= -> ->] & Ht2). rewrite Ht2, Htrace, <- !app_assoc.
      eexists. split; [reflexivity|]. by apply (probe_unlisted id opened).
  - set (c1 := mkConsole _ _ _ _ _ _). rewrite st_bind_unfold.
    destruct (destroy_run host api (w_session w1) c1) as (new & He & Hc).
    apply (closed_only_client _ _ _ Ho) in Hc. destruct Htrace as [-> Htrace].
    unfold disconnected in Hc. rewrite close_calls_null in Hc. apply made_nil in Hc. subst new.
    cbn [mret st_ret fst snd]. unfold extends in *. rewrite He, app_nil_r. subst c1. cbn [co_trace].
    destruct Htrace as [->|(opened & Hopened & ->)].
    + exists []. rewrite app_nil_r. split; [done|constructor].
    + eexists. split; [reflexivity|by constructor].
Qed.

Lemma UnregisterClientId_run id s c :
  released env s = [] ->
  exists ok s' c' released' reply, on s (UnregisterClientId env id) c = ((ok, s'), c') /\
    extends c released' c' /\ released env s' = [] /\
    ok = available (env_api env) "EspUnregisterClient" && Succeeded (re_result reply) /\
    if available (env_api env) "EspUnregisterClient"
    then released' = [Called "EspUnregisterClient" [AGuid id] reply] else released' = [].
Proof.
  intros Hs. rewrite on_run. unfold UnregisterClientId. rewrite st_bind_unfold, Require_run. cbn [fst snd].
  destruct (available (env_api env) "EspUnregisterClient") eqn:Ea; cbn [negb].
  - rewrite warned_available by done. unfold Checked. run. rewrite Call_run. run.
    do 5 eexists. split; [done|]. split; [done|]. split; [exact Hs|done].
  - unfold warned. rewrite Ea. run.
    exists false. do 3 eexists. exists (mkReply 0 0 0 []). split; [done|].
    split; [symmetry; apply app_nil_r|]. split; [exact Hs|done].
Qed.

Lemma clean_clients_run release_persistent ids :
  forall probe cleared c, released env probe = [] ->
  exists n cleared' probe' c' events,
    clean_clients host api release_persistent ids probe cleared c = ((cleared', probe'), c') /\
    extends c events c' /\ released env probe' = [] /\ clean_run release_persistent ids n events /\
    u32 cleared' = u32 (cleared + Z.of_nat n) /\ (cleared = u32 cleared -> cleared' = u32 cleared').
Proof.
  induction ids as [|id ids IH]; intros probe cleared c Hprobe; cbn [clean_clients].
  { exists 0%nat, cleared, probe, c, []. rewrite Z.add_0_r. split_and!; try done; [apply extends_refl|constructor]. }
  rewrite st_bind_unfold.
  assert (exists events, extends c events
     ((if release_persistent then mret false else preserve_client host api id) c).2 /\
     (if release_persistent then events = [] else
        probe_run id ((if release_persistent then mret false else preserve_client host api id) c).1 events) /\
     (release_persistent = true ->
      ((if release_persistent then mret false else preserve_client host api id) c).1 = false))
    as (tried & Htried & Hrun & Hnot).
  { destruct release_persistent; [exists []; split; [apply extends_refl|done]|].
    destruct (preserve_client_run id c) as (events & He & Hp). by exists events. }
  destruct ((if release_persistent then mret false else preserve_client host api id) c) as [preserved c1].
  cbn [fst snd] in *. destruct preserved.
  - destruct release_persistent; [by discriminate Hnot|].
    destruct (IH probe cleared c1 Hprobe) as (n & cl & p & c' & events & E & He & Hp & Hc & Hn).
    exists n, cl, p, c', (tried ++ events). split_and!; try done; [by eapply extends_trans|by constructor|apply Hn..].
  - rewrite st_bind_unfold.
    destruct (UnregisterClientId_run id probe c1 Hprobe) as (ok & p1 & c2 & out & reply & -> & He1 & Hp1 & Hok & Hout).
    cbn [fst snd].
    destruct (IH p1 (if ok then u32 (cleared + 1) else cleared) c2 Hp1)
      as (n & cl & p & c' & events & E & He & Hp & Hc & Hn1 & Hn2).
    exists ((if ok then 1 else 0) + n)%nat, cl, p, c', (tried ++ out ++ events). split; [done|].
    split; [eapply extends_trans; [done|]; by eapply extends_trans|]. split; [done|].
    split; [rewrite Hok; by apply (clean_released _ id ids n tried out reply events)|].
    split; [rewrite Hn1; destruct ok; unfold u32; [rewrite Zplus_mod_idemp_l|]; f_equal; lia|].
    intros H. apply Hn2. destruct ok; [|done]. unfold u32. by rewrite Z.mod_mod.
Qed.

(** The events of a probe that found the client without persistent rules. *)
Definition found_empty id (events : list Event) : Prop :=
  exists opened listed closed,
    events = [Called "EspConnectClient" [AGuid id] opened;
              Called "EspEnumerateRuleIds" [AHandle (re_out opened); AWord kLifetimePersistFfi] listed] ++ closed /\
    opened_ok opened = true /\ Succeeded (re_result listed) = true /\ re_count listed <= 0 /\
    disconnected (re_out opened) closed.

Lemma probe_run_empty id preserved events :
  probe_run id preserved events -> preserved = false -> found_empty id events.
Proof.
  intros [| | |opened listed closed Ho Hd] E; [done..|]. apply orb_false_iff in E as [Es%negb_false_iff Ec].
  exists opened, listed, closed. split_and!; try done. by apply Z.ltb_ge.
Qed.

(** Probes and their closing calls unregister nothing. *)
Lemma disconnected_no_unregister h closed args reply :
  disconnected h closed -> Called "EspUnregisterClient" args reply ∉ closed.
Proof.
  intros H Hin. assert (call_of (Called "EspUnregisterClient" args reply) ∈ call_of <$> closed) as Hc
    by (eapply list_elem_of_fmap_2'; [exact Hin|done]).
  unfold disconnected, made in H. rewrite H in Hc. apply list_elem_of_fmap in Hc as ([export l] & E & Hl).
  injection E as <- <-. unfold close_calls in Hl. destruct (available _ _); [|by apply not_elem_of_nil in Hl].
  by apply list_elem_of_fmap in Hl as (? & ? & ?).
Qed.

Lemma probe_run_no_unregister id preserved events args reply :
  probe_run id preserved events -> Called "EspUnregisterClient" args reply ∉ events.
Proof.
  assert (forall h closed, disconnected h closed -> Called "EspUnregisterClient" args reply ∈ closed -> False) as Hd
    by (intros h closed H; by apply (disconnected_no_unregister h)).
  intros [] Hin; cbn [app] in Hin; 
    repeat match goal with
           | H : _ ∈ [] |- _ => by apply not_elem_of_nil in H
           | H : _ ∈ _ :: _ |- _ => apply elem_of_cons in H as [H|H]; [done|]
           end; eauto.
Qed.

Lemma clean_run_spares ids n events id reply :
  clean_run false ids n events -> Called "EspUnregisterClient" [AGuid id] reply ∈ events ->
  id ∈ ids /\ exists before probe after,
    events = before ++ probe ++ [Called "EspUnregisterClient" [AGuid id] reply] ++ after /\ found_empty id probe.
Proof.
  induction 1 as [|id' ids n probe events _ Hp _ IH|id' ids n probe released r events Hp Hr _ IH]; intros Hin.
  - by apply not_elem_of_nil in Hin.
  - apply elem_of_app in Hin as [Hin|Hin]; [by apply (probe_run_no_unregister _ _ _ _ _ Hp) in Hin|].
    destruct (IH Hin) as (Hid & before & empty & after & -> & He). split; [by right|].
    exists (probe ++ before), empty, after. by rewrite <- app_assoc.
  - apply elem_of_app in Hin as [Hin|Hin]; [by apply (probe_run_no_unregister _ _ _ _ _ Hp) in Hin|].
    apply elem_of_app in Hin as [Hin|Hin].
    + destruct (available _ _); subst released; [|by apply not_elem_of_nil in Hin].
      apply list_elem_of_singleton in Hin. injection Hin as <- <-. split; [by left|].
      exists [], probe, events. split; [done|]. by eapply probe_run_empty.
    + destruct (IH Hin) as (Hid & before & empty & after & -> & He). split; [by right|].
      exists (probe ++ released ++ before), empty, after. by rewrite <- !app_assoc.
Qed.

(** The clients the library names. *)
Lemma EnumerateClients_run c :
  exists ok count ids s c' listing, on new_session (EnumerateClients env) c = ((ok, count, ids, s), c') /\
    extends c listing c' /\ released env s = [] /\
    if available (env_api env) "EspEnumerateRegisteredClients"
    then exists reply, listing = [Called "EspEnumerateRegisteredClients" [] reply] /\
           (forall id, id ∈ ids -> id ∈ re_guids reply)
    else listing = [] /\ ids = [].
Proof.
  rewrite on_run. unfold EnumerateClients. rewrite st_bind_unfold, Require_run. cbn [fst snd].
  destruct (available (env_api env) "EspEnumerateRegisteredClients") eqn:Ea; cbn [negb].
  - rewrite warned_available by done. unfold Checked. run. rewrite Call_run. run.
    do 6 eexists. split; [reflexivity|]. split; [reflexivity|].
    split; [by rewrite released_nothing|]. eexists. split; [done|].
    intros id. case_if; [|by intros ?%not_elem_of_nil]. intros Hin.
    apply elem_of_take in Hin as (i & Hi & _). by eapply list_elem_of_lookup_2.
  - unfold warned. rewrite Ea. run. do 6 eexists. split; [reflexivity|]. split; [symmetry; apply app_nil_r|].
    split; [by rewrite released_nothing|done].
Qed.

(** C12 Cleaning up goes through the clients the library lists, in order: without
    --fresh a client is unregistered only right after a probe of its own connected to
    it, counted its persistent rules and found none, and every handle a probe opened
    is given back; with --fresh every client is unregistered, unprobed. The number of
    released clients is returned. *)
Theorem CleanOrphanClients_spares release_persistent command c :
  let '(cleared, c') := CleanOrphanClients host api release_persistent command c in
  exists listing ids n new, co_trace c' = co_trace c ++ listing ++ new /\
    clean_run release_persistent ids n new /\ cleared = u32 (Z.of_nat n) /\
    (ids = [] \/ exists reply, listing = [Called "EspEnumerateRegisteredClients" [] reply] /\
                  forall id, id ∈ ids -> id ∈ re_guids reply) /\
    (release_persistent = false -> forall id reply, Called "EspUnregisterClient" [AGuid id] reply ∈ new ->
       id ∈ ids /\ exists before probe after,
         new = before ++ probe ++ [Called "EspUnregisterClient" [AGuid id] reply] ++ after /\
         found_empty id probe).
Proof.
  unfold CleanOrphanClients. rewrite st_bind_unfold.
  destruct (EnumerateClients_run c) as (ok & count & ids & s & c1 & listing & -> & He & Hs & Hl). cbn [fst snd].
  assert (Hdestroy : forall s c, released env s = [] -> extends c [] (destroy host api s c).2).
  { intros s1 c2 H1. destruct (destroy_run host api s1 c2) as (new & Hn & Hc).
    unfold closing in Hc. rewrite H1 in Hc. by apply made_nil in Hc as ->. }
  destruct (negb ok || negb (nonempty ids)).
  { cbn beta iota. rewrite st_bind_unfold. cbn [mret st_ret fst snd].
    exists listing, [], 0%nat, []. rewrite app_nil_r. split.
    - rewrite (Hdestroy s c1 Hs), app_nil_r. exact He.
    - split; [constructor|]. split; [done|]. split; [by left|]. by intros _ id reply ?%not_elem_of_nil. }
  rewrite st_bind_unfold.
  destruct (clean_clients_run release_persistent ids s 0 c1 Hs)
    as (n & cleared & probe & c2 & new & -> & He2 & Hp & Hrun & Hn1 & Hn2). cbn [fst snd].
  rewrite st_bind_unfold, st_bind_unfold. cbn [mret st_ret fst snd].
  exists listing, ids, n, new. split.
  { assert (forall m : ST (Console D) unit, silent m -> co_trace (destroy host api probe (m c2).2).2 = co_trace c2) as Hend.
    { intros m Hm. rewrite (Hdestroy probe (m c2).2 Hp), app_nil_r, (Hm c2). apply app_nil_r. }
    rewrite Hend by (case_if; [apply silent_note|apply silent_ret]). by rewrite He2, He, <- app_assoc. }
  split; [done|]. split; [by rewrite (Hn2 eq_refl), Hn1|]. split.
  - destruct (available _ _); [right; destruct Hl as (reply & -> & H); eauto|left; by destruct Hl].
  - intros -> id reply Hin. by apply (clean_run_spares _ n).
Qed.
End CleanUp.

(** ** Loading the rules of a document *)

#[export] Instance RulesPrep_eq_dec : EqDecision RulesPrep.
Proof. solve_decision. Defined.

Section Loading.
  Context {D : Type} (host : Host D) (api : EspApi).
  Local Abbreviation env := (with_api api (ho_env host)).
  Local Abbreviation fr := (frames (event_allowed not_rule_call) rules).
  Implicit Types (c : Console D) (s : Session) (w : World D).

Lemma register_attempts_frames id name base attempt remaining r :
  fr (register_attempts env id name base attempt remaining r).
Proof.
  revert attempt r. induction remaining as [|remaining IH]; intros attempt r; cbn [register_attempts];
    frame; apply IH.
Qed.

Lemma Connect_frames client : fr (Connect env client).
Proof.
  unfold Connect, connect_client, UnregisterIfOwned.
  frame; first [apply register_attempts_frames|done|idtac].
Qed.

Lemma CreateQueue_frames : fr (CreateQueue env).
Proof. unfold CreateQueue, adopt_queue, CloseQueue, CloseHandle. frame; done. Qed.

Lemma RemoveAllRules_run w :
  let '(removed, w') := RemoveAllRules env w in
  rules (w_session w') = rules (w_session w) /\
  (removed = true -> exists reply,
     w_trace w' = w_trace w ++ [Called "EspRemoveAllRulesForClient" [AHandle (client_handle (w_session w'))] reply] /\
     Succeeded (re_result reply) = true).
Proof.
  unfold RemoveAllRules, on_client. run. rewrite Require_run. run.
  destruct (negb _ || negb _) eqn:E; run.
  - by rewrite (warned_quiet env rules).
  - apply orb_false_iff in E as [Ea%negb_false_iff _]. rewrite warned_available by done.
    unfold Checked. run. rewrite Call_run. run. split; [done|]. intros Hs. by eexists.
Qed.

(** The session [s] has replaced the rules of its client by all rules of the document:
    the old ones were removed first, then every rule of the document was created,
    submitted and accepted, and the session holds exactly these. *)
Definition all_installed (document : RuleDocument) c s c' : Prop :=
  exists w before reply w' new,
    w_trace w = co_trace c ++ before ++
      [Called "EspRemoveAllRulesForClient" [AHandle (client_handle (w_session w))] reply] /\
    Forall (event_allowed not_rule_call) before /\ Succeeded (re_result reply) = true /\
    rule_events w' = rule_events w ++ new /\
    rules s = omap accepted_handle new /\ length (rules s) = length (doc_rules document) /\ rules s <> [] /\
    handle_ok (client_handle (w_session w)) = true /\
    (DocumentNeedsQueue document = true -> handle_ok (queue_handle (w_session w)) = true) /\
    s = w_session w' /\ co_trace c' = w_trace w'.

Lemma InstallRules_complete document w :
  rules (w_session w) = [] ->
  let '(status, w') := InstallRules env document w in
  status = Complete ->
  ready env document w = true /\
  exists new, rule_events w' = rule_events w ++ new /\ rules (w_session w') = omap accepted_handle new /\
    length (rules (w_session w')) = length (doc_rules document) /\ rules (w_session w') <> [].
Proof.
  intros Hnone. pose proof (InstallRules_kept env document w) as Hk.
  pose proof (InstallRules_idle env document w) as Hi.
  destruct (InstallRules env document w) as [status w']. destruct Hk as (new & He & Hl & _ & Hst).
  intros ->. split.
  - destruct (ready env document w); [done|]. by destruct (Hi eq_refl) as [[? _] _].
  - exists new. rewrite Hnone in Hl. cbn [app] in Hl. rewrite Hl. split; [done|]. split; [done|].
    unfold install_status in Hst. destruct (length (omap accepted_handle new) =? 0)%nat eqn:E0; [done|].
    destruct (length (omap accepted_handle new) =? length (doc_rules document))%nat eqn:E1; [|done].
    apply Nat.eqb_eq in E1. apply Nat.eqb_neq in E0. split; [done|]. intros E. by rewrite E in E0.
Qed.

(** Between the two consoles only calls that do not concern rules were made. *)
Definition no_rule_calls c c' : Prop :=
  exists new, co_trace c' = co_trace c ++ new /\ Forall (event_allowed not_rule_call) new.

Lemma no_rule_calls_refl c : no_rule_calls c c.
Proof. exists []. by rewrite app_nil_r. Qed.

Lemma no_rule_calls_trans c1 c2 c3 : no_rule_calls c1 c2 -> no_rule_calls c2 c3 -> no_rule_calls c1 c3.
Proof.
  intros (e1 & H1 & F1) (e2 & H2 & F2). exists (e1 ++ e2). rewrite H2, H1, app_assoc.
  split; [done|]. by apply Forall_app.
Qed.

Lemma silent_no_rule_calls {A} (m : ST (Console D) A) c : silent m -> no_rule_calls c (m c).2.
Proof. intros Hm. exists []. split; [apply Hm|done]. Qed.

Lemma frames_on {A} (m : ST (World D) A) s c :
  fr m -> exists a s' c', on s m c = ((a, s'), c') /\ rules s' = rules s /\ no_rule_calls c c'.
Proof.
  intros Hm. rewrite on_run. destruct (Hm (world_of s c)) as [(new & Ht & Hall) Hr].
  do 3 eexists. split; [reflexivity|]. split; [exact Hr|]. by exists new.
Qed.

Lemma prepare_connected_complete s document o c0 c :
  rules s = [] -> no_rule_calls c0 c ->
  let '((prep, s'), c') := prepare_connected host api s document o c in
  prep = PrepOk -> all_installed document c0 s' c'.
Proof.
  intros Hs Hc. unfold prepare_connected. cbv zeta. set (s1 := s <| enforce_compat := _ |>).
  assert (rules s1 = []) as Hs1 by done. clearbody s1. clear Hs s. rewrite st_bind_unfold.
  assert (no_rule_calls c0 ((if op_bypass_eventtype o then ApplyBypass host else mret (Ok tt)) c).2) as Hc1.
  { eapply no_rule_calls_trans; [done|]. apply silent_no_rule_calls.
    destruct (op_bypass_eventtype o); [apply silent_outside|apply silent_ret]. }
  destruct ((if op_bypass_eventtype o then ApplyBypass host else mret (Ok tt)) c) as [[[]|error] c1];
    cbn [fst snd] in *; [|done].
  rewrite st_bind_unfold.
  assert (exists ok s2 c2, (if DocumentNeedsQueue document then on s1 (CreateQueue env) else mret (true, s1)) c1 =
            ((ok, s2), c2) /\ rules s2 = [] /\ no_rule_calls c1 c2) as (ok & s2 & c2 & -> & Hs2 & Hc2).
  { destruct (DocumentNeedsQueue document).
    - destruct (frames_on (CreateQueue env) s1 c1 CreateQueue_frames) as (ok & s2 & c2 & E & Hr & Hn).
      exists ok, s2, c2. by rewrite Hr.
    - exists true, s1, c1. split_and!; try done. apply no_rule_calls_refl. }
  cbn [fst snd]. destruct ok; cbn [negb]; [|done].
  rewrite st_bind_unfold, on_run. pose proof (RemoveAllRules_run (world_of s2 c2)) as Hremove.
  destruct (RemoveAllRules env (world_of s2 c2)) as [[] w3]; cbn [fst snd negb] in *; [|done].
  destruct Hremove as [Hr3 Hremove]. destruct (Hremove eq_refl) as (reply & Ht3 & Hok).
  rewrite st_bind_unfold, on_run. set (w4 := world_of _ _).
  assert (w4 = w3) as -> by (by destruct w3). assert (rules (w_session w3) = []) as Hn3 by (by rewrite Hr3).
  pose proof (InstallRules_complete document w3 Hn3) as Hi.
  destruct (InstallRules env document w3) as [status w5]. cbn [fst snd mret st_ret]. intros Hprep.
  destruct (Hi ltac:(by destruct status)) as (Hready & new & He & Hl & Hlen & Hne).
  destruct (no_rule_calls_trans _ _ _ Hc1 Hc2) as (before & Hb & Hall).
  unfold ready in Hready. rewrite !andb_true_iff in Hready. destruct Hready as ((((Hclient & _) & Hq) & _) & _).
  exists w3, before, reply, w5, new. split_and!; try done.
  - rewrite Ht3. cbn [world_of w_trace]. by rewrite Hb, app_assoc.
  - intros Hneeds. by rewrite Hneeds in Hq.
Qed.

Lemma PrepareRulesSession_complete s document o c :
  rules s = [] ->
  let '((prep, s'), c') := PrepareRulesSession host api s document o c in
  prep = PrepOk -> all_installed document c s' c'.
Proof.
  intros Hs. unfold PrepareRulesSession. rewrite st_bind_unfold.
  destruct (frames_on (Connect env (doc_client document)) s c (Connect_frames _)) as (ok & s1 & c1 & -> & Hs1 & Hc1).
  cbn [fst snd]. destruct ok; cbn [negb]; [|done]. apply prepare_connected_complete; [by rewrite Hs1|done].
Qed.

Definition parse_rules (o : Options) c : result RuleDocument :=
  ParseRuleFile (ho_XmlRead host) (ho_apartment host) (ho_read_rules host (co_driver c)) (op_rules_path o).

Lemma LoadRuleDocument_run o command c :
  LoadRuleDocument host o command c =
  if is_empty (op_rules_path o) then (None, (eprint (command +:+ " requires --rules <path>") c).2)
  else (Some (parse_rules o c), c).
Proof. unfold LoadRuleDocument. destruct (is_empty _); rewrite st_bind_unfold; [done|]. by destruct c. Qed.

(** The document of the options was parsed, left-over clients were cleaned up, all its
    rules were installed on a new session, and the session was held or not; in the end
    it made its closing calls. *)
Definition ran_rules (command : string) (o : Options) (document : RuleDocument) (held : bool) c c' : Prop :=
  exists s c2 s' c3 final,
    parse_rules o c = Ok document /\
    all_installed document (CleanOrphanClients host api (op_fresh o) command c).2 s c2 /\
    (held = false -> s' = s /\ co_trace c3 = co_trace c2) /\
    co_trace c' = co_trace c3 ++ final /\ closing host api s' final.

Lemma end_session s line (code : Z) c :
  let '(r, c') := ('(_, s) ← on s (Disconnect env); note Info line;; destroy host api s;; mret code) c in
  r = code /\ exists final, co_trace c' = co_trace c ++ final /\ closing host api s final.
Proof.
  rewrite st_bind_unfold. destruct (disconnect_destroy host api s c) as (new & s' & c1 & -> & He & _ & Hd).
  cbn [fst snd]. rewrite st_bind_unfold.
  destruct (Hd _ (silent_note Info line c1)) as (quiet & Hq & Hc). rewrite st_bind_unfold.
  split; [done|]. exists (new ++ quiet). split; [|done]. cbn [mret st_ret fst snd] in *.
  rewrite Hq, (silent_note Info line c1), app_nil_r, He. by rewrite app_assoc.
Qed.

(** The rules command exits with 0 or 1, and with 0 only when the file parsed, the rules
    the client had were removed and then every rule of the file was created and accepted;
    whatever the session came to own while it was held is given back at the end, in the
    closing calls of one disconnection. *)
Lemma RunRules_zero o c :
  let '(code, c') := RunRules host api o c in
  (code = 0 \/ code = 1) /\
  (code = 0 -> exists document, ran_rules "rules" o document (op_duration_set o && (0 <? op_duration_ms o)) c c').
Proof.
  unfold RunRules. rewrite st_bind_unfold, LoadRuleDocument_run.
  destruct (is_empty (op_rules_path o)); cbn [fst snd]; [by split; [right|]|].
  destruct (parse_rules o c) as [document|error] eqn:Ep; [|by split; [right|]].
  rewrite st_bind_unfold. set (c1 := (CleanOrphanClients _ _ _ _ _).2). rewrite st_bind_unfold.
  pose proof (PrepareRulesSession_complete new_session document o c1 eq_refl) as Hprep.
  destruct (PrepareRulesSession host api new_session document o c1) as [[prep s] c2]. cbn [fst snd].
  assert (forall (m : ST (Console D) unit) (hold : Session -> ST (Console D) Session), silent m ->
    let '(code, c') := (m;; ReportSession s false;; s' ← hold s;
      '(_, s'') ← on s' (Disconnect env); note Info "rules: session disconnected";;
      destroy host api s'';; mret (if prep_ok prep then 0 else 1)) c2 in
    code = (if prep_ok prep then 0 else 1) /\
    exists c2' s' c3 final, co_trace c2' = co_trace c2 /\ hold s c2' = (s', c3) /\
      co_trace c' = co_trace c3 ++ final /\ closing host api s' final) as Hend.
  { intros m hold Hm. rewrite st_bind_unfold, st_bind_unfold, st_bind_unfold.
    set (c2' := (ReportSession s false (m c2).2).2).
    assert (co_trace c2' = co_trace c2) as Hc2.
    { subst c2'. rewrite (silent_report s false (m c2).2), (Hm c2). by rewrite !app_nil_r. }
    clearbody c2'. destruct (hold s c2') as [s' c3] eqn:Eh. cbn [fst snd].
    pose proof (end_session s' "rules: session disconnected" (if prep_ok prep then 0 else 1) c3) as He.
    match type of He with let '(_, _) := ?x in _ => destruct x as [code c'] end. destruct He as (-> & final & Ht & Hc). split; [done|]. by exists c2', s', c3, final. }
  set (held := op_duration_set o && (0 <? op_duration_ms o)).
  set (hold := fun s' => if prep_ok prep && op_duration_set o && (0 <? op_duration_ms o)
                         then hold_rules host api o document s' else mret s').
  set (m := match prep with
            | Partial => note Error ("rules: partial install; the committed rules are active but at least " +:+
                                     "one rule was refused")
            | _ => mret tt
            end : ST (Console D) unit).
  specialize (Hend m hold ltac:(subst m; destruct prep; first [apply silent_ret|apply silent_note])).
  destruct (decide (prep = FailedRemoveRules)) as [->|Hremoved].
  { destruct (report_and_finish_run host api s 1 c2) as (final & Hcode & _).
    destruct (report_and_finish host api s 1 c2) as [code c']. cbn [fst] in Hcode. subst. by split; [right|]. }
  match goal with |- let '(_, _) := ?run c2 in _ =>
    assert (run = (m;; ReportSession s false;; s' ← hold s;
      '(_, s'') ← on s' (Disconnect env); note Info "rules: session disconnected";;
      destroy host api s'';; mret (if prep_ok prep then 0 else 1))) as -> by (by destruct prep)
  end.
  match type of Hend with let '(_, _) := ?x in _ => destruct x as [code c'] end. destruct Hend as (-> & c2' & s' & c3 & final & Ht & Eh & Hf & Hc).
  destruct (decide (prep = PrepOk)) as [->|Hne]; [|by destruct prep; split; auto].
  split; [by left|]. intros _. exists document, s, c2, s', c3, final. split_and!; try done.
  - by apply Hprep.
  - subst hold held. intros E. cbn [prep_ok andb] in Eh. rewrite E in Eh. injection Eh as <- <-. done.
Qed.
End Loading.
