(* ===== verification/Registration.v ===== *)
(** Registrations with the library: which clients a run of the tool leaves registered. The
    trace of a run is replayed on the set of registered clients; every session operation
    but the connection and the disconnection leaves the registration of its session
    alone, and those two keep the books. *)
From S2P Require Import Prelude Text Core Events RuleModel RuleParser Api NtPath Session.
From S2P Require Import FilterBuild Refs Pump RuleConfig RuleInstall.

(** ** Replaying a trace *)

(** The client that an event registers, when the library accepts it, or asks the library to
    take back, whatever the library says to it. *)
Inductive Entry := Registered (id : Guid) | GivenBack (id : Guid).

Definition entry_of (e : Event) : option Entry :=
  match e with
  | Called export [ARegister id _ _] reply =>
      if (export =? "EspRegisterClient")%string && (re_result reply =? kOk) then Some (Registered id) else None
  | Called export [AGuid id] _ => if (export =? "EspUnregisterClient")%string then Some (GivenBack id) else None
  | _ => None
  end.

Definition register_step (registered : gset Guid) (e : Event) : gset Guid :=
  match entry_of e with
  | Some (Registered id) => {[id]} ∪ registered
  | Some (GivenBack id) => registered ∖ {[id]}
  | None => registered
  end.

(** The clients that the library was not asked to take back since they were registered,
    when those of [registered] were there before the events. *)
Definition still_registered (registered : gset Guid) (events : list Event) : gset Guid :=
  fold_left register_step events registered.

Lemma still_app registered e1 e2 :
  still_registered registered (e1 ++ e2) = still_registered (still_registered registered e1) e2.
Proof. apply fold_left_app. Qed.

Lemma still_mono r1 r2 events : r1 ⊆ r2 -> still_registered r1 events ⊆ still_registered r2 events.
Proof.
  revert r1 r2. induction events as [|e events IH]; intros r1 r2 H; [done|]. cbn. apply IH.
  unfold register_step. destruct (entry_of e) as [[id|id]|]; set_solver.
Qed.

Lemma still_quiet registered events :
  Forall (fun e => entry_of e = None) events -> still_registered registered events = registered.
Proof.
  induction 1 as [|e events He _ IH]; [done|]. cbn. unfold register_step. by rewrite He.
Qed.

(** *** What the library says to it *)

Definition accepted_entry (e : Event) : option Entry :=
  match e with
  | Called "EspUnregisterClient" [AGuid id] reply =>
      if Failed (re_result reply) then None else Some (GivenBack id)
  | e => entry_of e
  end.

Definition accepted_step (registered : gset Guid) (e : Event) : gset Guid :=
  match accepted_entry e with
  | Some (Registered id) => {[id]} ∪ registered
  | Some (GivenBack id) => registered ∖ {[id]}
  | None => registered
  end.

(** The clients that the library has registered after the events: those it accepted, but for
    those whose unregistration it accepted too. *)
Definition registered_after (registered : gset Guid) (events : list Event) : gset Guid :=
  fold_left accepted_step events registered.

(** The library refused to unregister a client that was registered at that moment. *)
Definition refused_return (registered : gset Guid) (events : list Event) (id : Guid) : Prop :=
  exists before reply after,
    events = before ++ Called "EspUnregisterClient" [AGuid id] reply :: after /\
    Failed (re_result reply) = true /\ id ∈ registered_after registered before.

Lemma refused_return_more registered events more id : refused_return registered events id -> refused_return registered (events ++ more) id.
Proof. intros (t1 & reply & t2 & -> & H). exists t1, reply, (t2 ++ more). by rewrite <- app_assoc. Qed.

(** One event, against the same event taken at its word. *)
Lemma accepted_cases e :
  accepted_entry e = entry_of e \/
  exists id reply, e = Called "EspUnregisterClient" [AGuid id] reply /\ Failed (re_result reply) = true /\
    accepted_entry e = None /\ entry_of e = Some (GivenBack id).
Proof.
  destruct e as [export args reply|]; [|by left].
  destruct (decide (export = "EspUnregisterClient")) as [->|Hne].
  - destruct args as [|[] [|]]; try (by left). cbn. destruct (Failed (re_result reply)) eqn:E; [right; eauto 10|by left].
  - left. unfold accepted_entry. repeat (case_match; try done).
Qed.

(** A client that the library was asked to take back is still registered only when the
    library refused it. *)
Lemma registered_after_bound registered events id :
  id ∈ registered_after registered events -> id ∈ still_registered registered events \/ refused_return registered events id.
Proof.
  induction events as [|e events IH] using rev_ind; [by left|].
  unfold registered_after, still_registered in *. rewrite !fold_left_app. cbn [fold_left].
  set (real := fold_left accepted_step events registered) in *.
  set (asked := fold_left register_step events registered) in *.
  unfold accepted_step, register_step.
  destruct (accepted_cases e) as [->|(id' & reply & -> & Hfailed & -> & ->)].
  - destruct (entry_of e) as [[id'|id']|]; [|rewrite elem_of_difference; intros [Hin Hne]|intros Hin];
      [rewrite elem_of_union; intros [Hin|Hin]; [left; set_solver|]|..];
      (destruct (IH Hin) as [?|?]; [left; set_solver|right; by apply refused_return_more]).
  - intros Hin. destruct (decide (id = id')) as [->|Hne].
    + right. by exists events, reply, [].
    + destruct (IH Hin) as [?|?]; [left; set_solver|right; by apply refused_return_more].
Qed.

Lemma still_registered_bound registered events : still_registered registered events ⊆ registered_after registered events.
Proof.
  induction events as [|e events IH] using rev_ind; [done|].
  unfold registered_after, still_registered in *. rewrite !fold_left_app. cbn [fold_left].
  unfold accepted_step at 1, register_step at 1.
  destruct (accepted_cases e) as [->|(id & reply & -> & _ & -> & ->)]; [|set_solver].
  destruct (entry_of e) as [[id|id]|]; set_solver.
Qed.

(** ** The registration of a session *)

Definition registration_of (s : Session) : bool * Guid * bool :=
  (registered_this_session s, client_id s, unregister_on_disconnect s).

#[export] Instance registration_quiet : Quiet registration_of. Proof. by split. Qed.

(** The client that a session has to give back. *)
Definition owned (s : Session) : gset Guid := if registered_this_session s then {[client_id s]} else ∅.

Lemma owned_same s s' : registration_of s' = registration_of s -> owned s' = owned s.
Proof. unfold registration_of, owned. intros [= -> -> _]. done. Qed.

(** *** The operations that leave it alone *)

(** No registration is made, and that of the session stays. *)
Abbreviation bystander := (frames (fun e => entry_of e = None) registration_of).

Create HintDb bystander.

(** Walks through an operation, through the operations it is made of. *)
Ltac bystand :=
  repeat first [ progress frame
               | solve [auto 2 with bystander]
               | apply frames_checked_any; exact eq_refl
               | match goal with
                 | |- frames _ _ ?m => let rec head t := lazymatch t with ?f _ => head f | _ => t end in
                                       let h := head m in progress unfold h
                 end ].

Section Operations.
  Context {D : Type} (env : Env D).

Lemma bystander_CloseOwned closer l : bystander (CloseOwned env closer l).
Proof. induction l; cbn [CloseOwned]; bystand. Qed.
#[local] Hint Resolve bystander_CloseOwned : bystander.

Lemma bystander_print_lines lines : bystander (print_lines (D := D) lines).
Proof. induction lines; cbn [print_lines]; bystand. Qed.
#[local] Hint Resolve bystander_print_lines : bystander.

Lemma bystander_query_exports names any : bystander (query_exports_of env names any).
Proof. revert any. induction names as [|name names IH]; intros any; cbn [query_exports_of]; bystand; apply IH. Qed.

Lemma bystander_leaf node : bystander (CreateLeafFilter env node).
Proof. bystand. Qed.
#[local] Hint Resolve bystander_leaf : bystander.

Lemma bystander_tree node : bystander (CreateFilterTree env node).
Proof.
  induction node as [k t c o p pn op v cn children IH] using FilterNode_tree_ind.
  destruct k; cbn [CreateFilterTree fn_kind fn_children]; [bystand|..];
    (destruct children as [|c0 [|c1 rest]]; inversion IH as [|?? Hc0 IH1]; subst;
     try (inversion IH1 as [|?? Hc1 IH2]; subst); bystand).
Qed.

Lemma bystander_install_entries type collection entries all_ok :
  bystander (install_entries env type collection entries all_ok).
Proof.
  revert all_ok. induction entries as [|entry entries IH]; intros all_ok; cbn [install_entries]; bystand; apply IH.
Qed.
#[local] Hint Resolve bystander_install_entries : bystander.

Lemma bystander_install_collections specs all_ok : bystander (install_collections env specs all_ok).
Proof.
  revert all_ok. induction specs as [|spec specs IH]; intros all_ok; cbn [install_collections]; bystand; apply IH.
Qed.
#[local] Hint Resolve bystander_install_collections bystander_tree : bystander.

Lemma bystander_build_rule spec rules_before entries : bystander (build_rule env spec rules_before entries).
Proof. bystand. Qed.
#[local] Hint Resolve bystander_build_rule : bystander.

Lemma bystander_build_rules specs rules_before entries all_ok :
  bystander (build_rules env specs rules_before entries all_ok).
Proof.
  revert entries all_ok. induction specs as [|spec specs IH]; intros entries all_ok; cbn [build_rules];
    bystand; apply IH.
Qed.

Lemma bystander_submit close slot entries rejected committed refused :
  bystander (submit_entries env close slot entries rejected committed refused).
Proof.
  revert slot rejected committed refused.
  induction entries as [|entry entries IH]; intros; cbn [submit_entries]; bystand; apply IH.
Qed.
#[local] Hint Resolve bystander_build_rules bystander_submit : bystander.

Lemma bystander_InstallRules document : bystander (InstallRules env document).
Proof. bystand. Qed.

Lemma bystander_supported kind properties : bystander (supported_each env kind properties).
Proof. induction properties as [|id properties IH]; cbn [supported_each]; bystand; apply IH. Qed.
#[local] Hint Resolve bystander_supported : bystander.

Lemma bystander_run_recipes recipes notified view ref : bystander (run_recipes env recipes notified view ref).
Proof. induction recipes as [|[event_type recipe] recipes IH]; cbn [run_recipes]; bystand; apply IH. Qed.
#[local] Hint Resolve bystander_run_recipes : bystander.

Lemma bystander_QueryFromNotification : bystander (QueryFromNotification env).
Proof. bystand. Qed.

Lemma bystander_notifications l : bystander (OnQueueNotifications (D := D) l).
Proof. induction l as [|n l IH]; cbn [OnQueueNotifications]; bystand; apply IH. Qed.
#[local] Hint Resolve bystander_QueryFromNotification bystander_notifications : bystander.

Lemma bystander_emit max_notifications : bystander (EmitCompleteAndRearm env max_notifications).
Proof. bystand. Qed.
#[local] Hint Resolve bystander_emit : bystander.

Lemma bystander_pump_loop fuel max_notifications (body : ST (World D) bool) :
  bystander body -> bystander (pump_loop fuel max_notifications body).
Proof. intros H. induction fuel as [|fuel IH]; cbn [pump_loop]; bystand; done. Qed.
#[local] Hint Resolve bystander_pump_loop : bystander.

Lemma bystander_consume event deadline max_notifications :
  bystander (ConsumeNotification env event deadline max_notifications).
Proof. bystand. Qed.

Lemma bystander_completion port deadline max_notifications :
  bystander (ConsumeCompletion env port deadline max_notifications).
Proof. bystand. Qed.
#[local] Hint Resolve bystander_consume bystander_completion : bystander.

Lemma bystander_Pump milliseconds max_notifications :
  bystander (PumpNotifications env milliseconds max_notifications).
Proof. bystand. Qed.

Lemma bystander_PumpIocp milliseconds max_notifications :
  bystander (PumpNotificationsIocp env milliseconds max_notifications).
Proof. bystand. Qed.
End Operations.

#[export] Hint Resolve bystander_print_lines bystander_CloseOwned bystander_query_exports bystander_tree bystander_InstallRules
  bystander_QueryFromNotification bystander_Pump bystander_PumpIocp bystander_install_collections : bystander.

(** ** The books of a session *)

Section Books.
  Context {D : Type} (env : Env D).
  Implicit Types (w : World D).

(** The events turn the clients that one side owns into those the other side owns,
    whoever else is registered. *)
Definition balanced (o : gset Guid) (new : list Event) (o' : gset Guid) : Prop :=
  forall others, still_registered (o ∪ others) new ⊆ o' ∪ others /\ o' ⊆ still_registered (o ∪ others) new.

Definition booked w w' : Prop :=
  (exists new, w_trace w' = w_trace w ++ new /\ balanced (owned (w_session w)) new (owned (w_session w'))) /\
  unregister_on_disconnect (w_session w') = unregister_on_disconnect (w_session w).

Lemma balanced_same o new : Forall (fun e => entry_of e = None) new -> balanced o new o.
Proof. intros H others. rewrite still_quiet by done. set_solver. Qed.

Lemma balanced_app o1 n1 o2 n2 o3 : balanced o1 n1 o2 -> balanced o2 n2 o3 -> balanced o1 (n1 ++ n2) o3.
Proof.
  intros H1 H2 others. rewrite still_app. destruct (H1 others) as [U1 L1]. destruct (H2 others) as [U2 L2]. split.
  - etransitivity; [apply still_mono, U1|done].
  - destruct (H2 (still_registered (o1 ∪ others) n1)) as [_ L3].
    by rewrite (subseteq_union_1_L _ _ L1) in L3.
Qed.

Definition books {A} (m : ST (World D) A) : Prop := forall w, booked w (m w).2.

#[export] Instance booked_preorder : PreOrder booked.
Proof.
  split.
  - intros w. split; [|done]. exists []. rewrite app_nil_r. split; [done|]. by apply balanced_same.
  - intros w1 w2 w3 [(n1 & H1 & B1) K1] [(n2 & H2 & B2) K2]. split; [|congruence].
    exists (n1 ++ n2). rewrite H2, H1, app_assoc. split; [done|]. by eapply balanced_app.
Qed.

Lemma bystander_booked w w' : framed (fun e => entry_of e = None) registration_of w w' -> booked w w'.
Proof.
  intros [(new & Ht & Hall) Hk]. split; [|by injection Hk]. exists new. split; [done|].
  rewrite (owned_same _ _ Hk). by apply balanced_same.
Qed.

Lemma bystander_books {A} (m : ST (World D) A) : bystander m -> books m.
Proof. intros H w. apply bystander_booked, H. Qed.

Lemma books_bind {A B} (m : ST (World D) A) (f : A -> ST (World D) B) :
  books m -> (forall a, books (f a)) -> books (m ≫= f).
Proof. intros Hm Hf w. rewrite st_bind_unfold. etransitivity; [apply Hm|apply Hf]. Qed.

(** Giving the registration back. *)
Lemma UnregisterIfOwned_books :
  available (env_api env) "EspUnregisterClient" = true -> books (UnregisterIfOwned env).
Proof.
  intros Ha w. destruct (UnregisterIfOwned_run env w) as [Hr (undo & Ht & Hundo)]. cbv zeta in Hr.
  assert (registration_of (w_session (UnregisterIfOwned env w).2) =
    (registered_this_session (w_session w) && negb (unregister_on_disconnect (w_session w)),
     client_id (w_session w), unregister_on_disconnect (w_session w))) as Hk.
  { unfold registration_of. rewrite Hr.
    assert (frames (fun _ => True) (fun s => (client_id s, unregister_on_disconnect s)) (UnregisterIfOwned env)) as F.
    { unfold UnregisterIfOwned. frame; by try split. }
    destruct (F w) as [_ Hk]. injection Hk as Hid Hun. by rewrite Hid, Hun. }
  injection Hk as Hk1 Hk2 Hk3. split; [|done]. exists undo. split; [done|]. unfold owned.
  rewrite Hk1, Hk2. rewrite Ha, andb_true_r in Hundo.
  destruct (registered_this_session (w_session w)); cbn [andb] in *; [|subst; by apply balanced_same].
  destruct (unregister_on_disconnect (w_session w)); cbn [negb] in *; [|subst; by apply balanced_same].
  destruct Hundo as [r ->]. intros others. cbn. unfold register_step. cbn. set_solver.
Qed.

(** Steps before anything is registered. *)
Definition unregistered_part (s : Session) : bool * bool := (registered_this_session s, unregister_on_disconnect s).

#[export] Instance unregistered_quiet : Quiet unregistered_part. Proof. by split. Qed.

Lemma before_registering {A B} (m : ST (World D) A) (f : A -> ST (World D) B) w :
  frames (fun e => entry_of e = None) unregistered_part m ->
  registered_this_session (w_session w) = false ->
  (forall a w', registered_this_session (w_session w') = false -> booked w' (f a w').2) ->
  booked w ((m ≫= f) w).2.
Proof.
  intros Hm Hs Hf. rewrite st_bind_unfold. destruct (Hm w) as [(new & Ht & Hall) Hk].
  injection Hk as Hr Hu. rewrite Hs in Hr. etransitivity; [|by apply Hf]. split; [|done].
  exists new. split; [done|]. unfold owned. rewrite Hr, Hs. by apply balanced_same.
Qed.

Lemma attempts_registered id name base attempt remaining r0 w :
  r0 <> kOk ->
  let '(r, w') := register_attempts env id name base attempt remaining r0 w in
  w_session w' = w_session w /\
  exists new, w_trace w' = w_trace w ++ new /\
    forall registered, still_registered registered new = (if r =? kOk then {[id]} else ∅) ∪ registered.
Proof.
  revert attempt r0 w. induction remaining as [|remaining IH]; intros attempt r0 w Hr0.
  { cbn. split; [done|]. exists []. rewrite app_nil_r. split; [done|]. intros registered.
    apply Z.eqb_neq in Hr0 as ->. set_solver. }
  cbn [register_attempts]. rewrite st_bind_unfold, Call_run. cbn [fst snd].
  set (reply := reply_of _ _ _ _). set (w1 := called _ _ _ _).
  assert (forall registered, still_registered registered [registration id name base attempt reply] =
            (if re_result reply =? kOk then {[id]} else ∅) ∪ registered) as Hone.
  { intros registered. cbn. unfold register_step. cbn. destruct (re_result reply =? kOk); set_solver. }
  destruct (re_result reply =? kOk) eqn:Eok; [|destruct (re_result reply =? kAlreadyExists); cbn [negb]].
  - cbn [mret st_ret]. rewrite Eok. split; [done|]. eexists. split; [done|]. intros registered. by rewrite Hone.
  - apply Z.eqb_neq in Eok. rewrite st_bind_unfold. set (w2 := (Log _ _ w1).2).
    specialize (IH (S attempt) (re_result reply) w2 Eok).
    destruct (register_attempts _ _ _ _ _ _ _ w2) as [r w']. destruct IH as [Hs (new & Ht & Hnew)].
    split; [done|]. exists (registration id name base attempt reply :: new).
    split; [rewrite Ht; unfold w2, w1, called; cbn [Log snd w_trace]; by rewrite <- app_assoc|]. intros registered.
    change (still_registered registered ([registration id name base attempt reply] ++ new)
              = (if r =? kOk then {[id]} else ∅) ∪ registered).
    rewrite still_app, Hone, Hnew. set_solver.
  - cbn [mret st_ret]. rewrite Eok. split; [done|]. eexists. split; [done|]. intros registered. by rewrite Hone.
Qed.

Lemma connect_client_bystander : bystander (connect_client env).
Proof. bystand. Qed.

(** A client that the session does not own is given back. *)
Lemma UnregisterClientId_booked id w :
  registered_this_session (w_session w) = false ->
  booked w (UnregisterClientId env id w).2 /\
  registered_this_session (w_session (UnregisterClientId env id w).2) = false.
Proof.
  intros Hs. assert (frames (fun _ => True) registration_of (UnregisterClientId env id)) as F.
  { unfold UnregisterClientId. frame; done. }
  destruct (F w) as [(new & Ht & _) Hk]. clear F. pose proof (owned_same _ _ Hk) as Ho. injection Hk as Hr _ Hu.
  split; [|congruence]. split; [|done]. exists new. split; [done|].
  rewrite Ho. unfold owned. rewrite Hs. revert Ht. unfold UnregisterClientId. rewrite st_bind_unfold, Require_run.
  cbn [fst snd]. destruct (available _ _) eqn:Ea; cbn [negb].
  - rewrite warned_available by done. unfold Checked. run. rewrite Call_run. run.
    intros H%app_inv_head. rewrite <- H. intros others. cbn. unfold register_step. cbn. set_solver.
  - cbn [mret st_ret snd]. rewrite warned_trace. intros H. rewrite <- (app_nil_r (w_trace w)) in H at 1.
    apply app_inv_head in H as <-. by apply balanced_same.
Qed.

Context (unregister_there : available (env_api env) "EspUnregisterClient" = true).

(** A connection registers its session's client, or gives it back. *)
Lemma Connect_booked client w :
  registered_this_session (w_session w) = false -> booked w (Connect env client w).2.
Proof.
  intros Hs. unfold Connect.
  do 2 (apply before_registering; [frame|done|]; clear w Hs; intros ? w Hs).
  destruct (negb _ || negb _); [reflexivity|].
  do 2 (apply before_registering; [frame|done|]; clear w Hs; intros ? w Hs).
  destruct (negb _); [reflexivity|].
  rewrite st_bind_unfold. cbn [gets fst snd]. rewrite st_bind_unfold. set (id := client_id (w_session w)).
  set (name := to_wide _ _). assert (owned (w_session w) = ∅) as Hnone by (unfold owned; by rewrite Hs).
  pose proof (attempts_registered id name (altitude_base (cl_altitude client)) 0 kAltitudeCollisionTries kFail w
    ltac:(done)) as Hrun.
  destruct (register_attempts _ _ _ _ _ _ _ w) as [r w1]. destruct Hrun as [Hw1 (new & Ht & Hnew)]. cbn [fst snd].
  rewrite st_bind_unfold. cbn [RecordStep update fst snd].
  set (w3 := mkWorld _ _ _ _ _).
  assert (owned (w_session w3) = ∅) as Hnone3
    by (change (owned (w_session w3)) with (owned (w_session w1)); by rewrite Hw1).
  assert (unregister_on_disconnect (w_session w1) = unregister_on_disconnect (w_session w)) as Hu1 by (by rewrite Hw1).
  destruct (r =? kOk); cbn [negb].
  2:{ cbn [mret st_ret snd]. split; [|done]. exists new. split; [done|].
      rewrite Hnone, Hnone3. intros others. rewrite Hnew. clear. set_solver. }
  rewrite st_bind_unfold. cbn [update fst snd]. set (w2 := mkWorld _ _ _ _ _).
  transitivity w2.
  { split; [|done]. exists new. split; [done|].
    assert (owned (w_session w2) = {[client_id (w_session w1)]}) as -> by done. rewrite Hw1.
    change (client_id (w_session w)) with id.
    rewrite Hnone. intros others. rewrite Hnew. clear. set_solver. }
  generalize w2. intros w4. apply (books_bind (connect_client env)).
  - apply bystander_books, connect_client_bystander.
  - intros []; [by apply bystander_books, frames_ret|].
    apply books_bind; [by apply UnregisterIfOwned_books|intros; by apply bystander_books, frames_ret].
Qed.

Lemma ConnectExisting_booked id w :
  registered_this_session (w_session w) = false -> booked w (ConnectExisting env id w).2.
Proof.
  intros Hs. unfold ConnectExisting.
  apply before_registering; [frame|done|]; clear w Hs; intros ? w Hs.
  destruct (negb _ || _); [reflexivity|].
  rewrite st_bind_unfold. cbn [update fst snd]. transitivity (mkWorld ((w_session w) <| client_id := id |>
    <| registered_this_session := false |>) (w_driver w) (w_trace w) (w_log w) (w_out w)).
  - split; [|done]. exists []. rewrite app_nil_r. split; [done|]. unfold owned. cbn. rewrite Hs. by apply balanced_same.
  - apply bystander_books, connect_client_bystander.
Qed.

(** A disconnection gives back what it has to. *)
Lemma Disconnect_books : books (Disconnect env).
Proof.
  unfold Disconnect.
  repeat first [by apply UnregisterIfOwned_books|apply books_bind; [apply bystander_books; bystand; done|intros ?]].
Qed.

Lemma Disconnect_leaves w :
  let s := w_session w in let s' := w_session (Disconnect env w).2 in
  unregister_on_disconnect s = true -> owned s' = ∅.
Proof.
  intros s s' Hs. subst s s'. destruct (Disconnect_run env w) as [_ [_ Hg]]. destruct (Disconnect_books w) as [_ Hu].
  unfold owned. rewrite Hu, Hs, andb_true_r in Hg. by rewrite Hg.
Qed.

(** A session that is to stay registered keeps its registration when it disconnects. *)
Lemma Disconnect_keeps w :
  unregister_on_disconnect (w_session w) = false ->
  registration_of (w_session (Disconnect env w).2) = registration_of (w_session w).
Proof.
  set (kept := fun m : ST (World D) unit => forall w, unregister_on_disconnect (w_session w) = false ->
                 registration_of (w_session (m w).2) = registration_of (w_session w)).
  assert (forall A (m : ST (World D) A) f, bystander m -> (forall a, kept (f a)) -> kept (m ≫= f)) as Hbind.
  { intros A m f Hm Hf v Hv. rewrite st_bind_unfold. destruct (Hm v) as [_ Hk]. rewrite <- Hk.
    apply Hf. by injection Hk as _ _ ->. }
  revert w. change (kept (Disconnect env)). unfold Disconnect.
  repeat lazymatch goal with |- kept (_ ≫= _) => apply Hbind; [bystand; done|intros ?] end.
  intros v Hv. unfold UnregisterIfOwned. run. rewrite Hv, orb_true_r. done.
Qed.
End Books.
