(* ===== verification/Custody.v ===== *)
(** Custody of the library's handles: what a session may name in a call. The trace of a
    run is replayed on the multiset of the handles that the library has handed out and
    that were not closed since; every call has to name handles of that multiset only.
    The library may hand out the same handle twice; each time it has to be closed once. *)
From stdpp Require Import gmultiset.
From S2P Require Import Prelude Text Core Events RuleModel RuleParser Api NtPath Session.
From S2P Require Import FilterBuild Refs Pump RuleConfig RuleInstall RuleInstallRun.

(** ** Handles in a trace *)

(** The kinds of handles that are opened and closed. The event objects behind references,
    the notifications, which the library's callback hands over, and the buffers of
    enumerations are not among them. *)
Inductive Kind := KClient | KQueue | KRule | KFilter | KCollection | KReference.

#[export] Instance Kind_eq_dec : EqDecision Kind.
Proof. solve_decision. Defined.

#[export] Instance Kind_countable : Countable Kind.
Proof.
  refine (inj_countable'
    (fun k => match k with KClient => 0 | KQueue => 1 | KRule => 2 | KFilter => 3 | KCollection => 4 | KReference => 5 end)%nat
    (fun n => match n with
              | 0 => KClient | 1 => KQueue | 2 => KRule | 3 => KFilter | 4 => KCollection | _ => KReference end)%nat _).
  by intros [].
Defined.

Abbreviation kept_handle := (Kind * handle)%type.
Abbreviation live_handles := (@gmultiset kept_handle prod_eq_dec prod_countable).

(** Every name of a table, with a kind. *)
Definition all_of (k : Kind) (names : list string) : list (string * Kind) := (fun name => (name, k)) <$> names.

Definition kind_of (table : list (string * Kind)) (export : string) : option Kind :=
  snd <$> find_first (fun entry => (entry.1 =? export)%string) table.

Definition reference_exports : list string :=
  ["EspCreateDesktopReference"; "EspCreateDiskReference"; "EspCreateEventObjectReferenceById";
   "EspCreateFileReferenceById"; "EspCreateFileReferenceByPath"; "EspCreateFileStreamReferenceById";
   "EspCreateFileStreamReferenceByPath"; "EspCreateMailslotReference"; "EspCreatePipeReference";
   "EspCreateProcessReference"; "EspCreateProcessTokenReference"; "EspCreateRegistryKeyReference";
   "EspCreateThreadReference"; "EspCreateThreadTokenReference"; "EspCreateVolumeReference"].

Definition combinator_exports : list string :=
  ["EspCreateAndFilter"; "EspCreateOrFilter"; "EspCreateXorFilter"; "EspCreateNotFilter"].

(** What an export hands out. *)
Definition handed_out : list (string * Kind) :=
  [("EspConnectClient", KClient)] ++ all_of KQueue ["EspCreateEventQueue"; "EspOpenEventQueue"] ++
  [("EspCreateRule", KRule)] ++ all_of KFilter (drop 1 kTypedFilterExports ++ combinator_exports) ++
  all_of KCollection ["EspCreateCollection"; "EspOpenCollection"] ++
  all_of KReference ("EspDuplicateEventObjectReference" :: reference_exports).

(** What an export closes. *)
Definition closers : list (string * Kind) :=
  [("EspDisconnectClient", KClient); ("EspCloseEventQueue", KQueue); ("EspCloseRule", KRule);
   ("EspCloseFilter", KFilter); ("EspCloseCollection", KCollection); ("EspCloseEventObjectReference", KReference)].

(** What the handles are that an export is given. *)
Definition subjects : list (string * Kind) :=
  closers ++
  all_of KClient (["EspCreateEventQueue"; "EspOpenEventQueue"; "EspEnumerateRuleIds"; "EspEnumerateAllRulesForClient";
                   "EspRemoveAllRulesForClient"; "EspRemoveRulesForClient"; "EspSetClientContextKey";
                   "EspEnumerateAllClientContextKeys"; "EspCreateCollection"; "EspOpenCollection";
                   "EspEnumerateCollectionIds"; "EspUpdateRules"] ++ reference_exports ++ support_exports.*2) ++
  all_of KQueue ["EspConnectEventQueueWithIocp"; "EspConnectEventQueueWithCallback"; "EspClearEventQueue";
                 "EspGetEventQueueId"; "EspArmEventNotification"] ++
  all_of KFilter combinator_exports ++
  all_of KCollection ["EspUpdateCollection"; "EspEnumerateCollectionEntries"; "EspGetCollectionType";
                      "EspGetCollectionId"] ++
  all_of KReference ["EspDuplicateEventObjectReference"; "EspGetEventObjectFromReference";
                     "EspSetEventObjectContextKey"; "EspEnumerateAllEventObjectContextKeys"].

(** The handles that an argument of a call names. *)
Definition named_by (export : string) (a : Arg) : option kept_handle :=
  match a with
  | AHandle h => k ← kind_of subjects export; Some (k, h)
  | ACollection b => Some (KCollection, cc_collection b)
  | ARuleEntry _ rule => Some (KRule, rule)
  | _ => None
  end.

Definition uses (export : string) (args : list Arg) : list kept_handle := omap (named_by export) args.

Definition closed_by (e : Event) : live_handles :=
  match e with
  | Called export [AHandle h] _ =>
      match kind_of closers export with
      | Some k => if handle_ok h then {[+ (k, h) +]} else ∅
      | None => ∅
      end
  | _ => ∅
  end.

(** A call that did not fail and gave a non-null handle. *)
Definition gained_by (e : Event) : live_handles :=
  match e with
  | Called export _ reply =>
      match kind_of handed_out export with
      | Some k => if Succeeded (re_result reply) && handle_ok (re_out reply) then {[+ (k, re_out reply) +]} else ∅
      | None => ∅
      end
  | OutOfBounds => ∅
  end.

(** A null handle names nothing. *)
Definition use_ok (live : live_handles) (u : kept_handle) : bool := negb (handle_ok u.2) || bool_decide (u ∈ live).

Definition permitted (live : live_handles) (e : Event) : bool :=
  match e with
  | Called export args _ => forallb (use_ok live) (uses export args)
  | OutOfBounds => true
  end.

Definition after (live : live_handles) (e : Event) : live_handles := (live ∖ closed_by e) ⊎ gained_by e.

(** The handles that are open after the events; nothing when a call names another one. *)
Fixpoint watch (live : live_handles) (events : list Event) : option live_handles :=
  match events with
  | [] => Some live
  | e :: rest => if permitted live e then watch (after live e) rest else None
  end.

Lemma watch_app live e1 e2 : watch live (e1 ++ e2) = live' ← watch live e1; watch live' e2.
Proof. revert live. induction e1 as [|e e1 IH]; intros live; cbn; [done|]. destruct (permitted live e); [apply IH|done]. Qed.

(** How often a handle was handed out and closed. *)
Definition handed (u : kept_handle) (t : list Event) : nat :=
  length (List.filter (fun e => bool_decide (u ∈ gained_by e)) t).

Definition ended (u : kept_handle) (t : list Event) : nat :=
  length (List.filter (fun e => bool_decide (u ∈ closed_by e)) t).

(** Every handle that a call names was handed out more often, by the calls before it,
    than it was closed. *)
Definition names_open (t : list Event) : Prop :=
  forall t1 export args reply t2 u, t = t1 ++ Called export args reply :: t2 ->
    u ∈ uses export args -> handle_ok u.2 = true -> (ended u t1 < handed u t1)%nat.

(** *** More handles do no harm *)

Lemma use_ok_mono live more u : live ⊆ more -> use_ok live u = true -> use_ok more u = true.
Proof.
  unfold use_ok. intros Hm [H|H]%orb_true_iff; [by rewrite H|]. apply bool_decide_eq_true in H.
  rewrite bool_decide_eq_true_2 by multiset_solver. apply orb_true_r.
Qed.

Lemma permitted_mono live more e : live ⊆ more -> permitted live e = true -> permitted more e = true.
Proof.
  intros Hm. destruct e as [export args reply|]; [|done]. cbn. rewrite !forallb_forall.
  intros H u Hu. by apply (use_ok_mono live), H.
Qed.

Lemma subject_of_closer export k : kind_of closers export = Some k -> kind_of subjects export = Some k.
Proof. unfold kind_of, subjects. rewrite find_first_app. by destruct (find_first _ closers). Qed.

Lemma closed_permitted live e : permitted live e = true -> closed_by e ⊆ live.
Proof.
  destruct e as [export args reply|]; [|intros; multiset_solver]. unfold closed_by.
  destruct args as [|[] [|]]; try (intros; multiset_solver). destruct (kind_of closers export) as [k|] eqn:Ek; [|intros; multiset_solver].
  destruct (handle_ok h) eqn:Eh; [|intros; multiset_solver].
  pose proof (subject_of_closer _ _ Ek) as Es.
  assert (named_by export (AHandle h) = Some (k, h)) as Hnamed by (unfold named_by; by rewrite Es).
  unfold permitted, uses. cbn [omap list_omap]. rewrite Hnamed. cbn [forallb]. rewrite andb_true_r. unfold use_ok. cbn [snd]. rewrite Eh. cbn [negb orb].
  intros H%bool_decide_eq_true. multiset_solver.
Qed.

Lemma one_at_most (u : kept_handle) (x : live_handles) :
  x = ∅ \/ (exists v, x = {[+ v +]}) -> multiplicity u x = length (List.filter (fun _ : unit => bool_decide (u ∈ x)) [tt]).
Proof.
  intros [->|[v ->]]; cbn; case_bool_decide as H; cbn [length].
  - multiset_solver.
  - apply multiplicity_empty.
  - apply gmultiset_elem_of_singleton in H as ->. apply multiplicity_singleton_eq.
  - apply multiplicity_singleton_ne. intros ->. apply H. multiset_solver.
Qed.

Lemma gained_one e : gained_by e = ∅ \/ exists v, gained_by e = {[+ v +]}.
Proof.
  destruct e as [export args reply|]; [|by left]. unfold gained_by. destruct (kind_of handed_out export); [|by left].
  destruct (_ && _); [right; eauto|by left].
Qed.

Lemma closed_one e : closed_by e = ∅ \/ exists v, closed_by e = {[+ v +]}.
Proof.
  destruct e as [export args reply|]; [|by left]. destruct args as [|[] [|]]; try (by left). unfold closed_by.
  destruct (kind_of closers export); [|by left]. destruct (handle_ok h); [right; eauto|by left].
Qed.

Lemma watch_counts u t : forall live live', watch live t = Some live' ->
  (multiplicity u live' + ended u t = multiplicity u live + handed u t)%nat.
Proof.
  induction t as [|e t IH]; intros live live'; cbn [watch]; [intros [= ->]; done|].
  destruct (permitted live e) eqn:Ep; [|done]. intros H. specialize (IH _ _ H).
  pose proof (closed_permitted live e Ep u) as Hc.
  pose proof (one_at_most u _ (gained_one e)) as Hg1. pose proof (one_at_most u _ (closed_one e)) as Hc1.
  unfold after in IH. rewrite multiplicity_disj_union, multiplicity_difference in IH.
  unfold handed, ended in *. cbn [List.filter] in *.
  destruct (bool_decide (u ∈ gained_by e)), (bool_decide (u ∈ closed_by e)); cbn [length] in *; lia.
Qed.

Lemma watch_open t live : watch ∅ t = Some live -> names_open t.
Proof.
  intros Hw t1 export args reply t2 u -> Hu Hok. rewrite watch_app in Hw.
  destruct (watch ∅ t1) as [live1|] eqn:E1; [|done]. cbn [option_bind mbind] in Hw. cbn [watch] in Hw.
  destruct (permitted live1 _) eqn:Ep; [|done]. cbn in Ep. rewrite forallb_forall in Ep.
  specialize (Ep u ltac:(by apply list_elem_of_In)). unfold use_ok in Ep. rewrite Hok in Ep. cbn [negb orb] in Ep.
  apply bool_decide_eq_true in Ep. pose proof (watch_counts u t1 _ _ E1) as Hcount.
  rewrite multiplicity_empty in Hcount. assert (0 < multiplicity u live1)%nat by (by apply elem_of_multiplicity). lia.
Qed.

Lemma watch_more live more events live' :
  watch live events = Some live' -> watch (live ⊎ more) events = Some (live' ⊎ more).
Proof.
  revert live. induction events as [|e events IH]; intros live; cbn; [by intros [= <-]|].
  destruct (permitted live e) eqn:Ep; [|done]. intros H.
  rewrite (permitted_mono live _ e) by (done || multiset_solver).
  replace (after (live ⊎ more) e) with (after live e ⊎ more); [by apply IH|].
  pose proof (closed_permitted live e Ep). unfold after. multiset_solver.
Qed.

(** ** The handles of a session *)

Definition one (k : Kind) (h : handle) : live_handles := if handle_ok h then {[+ (k, h) +]} else ∅.

Fixpoint all (k : Kind) (l : list handle) : live_handles :=
  match l with [] => ∅ | h :: rest => one k h ⊎ all k rest end.

Definition handles (s : Session) :=
  (client_handle s, queue_handle s, rules s, filters s, collections s, object_refs s, named_collections s).

#[export] Instance handles_quiet : Quiet handles. Proof. by split. Qed.

Definition held_of (client queue : handle) (rs fs cs refs : list handle) : live_handles :=
  one KClient client ⊎ one KQueue queue ⊎ all KRule rs ⊎ all KFilter fs ⊎ all KCollection cs ⊎ all KReference refs.

(** What a session has to close. *)
Definition held (s : Session) : live_handles :=
  held_of (client_handle s) (queue_handle s) (rules s) (filters s) (collections s) (object_refs s).

Lemma held_same s s' : handles s' = handles s -> held s' = held s.
Proof. unfold handles, held. by intros [= -> -> -> -> -> -> _]. Qed.

Lemma all_cons k h l : all k (h :: l) = one k h ⊎ all k l.
Proof. done. Qed.

Lemma all_nil k : all k [] = ∅.
Proof. done. Qed.

Lemma all_app k l1 l2 : all k (l1 ++ l2) = all k l1 ⊎ all k l2.
Proof.
  induction l1 as [|h l1 IH]; cbn [app]; rewrite ?all_nil, ?all_cons; [multiset_solver|]. rewrite IH. multiset_solver.
Qed.

Lemma all_member k l h : h ∈ l -> one k h ⊆ all k l.
Proof.
  induction 1 as [h l|h h' l _ IH]; rewrite all_cons; [multiset_solver|]. etransitivity; [exact IH|]. multiset_solver.
Qed.

Lemma use_one live k h : one k h ⊆ live -> use_ok live (k, h) = true.
Proof.
  unfold one, use_ok. cbn [snd]. destruct (handle_ok h); [|done]. cbn [negb orb]. intros H.
  apply bool_decide_eq_true. multiset_solver.
Qed.

Lemma one_use live k h : use_ok live (k, h) = true -> one k h ⊆ live.
Proof.
  unfold one, use_ok. cbn [snd]. destruct (handle_ok h); [|intros; multiset_solver]. cbn [negb orb].
  intros H%bool_decide_eq_true. multiset_solver.
Qed.

Lemma held_client s : one KClient (client_handle s) ⊆ held s.
Proof. unfold held, held_of. multiset_solver. Qed.

Lemma held_queue s : one KQueue (queue_handle s) ⊆ held s.
Proof. unfold held, held_of. multiset_solver. Qed.

Lemma held_collection s h : h ∈ collections s -> one KCollection h ⊆ held s.
Proof. intros H%(all_member KCollection). unfold held, held_of. multiset_solver. Qed.

Lemma held_reference s h : h ∈ object_refs s -> one KReference h ⊆ held s.
Proof. intros H%(all_member KReference). unfold held, held_of. multiset_solver. Qed.

(** ** Running with the handles *)

Section Watched.
  Context {D : Type} (env : Env D).
  Local Abbreviation M := (ST (World D)).
  Implicit Types (s : Session) (live : live_handles) (export name : string) (args : list Arg).

(** From a session and the open handles, the computation names open handles only, and
    ends so. *)
Definition wp {A} (m : M A) s live (Q : A -> Session -> live_handles -> Prop) : Prop :=
  forall w, w_session w = s ->
  let '(a, w') := m w in
  exists new live', w_trace w' = w_trace w ++ new /\ watch live new = Some live' /\ Q a (w_session w') live'.

Lemma wp_ret {A} (a : A) s live (Q : A -> Session -> live_handles -> Prop) : Q a s live -> wp (mret a) s live Q.
Proof. intros H w <-. exists [], live. by rewrite app_nil_r. Qed.

Lemma wp_bind {A B} (m : M A) (f : A -> M B) s live Q :
  wp m s live (fun a s' live' => wp (f a) s' live' Q) -> wp (m ≫= f) s live Q.
Proof.
  intros H w Hw. specialize (H w Hw). rewrite st_bind_unfold. destruct (m w) as [a w1].
  destruct H as (n1 & l1 & Ht1 & Hl1 & H). specialize (H w1 eq_refl). cbn [fst snd]. destruct (f a w1) as [b w2].
  destruct H as (n2 & l2 & Ht2 & Hl2 & H). exists (n1 ++ n2), l2. rewrite Ht2, Ht1, app_assoc.
  split; [done|]. split; [|done]. by rewrite watch_app, Hl1.
Qed.

Lemma wp_mono {A} (m : M A) s live (Q Q' : A -> Session -> live_handles -> Prop) :
  wp m s live Q -> (forall a s' live', Q a s' live' -> Q' a s' live') -> wp m s live Q'.
Proof. intros H HQ w Hw. specialize (H w Hw). destruct (m w). destruct H as (new & live' & ? & ? & ?). eauto 10. Qed.

(** What is known otherwise of the computation. *)
Lemma wp_frames {A} may {T} (keep : Session -> T) `{!Quiet keep} (m : M A) s live Q :
  frames may keep m -> wp m s live (fun a s' live' => keep s' = keep s -> Q a s' live') -> wp m s live Q.
Proof.
  intros Hm H w Hw. specialize (H w Hw). pose proof (Hm w) as [_ Hk]. destruct (m w) as [a w1]. cbn [snd] in Hk.
  destruct H as (new & live' & ? & ? & HQ). rewrite Hw in Hk. eauto 10.
Qed.

Lemma wp_gets {A} (f : Session -> A) s live (Q : A -> Session -> live_handles -> Prop) : Q (f s) s live -> wp (gets f) s live Q.
Proof. intros H w <-. exists [], live. by rewrite app_nil_r. Qed.

Lemma wp_update (f : Session -> Session) s live (Q : unit -> Session -> live_handles -> Prop) : Q tt (f s) live -> wp (update f) s live Q.
Proof. intros H w <-. exists [], live. by rewrite app_nil_r. Qed.

Lemma wp_call export args s live (Q : Reply -> Session -> live_handles -> Prop) :
  forallb (use_ok live) (uses export args) = true ->
  (forall reply, Q reply s (after live (Called export args reply))) ->
  wp (Call env export args) s live Q.
Proof.
  intros Hp H w <-. rewrite Call_run. eexists [_], _. split; [done|]. split; [|apply H].
  cbn [watch]. unfold permitted. by rewrite Hp.
Qed.

(** *** Operations that leave the handles alone *)

(** The session keeps its handles, and the open ones stay open. *)
Definition idle live {A} (m : M A) : Prop :=
  forall s, held s ⊆ live -> wp m s live (fun _ s' live' => handles s' = handles s /\ live' = live).

Lemma idle_bind {A B} live (m : M A) (f : A -> M B) :
  idle live m -> (forall a, idle live (f a)) -> idle live (m ≫= f).
Proof.
  intros Hm Hf s Hs. apply wp_bind. eapply wp_mono; [by apply Hm|]. intros a s' live' [Hk ->].
  eapply wp_mono; [apply (Hf a s'); by rewrite (held_same _ _ Hk)|]. intros b s2 live2 [Hk2 ->]. split; congruence.
Qed.

Lemma idle_frames {A} live (m : M A) : frames (fun _ => False) handles m -> idle live m.
Proof.
  intros Hm s _ w <-. destruct (Hm w) as [(new & Ht & Hall) Hk]. destruct (m w) as [a w1]. cbn [snd] in *.
  exists new, live. split; [done|]. destruct Hall as [|e new H]; [done|by destruct H].
Qed.

Lemma idle_ret {A} live (a : A) : idle live (mret a).
Proof. apply idle_frames, frames_ret. Qed.

Lemma idle_gets {A} live (f : Session -> A) : idle live (gets f).
Proof. apply idle_frames, frames_gets. Qed.

(** A handle of the session may be named from here on. *)
Lemma idle_client {B} live (k : handle -> M B) :
  (forall c, use_ok live (KClient, c) = true -> idle live (k c)) -> idle live (gets client_handle ≫= k).
Proof.
  intros H s Hs. apply wp_bind, wp_gets. apply H; [|done]. apply use_one. etransitivity; [apply held_client|done].
Qed.

Lemma idle_queue {B} live (k : handle -> M B) :
  (forall q, use_ok live (KQueue, q) = true -> idle live (k q)) -> idle live (gets queue_handle ≫= k).
Proof.
  intros H s Hs. apply wp_bind, wp_gets. apply H; [|done]. apply use_one. etransitivity; [apply held_queue|done].
Qed.

Lemma idle_system {A} live (f : D -> A * D) : idle live (system f).
Proof. apply idle_frames, frames_system. Qed.

Lemma idle_log live level line : idle live (Log level line).
Proof. apply idle_frames, frames_log. Qed.

Lemma idle_printf live line : idle live (printf line).
Proof. apply idle_frames, frames_printf. Qed.

Lemma idle_step live step result ok : idle live (RecordStep step result ok).
Proof. apply idle_frames, frames_step, _. Qed.

Lemma idle_warn live message : idle live (Warn message).
Proof. apply idle_frames, frames_warn, _. Qed.

Lemma idle_require live name : idle live (Require env name).
Proof. apply idle_frames, frames_require, _. Qed.

Lemma idle_update live (f : Session -> Session) : (forall s, handles (f s) = handles s) -> idle live (update f).
Proof. intros H. by apply idle_frames, frames_update. Qed.

Lemma idle_checked {A} live (o : option A) default : idle live (checked o default).
Proof.
  intros s _ w <-. destruct o as [a|]; cbn; [exists [], live; by rewrite app_nil_r|].
  exists [OutOfBounds], live. split; [done|]. split; [|done]. cbn. unfold after. cbn. f_equal. multiset_solver.
Qed.

(** A call that neither closes nor hands out a handle. *)
Definition plain_call export : bool :=
  match kind_of closers export, kind_of handed_out export with None, None => true | _, _ => false end.

Lemma plain_after live export args reply : plain_call export = true -> after live (Called export args reply) = live.
Proof.
  unfold plain_call, after, closed_by, gained_by. destruct (kind_of closers export); [done|].
  destruct (kind_of handed_out export); [done|]. intros _. destruct args as [|[] [|]]; multiset_solver.
Qed.

Lemma idle_call live export args :
  plain_call export = true -> forallb (use_ok live) (uses export args) = true -> idle live (Call env export args).
Proof. intros Hp Hu s _. apply wp_call; [done|]. intros reply. split; [done|]. by apply plain_after. Qed.

Lemma idle_Checked live export args :
  plain_call export = true -> forallb (use_ok live) (uses export args) = true -> idle live (Checked env export args).
Proof.
  intros Hp Hu. apply idle_bind; [by apply idle_call|]. intros. apply idle_bind; [apply idle_step|]. intros.
  apply idle_ret.
Qed.

Lemma idle_Adopt live export args :
  plain_call export = true -> forallb (use_ok live) (uses export args) = true -> idle live (Adopt env export args).
Proof.
  intros Hp Hu. apply idle_bind; [by apply idle_call|]. intros. apply idle_bind; [apply idle_step|]. intros.
  apply idle_ret.
Qed.

(** *** What a call may name *)

Lemma uses_nil live export : forallb (use_ok live) (uses export []) = true.
Proof. done. Qed.

Lemma uses_skip live export a args :
  named_by export a = None -> forallb (use_ok live) (uses export args) = true ->
  forallb (use_ok live) (uses export (a :: args)) = true.
Proof. intros Ha H. unfold uses. cbn [omap list_omap]. by rewrite Ha. Qed.

Lemma uses_named live export a args u :
  named_by export a = Some u -> use_ok live u = true -> forallb (use_ok live) (uses export args) = true ->
  forallb (use_ok live) (uses export (a :: args)) = true.
Proof. intros Ha Hu H. unfold uses. cbn [omap list_omap]. rewrite Ha. cbn [forallb]. rewrite Hu. exact H. Qed.

End Watched.

(** Shows that a call of a known export names open handles only. *)
Ltac permit :=
  repeat first [ apply uses_nil
               | apply uses_skip; [exact eq_refl|]
               | eapply uses_named; [exact eq_refl|first [assumption|idtac]|] ].

Create HintDb idle.

(** Walks through an operation that leaves the handles alone. *)
Ltac idle_step :=
  lazymatch goal with
  | |- idle _ (gets client_handle ≫= _) => apply idle_client; intros ? ?
  | |- idle _ (gets queue_handle ≫= _) => apply idle_queue; intros ? ?
  | |- idle _ (mbind _ _) => apply idle_bind; [|intro]
  | |- idle _ (mret _) => apply idle_ret
  | |- idle _ (gets _) => apply idle_gets
  | |- idle _ (system _) => apply idle_system
  | |- idle _ (Log _ _) => apply idle_log
  | |- idle _ (LogInfo _) => apply idle_log
  | |- idle _ (printf _) => apply idle_printf
  | |- idle _ (RecordStep _ _ _) => apply idle_step
  | |- idle _ (Warn _) => apply idle_warn
  | |- idle _ (Require _ _) => apply idle_require
  | |- idle _ (checked _ _) => apply idle_checked
  | |- idle _ (Call _ _ _) => apply idle_call; [try exact eq_refl|permit]
  | |- idle _ (Checked _ _ _) => apply idle_Checked; [try exact eq_refl|permit]
  | |- idle _ (Adopt _ _ _) => apply idle_Adopt; [try exact eq_refl|permit]
  | |- idle _ (update_storage _) => apply idle_update; intros; reflexivity
  | |- idle _ (update _) => apply idle_update; intros; reflexivity
  | |- idle _ (if ?b then _ else _) => destruct b
  | |- idle _ (match ?x with _ => _ end) => destruct x
  | |- idle _ (let _ := _ in _) => cbv zeta
  end.

Ltac idles :=
  repeat first [ progress idle_step
               | solve [auto 2 with idle]
               | lazymatch goal with
                 | |- idle _ ?m => let rec head t := lazymatch t with ?f _ => head f | _ => t end in
                                   let h := head m in progress unfold h
                 end ].

Section Idle.
  Context {D : Type} (env : Env D).
  Implicit Types (live : live_handles).

Lemma idle_free live buffer : idle live (FreeEspBuffer env buffer).
Proof. idles. Qed.

Lemma idle_print_lines live lines : idle live (print_lines (D := D) lines).
Proof. induction lines; cbn [print_lines]; idles. Qed.

#[local] Hint Resolve idle_free idle_print_lines : idle.

(** *** The session *)

Lemma idle_on_queue live export args :
  plain_call export = true -> kind_of subjects export = Some KQueue ->
  forallb (use_ok live) (uses export args) = true -> idle live (on_queue env export args).
Proof.
  intros Hp Hk Hu. unfold on_queue. idles. eapply uses_named; [|eassumption|done]. unfold named_by. by rewrite Hk.
Qed.

Lemma idle_on_client live export args :
  plain_call export = true -> kind_of subjects export = Some KClient ->
  forallb (use_ok live) (uses export args) = true -> idle live (on_client env export args).
Proof.
  intros Hp Hk Hu. unfold on_client. idles. eapply uses_named; [|eassumption|done]. unfold named_by. by rewrite Hk.
Qed.

Lemma idle_attempts live id name base attempt remaining r :
  idle live (register_attempts env id name base attempt remaining r).
Proof. revert attempt r. induction remaining as [|remaining IH]; intros; cbn [register_attempts]; idles; apply IH. Qed.

Lemma idle_UnregisterIfOwned live : idle live (UnregisterIfOwned env).
Proof. idles. Qed.

Lemma idle_ArmNotification live : idle live (ArmNotification env).
Proof. unfold ArmNotification. idles. Qed.

Lemma idle_CompleteNotification live : idle live (CompleteNotification env).
Proof. idles. Qed.

Lemma idle_EnumerateClients live : idle live (EnumerateClients env).
Proof. idles. Qed.

Lemma idle_UnregisterClientId live id : idle live (UnregisterClientId env id).
Proof. idles. Qed.

Lemma idle_EnumerateRuleIds live lifetime : idle live (EnumerateRuleIds env lifetime).
Proof. idles. Qed.

Lemma idle_EnumerateAllRules live : idle live (EnumerateAllRules env).
Proof. idles. Qed.

Lemma idle_RemoveAllRules live : idle live (RemoveAllRules env).
Proof. idles. Qed.

Lemma idle_GetQueueId live : idle live (GetQueueId env).
Proof. idles. Qed.

Lemma idle_ExerciseContextKeys live : idle live (ExerciseContextKeys env).
Proof. idles. Qed.

(** The exports that are given something which is not opened and closed. *)
Definition untracked (export : string) : bool :=
  plain_call export && match kind_of subjects export with None => true | Some _ => false end.

Lemma untracked_uses live export h args :
  untracked export = true -> forallb (use_ok live) (uses export args) = true ->
  forallb (use_ok live) (uses export (AHandle h :: args)) = true.
Proof.
  unfold untracked. intros [_ H]%andb_true_iff Hargs. apply uses_skip; [|done]. unfold named_by.
  by destruct (kind_of subjects export).
Qed.

Lemma untracked_plain export : untracked export = true -> plain_call export = true.
Proof. by intros [? _]%andb_true_iff. Qed.

Lemma idle_QueryAllProperties live : idle live (QueryAllProperties env).
Proof.
  unfold QueryAllProperties.
  assert (Forall (fun name => untracked name = true) kPropertyQueryExports) as Hall by (repeat constructor).
  revert Hall. generalize kPropertyQueryExports, false. intros names. induction names as [|name names IH]; intros any Hall;
    cbn [query_exports_of]; [idles|]. inversion Hall as [|? ? Hname Hnames]; subst.
  assert (forall any, idle live (query_exports_of env names any)) as Hrest by auto.
  idles; first [by apply untracked_plain|by apply untracked_uses|apply Hrest].
Qed.

(** *** References and queries *)

Section Given.
  Context (live : live_handles) (ref : handle) (Href : use_ok live (KReference, ref) = true).

Lemma idle_UnwrapReference : idle live (UnwrapReference env ref).
Proof. idles. Qed.

Lemma idle_SetEventObjectContextKey : idle live (SetEventObjectContextKey env ref).
Proof. idles. Qed.

Lemma idle_EnumerateEventObjectContextKeys : idle live (EnumerateEventObjectContextKeys env ref).
Proof. idles. Qed.
End Given.

Lemma idle_GetEventObjectId live view : idle live (GetEventObjectId env view).
Proof. idles. Qed.

Lemma idle_GetEventObjectType live view : idle live (GetEventObjectType env view).
Proof. idles. Qed.

Lemma idle_IsPropertySupported live kind id : idle live (IsPropertySupported env kind id).
Proof.
  unfold IsPropertySupported. apply idle_client. intros c Hc. destruct (SupportExportForKind kind) as [export|] eqn:E; [|idles].
  assert (plain_call export = true /\ kind_of subjects export = Some KClient) as [Hp Hk].
  { apply export_for_in in E. revert E.
    assert (Forall (fun e => plain_call e = true /\ kind_of subjects e = Some KClient) support_exports.*2) as Hall
      by (repeat constructor). rewrite Forall_forall in Hall. apply Hall. }
  idles. eapply uses_named; [|eassumption|by permit]. unfold named_by. by rewrite Hk.
Qed.

Lemma idle_QueryKind live kind view ids : idle live (QueryKind env kind view ids).
Proof.
  unfold QueryKind. destruct (kind =? "event")%string; [idles|].
  destruct (QueryExportForKind kind) as [export|] eqn:E; [|idles].
  assert (untracked export = true) as Hexport.
  { apply export_for_in in E. revert E.
    assert (Forall (fun e => untracked e = true) query_exports.*2) as Hall by (repeat constructor).
    rewrite Forall_forall in Hall. apply Hall. }
  idles; first [by apply untracked_plain|apply untracked_uses; [done|by permit]].
Qed.
#[local] Hint Resolve idle_IsPropertySupported idle_QueryKind : idle.

Lemma idle_supported_each live kind properties : idle live (supported_each env kind properties).
Proof. induction properties as [|id properties IH]; cbn [supported_each]; idles. Qed.
#[local] Hint Resolve idle_supported_each : idle.

Lemma idle_run_recipes live recipes notified view ref :
  use_ok live (KReference, ref) = true -> idle live (run_recipes env recipes notified view ref).
Proof.
  intros Href. pose proof (idle_SetEventObjectContextKey live ref Href) as Hset.
  pose proof (idle_EnumerateEventObjectContextKeys live ref Href) as Henum.
  induction recipes as [|[event_type recipe] recipes IH]; cbn [run_recipes]; idles.
Qed.

(** *** Notifications *)

Lemma idle_notifications live l : idle live (OnQueueNotifications (D := D) l).
Proof. induction l as [|n l IH]; cbn [OnQueueNotifications]; idles. Qed.
#[local] Hint Resolve idle_notifications : idle.

Lemma idle_Wait live event milliseconds : idle live (WaitForSingleObject env event milliseconds).
Proof. idles. Qed.

(** *** Collections and rules *)

Lemma idle_EnumerateCollectionIds live lifetime : idle live (EnumerateCollectionIds env lifetime).
Proof. idles. Qed.

Lemma idle_install_entry live type collection entry :
  use_ok live (KCollection, collection) = true -> idle live (install_entry env type collection entry).
Proof. intros Hc. idles. Qed.

Lemma idle_install_entries live type collection entries all_ok :
  use_ok live (KCollection, collection) = true -> idle live (install_entries env type collection entries all_ok).
Proof.
  intros Hc. revert all_ok. induction entries as [|entry entries IH]; intros all_ok; cbn [install_entries]; idles.
Qed.

Lemma idle_inspect live export collection lines :
  plain_call export = true -> kind_of subjects export = Some KCollection ->
  use_ok live (KCollection, collection) = true -> idle live (inspect env export collection lines).
Proof.
  intros Hp Hk Hc. unfold inspect. idles. eapply uses_named; [|done|done]. unfold named_by. by rewrite Hk.
Qed.

Lemma idle_write_action live spec before entries descriptor : idle live (write_action env spec before entries descriptor).
Proof. idles. Qed.

Lemma idle_SubmitRuleBatch live rule : use_ok live (KRule, rule) = true -> idle live (SubmitRuleBatch env rule).
Proof. intros Hr. idles. Qed.

End Idle.

(** ** Operations that open and close *)

(** From any state in which the session's handles are open, and handles of others. *)
Definition safe {D A} (m : ST (World D) A) : Prop :=
  forall L s live, L ⊎ held s ⊆ live -> wp m s live (fun _ s' live' => L ⊎ held s' ⊆ live').

Definition with_rule (h : handle) (s : Session) : Session := s <| rules ::= fun l => l ++ [h] |>.
Definition with_filters (l : list handle) (s : Session) : Session := s <| filters ::= fun fs => fs ++ l |>.
Definition with_collection (h : handle) (s : Session) : Session := s <| collections ::= fun l => l ++ [h] |>.
Definition with_reference (h : handle) (s : Session) : Session := s <| object_refs ::= fun l => l ++ [h] |>.

Lemma held_with_rule h s : held (with_rule h s) = held s ⊎ one KRule h.
Proof.
  change (held (with_rule h s)) with (held_of (client_handle s) (queue_handle s) (rules s ++ [h]) (filters s) (collections s) (object_refs s)).
  unfold held, held_of. rewrite all_app, all_cons, all_nil. multiset_solver.
Qed.

Lemma held_with_filters l s : held (with_filters l s) = held s ⊎ all KFilter l.
Proof.
  change (held (with_filters l s)) with (held_of (client_handle s) (queue_handle s) (rules s) (filters s ++ l) (collections s) (object_refs s)).
  unfold held, held_of. rewrite all_app. multiset_solver.
Qed.

Lemma held_with_collection h s : held (with_collection h s) = held s ⊎ one KCollection h.
Proof.
  change (held (with_collection h s)) with (held_of (client_handle s) (queue_handle s) (rules s) (filters s) (collections s ++ [h]) (object_refs s)).
  unfold held, held_of. rewrite all_app, all_cons, all_nil. multiset_solver.
Qed.

Lemma held_with_reference h s : held (with_reference h s) = held s ⊎ one KReference h.
Proof.
  change (held (with_reference h s)) with (held_of (client_handle s) (queue_handle s) (rules s) (filters s) (collections s) (object_refs s ++ [h])).
  unfold held, held_of. rewrite all_app, all_cons, all_nil. multiset_solver.
Qed.

Section Changing.
  Context {D : Type} (env : Env D).
  Local Abbreviation M := (ST (World D)).
  Implicit Types (s : Session) (live L : live_handles) (export name closer : string) (args : list Arg).

(** An idle part, with what the others hold. *)
Lemma wp_idle {A B} (m : M A) (f : A -> M B) s live Q :
  idle live m -> held s ⊆ live -> (forall a s', handles s' = handles s -> wp (f a) s' live Q) -> wp (m ≫= f) s live Q.
Proof. intros Hm Hs Hf. apply wp_bind. eapply wp_mono; [by apply Hm|]. intros a s' live' [Hk ->]. by apply Hf. Qed.

Lemma idle_safe {A} (m : M A) : (forall live, idle live m) -> safe m.
Proof.
  intros Hm L s live Hs. eapply wp_mono; [apply Hm; multiset_solver|]. intros a s' live' [Hk ->].
  by rewrite (held_same _ _ Hk).
Qed.

Lemma safe_bind {A B} (m : M A) (f : A -> M B) : safe m -> (forall a, safe (f a)) -> safe (m ≫= f).
Proof.
  intros Hm Hf L s live Hs. apply wp_bind. eapply wp_mono; [by apply (Hm L)|]. intros a s' live' Hs'. by apply Hf.
Qed.

Lemma safe_ret {A} (a : A) : safe (mret a : M A).
Proof. intros L s live Hs. by apply wp_ret. Qed.

(** What is handed out is kept from then on. *)
Lemma wp_Adopt export k args s live Q :
  kind_of closers export = None -> kind_of handed_out export = Some k ->
  forallb (use_ok live) (uses export args) = true ->
  (forall s', handles s' = handles s -> Q None s' live) ->
  (forall h s', handle_ok h = true -> handles s' = handles s -> Q (Some h) s' (live ⊎ one k h)) ->
  wp (Adopt env export args) s live Q.
Proof.
  intros Hc Ho Hu Hnone Hsome. unfold Adopt. apply wp_bind, wp_call; [done|]. intros reply.
  unfold after, closed_by, gained_by. rewrite Ho. rewrite Failed_Succeeded.
  assert (match args with
          | [AHandle h] => match kind_of closers export with
                           | Some k => if handle_ok h then {[+ (k, h) +]} else ∅ | None => ∅ end
          | _ => ∅ end = (∅ : live_handles)) as -> by (rewrite Hc; by destruct args as [|[] [|]]).
  apply wp_bind, wp_update. cbn beta. apply wp_ret.
  destruct (Succeeded (re_result reply)); cbn [negb orb andb].
  - destruct (handle_ok (re_out reply)) eqn:Eh; cbn [negb].
    + replace (live ∖ ∅ ⊎ {[+ (k, re_out reply) +]}) with (live ⊎ one k (re_out reply))
        by (unfold one; rewrite Eh; multiset_solver). by apply Hsome.
    + replace (live ∖ ∅ ⊎ ∅) with live by multiset_solver. by apply Hnone.
  - replace (live ∖ ∅ ⊎ ∅) with live by multiset_solver. by apply Hnone.
Qed.

Lemma wp_close closer k h s live Q :
  kind_of closers closer = Some k -> kind_of handed_out closer = None -> use_ok live (k, h) = true ->
  (forall s' live', handles s' = handles s -> live ∖ one k h ⊆ live' -> Q tt s' live') ->
  wp (CloseHandle env closer h) s live Q.
Proof.
  intros Hc Ho Hu HQ. unfold CloseHandle. destruct (handle_ok h) eqn:Eh; cbn [negb].
  2:{ apply wp_ret, HQ; [done|multiset_solver]. }
  apply wp_bind. eapply (wp_frames (fun _ => False) handles); [apply frames_require, _|].
  unfold Require. destruct (available _ _).
  - apply wp_ret. intros _. apply wp_bind, wp_call.
    + eapply uses_named; [|exact Hu|apply uses_nil]. unfold named_by.
      assert (kind_of subjects closer = Some k) as ->; [|done]. by apply subject_of_closer.
    + intros reply. apply wp_ret, HQ; [done|]. unfold after, closed_by, gained_by. rewrite Hc, Ho, Eh. unfold one.
      rewrite Eh. multiset_solver.
  - apply wp_bind, wp_update. cbn beta. apply wp_ret. intros Hk. apply wp_ret, HQ; [exact Hk|multiset_solver].
Qed.

Lemma wp_CloseOwned closer k l : kind_of closers closer = Some k -> kind_of handed_out closer = None ->
  forall L s live, L ⊎ all k l ⊆ live ->
  wp (CloseOwned env closer l) s live (fun _ s' live' => handles s' = handles s /\ L ⊆ live').
Proof.
  intros Hc Ho L. induction l as [|h l IH]; intros s live Hl.
  { apply wp_ret. split; [done|]. rewrite all_nil in Hl. multiset_solver. }
  rewrite all_cons in Hl. cbn [CloseOwned]. apply wp_bind. eapply wp_close; [done|done| |].
  { apply use_one. multiset_solver. }
  intros s1 live1 Hk Hlive. eapply wp_mono; [apply IH; multiset_solver|]. intros [] s2 live2 [Hk2 H2].
  split; [congruence|done].
Qed.
End Changing.

Lemma beside (L x y live : live_handles) : x ⊆ y -> L ⊎ y ⊆ live -> L ⊎ x ⊆ live.
Proof. multiset_solver. Qed.

Lemma beside_mine (L x live : live_handles) : L ⊎ x ⊆ live -> x ⊆ live.
Proof. multiset_solver. Qed.

Lemma beside_more (L x y live : live_handles) : L ⊎ x ⊆ live -> L ⊎ (x ⊎ y) ⊆ live ⊎ y.
Proof. multiset_solver. Qed.

Lemma beside_nothing (L x live : live_handles) : L ⊎ x ⊆ live -> L ⊎ (x ⊎ ∅) ⊆ live.
Proof. multiset_solver. Qed.

Lemma beside_two (L x y z live : live_handles) : L ⊎ x ⊎ y ⊎ z ⊆ live -> x ⊆ live /\ y ⊆ live.
Proof. multiset_solver. Qed.

Lemma remember_two (L x y m z live : live_handles) :
  L ⊎ x ⊎ y ⊎ m ⊎ z ⊆ live -> L ⊎ m ⊎ (z ⊎ (x ⊎ (y ⊎ ∅))) ⊆ live.
Proof. multiset_solver. Qed.

Lemma remember_one (L x m z live : live_handles) : L ⊎ x ⊎ m ⊎ z ⊆ live -> L ⊎ m ⊎ (z ⊎ (x ⊎ ∅)) ⊆ live.
Proof. multiset_solver. Qed.

Lemma close_one (L x z live : live_handles) : L ⊎ x ⊎ z ⊆ live -> L ⊎ z ⊆ (live ∖ x) ⊎ ∅.
Proof. multiset_solver. Qed.

Lemma beside_one (L x z live : live_handles) : L ⊎ x ⊎ z ⊆ live -> x ⊆ live.
Proof. multiset_solver. Qed.

(** Rewrites the handles of later sessions into those of earlier ones. *)
Ltac holds :=
  first [ assumption
        | repeat match goal with
          | Hk : handles ?s' = handles ?s |- context [held ?s'] => rewrite (held_same _ _ Hk); try assumption
          end; first [by eapply beside_mine | multiset_solver] ].

(** Goes past a part that leaves the handles alone. *)
Ltac pass := apply wp_idle; [solve [idles]|solve [holds]|intros ? ? ?].

Lemma held_set_client h s : held (s <| client_handle := h |>) ⊆ held s ⊎ one KClient h.
Proof.
  change (held (s <| client_handle := h |>))
    with (held_of h (queue_handle s) (rules s) (filters s) (collections s) (object_refs s)).
  unfold held, held_of. multiset_solver.
Qed.

Lemma held_set_queue h s : held (s <| queue_handle := h |>) ⊆ held s ⊎ one KQueue h.
Proof.
  change (held (s <| queue_handle := h |>))
    with (held_of (client_handle s) h (rules s) (filters s) (collections s) (object_refs s)).
  unfold held, held_of. multiset_solver.
Qed.

Section Sessions.
  Context {D : Type} (env : Env D).
  Implicit Types (s : Session) (live L : live_handles).

Lemma safe_connect_client : safe (connect_client env).
Proof.
  intros L s live Hs. unfold connect_client. pass. apply wp_bind.
  assert (forall h s1 live1, handles s1 = handles s -> L ⊎ (held s ⊎ one KClient (from_slot h)) ⊆ live1 ->
    wp (D := D) (update (fun s => s <| client_handle := from_slot h |>);;
        mret (match h with Some _ => true | None => false end)) s1 live1
      (fun (_ : bool) s' live' => L ⊎ held s' ⊆ live')) as Hset.
  { intros h s1 live1 Hk Hlive. apply wp_bind, wp_update, wp_ret. cbn beta.
    eapply beside; [apply held_set_client|]. by rewrite (held_same _ _ Hk). }
  eapply (wp_Adopt env _ KClient); [done|done|permit| |].
  - intros s1 Hk. apply Hset; [congruence|by apply beside_nothing].
  - intros h s1 _ Hk. apply Hset; [congruence|by apply beside_more].
Qed.

Lemma safe_adopt_queue export arg :
  kind_of closers export = None -> kind_of handed_out export = Some KQueue -> kind_of subjects export = Some KClient ->
  named_by export arg = None -> safe (adopt_queue env export arg).
Proof.
  intros Hc Ho Hk Ha L s live Hs. unfold adopt_queue. pass. apply wp_bind, wp_gets.
  destruct (_ || _); [apply wp_ret; holds|]. apply wp_bind.
  assert (forall h s1 live1, handles s1 = handles s -> L ⊎ (held s ⊎ one KQueue (from_slot h)) ⊆ live1 ->
    wp (D := D) (update (fun s => s <| queue_handle := from_slot h |>);;
        mret (match h with Some _ => true | None => false end)) s1 live1
      (fun (_ : bool) s' live' => L ⊎ held s' ⊆ live')) as Hset.
  { intros h s1 live1 Hk1 Hlive. apply wp_bind, wp_update, wp_ret. cbn beta.
    eapply beside; [apply held_set_queue|]. by rewrite (held_same _ _ Hk1). }
  eapply (wp_Adopt env _ KQueue); [done|done| | |].
  - eapply uses_named; [unfold named_by; by rewrite Hk| |apply uses_skip; [done|apply uses_nil]].
    apply use_one. etransitivity; [apply held_client|holds].
  - intros s1 Hk1. apply Hset; [congruence|by apply beside_nothing].
  - intros h s1 _ Hk1. apply Hset; [congruence|by apply beside_more].
Qed.

Lemma safe_CreateQueue : safe (CreateQueue env).
Proof. by apply safe_adopt_queue. Qed.

Lemma safe_OpenQueue id : safe (OpenQueue env id).
Proof. by apply safe_adopt_queue. Qed.

End Sessions.

Create HintDb safe.

(** Walks through an operation whose parts are safe. *)
Ltac safe_step :=
  lazymatch goal with
  | |- safe (mbind _ _) => apply safe_bind; [|intro]
  | |- safe (mret _) => apply safe_ret
  | |- safe (if ?b then _ else _) => destruct b
  | |- safe (match ?x with _ => _ end) => destruct x
  | |- safe (let _ := _ in _) => cbv zeta
  | |- safe _ => first [solve [auto 2 with safe] | apply idle_safe; intro; solve [idles]]
  end.

Ltac safely := repeat safe_step.

Section Disconnection.
  Context {D : Type} (env : Env D).
  Implicit Types (s : Session) (live L : live_handles).
  #[local] Hint Resolve safe_connect_client : safe.
  #[local] Hint Resolve idle_attempts idle_UnregisterIfOwned : idle.

Lemma safe_Connect client : safe (Connect env client).
Proof. unfold Connect. safely. Qed.

Lemma safe_ConnectExisting id : safe (ConnectExisting env id).
Proof. unfold ConnectExisting. safely. Qed.

(** Closing what is held at one place, which is forgotten afterwards. *)
Lemma wp_forget closer k l (forget : Session -> Session) s live L :
  kind_of closers closer = Some k -> kind_of handed_out closer = None ->
  (forall s', handles s' = handles s -> held s = all k l ⊎ held (forget s')) -> L ⊎ held s ⊆ live ->
  wp (CloseOwned env closer l) s live (fun _ s' live' => L ⊎ held (forget s') ⊆ live').
Proof.
  intros Hc Ho Htake Hs.
  eapply wp_mono; [apply (wp_CloseOwned env closer k l Hc Ho (L ⊎ held (forget s)))|].
  { rewrite (Htake s eq_refl) in Hs. multiset_solver. }
  intros [] s1 live1 [Hk Hlive]. pose proof (Htake s1 Hk) as H1. pose proof (Htake s eq_refl) as H2.
  rewrite H1 in H2. apply (inj (all k l ⊎.)) in H2. by rewrite H2.
Qed.

Lemma safe_close_list {B} closer k (take : Session -> list handle) (forget : Session -> Session)
    (rest : unit -> ST (World D) B) :
  kind_of closers closer = Some k -> kind_of handed_out closer = None ->
  (forall s s', handles s' = handles s -> held s = all k (take s) ⊎ held (forget s')) ->
  (forall u, safe (rest u)) ->
  safe (l ← gets take; CloseOwned env closer l;; update forget ≫= rest).
Proof.
  intros Hc Ho Htake Hrest L s live Hs. apply wp_bind, wp_gets, wp_bind.
  eapply wp_mono; [by apply (wp_forget closer k (take s) forget s live L Hc Ho (Htake s))|].
  intros [] s1 live1 Hs1. by apply wp_bind, wp_update, Hrest.
Qed.

Lemma CloseHandle_one closer h (w : World D) : CloseHandle env closer h w = CloseOwned env closer [h] w.
Proof. cbn [CloseOwned]. rewrite st_bind_unfold. by destruct (CloseHandle env closer h w) as [[] w']. Qed.

Lemma wp_ext {A} (m m' : ST (World D) A) s live Q : (forall w, m w = m' w) -> wp m' s live Q -> wp m s live Q.
Proof. intros Hm H w Hw. rewrite Hm. by apply H. Qed.

Lemma safe_close_slot {B} closer k (take : Session -> handle) (forget : Session -> Session)
    (rest : unit -> ST (World D) B) :
  kind_of closers closer = Some k -> kind_of handed_out closer = None ->
  (forall s s', handles s' = handles s -> held s = all k [take s] ⊎ held (forget s')) ->
  (forall u, safe (rest u)) ->
  safe (h ← gets take; CloseHandle env closer h;; update forget ≫= rest).
Proof.
  intros Hc Ho Htake Hrest L s live Hs. apply wp_bind, wp_gets, wp_bind.
  eapply wp_ext; [apply CloseHandle_one|].
  eapply wp_mono; [by apply (wp_forget closer k [take s] forget s live L Hc Ho (Htake s))|].
  intros [] s1 live1 Hs1. by apply wp_bind, wp_update, Hrest.
Qed.

Lemma handles_parts s s' :
  handles s' = handles s ->
  client_handle s' = client_handle s /\ queue_handle s' = queue_handle s /\ rules s' = rules s /\
  filters s' = filters s /\ collections s' = collections s /\ object_refs s' = object_refs s.
Proof. unfold handles. by intros [= -> -> -> -> -> -> _]. Qed.

Lemma without_filters s s' : handles s' = handles s -> held s = all KFilter (filters s) ⊎ held (s' <| filters := [] |>).
Proof.
  intros Hk. destruct (handles_parts _ _ Hk) as (E1 & E2 & E3 & E4 & E5 & E6).
  change (held (s' <| filters := [] |>))
    with (held_of (client_handle s') (queue_handle s') (rules s') [] (collections s') (object_refs s')).
  rewrite E1, E2, E3, E5, E6. unfold held, held_of. rewrite all_nil. multiset_solver.
Qed.

Lemma without_rules s s' : handles s' = handles s -> held s = all KRule (rules s) ⊎ held (s' <| rules := [] |>).
Proof.
  intros Hk. destruct (handles_parts _ _ Hk) as (E1 & E2 & E3 & E4 & E5 & E6).
  change (held (s' <| rules := [] |>))
    with (held_of (client_handle s') (queue_handle s') [] (filters s') (collections s') (object_refs s')).
  rewrite E1, E2, E4, E5, E6. unfold held, held_of. rewrite all_nil. multiset_solver.
Qed.

Lemma without_references s s' :
  handles s' = handles s -> held s = all KReference (object_refs s) ⊎ held (s' <| object_refs := [] |>).
Proof.
  intros Hk. destruct (handles_parts _ _ Hk) as (E1 & E2 & E3 & E4 & E5 & E6).
  change (held (s' <| object_refs := [] |>))
    with (held_of (client_handle s') (queue_handle s') (rules s') (filters s') (collections s') []).
  rewrite E1, E2, E3, E4, E5. unfold held, held_of. rewrite all_nil. multiset_solver.
Qed.

Lemma without_collections s s' :
  handles s' = handles s ->
  held s = all KCollection (collections s) ⊎
    held (s' <| collections := [] |> <| named_collections := [] |> <| notify_queries := [] |>).
Proof.
  intros Hk. destruct (handles_parts _ _ Hk) as (E1 & E2 & E3 & E4 & E5 & E6).
  change (held (s' <| collections := [] |> <| named_collections := [] |> <| notify_queries := [] |>))
    with (held_of (client_handle s') (queue_handle s') (rules s') (filters s') [] (object_refs s')).
  rewrite E1, E2, E3, E4, E6. unfold held, held_of. rewrite all_nil. multiset_solver.
Qed.

Lemma without_queue s s' :
  handles s' = handles s -> held s = all KQueue [queue_handle s] ⊎ held (s' <| queue_handle := 0 |>).
Proof.
  intros Hk. destruct (handles_parts _ _ Hk) as (E1 & E2 & E3 & E4 & E5 & E6).
  change (held (s' <| queue_handle := 0 |>))
    with (held_of (client_handle s') 0 (rules s') (filters s') (collections s') (object_refs s')).
  rewrite E1, E3, E4, E5, E6. unfold held, held_of. rewrite all_cons, all_nil.
  change (one KQueue 0) with (∅ : live_handles). multiset_solver.
Qed.

Lemma without_client s s' :
  handles s' = handles s -> held s = all KClient [client_handle s] ⊎ held (s' <| client_handle := 0 |>).
Proof.
  intros Hk. destruct (handles_parts _ _ Hk) as (E1 & E2 & E3 & E4 & E5 & E6).
  change (held (s' <| client_handle := 0 |>))
    with (held_of 0 (queue_handle s') (rules s') (filters s') (collections s') (object_refs s')).
  rewrite E2, E3, E4, E5, E6. unfold held, held_of. rewrite all_cons, all_nil.
  change (one KClient 0) with (∅ : live_handles). multiset_solver.
Qed.

Lemma safe_CloseQueue : safe (CloseQueue env).
Proof.
  intros L s live Hs. eapply (wp_ext _ (h ← gets queue_handle; CloseHandle env "EspCloseEventQueue" h;;
    update (fun s => s <| queue_handle := 0 |>) ≫= mret)).
  - intros w. unfold CloseQueue. by rewrite !st_bind_unfold.
  - eapply (safe_close_slot _ KQueue queue_handle); [done|done|apply without_queue|intros; apply safe_ret|done].
Qed.

Lemma safe_Disconnect : safe (Disconnect env).
Proof.
  unfold Disconnect. apply safe_bind; [safely|intros]. apply safe_bind; [safely|intros].
  eapply safe_close_list; [done|done|apply without_filters|intros].
  eapply safe_close_list; [done|done|apply without_rules|intros].
  eapply safe_close_list; [done|done|apply without_references|intros].
  eapply safe_close_list; [done|done|apply without_collections|intros].
  apply safe_bind; [apply safe_CloseQueue|intros].
  eapply safe_close_slot; [done|done|apply without_client|intros]. safely.
Qed.

End Disconnection.

#[export] Hint Resolve idle_UnregisterClientId idle_QueryAllProperties idle_RemoveAllRules : idle.
#[export] Hint Resolve idle_free idle_print_lines idle_IsPropertySupported idle_QueryKind idle_supported_each idle_notifications : idle.
#[export] Hint Resolve safe_connect_client safe_CreateQueue safe_OpenQueue safe_Connect safe_ConnectExisting : safe.
#[export] Hint Resolve safe_CloseQueue safe_Disconnect : safe.
