(* ===== verification/CustodyRules.v ===== *)
(** Custody of handles in a rule installation: collections, filters and rules. What is made
    is held by the session, by the computation that made it, or was closed. *)
From stdpp Require Import gmultiset.
From S2P Require Import Prelude Text Core Events RuleModel RuleParser Api NtPath Session.
From S2P Require Import FilterBuild Refs RuleInstall RuleInstallRun Custody.

(** ** Collections *)

Lemma use_client s live : held s ⊆ live -> use_ok live (KClient, client_handle s) = true.
Proof. intros H. apply use_one. etransitivity; [apply held_client|done]. Qed.

Lemma same_with_collection h s s' :
  handles s' = handles s -> handles (with_collection h s') = handles (with_collection h s).
Proof.
  unfold handles at 1 2. intros [= E1 E2 E3 E4 E5 E6 E7].
  change ((client_handle s', queue_handle s', rules s', filters s', collections s' ++ [h], object_refs s', named_collections s')
    = (client_handle s, queue_handle s, rules s, filters s, collections s ++ [h], object_refs s, named_collections s)).
  congruence.
Qed.

Lemma same_with_reference h s s' :
  handles s' = handles s -> handles (with_reference h s') = handles (with_reference h s).
Proof.
  unfold handles at 1 2. intros [= E1 E2 E3 E4 E5 E6 E7].
  change ((client_handle s', queue_handle s', rules s', filters s', collections s', object_refs s' ++ [h], named_collections s')
    = (client_handle s, queue_handle s, rules s, filters s, collections s, object_refs s ++ [h], named_collections s)).
  congruence.
Qed.

Section Collections.
  Context {D : Type} (env : Env D).
  Implicit Types (s : Session) (live L : live_handles).

(** The computation makes a collection, or none, and remembers it. *)
Definition makes_collection (m : ST (World D) (option handle)) : Prop :=
  forall s live (Q : option handle -> Session -> live_handles -> Prop), held s ⊆ live ->
    (forall s', handles s' = handles s -> Q None s' live) ->
    (forall h s', handle_ok h = true -> handles s' = handles (with_collection h s) ->
       Q (Some h) s' (live ⊎ one KCollection h)) ->
    wp m s live Q.

Lemma create_collection_makes type : makes_collection (create_collection env type).
Proof.
  intros s live Q Hs Hnone Hsome. unfold create_collection. apply wp_bind, wp_gets. pass. apply wp_bind.
  eapply (wp_Adopt env _ KCollection); [done|done|permit; by apply use_client| |].
  - intros s1 Hk. apply wp_ret, Hnone. congruence.
  - intros h s1 Hh Hk. apply wp_bind, wp_update, wp_ret, Hsome; [done|]. apply same_with_collection. congruence.
Qed.

Lemma OpenNamedCollection_makes id : makes_collection (OpenNamedCollection env id).
Proof.
  intros s live Q Hs Hnone Hsome. unfold OpenNamedCollection. pass. apply wp_bind, wp_gets.
  destruct (_ || _); [by apply wp_ret, Hnone|]. apply wp_bind.
  eapply (wp_Adopt env _ KCollection); [done|done|permit; apply use_client; holds| |].
  - intros s1 Hk. apply wp_ret, Hnone. congruence.
  - intros h s1 Hh Hk. apply wp_bind, wp_update, wp_ret, Hsome; [done|]. apply same_with_collection. congruence.
Qed.

Lemma held_collected h s s' live :
  held s ⊆ live -> handles s' = handles (with_collection h s) -> held s' ⊆ live ⊎ one KCollection h.
Proof. intros Hs Hk. rewrite (held_same _ _ Hk), held_with_collection. multiset_solver. Qed.

Lemma use_new live k h : use_ok (live ⊎ one k h) (k, h) = true.
Proof. apply use_one. multiset_solver. Qed.

Lemma wp_CreateStringCollection (value : wstring) s live (Q : bool * handle -> Session -> live_handles -> Prop) :
  held s ⊆ live ->
  (forall s', handles s' = handles s -> Q (false, 0) s' live) ->
  (forall ok h s', handle_ok h = true -> handles s' = handles (with_collection h s) ->
     Q (ok, h) s' (live ⊎ one KCollection h)) ->
  wp (CreateStringCollection env value) s live Q.
Proof.
  intros Hs Hnone Hsome. unfold CreateStringCollection. do 2 pass. apply wp_bind, wp_gets.
  destruct (_ || _); [apply wp_ret, Hnone; congruence|]. apply wp_bind, create_collection_makes; [holds| |].
  - intros s1 Hk. apply wp_ret, Hnone. congruence.
  - intros h s1 Hh Hk.
    assert (handles s1 = handles (with_collection h s)) as Hk1
      by (rewrite Hk; apply same_with_collection; congruence).
    assert (held s1 ⊆ live ⊎ one KCollection h) as Hs1 by (by apply (held_collected h s)).
    pose proof (use_new live KCollection h) as Huse. pass. cbv zeta.
    destruct (_ || _); [apply wp_ret, Hsome; [done|congruence]|]. pass. pass.
    match goal with |- context [match ?x with pair _ _ => _ end] => destruct x end.
    apply wp_ret, Hsome; [done|congruence].
Qed.

End Collections.

(** ** Filters *)

(** The named collections are among the session's collections. *)
Definition named_ok (s : Session) : Prop := Forall (fun e => e.2 ∈ collections s) (named_collections s).

(** In the midst of an installation: the open handles, the named collections and the rules. *)
Definition sound (L : live_handles) (R : list handle) (s : Session) (live : live_handles) : Prop :=
  L ⊎ held s ⊆ live /\ named_ok s /\ rules s = R.

Lemma sound_same L R s s' live : handles s' = handles s -> sound L R s live -> sound L R s' live.
Proof.
  intros Hk (Hs & Hn & Hr). split; [by rewrite (held_same _ _ Hk)|]. unfold named_ok in *. unfold handles in Hk.
  injection Hk as _ _ Hrs _ Hc _ Hm. by rewrite Hc, Hm, Hrs.
Qed.

Lemma sound_collection L R h s s' live :
  handles s' = handles (with_collection h s) -> sound L R s live ->
  sound L R s' (live ⊎ one KCollection h).
Proof.
  intros Hk (Hs & Hn & Hr). split; [rewrite (held_same _ _ Hk), held_with_collection; by apply beside_more|].
  injection Hk as _ _ Hrs _ Hc _ Hm. unfold named_ok. rewrite Hc, Hm. split; [|by rewrite Hrs].
  eapply Forall_impl; [exact Hn|]. intros e He. apply elem_of_app. by left.
Qed.

Lemma sound_less L1 L2 R s live : L1 ⊆ L2 -> sound L2 R s live -> sound L1 R s live.
Proof. intros HL (Hs & Hn). split; [|done]. multiset_solver. Qed.

(** From any state in which the named collections are there. *)
Definition installing {D A} (m : ST (World D) A) : Prop :=
  forall L R s live, sound L R s live -> wp m s live (fun _ s' live' => sound L R s' live').

(** The filter that a construction made. *)
Definition made (r : EspResult * handle) : live_handles := if Succeeded r.1 then one KFilter r.2 else ∅.

(** The computation makes a filter, which the caller holds. *)
Definition makes_filter {D} (m : ST (World D) (EspResult * handle)) : Prop :=
  forall L R s live, sound L R s live -> wp m s live (fun r s' live' => sound (L ⊎ made r) R s' live').

Lemma sound_more L R s live more : sound L R s live -> sound L R s (live ⊎ more).
Proof. intros (Hs & Hn). split; [|done]. multiset_solver. Qed.

(** Goes past a part that leaves the handles alone, when the named collections matter. *)
Ltac pass_sound Hs :=
  apply wp_idle; [solve [idles]|solve [destruct Hs; by eapply beside_mine]|];
  let Hk := fresh "Hk" in intros ? ? Hk; apply (sound_same _ _ _ _ _ Hk) in Hs; clear Hk.

Section Filters.
  Context {D : Type} (env : Env D).
  Implicit Types (s : Session) (live L : live_handles) (R : list handle) (export : string) (args : list Arg) (node : FilterNode).

Lemma idle_installing {A} (m : ST (World D) A) : (forall live, idle live m) -> installing m.
Proof.
  intros Hm L R s live Hs. eapply wp_mono; [apply Hm; destruct Hs; by eapply beside_mine|]. intros a s' live' [Hk ->].
  by eapply sound_same.
Qed.

Lemma installing_bind {A B} (m : ST (World D) A) (f : A -> ST (World D) B) :
  installing m -> (forall a, installing (f a)) -> installing (m ≫= f).
Proof. intros Hm Hf L R s live Hs. apply wp_bind. eapply wp_mono; [by apply (Hm L R)|]. intros. by apply Hf. Qed.

Lemma sound_null L R s live r : sound L R s live -> sound (L ⊎ made (r, 0)) R s live.
Proof. intros H. unfold made. cbn. destruct (Succeeded r); (eapply sound_less; [|exact H]; multiset_solver). Qed.

(** A call that makes a filter. *)
Lemma wp_filter_call export args L R s live (Q : Reply -> Session -> live_handles -> Prop) :
  kind_of closers export = None -> kind_of handed_out export = Some KFilter ->
  forallb (use_ok live) (uses export args) = true -> sound L R s live ->
  (forall reply live', sound (L ⊎ made (re_result reply, re_out reply)) R s live' -> Q reply s live') ->
  wp (Call env export args) s live Q.
Proof.
  intros Hc Ho Hu [Hs Hn] HQ. apply wp_call; [done|]. intros reply. apply HQ. split; [|done].
  unfold after, closed_by, gained_by, made. rewrite Ho. cbn [fst snd].
  assert (match args with
          | [AHandle h] => match kind_of closers export with
                           | Some k => if handle_ok h then {[+ (k, h) +]} else ∅ | None => ∅ end
          | _ => ∅ end = (∅ : live_handles)) as -> by (rewrite Hc; by destruct args as [|[] [|]]).
  destruct (Succeeded (re_result reply)); cbn [andb]; [|multiset_solver].
  unfold one. destruct (handle_ok (re_out reply)); multiset_solver.
Qed.

Lemma invoke_makes export (property size_class : Z) (payload : Arg) live :
  kind_of closers export = None -> kind_of handed_out export = Some KFilter ->
  forall L R s, sound L R s live -> (forall h, named_by export payload = Some h -> use_ok live h = true) ->
  wp (invoke env export property size_class payload) s live (fun r s' live' => sound (L ⊎ made r) R s' live').
Proof.
  intros Hc Ho L R s Hs Hp. unfold invoke. apply wp_bind. eapply wp_filter_call; [done|done| |exact Hs|].
  - do 2 (apply uses_skip; [done|]). destruct (named_by export payload) as [h|] eqn:E.
    + eapply uses_named; [exact E|by apply Hp|done].
    + by apply uses_skip.
  - intros reply live' H. by apply wp_ret.
Qed.

Lemma wp_leaf_collection node L R s live :
  sound L R s live ->
  wp (leaf_collection env node) s live (fun r s' live' =>
    sound L R s' live' /\ forall h, r = Some h -> use_ok live' (KCollection, h) = true).
Proof.
  intros Hs. pose proof Hs as (Hheld & Hn & Hr). assert (held s ⊆ live) as Hown by (by eapply beside_mine).
  unfold leaf_collection. destruct (negb (is_empty (fn_collectionName node))).
  - unfold FindNamedCollection. apply wp_bind, wp_bind, wp_gets, wp_ret, wp_ret. split; [done|].
    destruct (find_first _ _) as [e|] eqn:E; [|done]. cbv zeta. destruct (handle_ok e.2) eqn:Eok; [|done].
    intros h [= <-]. apply find_first_In in E as [Hin _]. apply use_one.
    etransitivity; [apply held_collection|done]. unfold named_ok in Hn. rewrite Forall_forall in Hn. by apply Hn.
  - destruct (is_empty _); [by apply wp_ret|]. apply wp_bind, wp_CreateStringCollection; [done| |].
    + intros s' Hk. apply wp_ret. split; [by eapply sound_same|done].
    + intros ok h s' Hh Hk. apply wp_ret. split; [by eapply sound_collection|]. rewrite Hh, andb_true_r.
      destruct ok; [|done]. intros h' [= <-]. apply use_new.
Qed.

Lemma typed_export_tables export :
  export ∈ drop 1 kTypedFilterExports -> kind_of closers export = None /\ kind_of handed_out export = Some KFilter.
Proof.
  assert (Forall (fun e => kind_of closers e = None /\ kind_of handed_out e = Some KFilter) (drop 1 kTypedFilterExports))
    as Hall by (repeat constructor). rewrite Forall_forall in Hall. apply Hall.
Qed.

Lemma CreateLeafFilter_makes node : makes_filter (CreateLeafFilter env node).
Proof.
  intros L R s live Hs. unfold CreateLeafFilter.
  destruct (TypedFilterExportName (fn_type node)) as [export|] eqn:E; [|by apply wp_ret, sound_null].
  apply TypedFilterExportName_in, typed_export_tables in E as [Hc Ho]. pass_sound Hs. cbv zeta.
  destruct (negb _); [by apply wp_ret, sound_null|]. destruct (_ =? 0); [by apply wp_ret, sound_null|].
  destruct (_ =? kStringComparandCollection).
  { destruct (negb _); [by apply wp_ret, sound_null|]. apply wp_bind.
    eapply wp_mono; [by apply (wp_leaf_collection node L R)|]. intros [h|] s1 live1 [Hs1 Huse]; [|by apply wp_ret, sound_null].
    specialize (Huse h eq_refl). pass_sound Hs1. apply invoke_makes; [done|done|done|]. by intros ? [= <-]. }
  repeat match goal with
  | |- wp (if ?b then _ else _) _ _ _ => destruct b
  | |- wp (match ?x with _ => _ end) _ _ _ => destruct x
  | |- wp (mret _) _ _ _ => by apply wp_ret, sound_null
  | |- wp (invoke _ _ _ _ _) _ _ _ => by apply invoke_makes
  | |- wp (_ ≫= _) _ _ _ => pass_sound Hs
  end.
Qed.

Lemma CreateBinaryFilter_makes kind (lhs rhs : handle) L R s live :
  sound (L ⊎ one KFilter lhs ⊎ one KFilter rhs) R s live ->
  wp (CreateBinaryFilter env kind lhs rhs) s live (fun r s' live' => sound (L ⊎ made r) R s' live').
Proof.
  intros Hs. unfold CreateBinaryFilter. pass_sound Hs.
  destruct (negb _); [apply wp_ret, sound_null; eapply sound_less; [|exact Hs]; multiset_solver|]. apply wp_bind.
  assert (kind_of closers (BinaryFilterExport kind) = None /\ kind_of handed_out (BinaryFilterExport kind) = Some KFilter /\
    kind_of subjects (BinaryFilterExport kind) = Some KFilter) as (Hc & Ho & Hk) by (by destruct kind).
  eapply wp_filter_call; [exact Hc|exact Ho| |exact Hs|].
  - destruct Hs as [[Hl Hrh]%beside_two _]. eapply uses_named; [unfold named_by; by rewrite Hk|by apply use_one|].
    eapply uses_named; [unfold named_by; by rewrite Hk|by apply use_one|apply uses_nil].
  - intros reply live' [H Hn]. apply wp_bind, wp_update, wp_ret. split; [|exact Hn].
    change (L ⊎ made (re_result reply, re_out reply) ⊎ held (with_filters [lhs; rhs] s') ⊆ live').
    rewrite held_with_filters, !all_cons, all_nil. by apply remember_two.
Qed.

Lemma CreateNotFilter_makes (child : handle) L R s live :
  sound (L ⊎ one KFilter child) R s live ->
  wp (CreateNotFilter env child) s live (fun r s' live' => sound (L ⊎ made r) R s' live').
Proof.
  intros Hs. unfold CreateNotFilter. pass_sound Hs.
  destruct (negb _); [apply wp_ret, sound_null; eapply sound_less; [|exact Hs]; multiset_solver|]. apply wp_bind.
  eapply wp_filter_call; [done|done| |exact Hs|].
  - destruct Hs as [Hl%beside_one _]. eapply uses_named; [done|by apply use_one|apply uses_nil].
  - intros reply live' [H Hn]. apply wp_bind, wp_update, wp_ret. split; [|exact Hn].
    change (L ⊎ made (re_result reply, re_out reply) ⊎ held (with_filters [child] s') ⊆ live').
    rewrite held_with_filters, all_cons, all_nil. by apply remember_one.
Qed.

Lemma wp_close_filter (h : handle) L R s live (Q : unit -> Session -> live_handles -> Prop) :
  sound (L ⊎ one KFilter h) R s live -> (forall s' live', sound L R s' live' -> Q tt s' live') ->
  wp (close_filter env h) s live Q.
Proof.
  intros Hs HQ. unfold close_filter. pass_sound Hs. destruct a.
  2:{ apply wp_ret, HQ. eapply sound_less; [|exact Hs]. multiset_solver. }
  destruct Hs as [Hl Hn]. apply wp_bind, wp_call.
  - eapply uses_named; [done|eapply use_one, beside_one, Hl|apply uses_nil].
  - intros reply. apply wp_ret, HQ. split; [|exact Hn].
    change (L ⊎ held s' ⊆ (live ∖ one KFilter h) ⊎ ∅). by apply close_one.
Qed.

Lemma made_success r h : Failed r = false -> made (r, h) = one KFilter h.
Proof. rewrite Failed_Succeeded. intros H%negb_false_iff. unfold made. cbn. by rewrite H. Qed.

Lemma made_failure r h : Failed r = true -> made (r, h) = ∅.
Proof. rewrite Failed_Succeeded. intros H%negb_true_iff. unfold made. cbn. by rewrite H. Qed.

(** The rest of a binary filter, once its first operand is there. *)
Lemma binary_makes kind lhs child1 L R s live :
  makes_filter (CreateFilterTree env child1) -> sound (L ⊎ one KFilter lhs) R s live ->
  wp ('(result, rhs) ← CreateFilterTree env child1;
      if Failed result then close_filter env lhs;; mret (result, 0)
      else CreateBinaryFilter env kind lhs rhs) s live (fun r s' live' => sound (L ⊎ made r) R s' live').
Proof.
  intros H1 Hs. apply wp_bind. eapply wp_mono; [by apply H1|]. intros [r1 rhs] s1 live1 Hs1.
  destruct (Failed r1) eqn:E1.
  - rewrite (made_failure _ _ E1) in Hs1. apply wp_bind, (wp_close_filter lhs L R).
    + eapply sound_less; [|exact Hs1]. multiset_solver.
    + intros s2 live2 Hs2. by apply wp_ret, sound_null.
  - rewrite (made_success _ _ E1) in Hs1. by apply CreateBinaryFilter_makes.
Qed.

Lemma CreateFilterTree_makes node : makes_filter (CreateFilterTree env node).
Proof.
  induction node as [k t c o p pn op v cn children IH] using FilterNode_tree_ind. intros L R s live Hs.
  destruct k; cbn [CreateFilterTree fn_kind fn_children]; [by apply CreateLeafFilter_makes|..];
    (destruct children as [|c0 [|c1 rest]]; try (by apply wp_ret, sound_null));
    apply Forall_cons in IH as [H0 IH];
    (apply wp_bind; eapply wp_mono; [by apply H0|]; intros [r0 lhs] s1 live1 Hs1;
     destruct (Failed r0) eqn:E0; [apply wp_ret, sound_null; eapply sound_less; [|exact Hs1]; multiset_solver|];
     rewrite (made_success _ _ E0) in Hs1).
  1, 2, 3: apply Forall_cons in IH as [H1 _]; by apply binary_makes.
  by apply CreateNotFilter_makes.
Qed.
End Filters.

(** ** Rules *)

Lemma named_with_filters l s : named_ok s -> named_ok (with_filters l s).
Proof. done. Qed.

Lemma sound_remember (L : live_handles) (R : list handle) (h : handle) s live :
  sound (L ⊎ one KFilter h) R s live -> sound L R (with_filters [h] s) live.
Proof.
  intros (Hs & Hn & Hr). split; [|done]. rewrite held_with_filters, all_cons, all_nil. multiset_solver.
Qed.

Lemma sound_rule (L : live_handles) (R : list handle) (h : handle) s live :
  sound L R s live -> sound L (R ++ [h]) (with_rule h s) (live ⊎ one KRule h).
Proof.
  intros (Hs & Hn & Hr). split; [rewrite held_with_rule; by apply beside_more|]. split; [exact Hn|].
  change (rules s ++ [h] = R ++ [h]). by rewrite Hr.
Qed.

Create HintDb installing.

(** Walks through a part of an installation. *)
Ltac install_step :=
  lazymatch goal with
  | |- installing (mbind _ _) => apply installing_bind; [|intro]
  | |- installing (if ?b then _ else _) => destruct b
  | |- installing (match ?x with _ => _ end) => destruct x
  | |- installing (let _ := _ in _) => cbv zeta
  | |- installing _ => first [solve [auto 2 with installing] | apply idle_installing; intro; solve [idles]]
  end.

Ltac installs := repeat install_step.

Section Rules.
  Context {D : Type} (env : Env D).
  Implicit Types (s : Session) (live L : live_handles) (R before : list handle) (spec : RuleSpec).
  Local Abbreviation M := (ST (World D)).

(** A filter that was made is remembered, or it was not made. *)
Lemma installing_made {A} (m : M (EspResult * handle)) step (f : EspResult * handle -> M A) :
  makes_filter m ->
  (forall r h L R s live, sound (L ⊎ made (r, h)) R s live ->
     wp (f (r, h)) s live (fun _ s' live' => sound L R s' live')) ->
  installing ('(r, h) ← m; RecordStep step r None;; f (r, h)).
Proof.
  intros Hm Hf L R s live Hs. apply wp_bind. eapply wp_mono; [by apply Hm|]. intros [r h] s1 live1 Hs1.
  apply wp_idle; [apply idle_step|destruct Hs1; by eapply beside_mine|]. intros _ s2 Hk. apply Hf. by eapply sound_same.
Qed.

Lemma sound_forget L x R s live : sound (L ⊎ x) R s live -> sound L R s live.
Proof. apply sound_less. multiset_solver. Qed.

Lemma one_null k (h : handle) : handle_ok h = false -> one k h = ∅.
Proof. unfold one. by intros ->. Qed.

Lemma TryBuildRuleFilter_installing spec : installing (TryBuildRuleFilter env spec).
Proof.
  unfold TryBuildRuleFilter. destruct (IsEmptyFilter _); [installs|].
  apply (installing_made _ _ (fun x => if Failed x.1 then mret None
      else (if handle_ok x.2 then remember_filters [x.2] else mret tt);; mret (Some x.2))).
  - apply CreateFilterTree_makes.
  - intros r h L R s live Hs. cbn [fst snd]. destruct (Failed r) eqn:E; [apply wp_ret; by eapply sound_forget|].
    rewrite (made_success _ _ E) in Hs. destruct (handle_ok h).
    + apply wp_bind, wp_update, wp_ret. by apply sound_remember.
    + apply wp_bind, wp_ret, wp_ret. by eapply sound_forget.
Qed.

Lemma image_filter_installing spec : installing (image_filter env spec).
Proof.
  unfold image_filter. cbv zeta. destruct (_ && _); [|installs].
  apply (installing_made _ _ (fun x => if Succeeded x.1 && handle_ok x.2 then remember_filters [x.2];; mret x.2 else mret 0)).
  - apply CreateLeafFilter_makes.
  - intros r h L R s live Hs. cbn [fst snd]. unfold made in Hs. cbn [fst snd] in Hs.
    destruct (Succeeded r); cbn [andb]; [|apply wp_ret; by eapply sound_forget].
    destruct (handle_ok h); [|apply wp_ret; by eapply sound_forget].
    apply wp_bind, wp_update, wp_ret. by apply sound_remember.
Qed.
#[local] Hint Resolve TryBuildRuleFilter_installing image_filter_installing : installing.

Lemma AttachFilterToDescriptor_installing descriptor spec filter :
  installing (AttachFilterToDescriptor env descriptor spec filter).
Proof. unfold AttachFilterToDescriptor. cbv zeta. installs. Qed.

(** A computation that may add a rule at the end. *)
Definition adds_rule (m : M (option PendingEntry)) : Prop :=
  forall L R s live, sound L R s live ->
    wp m s live (fun e s' live' => sound L (R ++ match e with Some e => [pe_rule e] | None => [] end) s' live').

Lemma adds_after {A} (m : M A) f : installing m -> (forall a, adds_rule (f a)) -> adds_rule (m ≫= f).
Proof. intros Hm Hf L R s live Hs. apply wp_bind. eapply wp_mono; [by apply (Hm L R)|]. intros. by apply Hf. Qed.

Lemma adds_nothing : adds_rule (mret None).
Proof. intros L R s live Hs. apply wp_ret. by rewrite app_nil_r. Qed.

Lemma adds_refuse message : adds_rule (refuse message).
Proof. apply adds_after; [installs|intro; apply adds_nothing]. Qed.

Lemma create_rule_adds spec descriptor anchor : adds_rule (create_rule env spec descriptor anchor).
Proof.
  intros L R s live Hs. unfold create_rule. pass_sound Hs. apply wp_bind, wp_call; [by permit|]. intros reply.
  apply wp_idle; [apply idle_step|destruct Hs as [Hs _]; apply beside_mine in Hs; multiset_solver|].
  intros _ s1 Hk. apply (sound_same _ _ _ _ _ Hk) in Hs. rewrite Failed_Succeeded.
  assert (after live (Called "EspCreateRule" [ARuleDescriptor descriptor a] reply) =
    live ⊎ if Succeeded (re_result reply) && handle_ok (re_out reply) then one KRule (re_out reply) else ∅) as ->.
  { unfold after, closed_by, gained_by, one. cbn. destruct (Succeeded _), (handle_ok _); cbn; multiset_solver. }
  destruct (Succeeded _); cbn [negb orb andb].
  2:{ apply wp_ret. rewrite app_nil_r. eapply sound_more, Hs. }
  destruct (handle_ok (re_out reply)); cbn [negb].
  2:{ apply wp_ret. rewrite app_nil_r. eapply sound_more, Hs. }
  apply wp_bind, wp_update. apply (sound_rule _ _ (re_out reply)) in Hs.
  apply wp_idle; [idles|destruct Hs as [Hs' _]; by eapply beside_mine|]. intros _ s2 Hk2. apply wp_ret.
  by eapply sound_same.
Qed.

Lemma build_rule_adds spec rules_before entries : adds_rule (build_rule env spec rules_before entries).
Proof.
  unfold build_rule. cbv zeta. destruct (_ =? 0); [apply adds_refuse|].
  apply adds_after; [installs|]. intros [filter|]; [|apply adds_nothing].
  destruct (selector_conflict spec); [apply adds_refuse|].
  apply adds_after; [installs|intro]. apply adds_after; [installs|intro].
  apply adds_after; [apply idle_installing; intro; apply idle_write_action|]. intros [[descriptor anchor]|]; [|apply adds_nothing].
  apply adds_after; [apply AttachFilterToDescriptor_installing|intro]. apply create_rule_adds.
Qed.

Lemma wp_build_rules specs rules_before before L : forall entries all_ok s live,
  sound L (before ++ (pe_rule <$> entries)) s live ->
  wp (build_rules env specs rules_before entries all_ok) s live
    (fun r s' live' => sound L (before ++ (pe_rule <$> r.1)) s' live').
Proof.
  induction specs as [|spec specs IH]; intros entries all_ok s live Hs; cbn [build_rules]; [by apply wp_ret|].
  apply wp_bind. eapply wp_mono; [by apply build_rule_adds|]. intros [e|] s1 live1 Hs1; apply IH.
  - by rewrite fmap_app, app_assoc.
  - by rewrite app_nil_r in Hs1.
Qed.

(** *** Submitting *)

Lemma held_rules s : held s = held (s <| rules := [] |>) ⊎ all KRule (rules s).
Proof.
  change (held (s <| rules := [] |>))
    with (held_of (client_handle s) (queue_handle s) [] (filters s) (collections s) (object_refs s)).
  unfold held, held_of. rewrite all_nil. multiset_solver.
Qed.

Lemma held_new_rules s l : held (s <| rules := l |>) = held (s <| rules := [] |>) ⊎ all KRule l.
Proof. by rewrite held_rules. Qed.

Lemma insert_middle (prefix rest : list handle) (h h' : handle) :
  <[length prefix := h']> (prefix ++ h :: rest) = prefix ++ h' :: rest.
Proof. rewrite insert_app_r_alt by lia. by rewrite Nat.sub_diag. Qed.

(** The rule at a slot is closed, or forgotten. *)
Lemma wp_reject_rule (close : bool) (prefix : list handle) (h : handle) (rest : list handle) L s live (Q : unit -> Session -> live_handles -> Prop) :
  sound L (prefix ++ h :: rest) s live ->
  (forall s' live', sound L (prefix ++ 0 :: rest) s' live' -> Q tt s' live') ->
  wp (reject_rule env close (length prefix)) s live Q.
Proof.
  intros (Hs & Hn & Hr) HQ. unfold reject_rule. apply wp_bind, wp_gets, wp_bind. rewrite Hr.
  rewrite list_lookup_middle by done. apply wp_ret, wp_bind.
  rewrite held_rules, Hr, all_app, all_cons in Hs.
  assert (forall live1, L ⊎ (held (s <| rules := [] |>) ⊎ (all KRule prefix ⊎ all KRule rest)) ⊆ live1 ->
    wp (D := D) (update (fun s => s <| rules ::= <[length prefix := 0]> |>)) s live1 Q) as Hend.
  { intros live1 Hlive. apply wp_update, HQ. split; [|split; [exact Hn|]].
    - change (L ⊎ held (s <| rules := <[length prefix := 0]> (rules s) |>) ⊆ live1). rewrite held_new_rules, Hr.
      rewrite insert_middle, all_app, all_cons. change (one KRule 0) with (∅ : live_handles).
      by rewrite (left_id_L ∅ (⊎)).
    - change (<[length prefix := 0]> (rules s) = prefix ++ 0 :: rest). by rewrite Hr, insert_middle. }
  destruct (handle_ok h && close) eqn:E.
  - apply andb_true_iff in E as [Eh _]. apply wp_bind, wp_call.
    + eapply uses_named; [done|apply use_one; multiset_solver|done].
    + intros reply. apply wp_ret, Hend. unfold after, closed_by, gained_by. cbn. rewrite Eh.
      unfold one in Hs. rewrite Eh in Hs. multiset_solver.
  - apply wp_ret, Hend. multiset_solver.
Qed.

Lemma wp_submit_entries (close : bool) entries L : forall (prefix : list handle) rejected committed refused s live,
  sound L (prefix ++ (pe_rule <$> entries)) s live ->
  wp (submit_entries env close (length prefix) entries rejected committed refused) s live
    (fun _ s' live' => exists slots, sound L (prefix ++ slots) s' live').
Proof.
  induction entries as [|e entries IH]; intros prefix rejected committed refused s live Hs; cbn [submit_entries].
  { apply wp_ret. by exists []. }
  assert (use_ok live (KRule, pe_rule e) = true) as Huse.
  { destruct Hs as (Hs & Hn & Hr). apply use_one. rewrite held_rules, Hr, all_app in Hs. cbn [fmap list_fmap] in Hs.
    rewrite all_cons in Hs. multiset_solver. }
  assert (forall h rejected committed refused s' live',
    sound L (prefix ++ h :: (pe_rule <$> entries)) s' live' ->
    wp (submit_entries env close (S (length prefix)) entries rejected committed refused) s' live'
      (fun _ s' live' => exists slots, sound L (prefix ++ slots) s' live')) as Hrest.
  { intros h rejected' committed' refused' s' live' Hs'. replace (S (length prefix)) with (length (prefix ++ [h]))
      by (rewrite length_app; cbn; lia).
    eapply wp_mono; [apply IH; by rewrite <- app_assoc|]. intros _ s2 live2 [slots Hslots]. exists (h :: slots).
    by rewrite <- app_assoc in Hslots. }
  apply wp_bind.
  assert (wp (if handle_ok (pe_anchor e) && contains (pe_anchor e) rejected then mret false
              else SubmitRuleBatch env (pe_rule e)) s live
    (fun _ s' live' => handles s' = handles s /\ live' = live)) as Hsub.
  { destruct (_ && _); [by apply wp_ret|]. apply idle_SubmitRuleBatch; [done|]. destruct Hs; by eapply beside_mine. }
  eapply wp_mono; [exact Hsub|]. intros submitted s1 live1 [Hk ->]. apply (sound_same _ _ _ _ _ Hk) in Hs.
  destruct submitted; [by eapply Hrest|]. apply wp_bind. eapply wp_reject_rule; [exact Hs|]. intros s2 live2 Hs2.
  by eapply Hrest.
Qed.

(** *** The collections of a document *)

Lemma update_collection_idle live collection entry :
  use_ok live (KCollection, collection) = true -> named_by "EspUpdateCollection" entry = None ->
  idle live (update_collection env collection entry).
Proof. intros Hc He. unfold update_collection. idles. by apply uses_skip. Qed.

Lemma wp_made_collection (m : M (option handle)) L R s live (Q : option handle -> Session -> live_handles -> Prop) :
  makes_collection m -> sound L R s live ->
  (forall s' live', sound L R s' live' -> Q None s' live') ->
  (forall h s' live', sound L R s' live' -> h ∈ collections s' -> use_ok live' (KCollection, h) = true -> Q (Some h) s' live') ->
  wp m s live Q.
Proof.
  intros Hm Hs Hnone Hsome. apply Hm; [destruct Hs; by eapply beside_mine| |].
  - intros s' Hk. apply Hnone. by eapply sound_same.
  - intros h s' Hh Hk. apply Hsome; [by eapply sound_collection| |apply use_new]. injection Hk as _ _ _ _ Hc _ _.
    rewrite Hc. apply elem_of_app. right. by apply list_elem_of_singleton.
Qed.

Lemma wp_install_collection (entry : CollectionSpec) L R s live :
  sound L R s live ->
  wp (install_collection env entry) s live (fun r s' live' =>
    sound L R s' live' /\ match r.2 with Some h => h ∈ collections s' | None => True end).
Proof.
  intros Hs. unfold install_collection. destruct (cs_open entry).
  - destruct (_ || _); [pass_sound Hs; by apply wp_ret|]. apply wp_bind.
    eapply wp_made_collection; [apply OpenNamedCollection_makes|exact Hs| |]; intros; by apply wp_ret.
  - apply wp_bind. eapply wp_made_collection; [apply create_collection_makes|exact Hs|intros; by apply wp_ret|].
    intros h s1 live1 Hs1 Hin Huse.
    apply wp_idle; [by apply idle_install_entries|destruct Hs1; by eapply beside_mine|]. intros ok s2 Hk. apply wp_ret.
    split; [by eapply sound_same|]. injection Hk as _ _ _ _ Hc _ _. cbn [snd]. by rewrite Hc.
Qed.

Lemma sound_named L R s live name (h : handle) :
  sound L R s live -> h ∈ collections s ->
  sound L R (s <| named_collections ::= fun l => l ++ [(name, h)] |>) live.
Proof.
  intros (Hs & Hn & Hr) Hin. split; [exact Hs|]. split; [|exact Hr].
  change (Forall (fun e => e.2 ∈ collections s) (named_collections s ++ [(name, h)])).
  apply Forall_app. split; [exact Hn|]. by apply Forall_singleton.
Qed.

Lemma install_collections_installing specs : forall all_ok, installing (install_collections env specs all_ok).
Proof.
  induction specs as [|spec specs IH]; intros all_ok L R s live Hs; cbn [install_collections]; [by apply wp_ret|].
  apply wp_bind. eapply wp_mono; [by apply wp_install_collection|]. intros [ok [h|]] s1 live1 [Hs1 Hin]; cbn [snd] in Hin.
  - destruct (negb _).
    + apply wp_bind, wp_update, IH. by apply sound_named.
    + by apply wp_bind, wp_ret, IH.
  - by apply wp_bind, wp_ret, IH.
Qed.

Lemma InstallDocumentCollections_installing document : installing (InstallDocumentCollections env document).
Proof.
  unfold InstallDocumentCollections. installs. apply install_collections_installing.
Qed.

(** *** Installing *)

Lemma all_live k (l : list handle) : all k (List.filter handle_ok l) = all k l.
Proof.
  induction l as [|h l IH]; [done|]. cbn [List.filter]. destruct (handle_ok h) eqn:E; rewrite !all_cons, IH; [done|].
  rewrite (one_null _ _ E). by rewrite (left_id_L ∅ (⊎)).
Qed.

Lemma wp_install_rules document L R s live :
  sound L R s live -> wp (install_rules env document) s live (fun _ s' live' => L ⊎ held s' ⊆ live').
Proof.
  intros Hs. unfold install_rules. apply wp_bind, wp_gets, wp_bind.
  pose proof Hs as (_ & _ & ->). eapply wp_mono; [apply (wp_build_rules _ _ R); by rewrite app_nil_r|].
  intros [entries all_ok] s1 live1 Hs1. cbn [fst] in Hs1. destruct (negb _); [apply wp_ret; by destruct Hs1|].
  pass_sound Hs1. apply wp_bind. eapply wp_mono; [by apply wp_submit_entries|].
  intros [committed refused] s2 live2 [slots Hs2]. apply wp_bind. destruct (refused =? 0)%nat.
  - apply wp_ret, wp_ret. by destruct Hs2.
  - apply wp_update, wp_ret. destruct Hs2 as (Hs2 & _ & Hr).
    change (L ⊎ held (s2 <| rules := compact (length R) (rules s2) |>) ⊆ live2).
    rewrite held_new_rules, Hr, compact_spec, all_app, all_live, <- all_app. by rewrite held_rules, Hr in Hs2.
Qed.

Lemma sound_reset L s live :
  L ⊎ held s ⊆ live -> sound L (rules s) (s <| notify_queries := [] |> <| named_collections := [] |>) live.
Proof. intros Hs. split; [exact Hs|]. split; [by apply Forall_nil|done]. Qed.

Lemma InstallRules_safe document : safe (InstallRules env document).
Proof.
  intros L s live Hs. unfold InstallRules.
  pass. destruct (_ || _); [pass; apply wp_ret; holds|].
  pass. destruct (_ && _); [pass; apply wp_ret; holds|].
  pass. pass. match goal with |- wp (if negb ?b then _ else _) _ _ _ => destruct b end; cbn [negb]; [|apply wp_ret; holds].
  apply wp_bind, wp_update, wp_bind. eapply wp_mono.
  { apply (InstallDocumentCollections_installing document L). eapply sound_reset. holds. }
  intros collections_ok s1 live1 Hs1. destruct (negb _).
  - apply wp_idle; [idles|destruct Hs1; by eapply beside_mine|]. intros _ s2 Hk. apply wp_ret.
    apply (sound_same _ _ _ _ _ Hk) in Hs1. by destruct Hs1.
  - apply wp_bind, wp_update. eapply wp_install_rules, Hs1.
Qed.
End Rules.

#[export] Hint Resolve InstallRules_safe : safe.
