(* ===== verification/CustodyUse.v ===== *)
(** Custody of handles in references, notifications and collections that are exercised. *)
From stdpp Require Import gmultiset.
From S2P Require Import Prelude Text Core Events RuleModel MemoryView NotifyFormat Api NtPath Session.
From S2P Require Import FilterBuild Refs Pump RuleInstall Custody CustodyRules.

(** ** References *)

Definition cleared (h : handle) (s : Session) : Session :=
  s <| object_refs ::= fmap (fun stored => if stored =? h then 0 else stored) |>.

Lemma same_cleared h s s' : handles s' = handles s -> handles (cleared h s') = handles (cleared h s).
Proof.
  unfold handles at 1 2. intros [= E1 E2 E3 E4 E5 E6 E7].
  change ((client_handle s', queue_handle s', rules s', filters s', collections s', (fun stored => if stored =? h then 0 else stored) <$> object_refs s', named_collections s')
    = (client_handle s, queue_handle s, rules s, filters s, collections s, (fun stored => if stored =? h then 0 else stored) <$> object_refs s, named_collections s)).
  congruence.
Qed.

(** What a session holds but for the references. *)
Lemma held_references s : held s = held (s <| object_refs := [] |>) ⊎ all KReference (object_refs s).
Proof.
  change (held (s <| object_refs := [] |>))
    with (held_of (client_handle s) (queue_handle s) (rules s) (filters s) (collections s) []).
  unfold held, held_of. rewrite all_nil. multiset_solver.
Qed.

Lemma clear_less (h : handle) (l : list handle) :
  all KReference ((fun stored => if stored =? h then 0 else stored) <$> l) ⊆ all KReference l.
Proof.
  induction l as [|x l IH]; [done|]. cbn [fmap list_fmap]. rewrite !all_cons.
  destruct (x =? h); [change (one KReference 0) with (∅ : live_handles)|]; multiset_solver.
Qed.

Lemma held_less s s' :
  held (s' <| object_refs := [] |>) = held (s <| object_refs := [] |>) ->
  all KReference (object_refs s') ⊆ all KReference (object_refs s) -> held s' ⊆ held s.
Proof. intros E H. rewrite (held_references s), (held_references s'), E. by apply gmultiset_disj_union_mono_l. Qed.

Lemma cleared_less h s : held (cleared h s) ⊆ held s.
Proof.
  apply held_less; [done|]. apply clear_less.
Qed.

(** A reference that was made and closed is no longer held. *)
Lemma cleared_new h s : held (cleared h (with_reference h s)) ⊆ held s.
Proof.
  apply held_less; [done|].
  change (all KReference ((fun stored => if stored =? h then 0 else stored) <$> object_refs s ++ [h]) ⊆ all KReference (object_refs s)).
  rewrite fmap_app, all_app. cbn [fmap list_fmap]. rewrite Z.eqb_refl, all_cons, all_nil.
  change (one KReference 0) with (∅ : live_handles). pose proof (clear_less h (object_refs s)). multiset_solver.
Qed.

Lemma cleared_both h1 h2 s : held (cleared h1 (cleared h2 (with_reference h2 (with_reference h1 s)))) ⊆ held s.
Proof.
  apply held_less; [done|].
  change (all KReference ((fun stored => if stored =? h1 then 0 else stored) <$>
    ((fun stored => if stored =? h2 then 0 else stored) <$> (object_refs s ++ [h1]) ++ [h2])) ⊆ all KReference (object_refs s)).
  rewrite !fmap_app, !all_app. cbn [fmap list_fmap].
  assert (all KReference [if (if h2 =? h2 then 0 else h2) =? h1 then 0 else if h2 =? h2 then 0 else h2] = ∅) as ->.
  { rewrite Z.eqb_refl. by destruct (0 =? h1). }
  assert (all KReference [if (if h1 =? h2 then 0 else h1) =? h1 then 0 else if h1 =? h2 then 0 else h1] = ∅) as ->.
  { destruct (h1 =? h2); [by destruct (0 =? h1)|]. by rewrite Z.eqb_refl. }
  pose proof (clear_less h1 ((fun stored => if stored =? h2 then 0 else stored) <$> object_refs s)).
  pose proof (clear_less h2 (object_refs s)). multiset_solver.
Qed.

Section References.
  Context {D : Type} (env : Env D).
  Implicit Types (s : Session) (live L : live_handles) (export : string) (args : list Arg).
  Local Abbreviation M := (ST (World D)).

(** The computation makes a reference, or none, and remembers it. *)
Definition makes_reference (m : M (option handle)) : Prop :=
  forall s live (Q : option handle -> Session -> live_handles -> Prop), held s ⊆ live ->
    (forall s', handles s' = handles s -> Q None s' live) ->
    (forall h s', handle_ok h = true -> handles s' = handles (with_reference h s) ->
       Q (Some h) s' (live ⊎ one KReference h)) ->
    wp m s live Q.

Lemma adopt_makes export args s live (Q : option handle -> Session -> live_handles -> Prop) :
  kind_of closers export = None -> kind_of handed_out export = Some KReference ->
  forallb (use_ok live) (uses export args) = true ->
  (forall s', handles s' = handles s -> Q None s' live) ->
  (forall h s', handle_ok h = true -> handles s' = handles (with_reference h s) ->
     Q (Some h) s' (live ⊎ one KReference h)) ->
  wp (adopt_reference env export args) s live Q.
Proof.
  intros Hc Ho Hu Hnone Hsome. unfold adopt_reference. apply wp_bind.
  eapply (wp_Adopt env _ KReference); [exact Hc|exact Ho|exact Hu| |].
  - intros s1 Hk. by apply wp_ret, Hnone.
  - intros h s1 Hh Hk. apply wp_bind, wp_update, wp_ret, Hsome; [done|]. by apply same_with_reference.
Qed.

Lemma makes_same (m : M (option handle)) s s1 live (Q : option handle -> Session -> live_handles -> Prop) :
  makes_reference m -> held s ⊆ live -> handles s1 = handles s ->
  (forall s', handles s' = handles s -> Q None s' live) ->
  (forall h s', handle_ok h = true -> handles s' = handles (with_reference h s) ->
     Q (Some h) s' (live ⊎ one KReference h)) ->
  wp m s1 live Q.
Proof.
  intros Hm Hs Hk Hnone Hsome. apply Hm; [by rewrite (held_same _ _ Hk)| |].
  - intros s' Hk'. apply Hnone. congruence.
  - intros h s' Hh Hk'. apply Hsome; [done|]. rewrite Hk'. by apply same_with_reference.
Qed.

Lemma with_client_makes export required create :
  (forall client s live, use_ok live (KClient, client) = true -> held s ⊆ live ->
     forall Q : option handle -> Session -> live_handles -> Prop,
     (forall s', handles s' = handles s -> Q None s' live) ->
     (forall h s', handle_ok h = true -> handles s' = handles (with_reference h s) ->
        Q (Some h) s' (live ⊎ one KReference h)) -> wp (create client) s live Q) ->
  makes_reference (with_client env export required create).
Proof.
  intros Hcreate s live Q Hs Hnone Hsome. unfold with_client. apply wp_idle; [idles|done|]. intros fn s1 Hk1.
  apply wp_bind, wp_gets. destruct (_ || _); [by apply wp_ret, Hnone|].
  apply Hcreate; [apply use_client; by rewrite (held_same _ _ Hk1)|by rewrite (held_same _ _ Hk1)| |].
  - intros s' Hk. apply Hnone. congruence.
  - intros h s' Hh Hk. apply Hsome; [done|]. rewrite Hk. by apply same_with_reference.
Qed.

(** The exports that make a reference from a client. *)
Definition refers (export : string) : bool :=
  match kind_of closers export, kind_of handed_out export, kind_of subjects export with
  | None, Some KReference, Some KClient => true | _, _, _ => false end.

Lemma refers_tables export :
  refers export = true ->
  kind_of closers export = None /\ kind_of handed_out export = Some KReference /\ kind_of subjects export = Some KClient.
Proof.
  unfold refers. destruct (kind_of closers export); [done|].
  destruct (kind_of handed_out export) as [[]|]; try done. by destruct (kind_of subjects export) as [[]|].
Qed.

Lemma refer_makes export (client : handle) args s live (Q : option handle -> Session -> live_handles -> Prop) :
  refers export = true -> use_ok live (KClient, client) = true -> Forall (fun a => named_by export a = None) args ->
  (forall s', handles s' = handles s -> Q None s' live) ->
  (forall h s', handle_ok h = true -> handles s' = handles (with_reference h s) ->
     Q (Some h) s' (live ⊎ one KReference h)) ->
  wp (adopt_reference env export (AHandle client :: args)) s live Q.
Proof.
  intros (Hc & Ho & Hk)%refers_tables Huse Hargs Hnone Hsome. apply adopt_makes; [done|done| |done|done].
  eapply uses_named; [unfold named_by; by rewrite Hk|exact Huse|].
  induction Hargs as [|a args Ha _ IH]; [apply uses_nil|by apply uses_skip].
Qed.

Lemma CreatePidReference_makes export (pid : Z) :
  refers export = true -> makes_reference (CreatePidReference env export pid).
Proof.
  intros He. apply with_client_makes. intros client s live Huse Hs Q Hnone Hsome.
  apply refer_makes; [done|done|by repeat constructor|done|done].
Qed.

(** A text of the session is kept before the call. *)
Lemma stored_makes export (client : handle) args (store : Storage -> Storage) s live (Q : option handle -> Session -> live_handles -> Prop) :
  refers export = true -> use_ok live (KClient, client) = true -> Forall (fun a => named_by export a = None) args ->
  (forall s', handles s' = handles s -> Q None s' live) ->
  (forall h s', handle_ok h = true -> handles s' = handles (with_reference h s) ->
     Q (Some h) s' (live ⊎ one KReference h)) ->
  wp (update_storage store;; adopt_reference env export (AHandle client :: args)) s live Q.
Proof.
  intros He Huse Hargs Hnone Hsome. apply wp_bind, wp_update. apply refer_makes; [done|done|done| |].
  - intros s' Hk. by apply Hnone.
  - intros h s' Hh Hk. by apply Hsome.
Qed.

Lemma CreatePathReference_makes export (path : wstring) :
  refers export = true -> makes_reference (CreatePathReference env export path).
Proof.
  intros He. apply with_client_makes. intros client s live Huse Hs Q Hnone Hsome.
  apply stored_makes; [done|done|by repeat constructor|done|done].
Qed.

Lemma CreateDesktopReference_makes (name : wstring) : makes_reference (CreateDesktopReference env name).
Proof.
  apply with_client_makes. intros client s live Huse Hs Q Hnone Hsome.
  apply stored_makes; [done|done|by repeat constructor|done|done].
Qed.

Lemma CreateVolumeReference_makes volume : makes_reference (CreateVolumeReference env volume).
Proof.
  apply with_client_makes. intros client s live Huse Hs Q Hnone Hsome.
  apply refer_makes; [done|done|by repeat constructor|done|done].
Qed.

Lemma CreateFileIdReference_makes volume file_id : makes_reference (CreateFileIdReference env volume file_id).
Proof.
  apply with_client_makes. intros client s live Huse Hs Q Hnone Hsome.
  apply stored_makes; [done|done|by repeat constructor|done|done].
Qed.

Lemma CreateStreamByIdReference_makes volume file_id (stream : wstring) :
  makes_reference (CreateStreamByIdReference env volume file_id stream).
Proof.
  apply with_client_makes. intros client s live Huse Hs Q Hnone Hsome.
  apply stored_makes; [done|done|by repeat constructor|done|done].
Qed.

Lemma CreateEventObjectById_makes (id : Z) : makes_reference (CreateEventObjectById env id).
Proof.
  apply with_client_makes. intros client s live Huse Hs Q Hnone Hsome.
  apply refer_makes; [done|done|by repeat constructor|done|done].
Qed.

Lemma makes_none : makes_reference (mret None).
Proof. intros s live Q Hs Hnone Hsome. by apply wp_ret, Hnone. Qed.

(** Preparations that leave the handles alone. *)
Lemma makes_after {A} (m : M A) f :
  (forall live, idle live m) -> (forall a, makes_reference (f a)) -> makes_reference (m ≫= f).
Proof.
  intros Hm Hf s live Q Hs Hnone Hsome. apply wp_idle; [apply Hm|done|]. intros a s1 Hk.
  by apply (makes_same (f a) s).
Qed.

Lemma makes_when (b : bool) (m other : M (option handle)) :
  makes_reference m -> makes_reference other -> makes_reference (if b then m else other).
Proof. by destruct b. Qed.

(** What follows when no reference was made. *)
Lemma makes_else (m : M (option handle)) f :
  makes_reference m -> makes_reference (f None) ->
  (forall h s live (Q : option handle -> Session -> live_handles -> Prop),
     (forall s', handles s' = handles s -> Q (Some h) s' live) -> wp (f (Some h)) s live Q) ->
  makes_reference (m ≫= f).
Proof.
  intros Hm Hn Hf s live Q Hs Hnone Hsome. apply wp_bind, Hm; [done| |].
  - intros s1 Hk. by apply (makes_same (f None) s).
  - intros h s1 Hh Hk. apply Hf. intros s2 Hk2. apply Hsome; [done|congruence].
Qed.

Lemma natural_reference_makes keys : makes_reference (natural_reference env keys).
Proof.
  unfold natural_reference. destruct (IsFoIoEvent _); cbv zeta.
  - apply makes_else; [apply makes_when; [by apply CreatePathReference_makes|apply makes_none]| |].
    + apply makes_after; [intro; idles|intros fallback].
      apply makes_else; [apply makes_when; [by apply CreatePathReference_makes|apply makes_none]| |].
      * apply makes_after; [intro; idles|intros _]. apply makes_none.
      * intros h s live Q HQ. by apply wp_ret, HQ.
    + intros h s live Q HQ. apply wp_bind, wp_gets, wp_bind, wp_ret, wp_ret. by apply HQ.
  - apply makes_after; [intro; idles|intros fallback].
    apply makes_when; [apply makes_after; [intro; idles|intros _; apply makes_none]|by apply CreatePidReference_makes].
Qed.

(** *** Closing *)

Lemma wp_CloseReference (h : handle) s live (Q : unit -> Session -> live_handles -> Prop) :
  use_ok live (KReference, h) = true ->
  (forall s' live', handles s' = handles (cleared h s) -> live ∖ one KReference h ⊆ live' -> Q tt s' live') ->
  wp (CloseReference env h) s live Q.
Proof.
  intros Hu HQ. unfold CloseReference. apply wp_bind. eapply (wp_close env _ KReference); [done|done|done|].
  intros s1 live1 Hk Hlive. apply wp_update, HQ; [by apply same_cleared|done].
Qed.
End References.

(** ** Querying a notification's object *)

Section Querying.
  Context {D : Type} (env : Env D).
  Implicit Types (s : Session) (live L : live_handles) (ref : handle).
  Local Abbreviation M := (ST (World D)).

Lemma close_new ref L s s' live live' :
  L ⊎ held s ⊆ live -> (live ⊎ one KReference ref) ∖ one KReference ref ⊆ live' ->
  handles s' = handles (cleared ref (with_reference ref s)) -> L ⊎ held s' ⊆ live'.
Proof.
  intros Hs Hlive Hk. rewrite (held_same _ _ Hk). pose proof (cleared_new ref s). eapply beside; [done|]. multiset_solver.
Qed.

Lemma held_referred ref s s' live :
  held s ⊆ live -> handles s' = handles (with_reference ref s) -> held s' ⊆ live ⊎ one KReference ref.
Proof. intros Hs Hk. rewrite (held_same _ _ Hk), held_with_reference. by apply gmultiset_disj_union_mono_r. Qed.

(** Both the reference of the event and that of the notification are closed. *)
Lemma close_two natural by_id L s s2 live :
  L ⊎ held s ⊆ live ->
  handles s2 = handles (with_reference by_id (with_reference natural s)) ->
  wp (CloseReference env by_id;; CloseReference env natural;; mret true) s2
    (live ⊎ one KReference natural ⊎ one KReference by_id) (fun _ s' live' => L ⊎ held s' ⊆ live').
Proof.
  intros Hs Hk. apply wp_bind, wp_CloseReference; [apply use_new|]. intros s3 live3 Hk3 Hlive3.
  apply wp_bind, wp_CloseReference; [apply use_one; multiset_solver|]. intros s4 live4 Hk4 Hlive4. apply wp_ret.
  assert (handles s4 = handles (cleared natural (cleared by_id (with_reference by_id (with_reference natural s))))) as Hk5.
  { rewrite Hk4. apply same_cleared. rewrite Hk3. by apply same_cleared. }
  rewrite (held_same _ _ Hk5). eapply beside; [apply cleared_both|]. multiset_solver.
Qed.

Lemma close_null natural L s s2 live :
  L ⊎ held s ⊆ live -> handles s2 = handles (with_reference natural s) ->
  wp (CloseReference env 0;; CloseReference env natural;; mret true) s2 (live ⊎ one KReference natural)
    (fun _ s' live' => L ⊎ held s' ⊆ live').
Proof.
  intros Hs Hk. apply wp_bind, wp_CloseReference; [done|]. intros s3 live3 Hk3 Hlive3.
  change (one KReference 0) with (∅ : live_handles) in Hlive3.
  apply wp_bind, wp_CloseReference; [apply use_one; multiset_solver|]. intros s4 live4 Hk4 Hlive4. apply wp_ret.
  assert (handles s4 = handles (cleared natural (cleared 0 (with_reference natural s)))) as Hk5.
  { rewrite Hk4. apply same_cleared. rewrite Hk3. by apply same_cleared. }
  rewrite (held_same _ _ Hk5). eapply beside; [|]; [|etransitivity; [exact Hs|]; multiset_solver].
  apply held_less; [done|].
  change (all KReference ((fun stored => if stored =? natural then 0 else stored) <$>
    ((fun stored => if stored =? 0 then 0 else stored) <$> (object_refs s ++ [natural]))) ⊆ all KReference (object_refs s)).
  rewrite !fmap_app, all_app. cbn [fmap list_fmap].
  assert (all KReference [if (if natural =? 0 then 0 else natural) =? natural then 0 else if natural =? 0 then 0 else natural] = ∅) as ->.
  { destruct (natural =? 0); [by destruct (0 =? natural)|]. by rewrite Z.eqb_refl. }
  pose proof (clear_less natural ((fun stored => if stored =? 0 then 0 else stored) <$> object_refs s)).
  pose proof (clear_less 0 (object_refs s)). multiset_solver.
Qed.

Lemma wp_reference_by_id id s live (Q : option handle * option handle -> Session -> live_handles -> Prop) :
  held s ⊆ live -> (forall s', handles s' = handles s -> Q (None, None) s' live) ->
  (forall ref view s', handles s' = handles (with_reference ref s) -> Q (Some ref, view) s' (live ⊎ one KReference ref)) ->
  wp (reference_by_id env id) s live Q.
Proof.
  intros Hs Hnone Hsome. unfold reference_by_id. destruct (id =? 0); [by apply wp_ret, Hnone|].
  apply wp_bind, CreateEventObjectById_makes; [done| |].
  - intros s1 Hk. by apply wp_ret, Hnone.
  - intros ref s1 Hh Hk. apply wp_idle; [apply idle_UnwrapReference, use_new|by apply (held_referred _ s)|].
    intros view s2 Hk2. apply wp_ret, Hsome. congruence.
Qed.

Lemma safe_QueryFromNotification : safe (QueryFromNotification env).
Proof.
  intros L s live Hs. unfold QueryFromNotification. do 2 pass. destruct (_ || _); [by apply wp_ret; holds|].
  pass. match goal with |- wp (let '(_, _) := ?x in _) _ _ _ => destruct x as [decoded keys] end.
  destruct (negb decoded); [pass; apply wp_ret; holds|].
  assert (held s ⊆ live) as Hown by (by eapply beside_mine).
  apply wp_bind, (makes_same _ s); [apply natural_reference_makes|done|congruence| |].
  { intros s1 Hk. apply wp_ret. by rewrite (held_same _ _ Hk). }
  intros natural s1 Hn Hk1. pose proof (held_referred _ _ _ _ Hown Hk1) as Hs1.
  pose proof (use_new live KReference natural) as Huse.
  apply wp_idle; [by apply idle_UnwrapReference|done|]. intros [view|] s2 Hk2.
  2:{ apply wp_bind, wp_CloseReference; [exact Huse|]. intros s3 live3 Hk3 Hlive3. apply wp_ret.
      eapply close_new; [exact Hs|exact Hlive3|]. rewrite Hk3. apply same_cleared. congruence. }
  apply wp_idle; [apply idle_GetEventObjectType|by rewrite (held_same _ _ Hk2)|]. intros _ s3 Hk3.
  rewrite Hk2 in Hk3. apply wp_idle; [apply idle_GetEventObjectId|by rewrite (held_same _ _ Hk3)|].
  intros [ok event_object_id] s4 Hk4. rewrite Hk3 in Hk4. clear dependent s2 s3.
  apply wp_bind, wp_reference_by_id; [by rewrite (held_same _ _ Hk4)| |].
  - intros s5 Hk5. rewrite Hk4 in Hk5. cbv zeta. apply wp_bind, wp_gets.
    apply wp_idle; [by apply idle_run_recipes|by rewrite (held_same _ _ Hk5)|]. intros _ s6 Hk6. cbn [from_slot].
    apply (close_null _ _ s); [done|congruence].
  - intros by_id by_id_view s5 Hk5.
    assert (handles s5 = handles (with_reference by_id (with_reference natural s))) as Hk6.
    { rewrite Hk5. apply same_with_reference. congruence. }
    assert (held s5 ⊆ live ⊎ one KReference natural ⊎ one KReference by_id) as Hs5.
    { apply (held_referred _ s4); [by rewrite (held_same _ _ Hk4)|done]. }
    assert (use_ok (live ⊎ one KReference natural ⊎ one KReference by_id) (KReference, natural) = true) as Huse2.
    { eapply use_ok_mono; [|exact Huse]. multiset_solver. }
    pose proof (use_new (live ⊎ one KReference natural) KReference by_id) as Huse3.
    cbv zeta. destruct by_id_view as [v|]; apply wp_bind, wp_gets;
      (apply wp_idle; [by apply idle_run_recipes|done|]); intros _ s6 Hk7; cbn [from_slot];
      (apply (close_two _ _ _ s); [done|by rewrite Hk7]).
Qed.
End Querying.

#[export] Hint Resolve safe_QueryFromNotification : safe.

(** ** Pumps *)

Section Pumps.
  Context {D : Type} (env : Env D).
  #[local] Hint Resolve idle_ArmNotification idle_CompleteNotification : idle.

Lemma safe_emit (max_notifications : Z) : safe (EmitCompleteAndRearm env max_notifications).
Proof. unfold EmitCompleteAndRearm. safely. Qed.
#[local] Hint Resolve safe_emit : safe.

Lemma safe_loop fuel (max_notifications : Z) (body : ST (World D) bool) :
  safe body -> safe (pump_loop fuel max_notifications body).
Proof. intros H. induction fuel as [|fuel IH]; cbn [pump_loop]; safely; done. Qed.

Lemma safe_consume (event deadline max_notifications : Z) :
  safe (ConsumeNotification env event deadline max_notifications).
Proof. unfold ConsumeNotification. safely. Qed.

Lemma safe_completion (port deadline max_notifications : Z) :
  safe (ConsumeCompletion env port deadline max_notifications).
Proof. unfold ConsumeCompletion. safely. Qed.

Lemma safe_Pump (milliseconds max_notifications : Z) : safe (PumpNotifications env milliseconds max_notifications).
Proof. unfold PumpNotifications. safely; apply safe_loop, safe_consume. Qed.

Lemma safe_PumpIocp (milliseconds max_notifications : Z) :
  safe (PumpNotificationsIocp env milliseconds max_notifications).
Proof. unfold PumpNotificationsIocp. safely; apply safe_loop, safe_completion. Qed.
End Pumps.

#[export] Hint Resolve safe_Pump safe_PumpIocp : safe.

(** ** Exercising collections *)

Section Exercising.
  Context {D : Type} (env : Env D).
  Implicit Types (s : Session) (live L : live_handles).

Lemma closed_less (L x y z live live' : live_handles) :
  L ⊎ y ⊆ live -> x ⊆ y -> (live ⊎ z) ∖ z ⊆ live' -> L ⊎ x ⊆ live'.
Proof. multiset_solver. Qed.

(** The session forgets its collections, one of which was closed. *)
Lemma forget_closed (h : handle) L s s' live live' :
  L ⊎ held s ⊆ live -> handles s' = handles (with_collection h s) ->
  (live ⊎ one KCollection h) ∖ one KCollection h ⊆ live' -> L ⊎ held (s' <| collections := [] |>) ⊆ live'.
Proof.
  intros Hs Hk Hlive. destruct (handles_parts _ _ Hk) as (E1 & E2 & E3 & E4 & _ & E6).
  change (held (s' <| collections := [] |>))
    with (held_of (client_handle s') (queue_handle s') (rules s') (filters s') [] (object_refs s')).
  rewrite E1, E2, E3, E4, E6. eapply closed_less; [exact Hs| |exact Hlive].
  change (held_of (client_handle s) (queue_handle s) (rules s) (filters s) [] (object_refs s) ⊆ held s).
  unfold held, held_of. rewrite all_nil. multiset_solver.
Qed.

Lemma safe_ExerciseCollections : safe (ExerciseCollections env).
Proof.
  intros L s live Hs. unfold ExerciseCollections. pass. destruct (negb _); [by apply wp_ret; holds|].
  assert (held s ⊆ live) as Hown by (by eapply beside_mine).
  apply wp_bind, wp_CreateStringCollection; [holds| |].
  { intros s1 Hk. cbn [negb orb]. apply wp_ret. holds. }
  intros ok h s1 Hh Hk. assert (handles s1 = handles (with_collection h s)) as Hk1
    by (rewrite Hk; by apply same_with_collection).
  assert (held s1 ⊆ live ⊎ one KCollection h) as Hs1 by (by apply (held_collected h s)).
  assert (L ⊎ held s1 ⊆ live ⊎ one KCollection h) as Hout
    by (rewrite (held_same _ _ Hk1), held_with_collection; by apply beside_more).
  pose proof (use_new live KCollection h) as Huse.
  cbv iota beta. destruct (_ || _); [by apply wp_ret|].
  do 6 pass.
  unfold Checked. apply wp_bind, wp_bind, wp_call; [by permit|]. intros reply.
  apply wp_bind, wp_update, wp_ret. cbv iota beta. apply wp_bind, wp_update, wp_ret.
  eapply (forget_closed h _ s); [exact Hs| |].
  - transitivity (handles s'5); [done|congruence].
  - unfold after, closed_by, gained_by, one. cbn. rewrite Hh. multiset_solver.
Qed.

#[local] Hint Resolve idle_EnumerateCollectionIds : idle.

Lemma safe_OpenNamedCollection id : safe (OpenNamedCollection env id).
Proof.
  intros L s live Hs. apply OpenNamedCollection_makes; [by eapply beside_mine| |].
  - intros s1 Hk. by rewrite (held_same _ _ Hk).
  - intros h s1 Hh Hk. rewrite (held_same _ _ Hk), held_with_collection. by apply beside_more.
Qed.

(** The collection that is exercised may be named. *)
Lemma wp_exercised_collection create_type L s live :
  L ⊎ held s ⊆ live ->
  wp (exercised_collection env create_type) s live (fun r s' live' =>
    L ⊎ held s' ⊆ live' /\ forall h, r = Some h -> use_ok live' (KCollection, h) = true).
Proof.
  intros Hs. unfold exercised_collection. destruct (_ || _).
  - do 3 pass. destruct (_ || _); [by apply wp_ret; split; [holds|]|].
    assert (L ⊎ held s'1 ⊆ live) as Hs1 by holds. assert (held s'1 ⊆ live) as Hown by (by eapply beside_mine).
    apply wp_bind, create_collection_makes; [done| |].
    { intros s2 Hk. apply wp_ret. split; [by rewrite (held_same _ _ Hk)|done]. }
    intros h s2 Hh Hk. pose proof (held_collected _ _ _ _ Hown Hk) as Hs2. pose proof (use_new live KCollection h) as Huse.
    apply wp_idle; [idles; by permit|done|]. intros ok s3 Hk3. apply wp_ret.
    split; [rewrite (held_same _ _ Hk3), (held_same _ _ Hk), held_with_collection; by apply beside_more|].
    destruct ok; [|done]. by intros ? [= <-].
  - apply wp_bind, wp_CreateStringCollection; [by eapply beside_mine| |].
    + intros s1 Hk. apply wp_ret. split; [by rewrite (held_same _ _ Hk)|done].
    + intros ok h s1 Hh Hk. apply wp_ret. split; [rewrite (held_same _ _ Hk), held_with_collection; by apply beside_more|].
      rewrite Hh, andb_true_r. destruct ok; [|done]. intros ? [= <-]. apply use_new.
Qed.

Lemma safe_ExerciseCollectionsExtended lifetime enum_ids do_open open_id create_type :
  safe (ExerciseCollectionsExtended env lifetime enum_ids do_open open_id create_type).
Proof.
  intros L s live Hs. unfold ExerciseCollectionsExtended. apply wp_bind.
  eapply wp_mono; [by apply wp_exercised_collection|]. intros [h|] s1 live1 [Hs1 Huse]; [|by apply wp_ret].
  specialize (Huse h eq_refl). apply wp_idle; [by apply idle_inspect|by eapply beside_mine|]. intros id_reply s2 Hk2. cbv zeta.
  apply wp_idle; [by apply idle_inspect|holds|]. intros ? s3 Hk3.
  apply wp_idle; [by apply idle_inspect|holds|]. intros ? s4 Hk4.
  pass. pass. apply wp_bind. destruct do_open.
  - apply wp_bind. eapply wp_mono; [apply (safe_OpenNamedCollection _ L); holds|]. intros. by apply wp_ret, wp_ret.
  - apply wp_ret, wp_ret. holds.
Qed.
End Exercising.

#[export] Hint Resolve safe_ExerciseCollections safe_ExerciseCollectionsExtended : safe.

(** ** A reference that a command works with *)

(** The command is to close the reference, whatever else refers to the same object. *)
Definition lent (ref : handle) (L : live_handles) (s : Session) (live : live_handles) : Prop :=
  L ⊎ held s ⊆ live /\ L ⊎ held (cleared ref s) ⊎ one KReference ref ⊆ live.

Lemma lent_same ref L s s' live : handles s' = handles s -> lent ref L s live -> lent ref L s' live.
Proof.
  intros Hk [H1 H2]. split; [by rewrite (held_same _ _ Hk)|].
  by rewrite (held_same _ _ (same_cleared ref _ _ Hk)).
Qed.

Lemma lent_new ref L s s' live :
  L ⊎ held s ⊆ live -> handles s' = handles (with_reference ref s) -> lent ref L s' (live ⊎ one KReference ref).
Proof.
  intros Hs Hk. apply (lent_same _ _ _ _ _ Hk). split; [rewrite held_with_reference; by apply beside_more|].
  pose proof (cleared_new ref s). apply gmultiset_disj_union_mono_r. by eapply beside.
Qed.

Lemma lent_use ref L s live : lent ref L s live -> use_ok live (KReference, ref) = true.
Proof. intros [_ H]. apply use_one. multiset_solver. Qed.

Lemma lent_mine ref L s live : lent ref L s live -> held s ⊆ live.
Proof. intros [H _]. by eapply beside_mine. Qed.

(** The same reference is cleared at the end in either order. *)
Lemma cleared_copy (ref copy : handle) s : held (cleared ref (cleared copy (with_reference copy s))) ⊆ held (cleared ref s).
Proof.
  apply held_less; [done|].
  change (all KReference ((fun stored => if stored =? ref then 0 else stored) <$>
    ((fun stored => if stored =? copy then 0 else stored) <$> (object_refs s ++ [copy]))) ⊆
    all KReference ((fun stored => if stored =? ref then 0 else stored) <$> object_refs s)).
  rewrite !fmap_app, all_app. cbn [fmap list_fmap]. rewrite Z.eqb_refl, all_cons, all_nil.
  assert (one KReference (if 0 =? ref then 0 else 0) = (∅ : live_handles)) as -> by (by destruct (0 =? ref)).
  assert (forall l : list handle, all KReference ((fun stored => if stored =? ref then 0 else stored) <$>
    ((fun stored => if stored =? copy then 0 else stored) <$> l)) ⊆
    all KReference ((fun stored => if stored =? ref then 0 else stored) <$> l)) as Hless.
  { induction l as [|x l IH]; [done|]. cbn [fmap list_fmap]. rewrite !all_cons.
    destruct (x =? copy); [|by apply gmultiset_disj_union_mono_l].
    assert (one KReference (if 0 =? ref then 0 else 0) = (∅ : live_handles)) as -> by (by destruct (0 =? ref)).
    multiset_solver. }
  specialize (Hless (object_refs s)). multiset_solver.
Qed.

Section Lending.
  Context {D : Type} (env : Env D) (ref : handle) (L : live_handles).
  Implicit Types (s : Session) (live : live_handles).
  Local Abbreviation M := (ST (World D)).

(** What keeps the loan. *)
Definition lending {A} (m : M A) : Prop :=
  forall s live, lent ref L s live -> wp m s live (fun _ s' live' => lent ref L s' live').

Lemma lending_bind {A B} (m : M A) (f : A -> M B) : lending m -> (forall a, lending (f a)) -> lending (m ≫= f).
Proof. intros Hm Hf s live Hs. apply wp_bind. eapply wp_mono; [by apply Hm|]. intros. by apply Hf. Qed.

Lemma lending_idle {A} (m : M A) :
  (forall live, use_ok live (KReference, ref) = true -> idle live m) -> lending m.
Proof.
  intros Hm s live Hs. eapply wp_mono; [apply Hm; [by eapply lent_use|by eapply lent_mine]|].
  intros a s' live' [Hk ->]. by eapply lent_same.
Qed.

(** A copy is made and closed again. *)
Lemma lending_copy :
  lending (copy ← DuplicateReference env ref;
           match copy with Some copy => CloseReference env copy | None => mret tt end).
Proof.
  intros s live Hs. pose proof (lent_use _ _ _ _ Hs) as Huse. unfold DuplicateReference.
  apply wp_bind, wp_idle; [idles|by eapply lent_mine|]. intros fn s1 Hk1. apply (lent_same _ _ _ _ _ Hk1) in Hs.
  destruct (_ || _); [by apply wp_ret, wp_ret|]. apply adopt_makes; [done|done|by permit| |].
  { intros s2 Hk2. apply wp_ret. by eapply lent_same. }
  intros copy s2 Hh Hk2. apply wp_CloseReference; [apply use_new|]. intros s3 live3 Hk3 Hlive.
  assert (handles s3 = handles (cleared copy (with_reference copy s1))) as Hk by (rewrite Hk3; by apply same_cleared).
  apply (lent_same _ _ _ _ _ Hk). destruct Hs as [H1 H2]. split.
  - eapply closed_less; [exact H1|apply cleared_new|exact Hlive].
  - assert (L ⊎ held (cleared ref (cleared copy (with_reference copy s1))) ⊎ one KReference ref ⊆ live) as H3.
    { etransitivity; [|exact H2]. apply gmultiset_disj_union_mono_r, gmultiset_disj_union_mono_l, cleared_copy. }
    etransitivity; [exact H3|]. multiset_solver.
Qed.

Lemma lent_close s live :
  lent ref L s live -> wp (CloseReference env ref) s live (fun _ s' live' => L ⊎ held s' ⊆ live').
Proof.
  intros Hs. apply wp_CloseReference; [by eapply lent_use|]. intros s' live' Hk Hlive. rewrite (held_same _ _ Hk).
  destruct Hs as [_ H]. multiset_solver.
Qed.
End Lending.
