(* ===== verification/ObjectCommands.v ===== *)
(** The commands on objects (src/esptool/src/cli/Commands.cpp): query, refs, collections
    and context, with their argument readers and the triggers of a notification. *)
From S2P Require Import Logging.
From S2P Require Import Prelude Text Core Events RuleModel RuleParser Api NtPath Session.
From S2P Require Import FilterBuild Refs Pump RuleConfig RuleInstall Options Launch Console RulesCommands.

Definition i32_max : Z := 2147483647.

(** ** Arguments *)

Fixpoint parse_ids (parts : list string) : option (list Z) :=
  match parts with
  | [] => Some []
  | part :: rest =>
      parsed ← ParseUnsigned (Trim part);
      if u32_max <? parsed then None else ids ← parse_ids rest; Some (parsed :: ids)
  end.

Definition ParseCsvIds (text : string) : option (list Z) :=
  if is_empty text then Some [] else parse_ids (Split text ",").

(** [ResolvePid] and [ResolveTid]: [own] is the current process or thread. *)
Definition resolve_id (own : Z) (text : string) : Z :=
  if is_empty text || EqualsIgnoreCase text "self" then i32 own
  else
    match ParseUnsigned text with
    | Some parsed => if i32_max <? parsed then -1 else i32 parsed
    | None => -1
    end.

Definition ParseGuidOption (text : string) : option Guid := ParseGuid text.

Definition file_id_filler (c : ascii) : bool := (c =? "-")%char || (c =? " ")%char || (c =? ":")%char.

(** The bytes of pairs of digits, each read as a number. *)
Fixpoint file_id_bytes (hex : list ascii) : option (list Z) :=
  match hex with
  | a :: b :: rest =>
      byte ← ParseUnsigned (of_chars ["0"%char; "x"%char; a; b]);
      if 255 <? byte then None else bytes ← file_id_bytes rest; Some (byte :: bytes)
  | _ => Some []
  end.

Definition ParseFileIdHex (text : string) : option (list Z) :=
  let hex := List.filter (fun c => negb (file_id_filler c)) (chars text) in
  if negb (length hex =? 32)%nat then None else file_id_bytes hex.

Definition supported_id (text : string) : option Z :=
  parsed ← ParseUnsigned text; if parsed <=? u32_max then Some parsed else None.

(** ** The process of a rule *)

Definition kCmdImagePath : wstring := wide "C:\Windows\System32\cmd.exe".
Definition kProcessCreateTriggerWaitMs : Z := 2000.

Definition IsWin32ImagePath (path : string) : bool :=
  match chars path with
  | _ :: colon :: slash :: _ => (colon =? ":")%char && ((slash =? "\")%char || (slash =? "/")%char)
  | _ => false
  end || starts_with_string "\\" path.

Definition is_slash (c : ascii) : bool := (c =? "\")%char || (c =? "/")%char.

(** The text after the last slash. *)
Fixpoint file_name (path : list ascii) : list ascii :=
  match path with
  | [] => []
  | _ :: rest => if existsb is_slash path then file_name rest else path
  end.

Definition FilenameEqualsCmdExe (path : string) : bool :=
  EqualsIgnoreCase (of_chars (file_name (chars path))) "cmd.exe".

Definition Win32PathFromLeaf (value : string) : string :=
  let path := if starts_with_string kNtPathPrefix value
              then drop_string (String.length kNtPathPrefix) value else value in
  if IsWin32ImagePath path then path else "".

(** A leaf on the process path that equals a non-empty value. *)
Definition process_equals (node : FilterNode) : bool :=
  (fn_type node =? kFilterCtorProcess) && (fn_comparand node =? kStringComparandMin) &&
  negb (is_empty (fn_value node)).

Fixpoint FindProcessEqualsLeaf (under_not : bool) (node : FilterNode) (found : string) : string :=
  if negb (is_empty found) then found
  else
    match fn_kind node with
    | Not => fold_left (fun found child => FindProcessEqualsLeaf true child found) (fn_children node) found
    | Leaf => if negb under_not && process_equals node then fn_value node else found
    | _ => fold_left (fun found child => FindProcessEqualsLeaf under_not child found) (fn_children node) found
    end.

(** The first process-create rule with such a leaf. *)
Fixpoint process_create_image (specs : list RuleSpec) : string :=
  match specs with
  | [] => ""
  | spec :: rest =>
      if negb (rs_eventType spec =? kEventProcessCreate) then process_create_image rest
      else
        let found := FindProcessEqualsLeaf false (rs_filter spec) "" in
        if negb (is_empty found) then found else process_create_image rest
  end.

Definition ProcessCreateEqualsImage (document : RuleDocument) : string :=
  process_create_image (doc_rules document).

Definition DocumentWantsFoTrigger (document : RuleDocument) : bool :=
  existsb (fun spec => rs_eventType spec =? kEventFoCreate) (doc_rules document).

Section Commands.
  Context {D : Type} (host : Host D) (api : EspApi).
  Local Abbreviation C := (ST (Console D)).
  Local Abbreviation env := (with_api api (ho_env host)).
  Local Abbreviation ToUtf16 := (to_wide (env_paths (ho_env host))).

Definition ResolvePid (text : string) : Z := resolve_id (ho_GetCurrentProcessId host) text.
Definition ResolveTid (text : string) : Z := resolve_id (ho_GetCurrentThreadId host) text.

(** ** Triggers *)

Definition cmd_command : wstring := wide "C:\Windows\System32\cmd.exe /c ping -n 20 127.0.0.1 >nul".

(** The image and the command line of the triggering process. *)
Definition trigger_command (document : RuleDocument) : wstring * wstring :=
  let leaf := ProcessCreateEqualsImage document in
  let win32 := Win32PathFromLeaf leaf in
  let use_cmd := is_empty leaf || FilenameEqualsCmdExe leaf ||
                 (negb (is_empty win32) && FilenameEqualsCmdExe win32) in
  if use_cmd then (kCmdImagePath, cmd_command)
  else if negb (is_empty win32) then
    let image := ToUtf16 win32 in (image, [wQuote] ++ image ++ [wQuote])
  else (kCmdImagePath, cmd_command).

(** The process and its identifier; a null identifier counts as a failure, but the
    process is kept. *)
Definition SpawnProcessCreateTrigger (document : RuleDocument) : C (bool * Z * option handle) :=
  let '(image, command) := trigger_command document in
  created ← outside (ho_CreateProcess host image command);
  mret (match created with
        | None => (false, 0, None)
        | Some (process, pid) => (negb (pid =? 0), pid, Some process)
        end).

(** The path of the created file. *)
Definition SpawnFoCreateTrigger : C (option wstring) :=
  directory ← ask (ho_GetTempPath host);
  match directory with
  | None => mret None
  | Some directory =>
      path ← outside (ho_GetTempFileName host directory (wide "esp"));
      match path with
      | None => mret None
      | Some path =>
          created ← outside (ho_CreateFile host path);
          mret (if (created : bool) then Some path else None)
      end
  end.

(** ** References *)

Definition none_when {A} (b : bool) (m : ST (World D) (option A)) : ST (World D) (option A) :=
  if b then mret None else m.

Definition by_pid (export_name : string) (id : Z) : ST (World D) (option handle) :=
  none_when (id <? 0) (CreatePidReference env export_name id).

Definition by_path (export_name path : string) : ST (World D) (option handle) :=
  none_when (is_empty path) (CreatePathReference env export_name (ToUtf16 path)).

Definition is_stream (kind : string) : bool := (kind =? "stream")%string || (kind =? "filestream")%string.

(** The file kinds: by identifier when there is one, else by path. *)
Definition file_reference (o : Options) (kind : string) : ST (World D) (option handle) :=
  if negb (is_empty (op_file_id o)) then
    match ParseGuidOption (op_volume o), ParseFileIdHex (op_file_id o) with
    | Some volume, Some file_id =>
        if is_stream kind
        then CreateStreamByIdReference env volume file_id (ToUtf16 (op_stream o))
        else CreateFileIdReference env volume file_id
    | _, _ => mret None
    end
  else
    none_when (is_empty (op_path o))
      (CreatePathReference env
         (if is_stream kind then "EspCreateFileStreamReferenceByPath" else "EspCreateFileReferenceByPath")
         (ExpandFilterValue (env_paths (ho_env host)) (op_path o))).

Definition CreateReferenceForKind (o : Options) (kind : string) : ST (World D) (option handle) :=
  let kind_is k := (kind =? k)%string in
  if kind_is "process" || kind_is "process-token" then
    by_pid (if kind_is "process" then "EspCreateProcessReference" else "EspCreateProcessTokenReference")
      (ResolvePid (op_pid o))
  else if kind_is "thread" || kind_is "thread-token" then
    by_pid (if kind_is "thread" then "EspCreateThreadReference" else "EspCreateThreadTokenReference")
      (ResolveTid (op_tid o))
  else if kind_is "token" then
    if negb (is_empty (op_tid o)) && is_empty (op_pid o)
    then by_pid "EspCreateThreadTokenReference" (ResolveTid (op_tid o))
    else by_pid "EspCreateProcessTokenReference" (ResolvePid (op_pid o))
  else if kind_is "desktop" then
    CreateDesktopReference env
      (if is_empty (op_object_name o) then wide "Default" else ToUtf16 (op_object_name o))
  else if kind_is "volume" then
    match ParseGuidOption (op_volume o) with
    | Some volume => CreateVolumeReference env volume
    | None => mret None
    end
  else if kind_is "registry" then by_path "EspCreateRegistryKeyReference" (op_path o)
  else if kind_is "disk" then by_path "EspCreateDiskReference" (op_path o)
  else if kind_is "pipe" then by_path "EspCreatePipeReference" (op_path o)
  else if kind_is "mailslot" then by_path "EspCreateMailslotReference" (op_path o)
  else if kind_is "file" || kind_is "fileobject" || is_stream kind then file_reference o kind
  else if kind_is "event" then
    match ParseUnsigned (op_event_id o) with
    | Some event_id => none_when (event_id =? 0) (CreateEventObjectById env event_id)
    | None => mret None
    end
  else mret None.

Definition ApplyOptionalRefOps (o : Options) (kind : string) (ref view : handle) : ST (World D) unit :=
  (if op_duplicate o then
     copy ← DuplicateReference env ref;
     match copy with Some copy => CloseReference env copy | None => mret tt end
   else mret tt);;
  (match ParseCsvIds (op_properties o) with
   | Some (id :: ids) =>
       if negb (kind =? "event")%string then _ ← QueryKind env kind view (id :: ids); mret tt else mret tt
   | _ => mret tt
   end);;
  (match supported_id (op_supported o) with
   | Some parsed =>
       if negb (is_empty (op_supported o)) then _ ← IsPropertySupported env kind parsed; mret tt else mret tt
   | None => mret tt
   end);;
  (if op_context_set o then _ ← SetEventObjectContextKey env ref; mret tt else mret tt);;
  (if op_context_enum o then _ ← EnumerateEventObjectContextKeys env ref; mret tt else mret tt).

(** ** query *)

(** The disconnection, the message, and the destructor. *)
Definition fail_and_finish (s : Session) (message : string) : C Z :=
  '(_, s) ← on s (Disconnect env); Fail message;; destroy host api s;; mret 1.

(** The probe of [--supported]: [None] for an invalid value, otherwise whether it was made. *)
Definition probe_supported (o : Options) (kind : string) (s : Session) : C (option bool * Session) :=
  if is_empty (op_supported o) then mret (Some false, s)
  else
    match supported_id (op_supported o) with
    | None => mret (None, s)
    | Some parsed => '(_, s) ← on s (IsPropertySupported env kind parsed); mret (Some true, s)
    end.

Definition query_client (o : Options) (kind : string) (s : Session) : C Z :=
  if is_empty (op_properties o) && is_empty (op_supported o) then
    ReportSession s false;; fail_and_finish s "query --kind client requires --properties or --supported"
  else
    match (if is_empty (op_properties o) then Some [] else ParseCsvIds (op_properties o)) with
    | None => ReportSession s false;; fail_and_finish s "invalid --properties"
    | Some ids =>
        if negb (is_empty (op_properties o)) && negb (nonempty ids) then
          ReportSession s false;; fail_and_finish s "invalid --properties"
        else
          '(_, s) ← (if is_empty (op_properties o) then mret (false, s) else on s (QueryKind env kind 0 ids));
          '(probed, s) ← probe_supported o kind s;
          match probed with
          | None => fail_and_finish s "invalid --supported"
          | Some probed =>
              report_and_finish host api s (if negb (is_empty (op_properties o)) || probed then 0 else 1)
          end
    end.

Definition query_without_reference (o : Options) (kind : string) (s : Session) : C Z :=
  '(_, s) ← (match QueryExportForKind kind with
             | None => on s (QueryKind env "event" 0 [])
             | Some _ => mret (false, s)
             end);
  '(probed, s) ← probe_supported o (CanonicalQueryKind kind) s;
  match probed with
  | None => fail_and_finish s "invalid --supported"
  | Some probed =>
      (if negb (is_empty (op_properties o))
       then eprint ("query --kind " +:+ kind +:+ " has no reference create; --properties " +:+
                    "needs a view from refs or monitor")
       else mret tt);;
      report_and_finish host api s (if (probed : bool) then 0 else 1)
  end.

(** The reference, its view, the optional operations and the release. *)
Definition query_reference (o : Options) (kind : string) (s : Session) : C Z :=
  '(ref, s) ← on s (CreateReferenceForKind o kind);
  match ref with
  | None => report_and_finish host api s 1
  | Some ref =>
      '(view, s) ← on s (UnwrapReference env ref);
      '(_, s) ← on s (ApplyOptionalRefOps o (CanonicalQueryKind kind) ref (from_slot view));
      '(_, s) ← on s (CloseReference env ref);
      report_and_finish host api s 0
  end.

Definition RunQuery (o : Options) : C Z :=
  if is_empty (op_kind o) then RunConnectedAction host api (_ ← QueryAllProperties env; mret tt)
  else
    let kind := ToLowerAscii (op_kind o) in
    client ← UniqueClientSpec host "esptool-query";
    '(connected, s) ← on new_session (Connect env client);
    if negb connected then report_and_finish host api s 1
    else if (kind =? "client")%string then query_client o kind s
    else
      match QueryExportForKind kind with
      | Some _ => if KindHasReferenceCreate kind then query_reference o kind s
                  else query_without_reference o kind s
      | None => query_without_reference o kind s
      end.

(** ** refs *)

(** The triggering file or process, and the session told about it. *)
Definition spawn_trigger (document : RuleDocument) (s : Session)
    : C (wstring * option handle * Session) :=
  if DocumentWantsFoTrigger document then
    path ← SpawnFoCreateTrigger;
    mret (match path with
          | Some path => (path, None, s <| notify_fallback_path := path |>)
          | None => ([], None, s)
          end)
  else
    '(spawned, pid, process) ← SpawnProcessCreateTrigger document;
    mret ([], process, if (spawned : bool) then s <| notify_fallback_pid := i32 pid |> else s).

Definition created_steps : list string :=
  ["EspCreateProcessReference"; "EspCreateFileReferenceByPath"; "EspCreateEventObjectReferenceById"].

Definition created_by_step (step : StepResult) : bool := sr_ok step && contains (sr_step step) created_steps.

(** A reference made from a notification that the triggered event sends. *)
Definition refs_from_notify (o : Options) (document : RuleDocument) : C Z :=
  CleanOrphanClients host api (op_fresh o) "refs";;
  '(prep, s) ← PrepareRulesSession host api new_session document o;
  if negb (prep_ok prep) then ReportSession s true;; finish host api s 1
  else
    '(fo_path, child_process, s) ← spawn_trigger document s;
    '(_, s) ← on s (PumpNotifications env (op_duration_ms o) 1);
    '(_, s) ← (if forallb (fun spec => negb (nonempty (rs_queries spec))) (doc_rules document)
               then on s (QueryFromNotification env) else mret (false, s));
    ReportSession s true;;
    '(_, s) ← on s (Disconnect env);
    (match child_process with
     | Some process => outside (fun d => (tt, ho_TerminateProcess host process kProcessCreateTriggerWaitMs d))
     | None => mret tt
     end);;
    (match fo_path with [] => mret tt | _ => outside (fun d => (tt, ho_DeleteFile host fo_path d)) end);;
    let created := existsb created_by_step (steps s) in
    destroy host api s;;
    mret (if created then 0 else 1).

Definition refs_of_kind (o : Options) (kind : string) : C Z :=
  client ← UniqueClientSpec host "esptool-refs";
  '(connected, s) ← on new_session (Connect env client);
  if negb connected then report_and_finish host api s 1
  else
    '(ref, s) ← on s (CreateReferenceForKind o kind);
    match ref with
    | None => report_and_finish host api s 1
    | Some ref =>
        print ("ref created kind=" +:+ kind);;
        '(view, s) ← on s (UnwrapReference env ref);
        let view := from_slot view in
        '(_, s) ← on s (if handle_ok view
                        then GetEventObjectType env view;; _ ← GetEventObjectId env view; mret tt
                        else mret tt);
        '(_, s) ← on s (ApplyOptionalRefOps o (CanonicalQueryKind kind) ref view);
        '(_, s) ← on s (CloseReference env ref);
        report_and_finish host api s 0
    end.

Definition refs_kind (o : Options) : string :=
  let kind := ToLowerAscii (op_kind o) in
  if is_empty kind then match op_positional o with [] => kind | sub :: _ => ToLowerAscii sub end else kind.

Definition RunRefs (o : Options) : C Z :=
  let kind := refs_kind o in
  if is_empty kind then Fail "refs requires a kind (process, file, event, ...)"
  else if op_from_notify o then
    loaded ← LoadRuleDocument host o "refs";
    match loaded with
    | None => mret 1
    | Some (Err error) => Fail ("rule parse error: " +:+ error)
    | Some (Ok document) => refs_from_notify o document
    end
  else refs_of_kind o kind.

(** ** collections and context *)

Definition RunCollections (o : Options) : C Z :=
  let extended := op_enum_ids o || op_open_collection o || op_collection_type_set o ||
                  negb (is_empty (op_guid o)) in
  if negb extended then RunConnectedAction host api (_ ← ExerciseCollections env; mret tt)
  else
    '(connected, s) ← on new_session (Connect env empty_client);
    if negb connected then report_and_finish host api s 1
    else
      match (if is_empty (op_guid o) then Some None else Some <$> ParseGuidOption (op_guid o)) with
      | None => ReportSession s false;; fail_and_finish s "invalid --guid"
      | Some open_id =>
          '(ok, s) ← on s (ExerciseCollectionsExtended env (i32 (op_collection_lifetime o)) (op_enum_ids o)
                             (op_open_collection o || negb (is_empty (op_guid o))) open_id
                             (op_collection_type o));
          report_and_finish host api s (if (ok : bool) then 0 else 1)
      end.

Definition RunContext : C Z := RunConnectedAction host api (_ ← ExerciseContextKeys env; mret tt).
End Commands.

(** * Theorems *)

(** The leaves that no negation covers, in document order. *)
Fixpoint positive_leaves (node : FilterNode) : list FilterNode :=
  match fn_kind node with
  | Leaf => [node]
  | Not => []
  | _ => flat_map positive_leaves (fn_children node)
  end.

(** The value of the first leaf on the process path among these. *)
Definition first_process_value (nodes : list FilterNode) : string :=
  from_option fn_value "" (find_first process_equals nodes).

Lemma process_equals_value node : process_equals node = true -> is_empty (fn_value node) = false.
Proof. unfold process_equals. rewrite !andb_true_iff. by intros [_ ?%negb_true_iff]. Qed.

(** The search goes on exactly while nothing was found. *)
Lemma first_process_value_app l1 l2 :
  first_process_value (l1 ++ l2) =
  if is_empty (first_process_value l1) then first_process_value l2 else first_process_value l1.
Proof.
  unfold first_process_value. rewrite find_first_app. destruct (find_first process_equals l1) as [x|] eqn:E; [|done].
  apply find_first_In in E as [_ E%process_equals_value]. cbn. by rewrite E.
Qed.

Lemma FindProcessEqualsLeaf_under_not node : forall found, FindProcessEqualsLeaf true node found = found.
Proof.
  induction node as [k t c o p pn op v cn children IH] using FilterNode_tree_ind. intros found.
  assert (fold_left (fun found child => FindProcessEqualsLeaf true child found) children found = found) as Hfold.
  { revert found. induction IH as [|x xs Hx _ IHxs]; intros found; [done|]. cbn [fold_left]. by rewrite Hx. }
  destruct (is_empty found) eqn:E; destruct k; cbn; rewrite E; try done; exact Hfold.
Qed.

Lemma fold_under_not children found :
  fold_left (fun found child => FindProcessEqualsLeaf true child found) children found = found.
Proof. induction children as [|x xs IH]; [done|]. cbn [fold_left]. by rewrite FindProcessEqualsLeaf_under_not. Qed.

Lemma FindProcessEqualsLeaf_first node : forall found,
  FindProcessEqualsLeaf false node found =
  if is_empty found then first_process_value (positive_leaves node) else found.
Proof.
  induction node as [k t c o p pn op v cn children IH] using FilterNode_tree_ind. intros found.
  assert (forall found, fold_left (fun found child => FindProcessEqualsLeaf false child found) children found =
    if is_empty found then first_process_value (flat_map positive_leaves children) else found) as Hfold.
  { clear found. induction IH as [|x xs Hx _ IHxs]; intros found.
    { cbn. destruct (is_empty found) eqn:E; [by apply is_empty_true in E|done]. }
    cbn [fold_left flat_map]. rewrite Hx, IHxs, first_process_value_app.
    destruct (is_empty found) eqn:E; [done|by rewrite E]. }
  destruct (is_empty found) eqn:E.
  2:{ destruct k; cbn; by rewrite E. }
  apply is_empty_true in E as ->.
  destruct k; [|exact (Hfold "")..|exact (fold_under_not children "")].
  cbn. unfold first_process_value. cbn. by destruct (process_equals _).
Qed.

(** The image that a document triggers on is the value of the first leaf, in document
    order over its process-creation rules, that asks for a process path equal to a
    value and that no negation covers, whatever combinators surround it; without such a
    leaf it is empty, and then the trigger starts cmd.exe. *)
Lemma ProcessCreateEqualsImage_first {D} (host : Host D) document :
  let rules := List.filter (fun spec => rs_eventType spec =? kEventProcessCreate) (doc_rules document) in
  let leaves := flat_map (fun spec => positive_leaves (rs_filter spec)) rules in
  ProcessCreateEqualsImage document = from_option fn_value "" (find_first process_equals leaves) /\
  (Forall (fun leaf => process_equals leaf = false) leaves -> trigger_command host document = (kCmdImagePath, cmd_command)).
Proof.
  cbv zeta. fold (first_process_value (flat_map (fun spec => positive_leaves (rs_filter spec))
    (List.filter (fun spec => rs_eventType spec =? kEventProcessCreate) (doc_rules document)))).
  assert (ProcessCreateEqualsImage document = first_process_value (flat_map (fun spec => positive_leaves (rs_filter spec))
    (List.filter (fun spec => rs_eventType spec =? kEventProcessCreate) (doc_rules document)))) as Himage.
  { unfold ProcessCreateEqualsImage. induction (doc_rules document) as [|spec specs IH]; [done|].
    cbn [process_create_image List.filter]. destruct (rs_eventType spec =? kEventProcessCreate); cbn [negb]; [|exact IH].
    cbn [flat_map]. rewrite first_process_value_app, <- IH, FindProcessEqualsLeaf_first. cbn [is_empty].
    by destruct (is_empty (first_process_value _)). }
  split; [exact Himage|]. intros Hnone%find_first_None. unfold trigger_command. rewrite Himage.
  unfold first_process_value. by rewrite Hnone.
Qed.
