(* ===== verification/CommandSpec.v ===== *)
(** Which clients a command leaves registered: none, whatever the library answers, but
    for the commands that are there to call every export and for persist-rules, which
    keeps its client registered exactly when it has counted a persistent rule. *)
From S2P Require Import Logging.
From S2P Require Import Prelude Text Core Events RuleModel RuleParser Api NtPath Session.
From S2P Require Import FilterBuild Refs Pump RuleConfig RuleInstall Options Registration.
From S2P Require Import RuleInstallRun RuleInstallSpec Launch Console RulesCommands RulesSpec ObjectCommands.

(** ** Books of a command *)

Section Ledger.
  Context {D : Type} (host : Host D) (api : EspApi).
  Local Abbreviation C := (ST (Console D)).
  Local Abbreviation env := (with_api api (ho_env host)).
  Implicit Types (c : Console D) (s : Session).

(** From the session [s], the computation goes on to the session [out b]: what it
    registers is owned by that session, whoever else owns what. *)
Definition through {B} (s : Session) (m : C B) (out : B -> Session) : Prop :=
  forall c, exists new, extends c new (m c).2 /\ balanced (owned s) new (owned (out (m c).1)) /\
    unregister_on_disconnect (out (m c).1) = unregister_on_disconnect s.

(** The clients of some sessions. *)
Definition owned_all (l : list Session) : gset Guid := ⋃ (owned <$> l).

Lemma owned_all_cons s l : owned_all (s :: l) = owned s ∪ owned_all l.
Proof. done. Qed.

(** The computation gives back the clients of these sessions, and whatever it registers. *)
Definition settles {B} (l : list Session) (m : C B) : Prop :=
  Forall (fun s => unregister_on_disconnect s = true) l ->
  forall c, exists new, extends c new (m c).2 /\
    forall others, still_registered (owned_all l ∪ others) new ⊆ others.

Lemma through_ret {B} s (b : B) out : registration_of (out b) = registration_of s -> through s (mret b) out.
Proof.
  intros H c. exists []. split; [apply extends_refl|]. injection H as H1 H2 H3.
  cbn. unfold owned. rewrite H1, H2, H3. split; [by apply balanced_same|done].
Qed.

Lemma through_same {B} s s' (m : C B) out :
  registration_of s' = registration_of s -> through s' m out -> through s m out.
Proof. intros H Hm. unfold through in *. injection H as H1 H2 H3. unfold owned in *. by rewrite H1, H2, H3 in Hm. Qed.

Lemma through_bind {B B'} s (m : C B) out (f : B -> C B') out' :
  through s m out ->
  (forall b, unregister_on_disconnect (out b) = unregister_on_disconnect s -> through (out b) (f b) out') ->
  through s (m ≫= f) out'.
Proof.
  intros Hm Hf c. rewrite st_bind_unfold. destruct (Hm c) as (n1 & E1 & R1 & U1).
  destruct (Hf _ U1 (m c).2) as (n2 & E2 & R2 & U2). exists (n1 ++ n2).
  split; [by eapply extends_trans|]. split; [by eapply balanced_app|congruence].
Qed.

Lemma through_silent {A B} s (m : C A) (f : A -> C B) out :
  silent m -> (forall a, through s (f a) out) -> through s (m ≫= f) out.
Proof.
  intros Hm Hf c. rewrite st_bind_unfold. destruct (Hf (m c).1 (m c).2) as (n & E & R). exists n.
  split; [|done]. rewrite <- (app_nil_l n). eapply extends_trans; [apply Hm|done].
Qed.

Lemma booked_on {A} s (m : ST (World D) A) c :
  booked (world_of s c) (m (world_of s c)).2 ->
  exists new, extends c new (on s m c).2 /\ balanced (owned s) new (owned (on s m c).1.2) /\
    unregister_on_disconnect (on s m c).1.2 = unregister_on_disconnect s.
Proof. rewrite on_run. intros [(new & Ht & R) U]. by exists new. Qed.

Lemma through_on {A} s (m : ST (World D) A) : books m -> through s (on s m) snd.
Proof. intros H c. apply booked_on, H. Qed.

Lemma settles_ret {B} (b : B) : settles [] (mret b).
Proof. intros _ c. exists []. split; [apply extends_refl|]. intros others. cbn. set_solver. Qed.

Lemma settles_silent {A B} l (m : C A) (f : A -> C B) :
  silent m -> (forall a, settles l (f a)) -> settles l (m ≫= f).
Proof.
  intros Hm Hf Hl c. rewrite st_bind_unfold. destruct (Hf (m c).1 Hl (m c).2) as (n & E & R). exists n.
  split; [|done]. rewrite <- (app_nil_l n). eapply extends_trans; [apply Hm|done].
Qed.

Lemma settles_still {B} (m : C B) : silent m -> settles [] m.
Proof. intros Hm _ c. exists []. split; [apply Hm|]. intros others. cbn. set_solver. Qed.

Lemma settles_through {B B'} s l (m : C B) out (f : B -> C B') :
  through s m out ->
  (forall b, unregister_on_disconnect (out b) = unregister_on_disconnect s -> settles (out b :: l) (f b)) ->
  settles (s :: l) (m ≫= f).
Proof.
  intros Hm Hf [Hs Hl]%Forall_cons c. rewrite st_bind_unfold. destruct (Hm c) as (n1 & E1 & R1 & U1).
  destruct (Hf _ U1 ltac:(constructor; [by rewrite U1|done]) (m c).2) as (n2 & E2 & R2). exists (n1 ++ n2).
  split; [by eapply extends_trans|]. intros others. rewrite still_app.
  etransitivity; [|apply R2]. apply still_mono.
  rewrite !owned_all_cons, <- !(assoc_L (∪)). apply R1.
Qed.

(** A new session owns nothing; the sessions may be looked at in any order. *)
Lemma settles_new {B} l (m : C B) : settles (new_session :: l) m -> settles l m.
Proof.
  intros H Hl c. destruct (H ltac:(by constructor) c) as (n & E & R). exists n. split; [done|].
  intros others. etransitivity; [|apply R]. apply still_mono. rewrite owned_all_cons. set_solver.
Qed.

Lemma settles_swap {B} s1 s2 l (m : C B) : settles (s2 :: s1 :: l) m -> settles (s1 :: s2 :: l) m.
Proof.
  intros H Hl c. rewrite !Forall_cons in Hl. destruct Hl as (H1 & H2 & Hl).
  destruct (H ltac:(by repeat constructor) c) as (n & E & R). exists n. split; [done|].
  intros others. etransitivity; [|apply (R others)]. apply still_mono. rewrite !owned_all_cons. set_solver.
Qed.

(** One command after another. *)
Lemma settles_then {B B'} l (m : C B) (f : B -> C B') :
  settles [] m -> (forall b, settles l (f b)) -> settles l (m ≫= f).
Proof.
  intros Hm Hf Hl c. rewrite st_bind_unfold. destruct (Hm ltac:(constructor) c) as (n1 & E1 & R1).
  destruct (Hf (m c).1 Hl (m c).2) as (n2 & E2 & R2). exists (n1 ++ n2). split; [by eapply extends_trans|].
  intros others. rewrite still_app. etransitivity; [apply still_mono|apply (R2 others)].
  rewrite <- (union_empty_l_L (owned_all l ∪ others)) at 1. apply R1.
Qed.

Lemma through_then {B B'} s (m : C B) (f : B -> C B') out :
  registered_this_session s = false -> settles [] m -> (forall b, through s (f b) out) -> through s (m ≫= f) out.
Proof.
  intros Hs Hm Hf c. rewrite st_bind_unfold. destruct (Hm ltac:(constructor) c) as (n1 & E1 & R1).
  destruct (Hf (m c).1 (m c).2) as (n2 & E2 & R2 & U2). exists (n1 ++ n2).
  split; [by eapply extends_trans|]. split; [|done]. eapply balanced_app; [|exact R2].
  unfold owned. rewrite Hs. intros others. split; [|set_solver].
  etransitivity; [apply (R1 others)|set_solver].
Qed.

(** A session that owns nothing may give back the client of another. *)
Lemma through_unregister_id id s :
  registered_this_session s = false -> through s (on s (UnregisterClientId env id)) snd.
Proof. intros Hs c. apply booked_on, (UnregisterClientId_booked env id (world_of s c) Hs). Qed.

Lemma through_unregister {B} id s (f : bool * Session -> C B) out :
  registered_this_session s = false ->
  (forall released s', registered_this_session s' = false -> through s' (f (released, s')) out) ->
  through s (on s (UnregisterClientId env id) ≫= f) out.
Proof.
  intros Hs Hf c. rewrite st_bind_unfold. destruct (through_unregister_id id s Hs c) as (n1 & E1 & R1 & U1).
  destruct (UnregisterClientId_booked env id (world_of s c) Hs) as [_ Hr].
  assert (registered_this_session (on s (UnregisterClientId env id) c).1.2 = false) as Hr' by (by rewrite on_run).
  destruct (on s _ c) as [[released s'] c1]. cbn [fst snd] in *.
  destruct (Hf released s' Hr' c1) as (n2 & E2 & R2 & U2). exists (n1 ++ n2).
  split; [by eapply extends_trans|]. split; [by eapply balanced_app|congruence].
Qed.

Lemma settles_asked {A B} s l (m : ST (World D) A) (f : A * Session -> C B) :
  bystander m ->
  (forall a s', registered_this_session s' = registered_this_session s -> settles (s' :: l) (f (a, s'))) ->
  settles (s :: l) (on s m ≫= f).
Proof.
  intros Hm Hf [Hs Hl]%Forall_cons c. rewrite st_bind_unfold.
  destruct (through_on s m (bystander_books m Hm) c) as (n1 & E1 & R1 & U1).
  destruct (Hm (world_of s c)) as [_ Hk]. injection Hk as Hr _ _.
  assert (registered_this_session (on s m c).1.2 = registered_this_session s) as Hr' by (rewrite on_run; exact Hr).
  destruct (on s m c) as [[a s'] c1]. cbn [fst snd] in *.
  destruct (Hf a s' Hr' ltac:(constructor; [by rewrite U1|done]) c1) as (n2 & E2 & R2). exists (n1 ++ n2). split; [by eapply extends_trans|]. intros others. rewrite still_app.
  etransitivity; [apply still_mono|apply R2]. rewrite !owned_all_cons, <- !(assoc_L (∪)). apply R1.
Qed.

(** The library can be told that a client goes. *)
Context (unregister_there : available (env_api env) "EspUnregisterClient" = true).

Lemma through_connect client s :
  registered_this_session s = false -> through s (on s (Connect env client)) snd.
Proof. intros H c. by apply booked_on, Connect_booked. Qed.

Lemma through_existing id s :
  registered_this_session s = false -> through s (on s (ConnectExisting env id)) snd.
Proof. intros H c. by apply booked_on, ConnectExisting_booked. Qed.

Lemma through_disconnect s : through s (on s (Disconnect env)) snd.
Proof. by apply through_on, Disconnect_books. Qed.

Lemma through_bystander {A} s (m : ST (World D) A) : bystander m -> through s (on s m) snd.
Proof. intros H. by apply through_on, bystander_books. Qed.

Lemma settles_destroy {B} s l (f : unit -> C B) :
  settles l (f tt) -> settles (s :: l) (destroy host api s ≫= f).
Proof.
  intros Hf [Hs Hl]%Forall_cons c. rewrite st_bind_unfold. unfold destroy. rewrite st_bind_unfold.
  destruct (through_disconnect s c) as (n1 & E1 & R1 & U1).
  assert (owned (on s (Disconnect env) c).1.2 = ∅) as Hnone
    by (rewrite on_run; by apply (Disconnect_leaves env unregister_there (world_of s c))).
  rewrite Hnone in R1. destruct (on s (Disconnect env) c) as [[u s'] c1]. cbn [fst snd mret st_ret] in *.
  destruct (Hf Hl c1) as (n2 & E2 & R2). exists (n1 ++ n2). split; [by eapply extends_trans|].
  intros others. rewrite still_app. etransitivity; [apply still_mono|apply (R2 others)].
  rewrite owned_all_cons, <- (assoc_L (∪)). etransitivity; [apply R1|]. set_solver.
Qed.

(** *** Walking through a command *)

Lemma silent_unique prefix : silent (UniqueClientSpec host prefix).
Proof. apply silent_bind; [apply silent_outside|intros; apply silent_ret]. Qed.

End Ledger.

Create HintDb silent.
#[export] Hint Resolve silent_ret silent_print silent_eprint silent_note silent_outside silent_ask silent_print_all
  silent_warnings silent_log_steps silent_report silent_unique : silent.

Ltac silently :=
  repeat first [ solve [auto 2 with silent]
               | lazymatch goal with
                 | |- silent (mbind _ _) => apply silent_bind; [|intro]
                 | |- silent (if ?b then _ else _) => destruct b
                 | |- silent (match ?x with _ => _ end) => destruct x
                 | |- silent (let _ := _ in _) => cbv zeta
                 | |- silent ?m => let rec head t := lazymatch t with ?f _ => head f | _ => t end in
                                   let h := head m in progress unfold h
                 end ].

(** One step of a computation that hands its session on. *)
Ltac through_step :=
  lazymatch goal with
  | |- through _ (mret _) _ => apply through_ret; reflexivity
  | |- through _ (if ?b then _ else _) _ => destruct b
  | |- through _ (match ?x with _ => _ end) _ => destruct x
  | |- through _ (let _ := _ in _) _ => cbv zeta
  | |- through _ (on _ (Disconnect _)) _ => by apply through_disconnect
  | |- through _ (on _ (Connect _ _)) _ => by apply through_connect
  | |- through _ (on _ (ConnectExisting _ _)) _ => by apply through_existing
  | |- through _ (on _ _) _ => apply through_bystander; by bystand
  | |- through ?s (?m ≫= _) _ =>
      lazymatch type of m with
      | ST _ (_ * Session) => eapply (through_bind s m snd); [|intros [? ?] ?; cbn [fst snd] in *]
      | ST _ Session => eapply (through_bind s m id); [|intros ? ?; cbn [id] in *]
      | _ => apply through_silent; [by silently|intro]
      end
  end.

Ltac throughs := repeat first [progress through_step | solve [auto 2 with through]].

(** One step of a command: its end, a branch, a part that hands the session on, the end
    of the session, or something that leaves the library alone. *)
Ltac settle_step :=
  lazymatch goal with
  | |- settles _ (mret _) => apply settles_ret
  | |- settles _ (if ?b then _ else _) => destruct b
  | |- settles _ (match ?x with _ => _ end) => destruct x
  | |- settles _ (let _ := _ in _) => cbv zeta
  | |- settles (?s :: _) (destroy _ _ ?s ≫= _) => apply settles_destroy; [assumption|]
  | |- settles ?l (?m ≫= _) =>
      lazymatch type of m with
      | ST _ (_ * Session) =>
          lazymatch m with on new_session _ => apply settles_new | _ => idtac end;
          eapply (settles_through _ _ m snd); [by throughs|intros [? ?] ?; cbn [fst snd] in *]
      | ST _ Session => eapply (settles_through _ _ m id); [by throughs|intros ? ?; cbn [id] in *]
      | _ => apply settles_silent; [by silently|intro]
      end
  | |- settles [?s] (?m ?s _) => solve [auto 2 with settles]
  | |- settles [] _ => first [solve [auto 2 with settles]|apply settles_still; by silently]
  end.

Ltac settle := repeat settle_step.

Create HintDb through.
Create HintDb settles.

Section Commands.
  Context {D : Type} (host : Host D) (api : EspApi).
  Local Abbreviation C := (ST (Console D)).
  Local Abbreviation env := (with_api api (ho_env host)).
  Context (unregister_there : available (env_api env) "EspUnregisterClient" = true).
  Local Abbreviation settles := (settles (D := D)).
  Local Abbreviation through := (through (D := D)).

Lemma settles_finish s code : settles [s] (finish host api s code).
Proof. unfold finish. settle. Qed.

Lemma settles_report s code : settles [s] (report_and_finish host api s code).
Proof. unfold report_and_finish. settle. apply settles_finish. Qed.

#[local] Hint Resolve settles_finish settles_report : settles.

Lemma settles_connected action : bystander action -> settles [] (RunConnectedAction host api action).
Proof. intros H. unfold RunConnectedAction. settle. Qed.

Lemma settles_RunConnect : settles [] (RunConnect host api).
Proof. unfold RunConnect. settle. Qed.

Lemma settles_RunTrust : settles [] (RunTrust host api).
Proof. unfold RunTrust. settle. Qed.

(** *** Left-over clients *)

Lemma settles_preserve id : settles [] (preserve_client host api id).
Proof. unfold preserve_client. settle. Qed.

Lemma through_clean release_persistent ids s cleared :
  registered_this_session s = false ->
  through s (clean_clients host api release_persistent ids s cleared) snd.
Proof.
  revert s cleared. induction ids as [|id ids IH]; intros s cleared Hs; cbn [clean_clients]; [throughs|].
  apply through_then; [done|destruct release_persistent; [apply settles_ret|apply settles_preserve]|].
  intros []; [by apply IH|]. apply through_unregister; [done|]. intros. by apply IH.
Qed.

Lemma settles_clean release_persistent command : settles [] (CleanOrphanClients host api release_persistent command).
Proof.
  unfold CleanOrphanClients. apply settles_new, settles_asked; [bystand|].
  intros [[ok count] ids] s Hs. destruct (_ || _); [settle|].
  eapply settles_through; [by apply through_clean|]. intros [cleared s'] ?. cbn [fst snd]. settle.
Qed.

(** *** Rules *)

Lemma through_prepare_connected s document o : through s (prepare_connected host api s document o) snd.
Proof.
  unfold prepare_connected, ApplyBypass. cbv zeta.
  apply (through_same s (s <| enforce_compat := op_enforce_compat o |>)); [done|throughs].
Qed.

Lemma through_prepare s document o :
  registered_this_session s = false -> through s (PrepareRulesSession host api s document o) snd.
Proof. intros Hs. unfold PrepareRulesSession. throughs. by apply through_prepare_connected. Qed.

Lemma through_hold o document s : through s (hold_rules host api o document s) id.
Proof. unfold hold_rules, Pump. throughs. Qed.
#[local] Hint Resolve through_hold : through.

Lemma silent_load o command : silent (LoadRuleDocument host o command).
Proof. unfold LoadRuleDocument. silently. Qed.

(** The session that was prepared, and what is done with it. *)
Lemma settles_prepared {B} document o (f : RulesPrep * Session -> C B) :
  (forall prep s, unregister_on_disconnect s = true -> settles [s] (f (prep, s))) ->
  settles [] (PrepareRulesSession host api new_session document o ≫= f).
Proof.
  intros Hf. apply settles_new. eapply settles_through; [by apply through_prepare|].
  intros [prep s] Hs. by apply Hf.
Qed.

Lemma settles_RunRules o : settles [] (RunRules host api o).
Proof.
  unfold RunRules. apply settles_silent; [apply silent_load|]. intros [[document|error]|]; [|settle..].
  apply settles_then; [apply settles_clean|intros _]. apply settles_prepared. intros prep s Hs.
  destruct prep; settle.
Qed.

Lemma settles_RunMonitor o : settles [] (RunMonitor host api o).
Proof.
  unfold RunMonitor, Pump. apply settles_silent; [apply silent_load|]. intros [[document|error]|]; [|settle..].
  apply settles_silent; [by silently|intros _].
  apply settles_then; [apply settles_clean|intros _]. apply settles_prepared. intros prep s Hs. settle.
Qed.

Lemma settles_RunExports : settles [] (RunExports api).
Proof. unfold RunExports. settle. Qed.

Lemma settles_RunStatus : settles [] (RunStatus host api).
Proof. unfold RunStatus. settle. Qed.

Lemma through_lifetimes lifetimes s : through s (enum_lifetimes host api lifetimes s) id.
Proof.
  revert s. induction lifetimes as [|lifetime lifetimes IH]; intros s; cbn [enum_lifetimes]; throughs.
Qed.
#[local] Hint Resolve through_lifetimes : through.

Lemma settles_RunEnumRules : settles [] (RunEnumRules host api).
Proof. unfold RunEnumRules. settle. Qed.

Lemma settles_RunRemoveRules : settles [] (RunRemoveRules host api).
Proof. apply settles_connected. bystand. Qed.

(** *** Clients and queues *)

Lemma settles_RunClients : settles [] (RunClients host api).
Proof. unfold RunClients. settle. Qed.

Lemma through_unregister_each ids s cleared :
  registered_this_session s = false -> through s (unregister_each host api ids s cleared) snd.
Proof.
  revert s cleared. induction ids as [|id ids IH]; intros s cleared Hs; cbn [unregister_each]; [throughs|].
  apply through_unregister; [done|]. intros. by apply IH.
Qed.

Lemma settles_RunUnregister o : settles [] (RunUnregister host api o).
Proof.
  unfold RunUnregister. destruct (op_all o).
  - apply settles_new, settles_asked; [bystand|]. intros [[ok count] ids] s Hs. destruct (negb ok); [settle|].
    eapply settles_through; [by apply through_unregister_each|]. intros [cleared s'] ?. cbn [fst snd]. settle.
  - destruct (is_empty (op_guid o)); [settle|]. destruct (ParseGuid (op_guid o)) as [id|]; [|settle].
    apply settles_new. eapply settles_through; [by apply through_unregister_id|].
    intros [ok s] ?. cbn [fst snd]. settle.
Qed.

Lemma settles_RunOpenQueue : settles [] (RunOpenQueue host api).
Proof. unfold RunOpenQueue. settle; repeat (apply settles_swap; progress settle). Qed.

(** *** Objects *)

Lemma settles_fail s message : settles [s] (fail_and_finish host api s message).
Proof. unfold fail_and_finish. settle. Qed.

Lemma through_probe o kind s : through s (probe_supported host api o kind s) snd.
Proof. unfold probe_supported. throughs. Qed.
#[local] Hint Resolve through_probe settles_fail : through settles.

Lemma settles_query_client o kind s : settles [s] (query_client host api o kind s).
Proof. unfold query_client. settle. Qed.

Lemma settles_without_reference o kind s : settles [s] (query_without_reference host api o kind s).
Proof. unfold query_without_reference. settle. Qed.

Lemma settles_query_reference o kind s : settles [s] (query_reference host api o kind s).
Proof. unfold query_reference. settle. Qed.
#[local] Hint Resolve settles_query_client settles_without_reference settles_query_reference : settles.

Lemma settles_RunQuery o : settles [] (RunQuery host api o).
Proof.
  unfold RunQuery. destruct (is_empty (op_kind o)); [apply settles_connected; bystand|].
  settle; eauto with settles.
Qed.

Lemma through_spawn document s : through s (spawn_trigger host document s) snd.
Proof.
  unfold spawn_trigger. destruct (DocumentWantsFoTrigger document).
  - apply through_silent; [by silently|]. intros []; apply through_ret; reflexivity.
  - apply through_silent; [by silently|]. intros [[[] ?] ?]; apply through_ret; reflexivity.
Qed.
#[local] Hint Resolve through_spawn : through.

Lemma settles_refs_from_notify o document : settles [] (refs_from_notify host api o document).
Proof.
  unfold refs_from_notify.
  apply settles_then; [apply settles_clean|intros _]. apply settles_prepared. intros prep s Hs. settle.
Qed.

Lemma settles_refs_of_kind o kind : settles [] (refs_of_kind host api o kind).
Proof. unfold refs_of_kind. settle. Qed.

Lemma settles_RunRefs o : settles [] (RunRefs host api o).
Proof.
  unfold RunRefs. cbv zeta. destruct (is_empty _); [settle|]. destruct (op_from_notify o); [|apply settles_refs_of_kind].
  apply settles_silent; [apply silent_load|]. intros [[document|error]|]; [apply settles_refs_from_notify|settle..].
Qed.

Lemma settles_RunCollections o : settles [] (RunCollections host api o).
Proof.
  unfold RunCollections. cbv zeta. destruct (negb _); [apply settles_connected; bystand|]. settle.
Qed.

Lemma settles_RunContext : settles [] (RunContext host api).
Proof. apply settles_connected. bystand. Qed.

(** *** Persistent rules *)

Lemma bystander_on {A} s (m : ST (World D) A) c :
  bystander m -> registration_of (on s m c).1.2 = registration_of s.
Proof. intros Hm. rewrite on_run. apply (Hm (world_of s c)). Qed.

Lemma prepare_connected_keeps s document o c :
  registration_of (prepare_connected host api s document o c).1.2 = registration_of s.
Proof.
  unfold prepare_connected. cbv zeta. set (s1 := s <| enforce_compat := _ |>).
  change (registration_of s) with (registration_of s1). clearbody s1. rewrite st_bind_unfold.
  destruct (_ c) as [[[]|error] c1]; cbn [fst snd]; [|done]. rewrite st_bind_unfold.
  assert (registration_of ((if DocumentNeedsQueue document then on s1 (CreateQueue env) else mret (true, s1)) c1).1.2 =
          registration_of s1) as Hq by (destruct (DocumentNeedsQueue _); [apply bystander_on; bystand|done]).
  destruct (_ c1) as [[queued s2] c2]. cbn [fst snd] in *. destruct queued; cbn [negb]; [|done].
  rewrite <- Hq. rewrite st_bind_unfold.
  assert (registration_of (on s2 (RemoveAllRules env) c2).1.2 = registration_of s2) as Hr
    by (apply bystander_on; bystand).
  destruct (on s2 _ c2) as [[removed s3] c3]. cbn [fst snd] in *. destruct removed; cbn [negb]; [|done].
  rewrite <- Hr. rewrite st_bind_unfold.
  assert (registration_of (on s3 (InstallRules env document) c3).1.2 = registration_of s3) as Hi
    by (apply bystander_on; bystand).
  by destruct (on s3 _ c3) as [[status s4] c4].
Qed.

(** A session whose rules were all installed is registered. *)
Lemma prepare_registered s document o c :
  (PrepareRulesSession host api s document o c).1.1 = PrepOk ->
  registered_this_session (PrepareRulesSession host api s document o c).1.2 = true.
Proof.
  unfold PrepareRulesSession. rewrite st_bind_unfold, on_run.
  pose proof (Connect_run env (doc_client document) (world_of s c)) as Hc.
  destruct (Connect env (doc_client document) (world_of s c)) as [connected w1]. cbn [fst snd].
  destruct connected; cbn [negb]; [|done]. intros _.
  destruct Hc as (id & new & _ & _ & _ & [Hok _]). destruct (Hok eq_refl) as (_ & Hr & _).
  match goal with |- context [prepare_connected _ _ ?s1 _ _ ?c1] => pose proof (prepare_connected_keeps s1 document o c1) as Hk end.
  injection Hk as Hk _ _. by rewrite Hk.
Qed.

Lemma EnumerateRuleIds_listed lifetime w :
  let '(ids, w') := EnumerateRuleIds env lifetime w in
  ids.1 = true -> exists h listed new,
    w_trace w' = w_trace w ++ new /\ Called "EspEnumerateRuleIds" [AHandle h; AWord lifetime] listed ∈ new /\
    Succeeded (re_result listed) = true /\ re_count listed = ids.2.
Proof.
  unfold EnumerateRuleIds, on_client. run. rewrite Require_run. run.
  destruct (negb _ || negb _) eqn:E; run; [done|].
  apply orb_false_iff in E as [Ea%negb_false_iff _]. rewrite warned_available by done.
  unfold Checked. run. rewrite Call_run. run. cbn [succeeded]. intros Hs.
  eexists _, _, _. split; [reflexivity|]. split; [apply list_elem_of_singleton; reflexivity|]. done.
Qed.

(** A session that is to stay registered reports, and stays registered. *)
Lemma report_keeps s code c :
  unregister_on_disconnect s = false ->
  exists new, (report_and_finish host api s code c).1 = code /\
    extends c new (report_and_finish host api s code c).2 /\ balanced (owned s) new (owned s).
Proof.
  intros Hs. unfold report_and_finish. rewrite st_bind_unfold. pose proof (silent_report s false c) as Hr.
  set (c1 := (ReportSession s false c).2) in *. clearbody c1. unfold finish. rewrite st_bind_unfold.
  destruct (through_disconnect host api unregister_there s c1) as (n1 & E1 & B1 & U1).
  assert (registration_of (on s (Disconnect env) c1).1.2 = registration_of s) as Hk1
    by (rewrite on_run; apply (Disconnect_keeps env (world_of s c1) Hs)).
  destruct (on s (Disconnect env) c1) as [[u1 s1] c2]. cbn [fst snd] in *. rewrite st_bind_unfold.
  unfold destroy. rewrite st_bind_unfold.
  destruct (through_disconnect host api unregister_there s1 c2) as (n2 & E2 & B2 & U2).
  assert (registration_of (on s1 (Disconnect env) c2).1.2 = registration_of s1) as Hk2
    by (rewrite on_run; apply (Disconnect_keeps env (world_of s1 c2)); cbn; congruence).
  destruct (on s1 (Disconnect env) c2) as [[u2 s2] c3]. cbn [fst snd mret st_ret] in *.
  rewrite (owned_same _ _ Hk2), (owned_same _ _ Hk1) in *.
  exists (n1 ++ n2). split; [done|]. split; [|by eapply balanced_app].
  rewrite <- (app_nil_l (n1 ++ n2)). eapply extends_trans; [exact Hr|by eapply extends_trans].
Qed.

(** One client is left registered, and the library has counted persistent rules of it. *)
Definition left_persistent (registered : gset Guid) (new : list Event) : Prop :=
  exists id h listed, still_registered registered new = {[id]} /\
    Called "EspEnumerateRuleIds" [AHandle h; AWord kLifetimePersistFfi] listed ∈ new /\
    Succeeded (re_result listed) = true /\ 1 <= re_count listed.

(** How persist-rules ends. *)
Definition persist_outcome (registered : gset Guid) (code : Z) (new : list Event) : Prop :=
  (code = 1 /\ still_registered registered new = ∅) \/ (code = 0 /\ left_persistent registered new).

Lemma persist_end s prep c :
  unregister_on_disconnect s = false -> (prep = PrepOk -> registered_this_session s = true) ->
  let '(code, c') :=
    ('(ids, s) ← (if prep_ok prep then on s (EnumerateRuleIds env kLifetimePersistFfi)
                  else mret ((false, 0), s));
     let '(listed, count) := (ids : bool * Z) in
     print ("persist-rules " +:+ dec count);;
     let kept := listed && (1 <=? count) in
     let s := if kept then s else s <| unregister_on_disconnect := true |> in
     report_and_finish host api s (if kept then 0 else 1)) c in
  exists new, extends c new c' /\ persist_outcome (owned s) code new.
Proof.
  intros Hu Hr. rewrite st_bind_unfold.
  assert (exists ids s1 c1 n1, (if prep_ok prep then on s (EnumerateRuleIds env kLifetimePersistFfi)
                  else mret ((false, 0), s)) c = ((ids, s1), c1) /\ extends c n1 c1 /\
    balanced (owned s) n1 (owned s1) /\ registration_of s1 = registration_of s /\
    (ids.1 = true -> prep = PrepOk /\ exists h listed,
       Called "EspEnumerateRuleIds" [AHandle h; AWord kLifetimePersistFfi] listed ∈ n1 /\
       Succeeded (re_result listed) = true /\ re_count listed = ids.2))
    as (ids & s1 & c1 & n1 & -> & E1 & B1 & Hk & Hids).
  { destruct (prep_ok prep) eqn:Ep.
    2:{ exists (false, 0), s, c, []. split_and!; [done|apply extends_refl|by apply balanced_same|done|done]. }
    destruct (through_bystander s (EnumerateRuleIds env kLifetimePersistFfi) ltac:(bystand) c) as (n1 & E1 & B1 & _).
    pose proof (bystander_on s (EnumerateRuleIds env kLifetimePersistFfi) c ltac:(bystand)) as Hk.
    pose proof (EnumerateRuleIds_listed kLifetimePersistFfi (world_of s c)) as Hl. rewrite on_run in *.
    destruct (EnumerateRuleIds env _ (world_of s c)) as [ids w1]. cbn [fst snd] in *.
    eexists ids, _, _, n1. split_and!; try done. intros Hids.
    destruct (Hl Hids) as (h & listed & new & Ht & Hin & Hs & Hcount). split; [by destruct prep|].
    exists h, listed. split; [|done]. unfold extends in E1. cbn [co_trace] in E1. rewrite Ht in E1.
    cbn in E1. apply app_inv_head in E1 as <-. done. }
  cbn [fst snd]. destruct ids as [listed_ok count]. cbn [fst snd] in *. rewrite st_bind_unfold.
  set (c2 := (print _ c1).2). assert (extends c1 [] c2) as E2 by apply silent_print. clearbody c2.
  injection Hk as Hr1 Hi1 Hu1. rewrite Hu in Hu1. destruct (listed_ok && (1 <=? count)) eqn:Ekept.
  - apply andb_true_iff in Ekept as [-> Hcount%Z.leb_le].
    destruct (Hids eq_refl) as (Hprep & h & listed & Hin & Hs & Hre).
    destruct (report_keeps s1 0 c2 Hu1) as (n3 & Hcode & E3 & B3).
    destruct (report_and_finish host api s1 0 c2) as [code c']. cbn [fst snd] in *.
    exists (n1 ++ n3). split; [eapply extends_trans; [exact E1|]; rewrite <- (app_nil_l n3); by eapply extends_trans|].
    right. split; [done|]. exists (client_id s1), h, listed. split_and!; [|set_solver|done|lia].
    destruct (balanced_app _ _ _ _ _ B1 B3 ∅) as [Hle Hge].
    replace (owned s1) with ({[client_id s1]} : gset Guid) in * by (unfold owned; by rewrite Hr1, (Hr Hprep)).
    rewrite !(union_empty_r_L _) in *. set_solver.
  - set (s2 := s1 <| unregister_on_disconnect := true |>).
    destruct (settles_report s2 1 ltac:(by repeat constructor) c2) as (n3 & E3 & B3).
    assert ((report_and_finish host api s2 1 c2).1 = 1) as Hcode
      by (by destruct (report_and_finish_run host api s2 1 c2) as (? & ? & _)).
    destruct (report_and_finish host api s2 1 c2) as [code c']. cbn [fst snd] in *.
    exists (n1 ++ n3). split; [eapply extends_trans; [exact E1|]; rewrite <- (app_nil_l n3); by eapply extends_trans|].
    left. split; [done|]. rewrite still_app. destruct (B1 ∅) as [Hle _]. rewrite !(union_empty_r_L _) in Hle.
    specialize (B3 ∅). rewrite owned_all_cons in B3. change (owned s2) with (owned s1) in B3.
    change (owned_all []) with (∅ : gset Guid) in B3. rewrite !(union_empty_r_L _) in B3.
    pose proof (still_mono _ _ n3 Hle). set_solver.
Qed.

Lemma settled_outcome (m : C Z) c :
  settles [] m -> (m c).1 = 1 ->
  let '(code, c') := m c in exists new, extends c new c' /\ persist_outcome ∅ code new.
Proof.
  intros Hm H1. destruct (Hm ltac:(constructor) c) as (new & He & Hn).
  destruct (m c) as [code c']. exists new. split; [done|]. left. split; [done|].
  specialize (Hn ∅). change (owned_all []) with (∅ : gset Guid) in Hn. rewrite (union_empty_l_L ∅) in Hn. set_solver.
Qed.

Lemma persist_run o c :
  let '(code, c') := RunPersistRules host api o c in
  exists new, extends c new c' /\ persist_outcome ∅ code new.
Proof.
  unfold RunPersistRules. rewrite st_bind_unfold, LoadRuleDocument_run.
  destruct (is_empty (op_rules_path o)); cbn [fst snd].
  { exists []. split; [apply silent_eprint|]. by left. }
  destruct (parse_rules host o c) as [document|error]; cbn [fst snd].
  2:{ exists []. split; [apply silent_fail|]. by left. }
  rewrite st_bind_unfold.
  destruct (settles_clean (op_fresh o) "persist-rules" ltac:(constructor) c) as (n0 & E0 & S0).
  set (c0 := (CleanOrphanClients _ _ _ _ c).2) in *. clearbody c0. rewrite st_bind_unfold.
  set (s0 := new_session <| unregister_on_disconnect := false |>).
  destruct (through_prepare s0 (as_persistent document) o eq_refl c0) as (n1 & E1 & B1 & U1).
  pose proof (prepare_registered s0 (as_persistent document) o c0) as Hreg.
  destruct (PrepareRulesSession host api s0 (as_persistent document) o c0) as [[prep s] c1]. cbn [fst snd] in *.
  pose proof (persist_end s prep c1 U1 Hreg) as Hend.
  match type of Hend with let '(_, _) := ?x in _ => destruct x as [code c'] end.
  destruct Hend as (n2 & E2 & Hout). exists (n0 ++ n1 ++ n2).
  split; [by eapply extends_trans; [|eapply extends_trans]|].
  assert (still_registered ∅ (n0 ++ n1 ++ n2) = still_registered (owned s) n2) as Hstill.
  { rewrite !still_app. f_equal. specialize (S0 ∅). change (owned_all []) with (∅ : gset Guid) in S0.
    rewrite (union_empty_l_L ∅) in S0. destruct (B1 ∅) as [Hle Hge].
    change (owned s0) with (∅ : gset Guid) in *. rewrite (union_empty_l_L ∅), ?(union_empty_r_L _) in *.
    pose proof (still_mono _ _ n1 S0). assert (still_registered ∅ n0 = ∅) as -> by set_solver. set_solver. }
  destruct Hout as [[-> Hn]|(-> & id & h & listed & Hn & Hin & Hok)]; [left|right]; rewrite ?Hstill; (split; [done|]).
  - done.
  - exists id, h, listed. split; [by rewrite Hstill|]. split; [set_solver|done].
Qed.
End Commands.
