(* ===== verification/CustodyCommands.v ===== *)
(** Custody of handles in the commands: a command names only handles that the library
    handed out, to this command or before, and that were not closed since. *)
From stdpp Require Import gmultiset.
From S2P Require Import Logging.
From S2P Require Import Prelude Text Core Events RuleModel RuleParser Api NtPath Session.
From S2P Require Import FilterBuild Refs Pump RuleConfig RuleInstall Options Custody CustodyRules CustodyUse.
From S2P Require Import RuleInstallSpec Launch Console RulesCommands RulesSpec ObjectCommands CommandSpec.

(** What several sessions hold. *)
Fixpoint held_all (l : list Session) : live_handles :=
  match l with [] => ∅ | s :: rest => held s ⊎ held_all rest end.

Section Guards.
  Context {D : Type} (host : Host D) (api : EspApi).
  Local Abbreviation C := (ST (Console D)).
  Local Abbreviation env := (with_api api (ho_env host)).
  Implicit Types (c : Console D) (s : Session) (L live : live_handles).

(** From the session [s], the computation goes on to the session [out b]; what the others
    hold stays open. *)
Definition passes {B} s (m : C B) (out : B -> Session) : Prop :=
  forall L c live, L ⊎ held s ⊆ live -> exists new live', extends c new (m c).2 /\
    watch live new = Some live' /\ L ⊎ held (out (m c).1) ⊆ live'.

(** The computation ends these sessions; what the others hold stays open. *)
Definition guards {B} (l : list Session) (m : C B) : Prop :=
  forall L c live, L ⊎ held_all l ⊆ live -> exists new live', extends c new (m c).2 /\
    watch live new = Some live' /\ L ⊆ live'.

Lemma passes_ret {B} s (b : B) out : handles (out b) = handles s -> passes s (mret b) out.
Proof.
  intros H L c live Hs. exists [], live. split; [apply extends_refl|]. split; [done|]. cbn.
  by rewrite (held_same _ _ H).
Qed.

Lemma passes_same {B} s s' (m : C B) out : handles s' = handles s -> passes s' m out -> passes s m out.
Proof. intros H Hm. unfold passes in *. by rewrite (held_same _ _ H) in Hm. Qed.

Lemma passes_bind {B B'} s (m : C B) out (f : B -> C B') out' :
  passes s m out -> (forall b, passes (out b) (f b) out') -> passes s (m ≫= f) out'.
Proof.
  intros Hm Hf L c live Hs. rewrite st_bind_unfold. destruct (Hm L c live Hs) as (n1 & l1 & E1 & W1 & H1).
  destruct (Hf _ L (m c).2 l1 H1) as (n2 & l2 & E2 & W2 & H2). exists (n1 ++ n2), l2.
  split; [by eapply extends_trans|]. split; [by rewrite watch_app, W1|done].
Qed.

Lemma passes_silent {A B} s (m : C A) (f : A -> C B) out :
  silent m -> (forall a, passes s (f a) out) -> passes s (m ≫= f) out.
Proof.
  intros Hm Hf L c live Hs. rewrite st_bind_unfold. destruct (Hf (m c).1 L (m c).2 live Hs) as (n & l & E & W).
  exists n, l. split; [|done]. rewrite <- (app_nil_l n). eapply extends_trans; [apply Hm|done].
Qed.

(** An operation of the session, known by what it does to the handles. *)
Lemma run_on {A} s (m : ST (World D) A) c live (Q : A -> Session -> live_handles -> Prop) :
  wp m s live Q ->
  exists new live', extends c new (on s m c).2 /\ watch live new = Some live' /\
    Q (on s m c).1.1 (on s m c).1.2 live'.
Proof.
  intros Hm. specialize (Hm (world_of s c) eq_refl). rewrite on_run.
  destruct (m (world_of s c)) as [a w]. destruct Hm as (new & live' & Ht & Hw & HQ). by exists new, live'.
Qed.

Lemma passes_on {A} s (m : ST (World D) A) : safe m -> passes s (on s m) snd.
Proof. intros H L c live Hs. apply (run_on s m c live (fun _ s' live' => L ⊎ held s' ⊆ live')), H, Hs. Qed.

Lemma guards_ret {B} (b : B) : guards [] (mret b).
Proof. intros L c live Hs. exists [], live. split; [apply extends_refl|]. split; [done|]. cbn in Hs. multiset_solver. Qed.

Lemma guards_still {B} (m : C B) : silent m -> guards [] m.
Proof. intros Hm L c live Hs. exists [], live. split; [apply Hm|]. split; [done|]. cbn in Hs. multiset_solver. Qed.

Lemma guards_silent {A B} l (m : C A) (f : A -> C B) :
  silent m -> (forall a, guards l (f a)) -> guards l (m ≫= f).
Proof.
  intros Hm Hf L c live Hs. rewrite st_bind_unfold. destruct (Hf (m c).1 L (m c).2 live Hs) as (n & l' & E & W).
  exists n, l'. split; [|done]. rewrite <- (app_nil_l n). eapply extends_trans; [apply Hm|done].
Qed.

Lemma guards_passes {B B'} s l (m : C B) out (f : B -> C B') :
  passes s m out -> (forall b, guards (out b :: l) (f b)) -> guards (s :: l) (m ≫= f).
Proof.
  intros Hm Hf L c live Hs. rewrite st_bind_unfold. cbn [held_all] in Hs.
  destruct (Hm (L ⊎ held_all l) c live) as (n1 & l1 & E1 & W1 & H1); [multiset_solver|].
  destruct (Hf (m c).1 L (m c).2 l1) as (n2 & l2 & E2 & W2 & H2).
  { cbn [held_all]. generalize dependent (held (out (m c).1)). intros h Hh. multiset_solver. }
  exists (n1 ++ n2), l2. split; [by eapply extends_trans|]. split; [by rewrite watch_app, W1|done].
Qed.

Lemma guards_last {B} s (m : C B) out : passes s m out -> guards [s] m.
Proof.
  intros Hm L c live Hs. cbn [held_all] in Hs. destruct (Hm L c live) as (n & l & E & W & H); [multiset_solver|].
  exists n, l. split; [done|]. split; [done|]. multiset_solver.
Qed.

(** A new session holds nothing; the sessions may be looked at in any order. *)
Lemma guards_new {B} l (m : C B) : guards (new_session :: l) m -> guards l m.
Proof. intros H L c live Hs. apply H. cbn [held_all]. change (held new_session) with (∅ : live_handles). multiset_solver. Qed.

Lemma guards_swap {B} s1 s2 l (m : C B) : guards (s2 :: s1 :: l) m -> guards (s1 :: s2 :: l) m.
Proof. intros H L c live Hs. apply H. cbn [held_all] in *. multiset_solver. Qed.

Lemma guards_same {B} s s' l (m : C B) : handles s' = handles s -> guards (s' :: l) m -> guards (s :: l) m.
Proof. intros Hk H L c live Hs. apply H. cbn [held_all] in *. by rewrite (held_same _ _ Hk). Qed.

(** A session that is given up without being closed. *)
Lemma guards_drop {B} s l (m : C B) : guards l m -> guards (s :: l) m.
Proof. intros H L c live Hs. apply H. cbn [held_all] in Hs. multiset_solver. Qed.

(** One command after another. *)
Lemma guards_then {B B'} l (m : C B) (f : B -> C B') :
  guards [] m -> (forall b, guards l (f b)) -> guards l (m ≫= f).
Proof.
  intros Hm Hf L c live Hs. rewrite st_bind_unfold.
  destruct (Hm (L ⊎ held_all l) c live) as (n1 & l1 & E1 & W1 & H1); [cbn; multiset_solver|].
  destruct (Hf (m c).1 L (m c).2 l1 H1) as (n2 & l2 & E2 & W2 & H2). exists (n1 ++ n2), l2.
  split; [by eapply extends_trans|]. split; [by rewrite watch_app, W1|done].
Qed.

Lemma passes_then {B B'} s (m : C B) (f : B -> C B') out :
  guards [] m -> (forall b, passes s (f b) out) -> passes s (m ≫= f) out.
Proof.
  intros Hm Hf L c live Hs. rewrite st_bind_unfold.
  destruct (Hm (L ⊎ held s) c live) as (n1 & l1 & E1 & W1 & H1); [cbn; multiset_solver|].
  destruct (Hf (m c).1 L (m c).2 l1 H1) as (n2 & l2 & E2 & W2 & H2). exists (n1 ++ n2), l2.
  split; [by eapply extends_trans|]. split; [by rewrite watch_app, W1|done].
Qed.

Lemma guards_destroy {B} s l (f : unit -> C B) : guards l (f tt) -> guards (s :: l) (destroy host api s ≫= f).
Proof.
  intros Hf L c live Hs. cbn [held_all] in Hs. rewrite st_bind_unfold. unfold destroy. rewrite st_bind_unfold.
  destruct (passes_on s (Disconnect env) (safe_Disconnect env) (L ⊎ held_all l) c live) as (n1 & l1 & E1 & W1 & H1);
    [multiset_solver|].
  destruct (on s (Disconnect env) c) as [[u s'] c1]. cbn [fst snd mret st_ret] in *.
  destruct (Hf L c1 l1) as (n2 & l2 & E2 & W2 & H2); [multiset_solver|]. exists (n1 ++ n2), l2.
  split; [by eapply extends_trans|]. split; [by rewrite watch_app, W1|done].
Qed.
End Guards.

Create HintDb passes.
Create HintDb guards.

(** One step of a computation that hands its session on. *)
Ltac passes_step :=
  lazymatch goal with
  | |- passes _ (mret _) _ => apply passes_ret; reflexivity
  | |- passes _ (if ?b then _ else _) _ => destruct b
  | |- passes _ (match ?x with _ => _ end) _ => destruct x
  | |- passes _ (let _ := _ in _) _ => cbv zeta
  | |- passes _ (on _ _) _ => apply passes_on; solve [safely]
  | |- passes ?s (?m ≫= _) _ =>
      lazymatch type of m with
      | ST _ (_ * Session) => eapply (passes_bind s m snd); [|intros [? ?]; cbn [fst snd] in *]
      | ST _ Session => eapply (passes_bind s m id); [|intros ?; cbn [id] in *]
      | _ => apply passes_silent; [by silently|intro]
      end
  end.

Ltac pass_on := repeat first [progress passes_step | solve [auto 2 with passes]].

(** One step of a command: its end, a branch, a part that hands the session on, the end
    of the session, or something that leaves the library alone. *)
Ltac guard_step :=
  lazymatch goal with
  | |- guards _ (mret _) => apply guards_ret
  | |- guards _ (if ?b then _ else _) => destruct b
  | |- guards _ (match ?x with _ => _ end) => destruct x
  | |- guards _ (let _ := _ in _) => cbv zeta
  | |- guards (?s :: _) (destroy _ _ ?s ≫= _) => apply guards_destroy
  | |- guards ?l (?m ≫= _) =>
      lazymatch type of m with
      | ST _ (_ * Session) =>
          lazymatch m with on new_session _ => apply guards_new | _ => idtac end;
          eapply (guards_passes _ _ m snd); [by pass_on|intros [? ?]; cbn [fst snd] in *]
      | ST _ Session => eapply (guards_passes _ _ m id); [by pass_on|intros ?; cbn [id] in *]
      | _ => apply guards_silent; [by silently|intro]
      end
  | |- guards [?s] (?m ?s _) => solve [auto 2 with guards]
  | |- guards [] _ => first [solve [auto 2 with guards]|apply guards_still; by silently]
  end.

Ltac guarding := repeat guard_step.

Section Commands.
  Context {D : Type} (host : Host D) (api : EspApi).
  Local Abbreviation C := (ST (Console D)).
  Local Abbreviation env := (with_api api (ho_env host)).
  Local Abbreviation guards := (guards (D := D)).
  Local Abbreviation passes := (passes (D := D)).
  #[local] Hint Resolve silent_load : silent.

Lemma guards_finish s code : guards [s] (finish host api s code).
Proof. unfold finish. guarding. Qed.

Lemma guards_report s code : guards [s] (report_and_finish host api s code).
Proof. unfold report_and_finish. guarding. apply guards_finish. Qed.

#[local] Hint Resolve guards_finish guards_report : guards.

Lemma guards_connected action : safe action -> guards [] (RunConnectedAction host api action).
Proof. intros H. unfold RunConnectedAction. guarding. Qed.

Lemma guards_RunConnect : guards [] (RunConnect host api).
Proof. unfold RunConnect. guarding. Qed.

Lemma guards_RunTrust : guards [] (RunTrust host api).
Proof. unfold RunTrust. guarding. Qed.

(** *** Left-over clients *)

Lemma guards_preserve id : guards [] (preserve_client host api id).
Proof. unfold preserve_client. guarding. Qed.

Lemma passes_clean release_persistent ids s cleared :
  passes s (clean_clients host api release_persistent ids s cleared) snd.
Proof.
  revert s cleared. induction ids as [|id ids IH]; intros s cleared; cbn [clean_clients]; [pass_on|].
  apply passes_then; [destruct release_persistent; [apply guards_ret|apply guards_preserve]|].
  intros []; [apply IH|]. eapply passes_bind; [apply passes_on; safely|]. intros [released s']. apply IH.
Qed.
#[local] Hint Resolve passes_clean : passes.

Lemma guards_clean release_persistent command : guards [] (CleanOrphanClients host api release_persistent command).
Proof. unfold CleanOrphanClients. guarding. Qed.

(** *** Rules *)

Lemma passes_prepare_connected s document o : passes s (prepare_connected host api s document o) snd.
Proof.
  unfold prepare_connected, ApplyBypass. cbv zeta.
  apply (passes_same s (s <| enforce_compat := op_enforce_compat o |>)); [done|pass_on].
Qed.
#[local] Hint Resolve passes_prepare_connected : passes.

Lemma passes_prepare s document o : passes s (PrepareRulesSession host api s document o) snd.
Proof. unfold PrepareRulesSession. pass_on. Qed.

Lemma passes_hold o document s : passes s (hold_rules host api o document s) id.
Proof. unfold hold_rules, Pump. pass_on. Qed.
#[local] Hint Resolve passes_prepare passes_hold : passes.

(** The session that was prepared, and what is done with it. *)
Lemma guards_prepared {B} s document o (f : RulesPrep * Session -> C B) :
  held s = ∅ -> (forall prep s, guards [s] (f (prep, s))) ->
  guards [] (PrepareRulesSession host api s document o ≫= f).
Proof.
  intros Hs Hf L c live Hl. apply (guards_passes s [] _ snd f); [apply passes_prepare|intros [prep s']; apply Hf|].
  cbn [held_all] in *. rewrite Hs. multiset_solver.
Qed.

Lemma guards_loaded {A} o command (f : option (result RuleDocument) -> C A) :
  (forall loaded, guards [] (f loaded)) -> guards [] (LoadRuleDocument host o command ≫= f).
Proof. intros Hf. apply guards_silent; [apply silent_load|done]. Qed.

Lemma guards_RunRules o : guards [] (RunRules host api o).
Proof.
  apply guards_loaded. intros [[document|error]|]; [|guarding..].
  apply guards_then; [apply guards_clean|intros _]. apply guards_prepared; [done|]. intros prep s.
  destruct prep; guarding.
Qed.

Lemma guards_RunPersistRules o : guards [] (RunPersistRules host api o).
Proof.
  apply guards_loaded. intros [[document|error]|]; [|guarding..].
  apply guards_then; [apply guards_clean|intros _]. apply guards_prepared; [done|]. intros prep s.
  eapply (guards_passes _ _ _ snd); [by pass_on|]. intros [[listed count] s']. cbn [snd]. cbv zeta.
  apply guards_silent; [by silently|intros _].
  destruct (listed && _); [apply guards_report|]. eapply guards_same; [|apply guards_report]. done.
Qed.

Lemma guards_RunMonitor o : guards [] (RunMonitor host api o).
Proof.
  unfold RunMonitor, Pump. apply guards_loaded. intros [[document|error]|]; [|guarding..].
  apply guards_silent; [by silently|intros _].
  apply guards_then; [apply guards_clean|intros _]. apply guards_prepared; [done|]. intros prep s. guarding.
Qed.

Lemma guards_RunExports : guards [] (RunExports api).
Proof. unfold RunExports. guarding. Qed.

Lemma guards_RunStatus : guards [] (RunStatus host api).
Proof. unfold RunStatus. guarding. Qed.

Lemma passes_lifetimes lifetimes s : passes s (enum_lifetimes host api lifetimes s) id.
Proof.
  revert s. induction lifetimes as [|lifetime lifetimes IH]; intros s; cbn [enum_lifetimes]; pass_on.
Qed.
#[local] Hint Resolve passes_lifetimes : passes.

Lemma guards_RunEnumRules : guards [] (RunEnumRules host api).
Proof. unfold RunEnumRules. guarding. Qed.

Lemma guards_RunRemoveRules : guards [] (RunRemoveRules host api).
Proof. apply guards_connected. safely. Qed.

(** *** Clients and queues *)

Lemma guards_RunClients : guards [] (RunClients host api).
Proof. unfold RunClients. guarding. Qed.

Lemma passes_unregister_each ids s cleared : passes s (unregister_each host api ids s cleared) snd.
Proof.
  revert s cleared. induction ids as [|id ids IH]; intros s cleared; cbn [unregister_each]; [pass_on|].
  eapply passes_bind; [apply passes_on; safely|]. intros [released s']. apply IH.
Qed.
#[local] Hint Resolve passes_unregister_each : passes.

Lemma guards_RunUnregister o : guards [] (RunUnregister host api o).
Proof. unfold RunUnregister. guarding. Qed.

Lemma guards_RunOpenQueue : guards [] (RunOpenQueue host api).
Proof. unfold RunOpenQueue. guarding; repeat (apply guards_swap; progress guarding). Qed.

(** *** References *)

Lemma CreateReferenceForKind_makes o kind : makes_reference (CreateReferenceForKind host api o kind).
Proof.
  assert (forall b (m : ST (World D) (option handle)), makes_reference m -> makes_reference (none_when b m)) as Hwhen
    by (intros; by apply makes_when; [apply makes_none|]).
  assert (forall export id, refers export = true -> makes_reference (by_pid host api export id)) as Hpid
    by (intros; by apply Hwhen, CreatePidReference_makes).
  assert (forall export path, refers export = true -> makes_reference (by_path host api export path)) as Hpath
    by (intros; by apply Hwhen, CreatePathReference_makes).
  unfold CreateReferenceForKind, file_reference. cbv zeta.
  repeat lazymatch goal with
  | |- makes_reference (mret None) => apply makes_none
  | |- makes_reference (by_pid _ _ _ _) => apply Hpid; by repeat case_match
  | |- makes_reference (by_path _ _ _ _) => apply Hpath; by repeat case_match
  | |- makes_reference (none_when _ _) => apply Hwhen
  | |- makes_reference (if ?b then _ else _) => destruct b
  | |- makes_reference (match ?x with _ => _ end) => destruct x
  | |- makes_reference (CreateDesktopReference _ _) => apply CreateDesktopReference_makes
  | |- makes_reference (CreateVolumeReference _ _) => apply CreateVolumeReference_makes
  | |- makes_reference (CreateEventObjectById _ _) => apply CreateEventObjectById_makes
  | |- makes_reference (CreateFileIdReference _ _ _) => apply CreateFileIdReference_makes
  | |- makes_reference (CreateStreamByIdReference _ _ _ _) => apply CreateStreamByIdReference_makes
  | |- makes_reference (CreatePathReference _ _ _) => apply CreatePathReference_makes; by repeat case_match
  end.
Qed.

Lemma ApplyOptionalRefOps_lending o kind ref view L : lending ref L (ApplyOptionalRefOps host api o kind ref view).
Proof.
  unfold ApplyOptionalRefOps. apply lending_bind.
  { destruct (op_duplicate o); [apply lending_copy|apply lending_idle; intros; idles]. }
  intros _. apply lending_idle. intros live Huse.
  pose proof (idle_SetEventObjectContextKey env live ref Huse) as Hset.
  pose proof (idle_EnumerateEventObjectContextKeys env live ref Huse) as Henum. idles.
Qed.

(** A reference is made; what follows keeps it until it is closed. *)
Lemma guards_referring {B} (m : ST (World D) (option handle)) s (f : option handle * Session -> C B) :
  makes_reference m -> (forall s', guards [s'] (f (None, s'))) ->
  (forall ref s' L c live, lent ref L s' live -> exists new live', extends c new (f (Some ref, s') c).2 /\
     watch live new = Some live' /\ L ⊆ live') ->
  guards [s] (on s m ≫= f).
Proof.
  intros Hm Hnone Hsome L c live Hs. rewrite st_bind_unfold. cbn [held_all] in Hs.
  assert (wp m s live (fun r s' live' =>
    match r with None => L ⊎ held s' ⊆ live' | Some ref => lent ref L s' live' end)) as Hwp.
  { apply Hm; [multiset_solver| |].
    - intros s' Hk. rewrite (held_same _ _ Hk). multiset_solver.
    - intros ref s' Hh Hk. apply (lent_new _ _ s); [multiset_solver|done]. }
  destruct (run_on s m c live _ Hwp) as (n1 & l1 & E1 & W1 & H1). destruct (on s m c) as [[[ref|] s1] c1]; cbn [fst snd] in *.
  - destruct (Hsome ref s1 L c1 l1 H1) as (n2 & l2 & E2 & W2 & H2). exists (n1 ++ n2), l2.
    split; [by eapply extends_trans|]. split; [by rewrite watch_app, W1|done].
  - destruct (Hnone s1 L c1 l1) as (n2 & l2 & E2 & W2 & H2); [cbn [held_all]; multiset_solver|]. exists (n1 ++ n2), l2.
    split; [by eapply extends_trans|]. split; [by rewrite watch_app, W1|done].
Qed.

(** One operation on the reference, and the rest. *)
Definition refers_on (ref : handle) s {B} (m : C B) : Prop :=
  forall L c live, lent ref L s live -> exists new live', extends c new (m c).2 /\
    watch live new = Some live' /\ L ⊆ live'.

Lemma refers_step {A B} ref s (m : ST (World D) A) (f : A * Session -> C B) :
  (forall L, lending ref L m) -> (forall a s', refers_on ref s' (f (a, s'))) -> refers_on ref s (on s m ≫= f).
Proof.
  intros Hm Hf L c live Hs. rewrite st_bind_unfold.
  destruct (run_on s m c live _ (Hm L s live Hs)) as (n1 & l1 & E1 & W1 & H1).
  destruct (on s m c) as [[a s1] c1]; cbn [fst snd] in *.
  destruct (Hf a s1 L c1 l1 H1) as (n2 & l2 & E2 & W2 & H2). exists (n1 ++ n2), l2.
  split; [by eapply extends_trans|]. split; [by rewrite watch_app, W1|done].
Qed.

Lemma refers_close {B} ref s (f : unit * Session -> C B) :
  (forall a s', guards [s'] (f (a, s'))) -> refers_on ref s (on s (CloseReference env ref) ≫= f).
Proof.
  intros Hf L c live Hs. rewrite st_bind_unfold.
  destruct (run_on s _ c live _ (lent_close env ref L s live Hs)) as (n1 & l1 & E1 & W1 & H1).
  destruct (on s _ c) as [[a s1] c1]; cbn [fst snd] in *.
  destruct (Hf a s1 L c1 l1) as (n2 & l2 & E2 & W2 & H2); [cbn [held_all]; multiset_solver|]. exists (n1 ++ n2), l2.
  split; [by eapply extends_trans|]. split; [by rewrite watch_app, W1|done].
Qed.

Lemma refers_silent {A B} ref s (m : C A) (f : A -> C B) :
  silent m -> (forall a, refers_on ref s (f a)) -> refers_on ref s (m ≫= f).
Proof.
  intros Hm Hf L c live Hs. rewrite st_bind_unfold. destruct (Hf (m c).1 L (m c).2 live Hs) as (n & l' & E & W).
  exists n, l'. split; [|done]. rewrite <- (app_nil_l n). eapply extends_trans; [apply Hm|done].
Qed.

(** *** Objects *)

Lemma guards_fail s message : guards [s] (fail_and_finish host api s message).
Proof. unfold fail_and_finish. guarding. Qed.

Lemma passes_probe o kind s : passes s (probe_supported host api o kind s) snd.
Proof. unfold probe_supported. pass_on. Qed.
#[local] Hint Resolve passes_probe : passes.
#[local] Hint Resolve guards_fail : guards.

Lemma guards_query_client o kind s : guards [s] (query_client host api o kind s).
Proof. unfold query_client. guarding. Qed.

Lemma guards_without_reference o kind s : guards [s] (query_without_reference host api o kind s).
Proof. unfold query_without_reference. guarding. Qed.

Lemma guards_query_reference o kind s : guards [s] (query_reference host api o kind s).
Proof.
  unfold query_reference. apply guards_referring; [apply CreateReferenceForKind_makes|intros; apply guards_report|].
  intros ref s1. apply refers_step; [intros L; apply lending_idle; intros; by apply idle_UnwrapReference|intros view s2].
  apply refers_step; [intros L; apply ApplyOptionalRefOps_lending|intros _ s3].
  apply refers_close. intros _ s4. apply guards_report.
Qed.
#[local] Hint Resolve guards_query_client guards_without_reference guards_query_reference : guards.

Lemma guards_RunQuery o : guards [] (RunQuery host api o).
Proof.
  unfold RunQuery. destruct (is_empty (op_kind o)); [apply guards_connected; safely|].
  guarding; eauto with guards.
Qed.

Lemma passes_spawn document s : passes s (spawn_trigger host document s) snd.
Proof.
  unfold spawn_trigger. destruct (DocumentWantsFoTrigger document).
  - apply passes_silent; [by silently|]. intros []; apply passes_ret; reflexivity.
  - apply passes_silent; [by silently|]. intros [[[] ?] ?]; apply passes_ret; reflexivity.
Qed.
#[local] Hint Resolve passes_spawn : passes.

Lemma guards_refs_from_notify o document : guards [] (refs_from_notify host api o document).
Proof.
  unfold refs_from_notify.
  apply guards_then; [apply guards_clean|intros _]. apply guards_prepared; [done|]. intros prep s. guarding.
Qed.

Lemma guards_refs_of_kind o kind : guards [] (refs_of_kind host api o kind).
Proof.
  unfold refs_of_kind. apply guards_silent; [by silently|intros client]. apply guards_new.
  eapply (guards_passes _ _ _ snd); [by pass_on|]. intros [connected s]. cbn [snd].
  destruct (negb connected); [apply guards_report|].
  apply guards_referring; [apply CreateReferenceForKind_makes|intros; apply guards_report|].
  intros ref s1. apply refers_silent; [by silently|intros _].
  apply refers_step; [intros L; apply lending_idle; intros; by apply idle_UnwrapReference|intros view s2]. cbv zeta.
  apply refers_step; [intros L; apply lending_idle; intros; idles|intros _ s3].
  apply refers_step; [intros L; apply ApplyOptionalRefOps_lending|intros _ s4].
  apply refers_close. intros _ s5. apply guards_report.
Qed.

Lemma guards_RunRefs o : guards [] (RunRefs host api o).
Proof.
  unfold RunRefs. cbv zeta. destruct (is_empty _); [guarding|]. destruct (op_from_notify o); [|apply guards_refs_of_kind].
  apply guards_loaded. intros [[document|error]|]; [apply guards_refs_from_notify|guarding..].
Qed.

Lemma guards_RunCollections o : guards [] (RunCollections host api o).
Proof.
  unfold RunCollections. cbv zeta. destruct (negb _); [apply guards_connected; safely|]. guarding.
Qed.

Lemma guards_RunContext : guards [] (RunContext host api).
Proof. apply guards_connected. safely. Qed.
End Commands.
