(* ===== verification/Exercise.v ===== *)
(** The export sweep (src/esptool/src/esp/EspExercise.cpp): the argument vector that is
    classified from an export's name, the sweep in the process and the sweep with one
    child process per export. *)
From S2P Require Import Logging.
From S2P Require Import Prelude Text Core Events RuleModel Api NtPath Session Options Launch Console.

(** ** Arguments *)

(** The members of [Scratch] whose address is passed. *)
Inductive Place :=
| PGuid | PCount | PType | PHandle | PHandle2 | PProperties | PContext | PBlob | PWidePath | PWideName
| PRegister | PRule.

(** A word of the vector: a number, or the address of a scratch member. *)
Inductive Slot := SWord (z : Z) | SPlace (p : Place).

Definition kMaxArity : nat := 4.
Definition kIsolatedSweepTimeoutMs : Z := 20000.

Definition contains_text (value needle : string) : bool := bool_decide (String.index 0 needle value <> None).

Definition IsFilterConstructor (name : string) : bool :=
  starts_with_string "EspCreate" name && contains_text name "Filter".
Definition IsQuery (name : string) : bool :=
  starts_with_string "EspQuery" name && contains_text name "Properties".
Definition IsSupportProbe (name : string) : bool :=
  starts_with_string "EspIs" name && contains_text name "PropertySupported".
Definition IsReference (name : string) : bool :=
  starts_with_string "EspCreate" name && contains_text name "Reference".
Definition IsByPathReference (name : string) : bool := contains_text name "ByPath".
Definition IsByIdReference (name : string) : bool := contains_text name "ById".
Definition IsProcessOrThreadReference (name : string) : bool :=
  contains_text name "Process" || contains_text name "Thread".

Definition IsExcluded (name : string) : bool :=
  (name =? "_DllMainCRTStartup")%string || (name =? "EspCreateFileStreamReferenceById")%string.

(** ** The scratch area *)

Definition kFallbackPath : wstring := wide "C:\Windows\notepad.exe".

(** [Scratch::FillDefaultByPath]: the wide path, from what GetWindowsDirectoryW returns: the
    buffer and the length. A path that does not fit is left to the fallback. *)
Definition FillDefaultByPath (windows : wstring * nat) : wstring :=
  let '(buffer, length_) := windows in
  if (length_ =? 0)%nat || (kMaxPath <=? length_)%nat then kFallbackPath
  else
    let directory := take length_ buffer in
    let slash := from_option is_separator false (last directory) in
    let path := directory ++ wide (if slash then "notepad.exe" else "\notepad.exe") in
    if (kMaxPath <=? length path)%nat then kFallbackPath else path.

(** The path and its terminator fit into the member. *)
Lemma FillDefaultByPath_fits windows : (length (FillDefaultByPath windows) < kMaxPath)%nat.
Proof.
  assert (length kFallbackPath < kMaxPath)%nat as Hfallback by (vm_compute; lia).
  unfold FillDefaultByPath. destruct windows as [buffer n]. destruct (_ || _); [done|].
  cbv zeta. destruct (Nat.leb_spec kMaxPath
    (length (take n buffer ++ wide (if from_option is_separator false (last (take n buffer)) then "notepad.exe"
                                    else "\notepad.exe")))); [done|lia].
Qed.

(** The entry of a table whose names contain the given one. *)
Definition by_name (table : list (list string * list Slot)) (name : string) : option (list Slot) :=
  snd <$> find_first (fun entry => contains name entry.1) table.

Section Arguments.
  (** [Slot] of the session's client and queue, and the current process. *)
  Context (client queue process_id : Z).
  Local Abbreviation null := (SWord 0).

Definition FillClientArguments : string -> option (list Slot) :=
  by_name
    [(["EspConnectClient"], [SPlace PGuid; SPlace PHandle]);
     (["EspDisconnectClient"], [null]);
     (["EspRegisterClient"], [SPlace PRegister]);
     (["EspUnregisterClient"], [SPlace PGuid]);
     (["EspRemoveAllRulesForClient"], [SWord client]);
     (["EspQueryClientDescriptor"], [SPlace PGuid; SPlace PHandle]);
     (["EspEnumerateConnectedClients"; "EspEnumerateRegisteredClients"], [SPlace PCount; SPlace PHandle])].

Definition FillQueueArguments : string -> option (list Slot) :=
  by_name
    [(["EspConnectEventQueueWithCallback"], [SWord queue; null; null; null]);
     (["EspCreateEventQueue"], [SWord client; null; SPlace PHandle]);
     (["EspOpenEventQueue"], [SWord client; SPlace PGuid; SPlace PHandle]);
     (["EspConnectEventQueueWithIocp"], [SWord queue; null; SPlace PHandle2]);
     (["EspCloseEventQueue"], [null]);
     (["EspDisconnectEventQueue"; "EspRemoveEventQueueStateChangeCallback"; "EspClearEventQueue"], [SWord queue]);
     (["EspSetEventQueueStateChangeCallback"], [SWord queue; null; null; null]);
     (["EspGetEventQueueId"], [SWord queue; SPlace PGuid]);
     (["EspEnumerateEventQueueIds"], [SWord client; null; SPlace PCount; SPlace PHandle])].

Definition FillNotificationArguments : string -> option (list Slot) :=
  by_name
    [(["EspArmEventNotification"], [SWord queue; null]);
     (["EspCompleteEventNotification"; "EspFreeEventNotification"], [null]);
     (["EspGetEventCapabilities"], [SWord queue; null; SPlace PCount])].

Definition FillCloseArguments : string -> option (list Slot) :=
  by_name
    [(["EspCloseFilter"; "EspCloseRule"; "EspCloseCollection"; "EspCloseEventObjectReference"], [null])].

Definition FillFilterArguments (name : string) : option (list Slot) :=
  if (name =? "EspCreateNotFilter")%string then Some [null; SPlace PHandle2]
  else if contains name ["EspCreateAndFilter"; "EspCreateOrFilter"; "EspCreateXorFilter"]
  then Some [null; null; SPlace PHandle]
  else if IsFilterConstructor name then
    Some (if (name =? "EspCreateFilter")%string then [SWord 1; null; SPlace PHandle]
          else [SWord 1; SWord 1; null; SPlace PHandle])
  else None.

Definition FillRuleArguments : string -> option (list Slot) :=
  by_name
    [(["EspCreateRule"], [SPlace PRule; SPlace PHandle]);
     (["EspUpdateRules"], [SWord client; null; null; null]);
     (["EspEnumerateRuleIds"], [SWord client; null; SPlace PCount; SPlace PHandle]);
     (["EspEnumerateAllRulesForClient"], [SWord client; SPlace PCount; SPlace PHandle]);
     (["EspGetRuleId"], [SWord client; SPlace PGuid]);
     (["EspRemoveRulesForClient"], [SWord client; null])].

(** [FillByPathReference] and [FillByIdReference]. *)
Definition fill_reference (arity : nat) (object : Slot) : list Slot :=
  if (4 <=? arity)%nat then [SWord client; object; null; SPlace PHandle]
  else [SWord client; object; SPlace PHandle; null].

Definition FillReferenceArguments (d : ExportDescriptor) : option (list Slot) :=
  let name := ed_name d in
  if contains name ["EspDuplicateEventObjectReference"; "EspGetEventObjectFromReference"]
  then Some [null; SPlace PHandle2]
  else if (name =? "EspGetEventObjectId")%string then Some [null; SPlace PGuid]
  else if (name =? "EspGetEventObjectType")%string then Some [null; SPlace PType]
  else if negb (IsReference name) then None
  else if IsByPathReference name then Some (fill_reference (ed_arity d) (SPlace PWidePath))
  else if IsByIdReference name then Some (fill_reference (ed_arity d) (SPlace PBlob))
  else if IsProcessOrThreadReference name then Some [SWord client; SWord process_id; SPlace PHandle]
  else if (name =? "EspCreateEventObjectReference")%string then Some [null; SPlace PHandle2]
  else Some [SWord client; SPlace PWidePath; SPlace PHandle].

Definition FillQueryArguments (name : string) : option (list Slot) :=
  if IsQuery name then Some [SWord client; SWord 1; SPlace PProperties; SPlace PHandle2]
  else if IsSupportProbe name then Some [SWord client; SWord 1; SPlace PCount]
  else None.

Definition FillCollectionArguments : string -> option (list Slot) :=
  by_name
    [(["EspCreateCollection"], [SWord client; null; SPlace PHandle]);
     (["EspOpenCollection"], [SWord client; SPlace PGuid; SPlace PHandle]);
     (["EspUpdateCollection"], [null; null; null; null]);
     (["EspEnumerateCollectionEntries"], [null; SPlace PCount; SPlace PHandle2]);
     (["EspEnumerateCollectionIds"], [SWord client; null; SPlace PCount; SPlace PHandle]);
     (["EspGetCollectionId"], [null; SPlace PGuid]);
     (["EspGetCollectionType"], [null; SPlace PType])].

Definition FillContextArguments : string -> option (list Slot) :=
  by_name
    [(["EspSetClientContextKey"], [SWord client; SPlace PContext]);
     (["EspSetEventObjectContextKey"], [null; SPlace PContext]);
     (["EspEnumerateAllClientContextKeys"], [SWord client; SPlace PCount; SPlace PHandle]);
     (["EspEnumerateAllEventObjectContextKeys"], [null; SPlace PCount; SPlace PHandle2])].

Definition FillUtilityArguments : string -> option (list Slot) :=
  by_name
    [(["EspInitUnicodeString"], [SPlace PHandle; SPlace PWideName]);
     (["EspStringMatchesPattern"], [SPlace PWidePath; SPlace PWideName; SPlace PCount]);
     (["EspFreeMemory"], [null])].

(** The first class that knows the export; all classes are tried in this order. *)
Definition classified (d : ExportDescriptor) : option (list Slot) :=
  let name := ed_name d in
  find_first (fun _ => true)
    (omap id
       [FillClientArguments name; FillQueueArguments name; FillNotificationArguments name;
        FillCloseArguments name; FillFilterArguments name; FillRuleArguments name;
        FillReferenceArguments d; FillQueryArguments name; FillCollectionArguments name;
        FillContextArguments name; FillUtilityArguments name]).

(** The vector, its unused words null. *)
Definition BuildArguments (d : ExportDescriptor) : list Slot :=
  let given := from_option id [] (classified d) in
  given ++ replicate (kMaxArity - length given) null.
End Arguments.

(** ** Outcomes *)

Record ExportOutcome := mkExportOutcome {
  eo_name : string;
  eo_arity : nat;
  eo_resolved : bool;
  eo_invoked : bool;
  eo_result : Z;
  eo_detail : string
}.

(** The outcome of an export that is not called, or the blank one of one that is. *)
Definition SeedOutcome (d : ExportDescriptor) : bool * ExportOutcome :=
  let outcome := mkExportOutcome (ed_name d) (ed_arity d) (is_resolved d) false 0 in
  if IsExcluded (ed_name d) then (false, outcome "excluded from CallRaw")
  else if negb (is_resolved d) then (false, outcome "not exported by the loaded library")
  else (true, outcome "").

Definition invoked_outcome (d : ExportDescriptor) (result : EspResult) (detail : string) : ExportOutcome :=
  mkExportOutcome (ed_name d) (ed_arity d) (is_resolved d) true result detail.

Definition not_invoked (d : ExportDescriptor) (detail : string) : ExportOutcome :=
  mkExportOutcome (ed_name d) (ed_arity d) (is_resolved d) false 0 detail.

Definition isolated_detail (exit_code : Z) : string :=
  if exit_code =? u32 kStatusAccessViolation then "access violation"
  else if exit_code =? u32 kStatusStackBufferOverrun then "stack buffer overrun"
  else if exit_code =? u32 kStatusCancelled then "timed out and was terminated"
  else DescribeResult (i32 exit_code).

(** ** In the process *)

Section InProcess.
  Context {D : Type} (env : Env D).
  (** The addresses of the scratch members, and the current process. *)
  Context (address : Place -> Z) (process_id : Z).
  Local Abbreviation M := (ST (World D)).

Definition slot_word (s : Slot) : Z := match s with SWord z => z | SPlace p => address p end.

Definition session_arguments (d : ExportDescriptor) : M (list Z) :=
  client ← gets client_handle; queue ← gets queue_handle;
  mret (slot_word <$> BuildArguments client queue process_id d).

Definition PrepareSession : M unit :=
  client ← gets client_handle;
  if negb (handle_ok client) then mret tt
  else
    queue ← gets queue_handle;
    (if negb (handle_ok queue) then _ ← CreateQueue env; mret tt else mret tt);;
    queue ← gets queue_handle;
    if handle_ok queue then _ ← ConnectQueueToCallback env; mret tt else mret tt.

Definition exercise_one (d : ExportDescriptor) : M ExportOutcome :=
  match SeedOutcome d with
  | (false, outcome) => mret outcome
  | (true, _) =>
      if (ed_name d =? "EspAllocateEventNotification")%string
      then mret (not_invoked d "skipped: unarmed Allocate AVs in Free/teardown")
      else
        arguments ← session_arguments d;
        result ← CallRaw env d arguments;
        mret (invoked_outcome d result (DescribeResult result))
  end.

Fixpoint exercise_all (exports : list ExportDescriptor) : M (list ExportOutcome) :=
  match exports with
  | [] => mret []
  | d :: rest => outcome ← exercise_one d; outcomes ← exercise_all rest; mret (outcome :: outcomes)
  end.

Definition RunInProcess : M (list ExportOutcome) := PrepareSession;; exercise_all (api_exports (env_api env)).

(** The call is made directly, so it is not a step of the session. *)
Definition CallOne (name : string) : M Z :=
  if IsExcluded name then mret kInvalidArg
  else
    match FindExport name (env_api env) with
    | Some d =>
        if is_resolved d then
          arguments ← session_arguments d;
          reply ← Call env (ed_name d) (AWord <$> arguments);
          mret (re_result reply)
        else mret kModNotFound
    | None => mret kModNotFound
    end.
End InProcess.

(** ** In child processes *)

Section Isolated.
  Context {D : Type} (os : ProcessOs D) (ToUtf16 : string -> wstring).
  Local Abbreviation M := (ST (LaunchState D)).

Definition isolated_arguments (host_library : wstring) (d : ExportDescriptor) : list wstring :=
  [wide "--worker"] ++ (if nonempty host_library then [wide "--dll"; host_library] else []) ++
  [wide "call-one"; ToUtf16 (ed_name d)].

Definition isolated_launch : LaunchOptions :=
  mkLaunchOptions false true kIsolatedSweepTimeoutMs true (u32 kStatusCancelled).

Definition isolate_one (host_library : wstring) (d : ExportDescriptor) : M ExportOutcome :=
  match SeedOutcome d with
  | (false, outcome) => mret outcome
  | (true, _) =>
      child ← RunSameImage os (isolated_arguments host_library d) isolated_launch;
      mret (if lo_created child
            then invoked_outcome d (i32 (lo_exit_code child)) (isolated_detail (lo_exit_code child))
            else not_invoked d (if is_empty (lo_error child) then "child process creation failed"
                                else lo_error child))
  end.

Fixpoint isolate_all (host_library : wstring) (exports : list ExportDescriptor) : M (list ExportOutcome) :=
  match exports with
  | [] => mret []
  | d :: rest =>
      outcome ← isolate_one host_library d; outcomes ← isolate_all host_library rest; mret (outcome :: outcomes)
  end.

Definition RunIsolated (api : EspApi) : M (list ExportOutcome) := isolate_all (api_loaded_path api) (api_exports api).
End Isolated.

(** * Theorems *)

(** Whether the sweep calls a resolved export. *)
Definition swept (d : ExportDescriptor) : bool :=
  negb (IsExcluded (ed_name d)) && is_resolved d && negb (ed_name d =? "EspAllocateEventNotification")%string.

(** The exports of the catalog that are called when they are there. *)
Definition called_by_sweep (name : string) : bool :=
  negb (IsExcluded name) && negb (name =? "EspAllocateEventNotification")%string.

(** ** Declared parameters *)

(** The texts between the parentheses of a signature, at its commas. *)
Fixpoint split_params (l : list ascii) (param : list ascii) : list (list ascii) :=
  match l with
  | [] => []
  | c :: rest =>
      if Ascii.eqb c ")" then [rev param]
      else if Ascii.eqb c "," then rev param :: split_params rest []
      else if Ascii.eqb c " " && match param with [] => true | _ => false end then split_params rest []
      else split_params rest (c :: param)
  end.

(** The declared types, each parameter without its two characters of name. *)
Definition declared (signature : string) : list string :=
  (fun param => of_chars (take (length param - 2) param)) <$>
  split_params (drop 1 (snd (fold_left (fun '((seen, l) : bool * list ascii) c =>
     if seen || Ascii.eqb c "(" then (true, l ++ [c]) else (false, l)) (chars signature) (false, [])))) [].

(** The declared types that may be given the address of a scratch member. *)
Definition place_types (p : Place) : list string :=
  match p with
  | PGuid => ["struct _GUID *"; "_OWORD *"; "__int64 *"]
  | PCount => ["int *"; "_DWORD *"]
  | PType => ["int *"]
  | PHandle => ["_QWORD *"; "void **"; "utl::_RefCountBase *"; "volatile signed __int32 *"; "__int64 "]
  | PHandle2 => ["_QWORD *"; "__int64 **"; "utl::_RefCountBase **"; "__int64 "]
  | PProperties => ["const unsigned int *"]
  | PContext => ["_DWORD *"]
  | PBlob => ["__int128 *"; "__int64 "]
  | PWidePath => ["const wchar_t *"; "__int64 "]
  | PWideName => ["__int16 *"; "__int64 "]
  | PRegister => ["__int64 "]
  | PRule => ["__int64 *"]
  end.

Section Vectors.
  Context (client queue process_id : Z).
  Local Abbreviation null := (SWord 0).

(** What a parameter of a declared type may be given: an integer one a small number or the
    id of the process; any other one null, the client or queue of the session, or the
    address of a scratch member that the type goes with. *)
Definition fits (declaration : string) (slot : Slot) : Prop :=
  match slot with
  | SWord z =>
      if contains declaration ["int "; "unsigned int "] then z = 0 \/ z = 1 \/ z = process_id
      else z = 0 \/ z = client \/ z = queue
  | SPlace p => contains declaration (place_types p) = true
  end.

(** The given words fit the declared parameters, and the ones past them are null. *)
Fixpoint all_fit (declarations : list string) (slots : list Slot) : Prop :=
  match declarations, slots with
  | d :: declarations, slot :: slots => fits d slot /\ all_fit declarations slots
  | [], slot :: slots => slot = null /\ all_fit [] slots
  | d :: declarations, [] => False
  | [], [] => True
  end.

(** The vectors, each with the exports that get it. *)
Definition vectors : list (list Slot * list string) :=
  [
   ([SWord queue; null],
     ["EspArmEventNotification"]);
   ([SWord queue],
     ["EspClearEventQueue"; "EspDisconnectEventQueue"; "EspRemoveEventQueueStateChangeCallback"]);
   ([null],
     ["EspCloseCollection"; "EspCloseEventObjectReference"; "EspCloseEventQueue"; "EspCloseFilter";
      "EspCloseRule"; "EspCompleteEventNotification"; "EspDisconnectClient"; "EspFreeEventNotification";
      "EspFreeMemory"]);
   ([SPlace PGuid; SPlace PHandle],
     ["EspConnectClient"; "EspQueryClientDescriptor"]);
   ([SWord queue; null; null; null],
     ["EspConnectEventQueueWithCallback"; "EspSetEventQueueStateChangeCallback"]);
   ([SWord queue; null; SPlace PHandle2],
     ["EspConnectEventQueueWithIocp"]);
   ([null; null; SPlace PHandle],
     ["EspCreateAndFilter"; "EspCreateOrFilter"; "EspCreateXorFilter"]);
   ([SWord 1; SWord 1; null; SPlace PHandle],
     ["EspCreateClientFilter"; "EspCreateDesktopFilter"; "EspCreateDiskFilter"; "EspCreateEventFilter";
      "EspCreateFileFilter"; "EspCreateFileObjectFilter"; "EspCreateFileStreamFilter";
      "EspCreateKtmTransactionFilter"; "EspCreateMailslotFilter"; "EspCreatePipeFilter";
      "EspCreateProcessFilter"; "EspCreateRegistryKeyFilter"; "EspCreateRegistryKeyObjectFilter";
      "EspCreateThreadFilter"; "EspCreateTokenFilter"; "EspCreateVolumeFilter"]);
   ([SWord client; null; SPlace PHandle],
     ["EspCreateCollection"; "EspCreateEventQueue"]);
   ([SWord client; SPlace PWidePath; SPlace PHandle],
     ["EspCreateDesktopReference"; "EspCreateDiskReference"; "EspCreateMailslotReference";
      "EspCreatePipeReference"; "EspCreateRegistryKeyReference"; "EspCreateVolumeReference"]);
   ([null; SPlace PHandle2],
     ["EspCreateEventObjectReference"; "EspCreateNotFilter"; "EspDuplicateEventObjectReference";
      "EspGetEventObjectFromReference"]);
   ([SWord client; SPlace PBlob; SPlace PHandle; null],
     ["EspCreateEventObjectReferenceById"]);
   ([SWord client; SPlace PBlob; null; SPlace PHandle],
     ["EspCreateFileReferenceById"]);
   ([SWord client; SPlace PWidePath; SPlace PHandle; null],
     ["EspCreateFileReferenceByPath"; "EspCreateFileStreamReferenceByPath"]);
   ([SWord 1; null; SPlace PHandle],
     ["EspCreateFilter"]);
   ([SWord client; SWord process_id; SPlace PHandle],
     ["EspCreateProcessReference"; "EspCreateProcessTokenReference"; "EspCreateThreadReference";
      "EspCreateThreadTokenReference"]);
   ([SPlace PRule; SPlace PHandle],
     ["EspCreateRule"]);
   ([SWord client; SPlace PCount; SPlace PHandle],
     ["EspEnumerateAllClientContextKeys"; "EspEnumerateAllRulesForClient"]);
   ([null; SPlace PCount; SPlace PHandle2],
     ["EspEnumerateAllEventObjectContextKeys"; "EspEnumerateCollectionEntries"]);
   ([SWord client; null; SPlace PCount; SPlace PHandle],
     ["EspEnumerateCollectionIds"; "EspEnumerateEventQueueIds"; "EspEnumerateRuleIds"]);
   ([SPlace PCount; SPlace PHandle],
     ["EspEnumerateConnectedClients"; "EspEnumerateRegisteredClients"]);
   ([null; SPlace PGuid],
     ["EspGetCollectionId"; "EspGetEventObjectId"]);
   ([null; SPlace PType],
     ["EspGetCollectionType"; "EspGetEventObjectType"]);
   ([SWord queue; null; SPlace PCount],
     ["EspGetEventCapabilities"]);
   ([SWord queue; SPlace PGuid],
     ["EspGetEventQueueId"]);
   ([SWord client; SPlace PGuid],
     ["EspGetRuleId"]);
   ([SPlace PHandle; SPlace PWideName],
     ["EspInitUnicodeString"]);
   ([SWord client; SWord 1; SPlace PCount],
     ["EspIsClientPropertySupported"; "EspIsDesktopPropertySupported"; "EspIsDiskPropertySupported";
      "EspIsEventPropertySupported"; "EspIsFileObjectPropertySupported"; "EspIsFilePropertySupported";
      "EspIsFileStreamPropertySupported"; "EspIsKtmTransactionPropertySupported";
      "EspIsMailslotPropertySupported"; "EspIsPipePropertySupported"; "EspIsProcessPropertySupported";
      "EspIsRegistryKeyObjectPropertySupported"; "EspIsRegistryKeyPropertySupported";
      "EspIsThreadPropertySupported"; "EspIsTokenPropertySupported"; "EspIsVolumePropertySupported"]);
   ([SWord client; SPlace PGuid; SPlace PHandle],
     ["EspOpenCollection"; "EspOpenEventQueue"]);
   ([SWord client; SWord 1; SPlace PProperties; SPlace PHandle2],
     ["EspQueryClientProperties"; "EspQueryDesktopProperties"; "EspQueryDiskProperties";
      "EspQueryFileObjectProperties"; "EspQueryFileProperties"; "EspQueryFileStreamProperties";
      "EspQueryKtmTransactionProperties"; "EspQueryMailslotProperties"; "EspQueryPipeProperties";
      "EspQueryProcessProperties"; "EspQueryRegistryKeyObjectProperties"; "EspQueryRegistryKeyProperties";
      "EspQueryThreadProperties"; "EspQueryTokenProperties"; "EspQueryVolumeProperties"]);
   ([SPlace PRegister],
     ["EspRegisterClient"]);
   ([SWord client],
     ["EspRemoveAllRulesForClient"]);
   ([SWord client; null],
     ["EspRemoveRulesForClient"]);
   ([SWord client; SPlace PContext],
     ["EspSetClientContextKey"]);
   ([null; SPlace PContext],
     ["EspSetEventObjectContextKey"]);
   ([SPlace PWidePath; SPlace PWideName; SPlace PCount],
     ["EspStringMatchesPattern"]);
   ([SPlace PGuid],
     ["EspUnregisterClient"]);
   ([null; null; null; null],
     ["EspUpdateCollection"]);
   ([SWord client; null; null; null],
     ["EspUpdateRules"])
  ].
End Vectors.

(** The prototypes of the catalog that say nothing of a vector: one is cut off, and the
    other declares a volume's GUID, for which it is given the path. *)
Definition unfit : list string := ["EspSetEventQueueStateChangeCallback"; "EspCreateVolumeReference"].

Lemma same_names (l1 l2 : list string) :
  bool_decide (NoDup l1 /\ NoDup l2 /\ l1 ⊆ l2 /\ l2 ⊆ l1) = true -> l1 ≡ₚ l2.
Proof. intros (H1 & H2 & Hl & Hr)%bool_decide_eq_true. apply NoDup_Permutation; [done..|]. intros x. split; auto. Qed.

Lemma catalog_vectors client queue process_id :
  Forall (fun d => called_by_sweep (ed_name d) = true ->
    (fun row => row.1 ++ replicate (4 - length row.1) (SWord 0)) <$>
      find_first (fun row => contains (ed_name d) row.2) (vectors client queue process_id) =
    Some (BuildArguments client queue process_id d)) BuildCatalog.
Proof.
  unfold BuildCatalog. repeat (constructor; [vm_compute; first [discriminate | intros _; reflexivity]|]). constructor.
Qed.

Lemma catalog_fits client queue process_id :
  Forall (fun d => called_by_sweep (ed_name d) = true -> contains (ed_name d) unfit = false ->
    all_fit client queue process_id (declared (ed_signature d)) (BuildArguments client queue process_id d)) BuildCatalog.
Proof.
  unfold BuildCatalog.
  repeat (constructor; [vm_compute; first [discriminate | intros _; first [discriminate | intros _; tauto]]|]). constructor.
Qed.



Section Sweep.
  Context {D : Type} (env : Env D) (address : Place -> Z) (process_id : Z).

(** The call of one export of the sweep. *)
Definition swept_call (client queue : Z) (d : ExportDescriptor) : string * list Arg :=
  (ed_name d, AWord <$> (slot_word address <$> BuildArguments client queue process_id d)).

Lemma CallRaw_run d arguments w :
  is_resolved d = true ->
  let w' := (CallRaw env d arguments w).2 in
  calls w' = calls w ++ [(ed_name d, AWord <$> arguments)] /\
  client_handle (w_session w') = client_handle (w_session w) /\
  queue_handle (w_session w') = queue_handle (w_session w).
Proof.
  intros Hr. unfold CallRaw, Invoke. rewrite Hr. run. rewrite Call_run. run. unfold RecordStep. run.
  cbn. split_and!; [|done..]. unfold calls. simpl. by rewrite omap_app.
Qed.

Lemma exercise_one_run d w :
  let client := client_handle (w_session w) in let queue := queue_handle (w_session w) in
  let '(outcome, w') := exercise_one env address process_id d w in
  calls w' = calls w ++ (if swept d then [swept_call client queue d] else []) /\
  client_handle (w_session w') = client /\ queue_handle (w_session w') = queue /\
  eo_name outcome = ed_name d /\ eo_invoked outcome = swept d.
Proof.
  unfold exercise_one, SeedOutcome, swept. destruct (IsExcluded (ed_name d)); [by simpl; rewrite app_nil_r|].
  destruct (is_resolved d) eqn:Hr; [|by simpl; rewrite app_nil_r].
  cbn [negb andb]. destruct (ed_name d =? "EspAllocateEventNotification")%string;
    [by simpl; rewrite app_nil_r|].
  unfold session_arguments. run.
  set (arguments := slot_word address <$> _).
  destruct (CallRaw_run d arguments w Hr) as (Hc & Hcl & Hq).
  destruct (CallRaw env d arguments w) as [result w']. simpl in *. auto.
Qed.

(** The sweep reports every export of the library in catalog order and calls exactly
    the resolved ones that are not excluded, once each and in that order, with the client
    and queue it prepared. *)
Lemma RunInProcess_sweeps w :
  let prepared := (PrepareSession env w).2 in
  let '(outcomes, w') := RunInProcess env address process_id w in
  let exports := api_exports (env_api env) in
  eo_name <$> outcomes = ed_name <$> exports /\
  eo_invoked <$> outcomes = swept <$> exports /\
  calls w' = calls prepared ++
    (swept_call (client_handle (w_session prepared)) (queue_handle (w_session prepared)) <$>
     List.filter swept exports).
Proof.
  unfold RunInProcess. rewrite st_bind_unfold. set (prepared := (PrepareSession env w).2).
  generalize (api_exports (env_api env)). intros exports. clearbody prepared. revert prepared.
  induction exports as [|d exports IH]; intros w1; cbn [exercise_all].
  - simpl. by rewrite app_nil_r.
  - rewrite st_bind_unfold. assert (H1 := exercise_one_run d w1).
    destruct (exercise_one env address process_id d w1) as [outcome w2]. cbn [fst snd].
    destruct H1 as (Hc & Hcl & Hq & Hn & Hi). rewrite st_bind_unfold. specialize (IH w2).
    destruct (exercise_all env address process_id exports w2) as [outcomes w3]. cbn [fst snd] in *.
    destruct IH as (IHn & IHi & IHc). run. rewrite !fmap_cons, IHn, IHi, Hn, Hi. split_and!; [done|done|].
    rewrite IHc, Hc, Hcl, Hq. cbn [List.filter]. destruct (swept d); simpl; by rewrite <- ?app_assoc.
Qed.
End Sweep.

(** A child that fails before the call, with the exit code of a failed command, is
    reported as an export that was called and succeeded. *)
Lemma isolated_failure_counts_ok d :
  SeedOutcome d = (true, mkExportOutcome (ed_name d) (ed_arity d) (is_resolved d) false 0 "") ->
  let os : ProcessOs unit :=
    mkProcessOs unit (fun size => (example_image, length example_image)) (fun _ => (0, 0, 0))
      (fun _ w => (inl 0, w)) (fun _ w => (inl tt, w)) (fun _ => (48, 0)) (fun w => (inl tt, w))
      (fun _ w => (inl tt, w)) (fun _ w => (inl 7, w)) (fun _ _ w => ((0, 0), w)) (fun _ _ w => w)
      (fun _ w => (inl 1, w)) in
  let outcome := (isolate_one os wide [] d (mkLaunchState tt [])).1 in
  eo_invoked outcome = true /\ Succeeded (eo_result outcome) = true.
Proof. unfold isolate_one. intros ->. by vm_compute. Qed.
