(* ===== verification/Service.v ===== *)
(** The protected service (src/esptool/src/ppl/ProtectedService.cpp): its registration
    with the service control manager, the control handler, the requests it answers and
    the serving loop.

    Control requests and the background connection run on threads of their own. Here
    the controls are delivered, and the connection made, at explicit points: before
    each turn of the loop, while a turn waits, and before a request is handled. *)
From S2P Require Import Logging.
From S2P Require Import Prelude Text Core Handles Events RuleModel RuleParser MemoryView EnforceCompat Pipe Token.
From S2P Require Import Protection Api NtPath Session FilterBuild Refs Pump RuleConfig RuleInstall Options.
From S2P Require Import RuleInstallRun RuleInstallSpec Launch Console RulesCommands RulesSpec Exercise.

(** ** Status *)

Definition SERVICE_STOPPED : Z := 1.
Definition SERVICE_STOP_PENDING : Z := 3.
Definition SERVICE_RUNNING : Z := 4.
Definition SERVICE_ACCEPT_STOP : Z := 1.
Definition SERVICE_CONTROL_STOP : Z := 1.
Definition SERVICE_CONTROL_INTERROGATE : Z := 4.
Definition NO_ERROR : Z := 0.
Definition ERROR_INVALID_PARAMETER : Z := 87.
Definition ERROR_SERVICE_EXISTS : Z := 1073.
Definition kStopWaitHintMs : Z := 3000.

(** The fields of [SERVICE_STATUS] that are written; the type is always the same. *)
Record ServiceStatus := mkStatus { ss_state : Z; ss_exit : Z; ss_hint : Z; ss_accepted : Z }.

(** The globals of the file, and what [SetServiceStatus] was given. *)
Record Service := mkService {
  g_service_name : wstring;
  g_status_handle : handle;
  g_status : ServiceStatus;
  g_stop_requested : bool;
  g_provision : bool;
  sv_reports : list ServiceStatus
}.

Definition initial_service : Service := mkService [] 0 (mkStatus 0 0 0 0) false true [].

Definition ReportStatus (state exit_code wait_hint : Z) (sv : Service) : Service :=
  let status := mkStatus state exit_code wait_hint
                  (if state =? SERVICE_RUNNING then SERVICE_ACCEPT_STOP else 0) in
  sv <| g_status := status |>
     <| sv_reports ::= fun l => if handle_ok (g_status_handle sv) then l ++ [status] else l |>.

Definition ServiceControlHandler (control : Z) (sv : Service) : Service :=
  if control =? SERVICE_CONTROL_STOP then
    ReportStatus SERVICE_STOP_PENDING NO_ERROR kStopWaitHintMs (sv <| g_stop_requested := true |>)
  else if control =? SERVICE_CONTROL_INTERROGATE then ReportStatus (ss_state (g_status sv)) NO_ERROR 0 sv
  else sv.

(** The controls that arrived, in order. *)
Definition deliver (controls : list Z) (sv : Service) : Service :=
  fold_left (fun sv control => ServiceControlHandler control sv) controls sv.

(** ** Registration *)

Record ScmOs (D : Type) := mkScmOs {
  (** a handle, or the last error *)
  sc_OpenSCManager : D -> handle + Z;
  sc_OpenService : wstring -> D -> handle + Z;
  (** the service's name, its display name and its command line *)
  sc_CreateService : wstring -> wstring -> wstring -> D -> (handle + Z) * D;
  sc_ControlStop : handle -> D -> D;
  (** [None] for a success *)
  sc_DeleteService : handle -> D -> option Z * D
}.
Arguments sc_OpenSCManager {D} s. Arguments sc_OpenService {D} s. Arguments sc_CreateService {D} s.
Arguments sc_ControlStop {D} s. Arguments sc_DeleteService {D} s.

Definition service_command_line (binary_path : wstring) (no_provision : bool) : wstring :=
  [wQuote] ++ binary_path ++ [wQuote] ++ wide " service run --log " ++ [wQuote] ++ binary_path ++ wide ".log" ++
  [wQuote] ++ (if no_provision then wide " --no-provision" else []).

Section Registration.
  Context {D : Type} (scm : ScmOs D) (WideCharToMultiByte : wstring -> option string).

Definition Install (service_name binary_path display_name : wstring) (no_provision : bool) : ST D (result unit) :=
  fun d =>
    match sc_OpenSCManager scm d with
    | inr e => (Err (Win32Message "OpenSCManager failed" e), d)
    | inl _ =>
        let '(service, d) := sc_CreateService scm service_name display_name
                               (service_command_line binary_path no_provision) d in
        (match service with
         | inl _ => Ok tt
         | inr failure =>
             Err (if failure =? ERROR_SERVICE_EXISTS
                  then "service already exists: " +:+ ToUtf8 WideCharToMultiByte service_name
                  else Win32Message "CreateService failed" failure)
         end, d)
    end.

(** The manager and the service, or the text of the error. *)
Definition OpenScmService (service_name : wstring) (d : D) : result (handle * handle) :=
  match sc_OpenSCManager scm d with
  | inr e => Err (Win32Message "OpenSCManager failed" e)
  | inl manager =>
      match sc_OpenService scm service_name d with
      | inr e => Err (Win32Message "OpenService failed" e)
      | inl service => Ok (manager, service)
      end
  end.

(** The service is stopped, whatever comes of that, and deleted. *)
Definition Uninstall (service_name : wstring) : ST D (result unit) :=
  fun d =>
    match OpenScmService service_name d with
    | Err e => (Err e, d)
    | Ok (_, service) =>
        let '(failure, d) := sc_DeleteService scm service (sc_ControlStop scm service d) in
        (match failure with None => Ok tt | Some e => Err (Win32Message "DeleteService failed" e) end, d)
    end.
End Registration.

(** ** Requests *)

(** What the serving loop relies on besides the host. *)
Record ServiceOs (D : Type) := mkServiceOs {
  so_loader : D -> Loader;
  (** [CreateEventW] of [PipeServer::Start] *)
  so_stop_event : D -> handle + Z;
  (** the controls that the service control manager delivered since the last look *)
  so_controls : D -> list Z * D;
  (** one pipe instance: the answers before its session, and its bytes *)
  so_instance : D -> (ServeEnv * PipeEnd) * D;
  (** the instance when the turn is over *)
  so_answered : PipeEnd -> D -> D;
  (** whether the connecting thread finishes before the next request is handled *)
  so_connects : D -> bool * D;
  (** the scratch members of the sweep *)
  so_address : Place -> Z;
  (** the window name of [RegisterServiceCtrlHandlerW], and [StartServiceCtrlDispatcherW] *)
  so_RegisterHandler : wstring -> D -> handle * Z;
  so_StartDispatcher : wstring -> D -> option Z
}.
Arguments so_loader {D} s. Arguments so_stop_event {D} s. Arguments so_controls {D} s.
Arguments so_instance {D} s. Arguments so_answered {D} s. Arguments so_connects {D} s.
Arguments so_address {D} s. Arguments so_RegisterHandler {D} s. Arguments so_StartDispatcher {D} s.

Definition service_client : ClientSpec := mkClientSpec "esptool-service" "" null_guid false.

(** The connection of the background thread: not finished yet, or its outcome. *)
Inductive Connecting := NoThread | Pending | Finished.

Section Serve.
  Context {D : Type} (host : Host D) (os : ServiceOs D) (api : EspApi).
  Local Abbreviation C := (ST (Console D)).
  Local Abbreviation env := (with_api api (ho_env host)).

Definition status_payload (connected : bool) : C string :=
  '(attribute, _) ← ask (QueryWespPermission (ho_tokens host));
  protection ← ask (fun d => QueryCurrentProcess (ho_protection host d));
  mret (DescribeProtection protection +:+ newline +:+ "account=SYSTEM tcb=enabled" +:+ newline +:+
        "attribute=" +:+ Describe attribute +:+ newline +:+
        "connect=" +:+ (if connected then "ok" else "pending_or_failed")).

Definition exercised_payload (outcomes : list ExportOutcome) : string :=
  "exercised " +:+ dec (Z.of_nat (length outcomes)) +:+ ", succeeded " +:+
  dec (Z.of_nat (length (List.filter (fun o => eo_invoked o && Succeeded (i32 (eo_result o))) outcomes))).

Definition install_word (status : InstallStatus) : string :=
  match status with Complete => "succeeded" | RuleInstall.Partial => "partial" | Failed_ => "failed" end.

Definition rules_response (s : Session) (payload : string) : C (Response * Session) :=
  match ParseRuleText (ho_XmlRead host) (ho_apartment host) payload with
  | Err error => mret (mkResponse kInvalidArg ("parse error: " +:+ error), s)
  | Ok document =>
      if DocumentRequiresEnforceCompat document then
        note Error ("ipc rules: the document contains an enforcing rule for an event type that needs the " +:+
                    "espclient.dll enforce-compat patch; the service host does not enable --enforce-compat, " +:+
                    "so the rule cannot be armed from here");;
        mret (mkResponse kInvalidArg ("enforce-compat is unavailable from the service host; use the " +:+
                                      "standalone rules --enforce-compat client"), s)
      else
        '(installed, s) ← on s (InstallRules env document);
        mret (mkResponse (match installed with Complete => 0 | _ => kFail end)
                ("parsed " +:+ dec (Z.of_nat (length (doc_rules document))) +:+ " rules, install " +:+
                 install_word installed), s)
  end.

(** The handler; a kind that is none of the five leaves the response empty. *)
Definition handle_request (connected : bool) (s : Session) (request : Request) : C (Response * Session) :=
  let kind := rq_kind request in
  if kind =? kRequestPing then mret (mkResponse 0 "pong", s)
  else if kind =? kRequestStatus then payload ← status_payload connected; mret (mkResponse 0 payload, s)
  else if kind =? kRequestExports then
    mret (mkResponse 0 ("resolved " +:+ dec (Z.of_nat (ResolvedCount api)) +:+ " of " +:+
                        dec (Z.of_nat (length (api_exports api)))), s)
  else if kind =? kRequestExercise then
    '(outcomes, s) ← on s (RunInProcess env (so_address os) (ho_GetCurrentProcessId host));
    mret (mkResponse 0 (exercised_payload outcomes), s)
  else if kind =? kRequestRules then rules_response s (rq_payload request)
  else mret (empty_response, s).

(** The background thread: [connected.store(session.Connect(client))]. *)
Definition background_connect (s : Session) : C (bool * Session) :=
  '(connected, s) ← on s (Connect env service_client);
  (if (connected : bool) then mret tt
   else note Warning "client registration failed; the service keeps serving");;
  mret (connected, s).

(** ** The loop *)

(** The state of the loop: the session, the connecting thread and the flag it stores. *)
Record Serving := mkServing { sg_session : Session; sg_thread : Connecting; sg_connected : bool }.

Definition join (g : Serving) : C Serving :=
  match sg_thread g with
  | Pending => '(connected, s) ← background_connect (sg_session g); mret (mkServing s Finished connected)
  | _ => mret g
  end.

(** The session of one pipe instance. *)
Definition answer (g : Serving) (pipe : PipeEnd) : C Serving :=
  let '(request, pipe) := read_request pipe in
  match request with
  | Err _ => outside (fun d => (tt, so_answered os pipe d));; mret g
  | Ok request =>
      finishes ← outside (so_connects os);
      g ← (if (finishes : bool) then join g else mret g);
      '(response, s) ← handle_request (sg_connected g) (sg_session g) request;
      let '(_, pipe) := write_response response pipe in
      outside (fun d => (tt, so_answered os pipe d));;
      mret (mkServing s (sg_thread g) (sg_connected g))
  end.

Definition take_controls (sv : Service) : C Service :=
  controls ← outside (so_controls os); mret (deliver controls sv).

(** Whether the loop ended, or still runs when the turns are used up; and its state. *)
Inductive Progress := Ended | Running.

Fixpoint serve_turns (fuel : nat) (server : PipeServer) (sv : Service) (g : Serving)
    : C (Progress * Service * Serving) :=
  match fuel with
  | O => mret (Running, sv, g)
  | S fuel =>
      sv ← take_controls sv;
      if g_stop_requested sv then mret (Ended, sv, g)
      else
        '(env', pipe) ← outside (so_instance os);
        match before_session server env' with
        | Some serve_error =>
            sv ← take_controls sv;
            (if negb (g_stop_requested sv) && negb (is_empty serve_error)
             then note Error ("pipe server stopped: " +:+ serve_error) else mret tt);;
            mret (Ended, sv, g)
        | None => g ← answer g pipe; serve_turns fuel server sv g
        end
  end.
End Serve.

Section Loop.
  Context {D : Type} (host : Host D) (os : ServiceOs D).
  Local Abbreviation C := (ST (Console D)).
  Local Abbreviation ToUtf8 := (ToUtf8 (env_WideCharToMultiByte (ho_env host))).

(** The permission the service stamps; a failure is only logged. *)
Definition provision_service : C unit :=
  protection ← ask (fun d => QueryCurrentProcess (ho_protection host d));
  let permission := if IsAntimalwareLight protection then kWespPermissionFull else kWespPermissionRestricted in
  stamped ← outside (SetWespPermission (ho_tokens host) permission);
  match stamped with
  | Err error => note Warning ("could not set " +:+ kWespPermissionClaim +:+ ": " +:+ error)
  | Ok _ => note Info (kWespPermissionClaim +:+ " set to " +:+ dec permission)
  end.

(** The end of the loop: the thread is joined, the session disconnected and the
    library unloaded; the destructor of the session comes last. *)
Definition leave (api : EspApi) (g : Serving) : C unit :=
  g ← join host api g;
  '(_, s) ← on (sg_session g) (Disconnect (with_api api (ho_env host)));
  note Info "esptool service stopped";;
  destroy host (Unload api) s.

Definition ServeLoop (fuel : nat) (sv : Service) : C (Progress * Service) :=
  created ← ask (so_stop_event os);
  match Start (g_service_name sv) created (mkPipeServer [] false) with
  | (Err error, _) => note Error ("could not create the service pipe: " +:+ error);; mret (Ended, sv)
  | (Ok _, server) =>
      trusted ← outside (RequireSystemWithTcb (ho_tokens host));
      match trusted with
      | Err trust_error => note Error trust_error;; mret (Ended, sv)
      | Ok _ =>
          (if g_provision sv then provision_service else mret tt);;
          loader ← ask (so_loader os);
          let '(loaded, api) := Load loader [] new_api in
          (if loaded then mret tt
           else note Error ("espclient.dll could not be loaded: " +:+ api_last_error api));;
          note Info ("esptool service is listening on pipe '" +:+ ToUtf8 (g_service_name sv) +:+ "'");;
          '(progress, sv, g) ← serve_turns host os api fuel server sv
                     (mkServing new_session (if handle_ok (api_module api) then Pending else NoThread) false);
          match progress with
          | Running => mret (Running, sv)
          | Ended => leave api g;; mret (Ended, sv)
          end
      end
  end.

Definition ServiceMain (fuel : nat) (sv : Service) : C (Progress * Service) :=
  '(h, e) ← ask (so_RegisterHandler os (g_service_name sv));
  let sv := sv <| g_status_handle := h |> in
  if negb (handle_ok h) then
    note Error ("RegisterServiceCtrlHandler failed (error " +:+ dec e +:+ ")");; mret (Ended, sv)
  else
    '(progress, sv) ← ServeLoop fuel (ReportStatus SERVICE_RUNNING NO_ERROR 0 sv);
    mret (progress, match progress with Running => sv | Ended => ReportStatus SERVICE_STOPPED NO_ERROR 0 sv end).

(** The exit code, [None] while the service runs. *)
Definition RunForeground (fuel : nat) (pipe_name : wstring) (provision : bool) (sv : Service) : C (option Z * Service) :=
  if negb (nonempty pipe_name) then mret (Some ERROR_INVALID_PARAMETER, sv)
  else
    note Info "esptool foreground service starting";;
    '(progress, sv) ← ServeLoop fuel (sv <| g_service_name := pipe_name |> <| g_provision := provision |>
                                <| g_stop_requested := false |>);
    match progress with
    | Running => mret (None, sv)
    | Ended => note Info "esptool foreground service stopped";; mret (Some 0, sv)
    end.

(** The dispatcher calls [ServiceMain] and returns when it is over. *)
Definition RunService (fuel : nat) (service_name : wstring) (provision : bool) (sv : Service) : C (option Z * Service) :=
  if negb (nonempty service_name) then mret (Some ERROR_INVALID_PARAMETER, sv)
  else
    let sv := sv <| g_service_name := service_name |> <| g_provision := provision |>
                 <| g_stop_requested := false |> <| g_status_handle := 0 |> in
    failure ← ask (so_StartDispatcher os service_name);
    match failure with
    | Some e => mret (Some (i32 e), sv)
    | None =>
        '(progress, sv) ← ServiceMain fuel sv;
        mret (match progress with Running => None | Ended => Some 0 end, sv)
    end.
End Loop.

(** * Theorems *)

(** ** The registered command line *)

Section Registered.
  Context {argv_of arguments_from argument_from} `{!ArgvRules argv_of arguments_from argument_from}.
  Context (WideCharToMultiByte : wstring -> option string).
  Context (ascii_kept : forall t, t <> "" -> Forall (fun c => code c < 128) (chars t) ->
    WideCharToMultiByte (wide t) = Some t).

Lemma quoted_file_read p s :
  wQuote ∉ p -> last p <> Some wBackslash -> at_break s ->
  arguments_from (wSpace :: wQuote :: p ++ wQuote :: s) = p :: arguments_from s.
Proof.
  intros Hq Hl Hs. assert (quote_loop 0 p = p ++ [wQuote]) as Hp by (apply (quote_loop_image 0); auto).
  rewrite (cons_middle wQuote p s), app_assoc, <- Hp. rewrite blank_skipped by (by left).
  rewrite argument_starts by apply not_blank_quote.
  etrans; [apply (quote_opens [] 0)|]. cbn [backslashes replicate app]. by rewrite quote_loop_read.
Qed.

Lemma word_read word s :
  needs_quotes word = false -> at_break s ->
  arguments_from ((wSpace :: word) ++ s) = word :: arguments_from s.
Proof.
  intros Hw Hs. pose proof (QuoteArgument_read word s Hs) as H. unfold QuoteArgument in H. by rewrite Hw in H.
Qed.

Definition service_tokens (binary_path : wstring) (no_provision : bool) : list wstring :=
  [wide "service"; wide "run"; wide "--log"; binary_path ++ wide ".log"] ++
  (if no_provision then [wide "--no-provision"] else []).

Lemma service_command_line_read binary_path no_provision :
  wQuote ∉ binary_path ->
  argv_of (service_command_line binary_path no_provision) = binary_path :: service_tokens binary_path no_provision.
Proof.
  intros Hq. unfold service_command_line, service_tokens. cbn [app]. rewrite argv0_quoted; [|done|by left].
  f_equal. change (wide " service run --log ") with
    ((wSpace :: wide "service") ++ (wSpace :: wide "run") ++ (wSpace :: wide "--log") ++ [wSpace]).
  rewrite <- !app_assoc. rewrite !word_read by (done || by left). cbn [app]. do 3 f_equal.
  rewrite (app_assoc binary_path).
  rewrite quoted_file_read; [|set_solver|by rewrite last_app|by destruct no_provision; [left|]].
  f_equal. destruct no_provision; [|apply no_arguments].
  change (wide " --no-provision") with ((wSpace :: wide "--no-provision") ++ []).
  rewrite word_read by done. by rewrite no_arguments.
Qed.

Lemma utf8_ascii t :
  t <> "" -> Forall (fun c => code c < 128) (chars t) -> ToUtf8 WideCharToMultiByte (wide t) = t.
Proof.
  intros Hne Ha. unfold ToUtf8. destruct (wide t) as [|u w] eqn:E; [by destruct t|]. rewrite <- E. by rewrite ascii_kept.
Qed.

(** C34 The command line that a service is registered with, read by the rules of the C
    runtime and parsed again, is the command "service run" with the log file next to
    the image and the wish not to provision; the service's name is not part of it, so
    whatever name the service was installed under, it runs with the default name. *)
Theorem Install_reenters binary_path no_provision (Hpath : wQuote ∉ binary_path) :
  exists tokens o, argv_of (service_command_line binary_path no_provision) = binary_path :: tokens /\
    ParseOptions WideCharToMultiByte tokens = Ok o /\
    op_command o = "service" /\ op_positional o = ["run"] /\
    op_log_path o = ToUtf8 WideCharToMultiByte (binary_path ++ wide ".log") /\
    op_no_provision o = no_provision /\ op_service_name o = op_service_name default_options.
Proof.
  exists (service_tokens binary_path no_provision).
  set (log := ToUtf8 WideCharToMultiByte (binary_path ++ wide ".log")).
  set (items := [IWord "service"; IWord "run"; IString "--log" log false] ++
                (if no_provision then [IBool "--no-provision" None] else [])).
  exists (apply_line items None (default_options <| op_tokens := service_tokens binary_path no_provision |>)).
  split; [by apply service_command_line_read|]. split; [|by destruct no_provision].
  assert (ParseOptions WideCharToMultiByte (service_tokens binary_path no_provision) =
    Ok (apply_line items None (default_options <| op_tokens := service_tokens binary_path no_provision |>))) as ->; [|done].
  apply ParseOptions_iff. exists items, None. split; [|split].
  - subst items. clearbody log. destruct no_provision; cbn [app];
      repeat (apply Forall_cons; split; [first [done|cbn [valid_item]; apply (bool_decide_unpack _); by vm_compute]|]);
      by apply Forall_nil.
  - assert (forall t, t ∈ ["service"; "run"; "--log"; "--no-provision"] -> ToUtf8 WideCharToMultiByte (wide t) = t) as Hword.
    { intros t Ht. assert (t <> "" /\ Forall (fun c => code c < 128) (chars t)) as [Hne Ha].
      { revert t Ht. apply Forall_forall. apply (bool_decide_unpack _). by vm_compute. }
      by apply utf8_ascii. }
    unfold service_tokens. rewrite fmap_app. cbn [fmap list_fmap]. rewrite !Hword by set_solver. fold log.
    subst items. destruct no_provision; cbn [fmap list_fmap]; rewrite ?Hword by set_solver; reflexivity.
  - by destruct no_provision.
Qed.
End Registered.

Lemma Install_reenters_witness :
  exists tokens o, crt_argv (service_command_line example_image true) = example_image :: tokens /\
    ParseOptions ascii_bytes tokens = Ok o /\ op_command o = "service" /\ op_positional o = ["run"] /\
    op_log_path o = ToUtf8 ascii_bytes (example_image ++ wide ".log") /\
    op_no_provision o = true /\ op_service_name o = op_service_name default_options.
Proof.
  apply (Install_reenters (argv_of := crt_argv) ascii_bytes ascii_bytes_kept).
  apply (bool_decide_unpack _). by vm_compute.
Defined.

(** ** The reported states *)

Definition running_status : ServiceStatus := mkStatus SERVICE_RUNNING NO_ERROR 0 SERVICE_ACCEPT_STOP.
Definition stopped_status : ServiceStatus := mkStatus SERVICE_STOPPED NO_ERROR 0 0.

Definition is_pending (status : ServiceStatus) : Prop :=
  ss_state status = SERVICE_STOP_PENDING /\ ss_exit status = NO_ERROR /\ ss_accepted status = 0.

(** What was reported since [base] while the loop runs: first only that the service is
    running, and from the first stop control on only that it is stopping. *)
Definition reporting (base : list ServiceStatus) (sv : Service) : Prop :=
  exists runs pends, sv_reports sv = base ++ runs ++ pends /\
    Forall (eq running_status) runs /\ Forall is_pending pends /\
    handle_ok (g_status_handle sv) = true /\
    ss_state (g_status sv) = (if g_stop_requested sv then SERVICE_STOP_PENDING else SERVICE_RUNNING) /\
    (g_stop_requested sv = true <-> pends <> []).

Lemma control_reporting base control sv :
  reporting base sv -> reporting base (ServiceControlHandler control sv).
Proof.
  destruct sv as [name h status stop prov reports].
  intros (runs & pends & Hr & Hruns & Hpends & Hh & Hs & Hstop). unfold ServiceControlHandler.
  cbn [sv_reports g_status_handle g_status g_stop_requested] in *. subst reports.
  destruct (control =? SERVICE_CONTROL_STOP); [|destruct (control =? SERVICE_CONTROL_INTERROGATE)].
  - exists runs, (pends ++ [mkStatus SERVICE_STOP_PENDING NO_ERROR kStopWaitHintMs 0]).
    unfold ReportStatus. cbn. rewrite Hh, <- !app_assoc. split_and!; try done.
    + apply Forall_app. split; [done|]. by apply Forall_singleton.
    + split; [|done]. by destruct pends.
  - unfold ReportStatus. cbn [g_status]. rewrite Hs. destruct stop; cbn.
    + exists runs, (pends ++ [mkStatus SERVICE_STOP_PENDING NO_ERROR 0 0]).
      cbn. rewrite Hh, <- !app_assoc. split_and!; try done.
      * apply Forall_app. split; [done|]. by apply Forall_singleton.
      * split; [|done]. by destruct pends.
    + assert (pends = []) as ->. { destruct pends; [done|]. by assert (false = true) by by apply Hstop. }
      exists (runs ++ [running_status]), []. cbn. rewrite Hh, !app_nil_r, <- app_assoc.
      split_and!; try done. apply Forall_app. split; [done|]. by apply Forall_singleton.
  - by exists runs, pends.
Qed.

Lemma deliver_reporting base controls : forall sv, reporting base sv -> reporting base (deliver controls sv).
Proof.
  unfold deliver. induction controls as [|control controls IH]; intros sv H; [done|].
  by apply IH, control_reporting.
Qed.

Section Lifecycle.
  Context {D : Type} (host : Host D) (os : ServiceOs D).
  Implicit Types (c : Console D).

Lemma take_controls_reporting base sv c : reporting base sv -> reporting base (take_controls os sv c).1.
Proof.
  intros H. unfold take_controls. rewrite st_bind_unfold. unfold outside.
  destruct (so_controls os (co_driver c)) as [controls d]. by apply deliver_reporting.
Qed.

(** Between two turns no stop has been asked for. *)
Definition progress_reporting base (progress : Progress) (sv : Service) : Prop :=
  reporting base sv /\ (progress = Running -> g_stop_requested sv = false).

Lemma serve_turns_reporting api base server fuel : forall sv g c,
  reporting base sv -> g_stop_requested sv = false ->
  let '((progress, sv', _), _) := serve_turns host os api fuel server sv g c in progress_reporting base progress sv'.
Proof.
  induction fuel as [|fuel IH]; intros sv g c Hsv Hrun; cbn [serve_turns]; [done|].
  rewrite st_bind_unfold. apply (take_controls_reporting base sv c) in Hsv as Hsv1.
  destruct (take_controls os sv c) as [sv1 c1]. cbn [fst snd] in *.
  destruct (g_stop_requested sv1) eqn:Estop; [done|].
  rewrite st_bind_unfold. unfold outside at 1. destruct (so_instance os (co_driver c1)) as [[env' pipe] d]. cbn [fst snd].
  destruct (before_session server env') as [serve_error|].
  - rewrite st_bind_unfold.
    match goal with |- context [take_controls os sv1 ?c] => pose proof (take_controls_reporting base sv1 c Hsv1) as Hsv2;
      destruct (take_controls os sv1 c) as [sv2 c3] end.
    cbn [fst snd] in *. rewrite st_bind_unfold. done.
  - rewrite st_bind_unfold. by apply IH.
Qed.

Lemma ServeLoop_reporting base fuel sv c :
  reporting base sv -> g_stop_requested sv = false ->
  let '((progress, sv'), _) := ServeLoop host os fuel sv c in progress_reporting base progress sv'.
Proof.
  intros Hsv Hrun. unfold ServeLoop. rewrite st_bind_unfold.
  destruct (Start _ _ _) as [[[]|error] server]; [|rewrite st_bind_unfold; done].
  rewrite st_bind_unfold.
  destruct (outside (RequireSystemWithTcb (ho_tokens host)) _) as [[[]|trust_error] c1]; cbn [fst snd];
    [|rewrite st_bind_unfold; done].
  rewrite !st_bind_unfold. destruct (Load _ _ _) as [loaded api]. rewrite !st_bind_unfold.
  match goal with |- context [serve_turns host os api fuel server sv ?g ?c2] =>
    pose proof (serve_turns_reporting api base server fuel sv g c2 Hsv Hrun) as H;
    destruct (serve_turns host os api fuel server sv g c2) as [[[progress sv1] g1] c3]; cbn [fst snd] in *
  end.
  destruct progress; [rewrite st_bind_unfold|]; exact H.
Qed.

(** A stop control that has arrived at the next look ends the loop, and no further
    request is served. *)
Lemma deliver_stops controls : forall sv,
  g_stop_requested sv = true \/ SERVICE_CONTROL_STOP ∈ controls -> g_stop_requested (deliver controls sv) = true.
Proof.
  unfold deliver. induction controls as [|control controls IH]; intros sv H; cbn [fold_left].
  { by destruct H as [?|?%not_elem_of_nil]. }
  apply IH. unfold ServiceControlHandler. destruct (control =? SERVICE_CONTROL_STOP) eqn:E.
  - left. by destruct sv.
  - apply Z.eqb_neq in E. destruct H as [H|[H|H]%elem_of_cons]; [left|congruence|by right].
    destruct (control =? SERVICE_CONTROL_INTERROGATE); by destruct sv.
Qed.

Lemma serve_turns_stops api fuel server sv g c :
  SERVICE_CONTROL_STOP ∈ (so_controls os (co_driver c)).1 ->
  exists sv', (serve_turns host os api (S fuel) server sv g c).1 = (Ended, sv', g) /\
    co_trace (serve_turns host os api (S fuel) server sv g c).2 = co_trace c.
Proof.
  intros Hstop. cbn [serve_turns]. unfold take_controls, outside. run.
  destruct (so_controls os (co_driver c)) as [controls d]. cbn [fst snd] in *.
  rewrite deliver_stops by (by right). by eexists.
Qed.

(** C33 A service run, looked at after any number of turns. It reports its states in the
    order the service control manager expects: running, possibly again while it is
    asked; from a stop control on only stopping; and, when it is over, stopped, once.
    While it still serves, no stop control has been delivered and nothing but running
    was reported; a stop control that has arrived when a turn begins ends the loop
    there, with no further request served and no call made by it. Stop is accepted only
    while the service says that it runs. Without a control handler nothing is reported. *)
Theorem RunService_lifecycle fuel service_name provision sv c :
  (let '((code, sv'), c') := RunService host os fuel service_name provision sv c in
   (code <> None /\ sv_reports sv' = sv_reports sv) \/
   exists runs pends,
     Forall (eq running_status) runs /\ Forall is_pending pends /\
     (g_stop_requested sv' = true <-> pends <> []) /\
     match code with
     | Some exit_code => exit_code = 0 /\
         sv_reports sv' = sv_reports sv ++ running_status :: runs ++ pends ++ [stopped_status]
     | None => pends = [] /\ sv_reports sv' = sv_reports sv ++ running_status :: runs
     end) /\
  (forall api server g, SERVICE_CONTROL_STOP ∈ (so_controls os (co_driver c)).1 ->
   exists sv', (serve_turns host os api (S fuel) server sv g c).1 = (Ended, sv', g) /\
     co_trace (serve_turns host os api (S fuel) server sv g c).2 = co_trace c).
Proof.
  split; [|intros; by apply serve_turns_stops].
  unfold RunService. destruct (negb (nonempty service_name)); [by left|].
  rewrite st_bind_unfold. destruct (ask (so_StartDispatcher os service_name) c) as [[e|] c1]; cbn [fst snd]; [by left|].
  rewrite st_bind_unfold. unfold ServiceMain. rewrite st_bind_unfold.
  destruct (ask _ c1) as [[h e] c2]. cbn [fst snd]. destruct (handle_ok h) eqn:Eh; cbn [negb].
  2:{ rewrite st_bind_unfold. by left. }
  rewrite st_bind_unfold. set (sv1 := ReportStatus SERVICE_RUNNING NO_ERROR 0 _).
  assert (reporting (sv_reports sv ++ [running_status]) sv1) as Hsv1.
  { exists [], []. subst sv1. destruct sv. unfold ReportStatus. cbn. unfold constant. rewrite Eh, !app_nil_r. split_and!; try done. }
  pose proof (ServeLoop_reporting _ fuel sv1 c2 Hsv1 eq_refl) as H.
  destruct (ServeLoop host os fuel sv1 c2) as [[progress sv2] c3]; cbn [fst snd] in *.
  destruct H as [(runs & pends & Hr & Hruns & Hpends & Hh & _ & Hstop) Hrun].
  right. exists runs, pends. destruct sv2. cbn [sv_reports g_status_handle g_stop_requested] in *. subst.
  destruct progress.
  - unfold ReportStatus. cbn. rewrite Hh, <- !app_assoc. by split_and!.
  - cbn. assert (pends = []) as ->.
    { destruct pends; [done|]. specialize (Hrun eq_refl). destruct Hstop as [_ Hstop]. by rewrite Hstop in Hrun. }
    rewrite app_nil_r, <- app_assoc. by split_and!.
Qed.
End Lifecycle.

(** ** Rules over the pipe *)

Section Rules.
  Context {D : Type} (host : Host D) (api : EspApi).
  Local Abbreviation env := (with_api api (ho_env host)).
  Implicit Types (c : Console D).

(** C15 A rules request is answered with success exactly when its document parsed, needs
    no patch of the library, and every one of its rules was created and accepted; a
    document that does not parse, or that has an enforcing rule for an event type that
    needs the patch, changes nothing and reaches the library not at all. *)
Theorem rules_response_reports s payload c :
  let '((response, s'), c') := rules_response host api s payload c in
  let parsed := ParseRuleText (ho_XmlRead host) (ho_apartment host) payload in
  (rp_status response = 0 <-> exists document new,
     parsed = Ok document /\ DocumentRequiresEnforceCompat document = false /\ doc_rules document <> [] /\
     rule_events (world_of s' c') = rule_events (world_of s c) ++ new /\
     rules s' = rules s ++ omap accepted_handle new /\
     length (omap accepted_handle new) = length (doc_rules document)) /\
  ((forall document, parsed = Ok document -> DocumentRequiresEnforceCompat document = true) ->
     rp_status response = kInvalidArg /\ s' = s /\ co_trace c' = co_trace c /\ co_driver c' = co_driver c).
Proof.
  unfold rules_response. destruct (ParseRuleText _ _ _) as [document|error]; cbv zeta.
  2:{ cbn. split; [|done]. split; [done|]. by intros (document & new & ? & _). }
  destruct (DocumentRequiresEnforceCompat document) eqn:Ecompat.
  { rewrite st_bind_unfold. cbn. split; [|done]. split; [done|]. intros (document' & new & [= <-] & E & _). congruence. }
  rewrite st_bind_unfold, on_run. pose proof (InstallRules_kept env document (world_of s c)) as Hk.
  destruct (InstallRules env document (world_of s c)) as [status w']. cbn [fst snd mret st_ret rp_status].
  destruct Hk as (new & He & Hl & _ & Hst). cbn [world_of w_session] in Hl.
  split; [|intros H; specialize (H document eq_refl); congruence].
  assert (world_of (w_session w') (mkConsole (w_driver w') (w_trace w') (w_log w') (w_out w') (co_err c) (co_created c)) = w')
    as -> by (by destruct w').
  split.
  - intros Hz. exists document, new. assert (status = Complete) as -> by (by destruct status).
    unfold install_status in Hst. destruct (length (omap accepted_handle new) =? 0)%nat eqn:E0; [done|].
    destruct (length (omap accepted_handle new) =? length (doc_rules document))%nat eqn:E1; [|done].
    apply Nat.eqb_eq in E1. apply Nat.eqb_neq in E0. split_and!; try done. intros E. by rewrite E in E1.
  - intros (document' & new' & [= <-] & _ & Hne & He' & Hl' & Hlen).
    rewrite He in He'. apply app_inv_head in He' as <-. rewrite Hst. unfold install_status. rewrite Hlen, Nat.eqb_refl.
    by destruct (doc_rules document).
Qed.
End Rules.
