(* ===== verification/Dispatch.v ===== *)
(** The entry of the tool (the last part of src/esptool/src/cli/Commands.cpp, and
    src/esptool/src/main.cpp): the commands that need no session or all of them, the
    two verb tables, the dispatch behind the trust plan, and [wmain]. A command that
    serves the pipe may still be running when its turns are used up: its code is then
    [None]. *)
From S2P Require Import Logging.
From S2P Require Import Prelude Text Core Events RuleModel RuleParser MemoryView EnforceCompat Pipe Token.
From S2P Require Import Protection Api NtPath Session FilterBuild Refs Pump RuleConfig RuleInstall Options.
From S2P Require Import Launch Console RulesCommands RulesSpec ObjectCommands Exercise Service.

(** What the tool relies on besides the host: the service control manager, the service
    loop's surroundings, the client end of a pipe and the files it opens. *)
Record Machine (D : Type) := mkMachine {
  mc_host : Host D;
  mc_scm : ScmOs D;
  mc_service : ServiceOs D;
  mc_loader : D -> Loader;
  (** the outcome of each attempt to open the pipe, and the opened end *)
  mc_open_pipe : wstring -> D -> nat -> Z + Z;
  mc_pipe : wstring -> D -> PipeEnd;
  mc_exchanged : PipeEnd -> D -> D;
  mc_read_file : string -> D -> option string;
  (** whether the log file can be opened *)
  mc_open_log : string -> D -> bool * D
}.
Arguments mc_host {D} m. Arguments mc_scm {D} m. Arguments mc_service {D} m. Arguments mc_loader {D} m.
Arguments mc_open_pipe {D} m. Arguments mc_pipe {D} m. Arguments mc_exchanged {D} m.
Arguments mc_read_file {D} m. Arguments mc_open_log {D} m.

Section Dispatch.
  Context {D : Type} (machine : Machine D).
  Local Abbreviation C := (ST (Console D)).
  Local Abbreviation host := (mc_host machine).
  Local Abbreviation ToUtf16 := (to_wide (env_paths (ho_env host))).
  Local Abbreviation ToUtf8 := (ToUtf8 (env_WideCharToMultiByte (ho_env host))).

Definition usage_error (line : string) : C Z := eprint line;; mret 2.

(** ** The export sweep *)

Definition count_outcomes (p : ExportOutcome -> bool) (outcomes : list ExportOutcome) : string :=
  dec (Z.of_nat (length (List.filter p outcomes))).

Definition outcome_line (outcome : ExportOutcome) : string :=
  pad 44 (eo_name outcome) +:+ " " +:+ pad 6 (dec (Z.of_nat (eo_arity outcome))) +:+ " " +:+
  pad 10 (if eo_resolved outcome then "resolved" else "unresolved") +:+ " " +:+
  pad 12 (if eo_invoked outcome then "invoked" else "not-invoked") +:+ " " +:+
  pad 10 (HexResult (i32 (eo_result outcome))) +:+ " " +:+ eo_detail outcome.

Definition totals_line (outcomes : list ExportOutcome) : string :=
  "total " +:+ dec (Z.of_nat (length outcomes)) +:+ ", resolved " +:+ count_outcomes eo_resolved outcomes +:+
  ", invoked " +:+ count_outcomes eo_invoked outcomes +:+
  ", ok " +:+ count_outcomes (fun o => eo_invoked o && (0 <=? eo_result o)) outcomes +:+
  ", failed " +:+ count_outcomes (fun o => eo_invoked o && (eo_result o <? 0)) outcomes +:+
  ", faulted " +:+ count_outcomes (fun o => eo_invoked o && IsFault (eo_result o)) outcomes.

Definition RunExercise (api : EspApi) (o : Options) : C Z :=
  let env := with_api api (ho_env host) in
  '(_, s) ← on new_session (Connect env empty_client);
  '(outcomes, s) ← (if op_isolated o
                    then outcomes ← launched (RunIsolated (ho_processes host) ToUtf16 api); mret (outcomes, s)
                    else on s (RunInProcess env (so_address (mc_service machine)) (ho_GetCurrentProcessId host)));
  PrintSeparator;;
  print (pad 44 "export" +:+ " " +:+ pad 6 "arity" +:+ " " +:+ pad 10 "resolved" +:+ " " +:+
         pad 12 "invoked" +:+ " " +:+ pad 10 "result" +:+ " detail");;
  print_all (outcome_line <$> outcomes);;
  PrintSeparator;;
  print (totals_line outcomes);;
  finish host api s 0.

Definition RunCallOne (api : EspApi) (o : Options) : C Z :=
  match op_positional o with
  | [] => usage_error "call-one requires <name>"
  | name :: _ =>
      let env := with_api api (ho_env host) in
      '(_, s) ← on new_session (Connect env empty_client);
      '(raw, s) ← on s (CallOne env (so_address (mc_service machine)) (ho_GetCurrentProcessId host) name);
      let result := i32 raw in
      print (name +:+ " " +:+ HexResult result +:+ " " +:+ DescribeResult result);;
      finish host api s result
  end.

(** ** Token, provisioning, protection *)

Definition set_token (permission : Z) : C Z :=
  stamped ← outside (SetWespPermission (ho_tokens host) permission);
  match stamped with Err error => Fail error | Ok _ => PrintTrustState host;; mret 0 end.

Definition RunToken (o : Options) : C Z :=
  match op_positional o with
  | [] => usage_error "token requires a subcommand: status|set|clear"
  | sub :: arguments =>
      if (sub =? "status")%string then PrintTrustState host;; mret 0
      else if (sub =? "set")%string then
        protection ← ask (fun d => QueryCurrentProcess (ho_protection host d));
        match arguments with
        | [] => set_token (ResolvePermission o (IsAntimalwareLight protection))
        | value :: _ =>
            match ParsePermission value with
            | None => usage_error ("unknown permission: " +:+ value)
            | Some permission => set_token permission
            end
        end
      else if (sub =? "clear")%string then
        cleared ← outside (DeleteWespPermission (ho_tokens host));
        match cleared with Err error => Fail error | Ok _ => PrintTrustState host;; mret 0 end
      else usage_error ("unknown token subcommand: " +:+ sub)
  end.

Definition RunProvision : C Z :=
  PrintTrustState host;;
  ready ← ask (IsSystemAccount (ho_tokens host));
  '(attribute, queried) ← ask (QueryWespPermission (ho_tokens host));
  mret (if negb ready || negb (is_Ok queried) || negb (ta_present attribute) then 1 else 0).

Definition RunPpl (o : Options) : C Z :=
  match op_positional o with
  | [] => usage_error "ppl requires a subcommand: status"
  | sub :: _ =>
      if (sub =? "status")%string then
        protection ← ask (fun d => QueryCurrentProcess (ho_protection host d));
        print ("ppl: " +:+ DescribeProtection protection);; mret 0
      else usage_error ("unknown ppl subcommand: " +:+ sub)
  end.

(** ** The service and its clients *)

Definition RunServiceCommand (fuel : nat) (o : Options) : C (option Z) :=
  let done (m : C Z) : C (option Z) := code ← m; mret (Some code) in
  match op_positional o with
  | [] => done (usage_error "service requires a subcommand: install|uninstall|run|foreground")
  | sub :: _ =>
      let name := ToUtf16 (op_service_name o) in
      if (sub =? "install")%string then
        let executable := CurrentImagePath (ho_processes host) in
        if negb (nonempty executable) then
          done (eprint "could not resolve the executable path";; mret 1)
        else
          installed ← outside (Install (mc_scm machine) (env_WideCharToMultiByte (ho_env host))
                                 name executable name (op_no_provision o));
          match installed with
          | Err error => done (Fail error)
          | Ok _ => done (print ("service installed: " +:+ op_service_name o);; mret 0)
          end
      else if (sub =? "uninstall")%string then
        removed ← outside (Uninstall (mc_scm machine) name);
        match removed with
        | Err error => done (Fail error)
        | Ok _ => done (print ("service removed: " +:+ op_service_name o);; mret 0)
        end
      else if (sub =? "foreground")%string then
        served ← RunForeground host (mc_service machine) fuel name (negb (op_no_provision o)) initial_service;
        mret (served.1)
      else if (sub =? "run")%string then
        served ← RunService host (mc_service machine) fuel name (negb (op_no_provision o)) initial_service;
        match served.1 with
        | None => mret None
        | Some dispatcher =>
            if negb (dispatcher =? 0) then
              done (eprint ("service dispatcher failed (error " +:+ dec dispatcher +:+ ")");; mret 1)
            else mret (Some 0)
        end
      else done (usage_error ("unknown service subcommand: " +:+ sub))
  end.

(** The request of a subcommand, or the error line and the exit code. *)
Definition ipc_request (o : Options) (sub : string) : C ((string * Z) + Request) :=
  if (sub =? "ping")%string then mret (inr (mkRequest kRequestPing ""))
  else if (sub =? "status")%string then mret (inr (mkRequest kRequestStatus ""))
  else if (sub =? "exports")%string then mret (inr (mkRequest kRequestExports ""))
  else if (sub =? "exercise")%string then mret (inr (mkRequest kRequestExercise ""))
  else if (sub =? "rules")%string then
    if is_empty (op_rules_path o) then mret (inl ("ipc rules requires --rules <path>", 2))
    else
      contents ← ask (mc_read_file machine (op_rules_path o));
      mret (match contents with
            | None => inl ("could not open the rule file: " +:+ op_rules_path o, 1)
            | Some payload => inr (mkRequest kRequestRules payload)
            end)
  else mret (inl ("unknown ipc subcommand: " +:+ sub, 2)).

Definition exchange (name : wstring) (request : Request) : C Z :=
  opened ← ask (fun d => Pipe.Connect (mc_open_pipe machine name d));
  match opened with
  | Err error => Fail error
  | Ok _ =>
      response ← outside (fun d =>
        let '(response, pipe) := Exchange true request (mc_pipe machine name d) in
        (response, mc_exchanged machine pipe d));
      match response with
      | Err error => Fail error
      | Ok response => print ("status " +:+ dec (rp_status response) +:+ newline +:+ rp_payload response);; mret 0
      end
  end.

Definition RunIpc (o : Options) : C Z :=
  match op_positional o with
  | [] => usage_error "ipc requires a subcommand: ping|status|exports|exercise|rules"
  | sub :: _ =>
      request ← ipc_request o sub;
      match request with
      | inl (line, code) => eprint line;; mret code
      | inr request => exchange (ToUtf16 (op_pipe_name o)) request
      end
  end.

(** ** Dispatch *)

(** -1 for a command that needs the library. *)
Definition DispatchLocal (fuel : nat) (o : Options) : C (option Z) :=
  let done (m : C Z) : C (option Z) := code ← m; mret (Some code) in
  let command := op_command o in
  if (command =? "ppl")%string then done (RunPpl o)
  else if (command =? "service")%string then RunServiceCommand fuel o
  else if (command =? "ipc")%string then done (RunIpc o)
  else if (command =? "token")%string then done (RunToken o)
  else if (command =? "provision")%string then done RunProvision
  else mret (Some (-1)).

(** The commands that use the loaded library. *)
Definition esp_commands (api : EspApi) (o : Options) : list (string * C Z) :=
  [("exports", RunExports api);
   ("status", RunStatus host api);
   ("connect", RunConnect host api);
   ("rules", RunRules host api o);
   ("monitor", RunMonitor host api o);
   ("clients", RunClients host api);
   ("unregister", RunUnregister host api o);
   ("enum-rules", RunEnumRules host api);
   ("remove-rules", RunRemoveRules host api);
   ("persist-rules", RunPersistRules host api o);
   ("open-queue", RunOpenQueue host api);
   ("trust", RunTrust host api);
   ("query", RunQuery host api o);
   ("refs", RunRefs host api o);
   ("collections", RunCollections host api o);
   ("context", RunContext host api);
   ("exercise", RunExercise api o);
   ("call-one", RunCallOne api o)].

Definition DispatchEsp (o : Options) : C Z :=
  loader ← ask (mc_loader machine);
  let '(loaded, api) := Load loader (if is_empty (op_dll_path o) then [] else ToUtf16 (op_dll_path o)) new_api in
  if negb loaded then note Error (api_last_error api);; eprint (api_last_error api);; mret 2
  else
    match find_first (fun entry => (op_command o =? entry.1)%string) (esp_commands api o) with
    | Some entry => entry.2
    | None => print Usage;; mret 2
    end.

Definition note_plan (plan : TrustPlan) : C unit :=
  if tp_auto_no_provision_applied plan
  then note Info ("auto-provision: test-signing active on non-PPL process; " +:+
                  "automatic --no-provision selected")
  else mret tt.

(** [Dispatch] with the plan it evaluated and the options it changed. *)
Definition run_planned (fuel : nat) (o : Options) (plan : TrustPlan) : C (option Z) :=
  note_plan plan;;
  let o := effective_options o plan in
  if tp_child_required plan && negb (op_worker o) then code ← HopToWorker host o; mret (Some code)
  else
    prepared ← EnsureWorkerOrTcb host o plan;
    if negb (prepared =? 0) then mret (Some prepared)
    else
      handled ← DispatchLocal fuel o;
      match handled with
      | None => mret None
      | Some code => if 0 <=? code then mret (Some code) else code ← DispatchEsp o; mret (Some code)
      end.

Definition Dispatch (fuel : nat) (o : Options) : C (option Z) :=
  ctx ← ProbeCurrentTrustContext host;
  if negb (pc_probe_ok ctx) && CommandNeedsWorker o then
    code ← Fail ("trust probe failed: " +:+ pc_error ctx); mret (Some code)
  else run_planned fuel o (EvaluateTrustPlan o ctx).

(** ** The process *)

Definition ParseLevel (value : string) : LogLevel :=
  match find_first (fun entry => EqualsIgnoreCase value entry.1)
          [("trace", Trace); ("debug", Debug); ("warn", Warning); ("error", Error)] with
  | Some entry => entry.2
  | None => Info
  end.

Definition log_level (o : Options) : LogLevel :=
  if negb (is_empty (op_level o)) then ParseLevel (op_level o) else if op_verbose o then Debug else Info.

(** The exit code and the log, whose lines are those the command handed to it. The COM
    apartment of the process is the host's. *)
Definition wmain (fuel : nat) (argv : list wstring) (c : Console D) : option Z * LogState * Console D :=
  match ParseOptions (env_WideCharToMultiByte (ho_env host)) argv with
  | Err error => let '(_, c) := eprint error c in (Some 2, initial_log, c)
  | Ok o =>
      if op_help o || is_empty (op_command o) then
        let '(_, c) := print Usage c in (Some (if op_help o then 0 else 2), initial_log, c)
      else
        let log := SetLevel (log_level o) initial_log in
        let '(log, c) :=
          if is_empty (op_log_path o) then (log, c)
          else
            let '(opened, c) := outside (mc_open_log machine (op_log_path o)) c in
            let '(attached, log) := AttachFile opened log in
            (log, if attached then c else (eprint ("could not open the log file: " +:+ op_log_path o) c).2) in
        let before := length (co_log c) in
        let '(status, c) := Dispatch fuel o c in
        (status, DetachFile (write_all (drop before (co_log c)) log), c)
  end.
End Dispatch.

(** * Theorems *)

Section Guards.
  Context {D : Type} (machine : Machine D).
  Local Abbreviation host := (mc_host machine).
  Local Abbreviation tokens := (ho_tokens host).
  Implicit Types (c : Console D).

Lemma silent_launched {A} (m : ST (LaunchState D) A) : silent (launched m).
Proof. intros c. unfold launched. destruct (m _). symmetry. apply app_nil_r. Qed.

Lemma silent_tcb : silent (RequireTcbOrFail host).
Proof.
  apply silent_bind; [apply silent_outside|]. intros [[]|error]; [apply silent_ret|apply silent_fail].
Qed.

Lemma silent_hop o : silent (HopToWorker host o).
Proof.
  apply silent_bind; [apply silent_tcb|intros status]. destruct (negb _); [apply silent_ret|].
  apply silent_bind; [apply silent_note|intros _]. apply silent_bind; [apply silent_launched|intros outcome].
  destruct (negb _); (apply silent_bind; [apply silent_note|intros _]); [apply silent_fail|apply silent_ret].
Qed.

Lemma silent_prepare o plan : silent (EnsureWorkerOrTcb host o plan).
Proof.
  unfold EnsureWorkerOrTcb. destruct (CommandNeedsWorker o); [|destruct (CommandNeedsSystemContext o);
    [apply silent_tcb|apply silent_ret]].
  apply silent_bind; [apply silent_tcb|intros status]. destruct (negb _); [apply silent_ret|].
  destruct (_ || _); [|destruct (tp_stamp_needed plan); [|apply silent_ret]];
    (apply silent_bind; [apply silent_outside|intros [[]|error]]; [|apply silent_fail];
     apply silent_bind; [apply silent_note|intros _; apply silent_ret]).
Qed.

Lemma effective_same o plan :
  op_command (effective_options o plan) = op_command o /\ op_worker (effective_options o plan) = op_worker o /\
  op_clear_attribute (effective_options o plan) = op_clear_attribute o || tp_clean_needed plan.
Proof.
  unfold effective_options, trust_options. destruct o, (tp_auto_no_provision_applied plan), (tp_clean_needed plan);
    cbn; rewrite ?orb_true_r, ?orb_false_r; done.
Qed.

(** The token as the plan wanted it. *)
Definition as_planned (o : Options) (plan : TrustPlan) (d : D) : Prop :=
  if tp_clean_needed plan || op_clear_attribute o then token_reads host false 0 d
  else tp_stamp_needed plan = true -> token_reads host true (tp_target_permission plan) d.

(** What is left of a dispatch once the process may run the command itself. *)
Definition run_here fuel o : ST (Console D) (option Z) :=
  handled ← DispatchLocal machine fuel o;
  match handled with
  | None => mret None
  | Some code => if 0 <=? code then mret (Some code) else code ← DispatchEsp machine o; mret (Some code)
  end.

(** The worker child of a command ran: the last process created is of this image with the
    worker's command line, its exit code was read last, and it is 0. *)
Definition child_succeeded o c c' : Prop :=
  exists made creation process d exit_code,
    co_created c' = co_created c ++ made ++ [(creation, process)] /\ (length made <= 1)%nat /\
    cr_image creation = CurrentImagePath (ho_processes host) /\
    cr_command_line creation = BuildCommandLine (CurrentImagePath (ho_processes host)) (worker_command o) /\
    po_GetExitCodeProcess (ho_processes host) process d = (inl exit_code, co_driver c') /\ i32 exit_code = 0.

Lemma RequireTcbOrFail_created c :
  let '(status, c') := RequireTcbOrFail host c in
  co_created c' = co_created c /\
  (status = 0 <-> is_Ok (RequireSystemWithTcb tokens (co_driver c)).1 = true).
Proof.
  unfold RequireTcbOrFail, outside. rewrite st_bind_unfold.
  by destruct (RequireSystemWithTcb tokens (co_driver c)) as [[[]|error] d].
Qed.

Lemma HopToWorker_zero o c :
  let '(code, c') := HopToWorker host o c in code = 0 -> child_succeeded o c c'.
Proof.
  unfold HopToWorker. rewrite st_bind_unfold. pose proof (RequireTcbOrFail_created c) as Htcb.
  destruct (RequireTcbOrFail host c) as [status c1]. destruct Htcb as [Hc1 _]. cbn [fst snd].
  destruct (Z.eqb_spec status 0) as [->|Hne]; cbn [negb]; [|cbn; intros ?; done].
  rewrite st_bind_unfold. set (c2 := (note Info _ c1).2). assert (co_created c2 = co_created c1) as Hc2 by done.
  rewrite st_bind_unfold. destruct (launched (LaunchWorker _ o) c2) as [outcome c3] eqn:Elaunched.
  unfold launched in Elaunched.
  pose proof (LaunchWorker_exit (ho_processes host) o (mkLaunchState (co_driver c2) (co_created c2))) as Hexit.
  destruct (LaunchWorker _ o _) as [outcome' s']. injection Elaunched as -> <-. cbn [fst snd].
  destruct (lo_created outcome); cbn [negb]; [|by rewrite st_bind_unfold].
  rewrite st_bind_unfold. cbn [mret st_ret note fst snd]. intros Hzero.
  destruct (Hexit eq_refl) as (made & creation & process & d & Hm & Hl & Hi & Hline & Hread).
  exists made, creation, process, d, (lo_exit_code outcome).
  cbn [ls_created] in Hm. rewrite Hc2, Hc1 in Hm. by split_and!.
Qed.

(** A dispatch that ends before it gets there makes no call, and succeeds only when the
    worker child did; otherwise the process has proved to be what a worker command
    needs. *)
Lemma Dispatch_cases fuel o c :
  let ctx := probe_context host (co_driver c) in
  let plan := EvaluateTrustPlan o ctx in
  let handed_over := tp_child_required plan && negb (op_worker o) in
  let '(code, c') := Dispatch machine fuel o c in
  (co_trace c' = co_trace c /\
     (code = Some 0 -> handed_over = true /\ child_succeeded (effective_options o plan) c c')) \/
  (handed_over = false /\ exists c1, co_trace c1 = co_trace c /\
     EnsureWorkerOrTcb host (effective_options o plan) plan (note_plan plan c).2 = (0, c1) /\
     (CommandNeedsWorker o = true -> pc_probe_ok ctx = true /\
        is_Ok (RequireSystemWithTcb tokens (co_driver c)).1 = true /\ as_planned o plan (co_driver c1)) /\
     (code, c') = run_here fuel (effective_options o plan) c1).
Proof.
  cbv zeta. set (ctx := probe_context host (co_driver c)). set (plan := EvaluateTrustPlan o ctx).
  unfold Dispatch. rewrite st_bind_unfold.
  assert (ProbeCurrentTrustContext host c = (ctx, c)) as -> by (by destruct c). cbn [fst snd].
  destruct (negb (pc_probe_ok ctx) && CommandNeedsWorker o) eqn:Eprobe.
  { rewrite st_bind_unfold. cbn [mret st_ret].
    rewrite (silent_fail ("trust probe failed: " +:+ pc_error ctx) c), app_nil_r. by left. }
  unfold run_planned. fold plan. destruct (effective_same o plan) as (Hcommand & Hworker & Hclear).
  rewrite st_bind_unfold.
  set (note_auto := note_plan plan : ST (Console D) unit).
  assert (silent note_auto) as Hnote
    by (subst note_auto; unfold note_plan; destruct (tp_auto_no_provision_applied plan);
        [apply silent_note|apply silent_ret]).
  assert (co_driver (note_auto c).2 = co_driver c) as Hdriver
    by (subst note_auto; unfold note_plan; by destruct (tp_auto_no_provision_applied plan)).
  assert (co_created (note_auto c).2 = co_created c) as Hcreated
    by (subst note_auto; unfold note_plan; by destruct (tp_auto_no_provision_applied plan)).
  assert (co_trace (note_auto c).2 = co_trace c) as Htrace by (by rewrite Hnote, app_nil_r).
  clearbody note_auto. destruct (note_auto c) as [u c1]. cbn [fst snd] in *. clear note_auto Hnote u.
  rewrite Hworker. destruct (tp_child_required plan && negb (op_worker o)) eqn:Ehop.
  { rewrite st_bind_unfold. cbn [mret st_ret]. pose proof (HopToWorker_zero (effective_options o plan) c1) as Hzero.
    pose proof (silent_hop (effective_options o plan) c1) as Hquiet.
    destruct (HopToWorker host (effective_options o plan) c1) as [code c']. cbn [fst snd] in *.
    unfold extends in Hquiet. rewrite app_nil_r, Htrace in Hquiet. left. split; [done|]. intros [= ->].
    split; [done|]. destruct (Hzero eq_refl) as (made & creation & process & d & exit_code & Hm & Hrest).
    exists made, creation, process, d, exit_code. by rewrite <- Hcreated. }
  rewrite st_bind_unfold. pose proof (silent_prepare (effective_options o plan) plan c1) as Hsilent.
  pose proof (PrepareThisProcess_reads host (effective_options o plan) plan c1) as Hreads.
  destruct (EnsureWorkerOrTcb host (effective_options o plan) plan c1) as [prepared c2] eqn:Eprepared.
  cbn [fst snd] in *. unfold extends in Hsilent. rewrite app_nil_r, Htrace in Hsilent.
  destruct (Z.eqb_spec prepared 0) as [->|Hne]; cbn [negb].
  2:{ cbn [mret st_ret]. rewrite Hsilent. left. split; [done|]. by intros [= ->]. }
  change (handled ← DispatchLocal machine fuel (effective_options o plan); _)
    with (run_here fuel (effective_options o plan)).
  destruct (run_here fuel (effective_options o plan) c2) as [code c'] eqn:Erest. right.
  split; [done|]. exists c2. split; [done|]. split; [done|]. split; [|done].
  intros Hneeds. rewrite Hneeds, andb_true_r in Eprobe. apply negb_false_iff in Eprobe.
  assert (CommandNeedsWorker (effective_options o plan) = true) as Hneeds'
    by (unfold CommandNeedsWorker in *; by rewrite Hcommand).
  unfold EnsureWorkerOrTcb in Eprepared. rewrite Hneeds' in Eprepared. rewrite Eprepared in Hreads.
  destruct (Hreads eq_refl) as [Htcb Htoken]. rewrite Hdriver in Htcb.
  split; [done|]. split; [done|].
  unfold as_planned. rewrite Hclear in Htoken.
  destruct (tp_clean_needed plan), (op_clear_attribute o); cbn [orb] in *; try done.
  intros Hstamp. by rewrite Hstamp in Htoken.
Qed.

(** C14 No call into the library is made on behalf of a worker command unless this very
    process is the one that has to run it, has proved to be SYSTEM with the TCB
    privilege, and carries on its token what the trust plan asked for; a process that
    has to hand the command to a worker child makes no call of its own. *)
Theorem Dispatch_guards fuel o c :
  let ctx := probe_context host (co_driver c) in
  let plan := EvaluateTrustPlan o ctx in
  let '(code, c') := Dispatch machine fuel o c in
  (tp_child_required plan = true -> op_worker o = false -> co_trace c' = co_trace c) /\
  (CommandNeedsWorker o = true -> co_trace c' <> co_trace c ->
     pc_probe_ok ctx = true /\ (tp_child_required plan = false \/ op_worker o = true) /\
     is_Ok (RequireSystemWithTcb tokens (co_driver c)).1 = true /\
     exists c1, co_trace c1 = co_trace c /\ as_planned o plan (co_driver c1) /\
       (code, c') = run_here fuel (effective_options o plan) c1).
Proof.
  pose proof (Dispatch_cases fuel o c) as H. cbv zeta in *.
  destruct (Dispatch machine fuel o c) as [code c'].
  destruct H as [[Ht _]|(Hhere & c1 & Ht & _ & Hneeds & Hrun)]; [by split|].
  split; [intros Hc Hw; by rewrite Hc, Hw in Hhere|]. intros (Hok & Htcb & Hplan)%Hneeds _.
  split; [done|]. split; [|by eauto 10].
  apply andb_false_iff in Hhere as [?|?%negb_false_iff]; auto.
Qed.
End Guards.
