(* ===== verification/Program.v ===== *)
(** Runs of the whole tool, from the command line to the exit code: what a successful
    rules command has installed, and which clients any run leaves registered. *)
From stdpp Require Import gmultiset.
From S2P Require Import Logging.
From S2P Require Import Prelude Text Core Events RuleModel RuleParser MemoryView EnforceCompat Pipe Token.
From S2P Require Import Protection Api NtPath Session FilterBuild Refs Pump RuleConfig RuleInstall Options Registration.
From S2P Require Import RuleInstallRun RuleInstallSpec Launch Console RulesCommands RulesSpec ObjectCommands CommandSpec Exercise Service Dispatch.
From S2P Require Import Custody CustodyCommands.

Section Program.
  Context {D : Type} (machine : Machine D).
  Local Abbreviation host := (mc_host machine).
  Local Abbreviation argv_options := (ParseOptions (env_WideCharToMultiByte (ho_env host))).
  Implicit Types (c : Console D) (o : Options).

(** The console once the log file of the options was opened. *)
Definition with_log o c : Console D :=
  if is_empty (op_log_path o) then c
  else
    let '(opened, c) := outside (mc_open_log machine (op_log_path o)) c in
    if (AttachFile opened (SetLevel (log_level o) initial_log)).1 then c
    else (eprint ("could not open the log file: " +:+ op_log_path o) c).2.

Lemma wmain_run fuel argv o c :
  argv_options argv = Ok o -> op_help o = false -> op_command o <> "" ->
  let '(status, _, c') := wmain machine fuel argv c in
  (status, c') = Dispatch machine fuel o (with_log o c) /\ co_trace (with_log o c) = co_trace c.
Proof.
  intros Ho Hhelp Hcommand. unfold wmain, with_log. rewrite Ho, Hhelp.
  assert (is_empty (op_command o) = false) as -> by (by destruct (op_command o)). cbn [orb]. cbv zeta.
  destruct (is_empty (op_log_path o)).
  - by destruct (Dispatch machine fuel o c).
  - unfold outside. destruct (mc_open_log machine (op_log_path o) (co_driver c)) as [opened d].
    destruct (AttachFile opened (SetLevel (log_level o) initial_log)) as [attached log]. cbn [fst].
    destruct attached; by destruct (Dispatch machine fuel o _).
Qed.
(** ** The commands that make no call *)

Hint Resolve silent_fail silent_tcb silent_hop silent_prepare : silent.

Lemma silent_ipc o : silent (RunIpc machine o).
Proof. unfold RunIpc, ipc_request, exchange, usage_error. silently. Qed.

Lemma silent_token o : silent (RunToken machine o).
Proof. unfold RunToken, set_token, usage_error, PrintTrustState. silently. Qed.

Lemma silent_ppl o : silent (RunPpl machine o).
Proof. unfold RunPpl, usage_error. silently. Qed.

Lemma silent_provision : silent (RunProvision machine).
Proof. unfold RunProvision, PrintTrustState. silently. Qed.

Lemma silent_local fuel o : op_command o <> "service" -> silent (DispatchLocal machine fuel o).
Proof.
  intros H. apply String.eqb_neq in H. unfold DispatchLocal. cbv zeta. rewrite H.
  repeat case_if; (apply silent_bind; [|intros; apply silent_ret]) || apply silent_ret;
    first [apply silent_ppl|apply silent_ipc|apply silent_token|apply silent_provision].
Qed.

(** ** Registrations *)

(** The commands that call every export with scratch arguments, whose registrations are
    not the session's, and the service, which is not over when its turns are used up. *)
Definition raw_commands : list string := ["exercise"; "call-one"; "service"].

Lemma settles_command api o name command :
  available api "EspUnregisterClient" = true -> (name, command) ∈ esp_commands machine api o ->
  name ∉ "persist-rules" :: raw_commands -> settles [] command.
Proof.
  intros Ha Hin Hname. unfold esp_commands in Hin. cbv zeta in Hin. rewrite !elem_of_cons in Hin.
  repeat destruct Hin as [[= -> ->]|Hin]; [..|by apply not_elem_of_nil in Hin];
    first [ exfalso; apply Hname; by repeat constructor | idtac ];
    first [ apply settles_RunExports | apply settles_RunStatus | apply settles_RunConnect | apply settles_RunRules
          | apply settles_RunMonitor | apply settles_RunClients | apply settles_RunUnregister
          | apply settles_RunEnumRules | apply settles_RunRemoveRules | apply settles_RunOpenQueue
          | apply settles_RunTrust | apply settles_RunQuery | apply settles_RunRefs | apply settles_RunCollections
          | apply settles_RunContext ]; exact Ha.
Qed.

Lemma persist_command api o command :
  ("persist-rules", command) ∈ esp_commands machine api o -> command = RunPersistRules host api o.
Proof.
  intros Hin. unfold esp_commands in Hin. cbv zeta in Hin. rewrite !elem_of_cons in Hin.
  repeat destruct Hin as [[=]|Hin]; try done. by apply not_elem_of_nil in Hin.
Qed.

(** Every library that can be loaded has the export that gives a client back. *)
Definition unregister_there : Prop :=
  forall d path, let '(loaded, api) := Load (mc_loader machine d) path new_api in
    loaded = true -> available api "EspUnregisterClient" = true.

(** ** What a run comes to *)

(** A property of a run: its exit code and the calls it made. *)
Section Ends.
Context (P : option Z -> list Event -> Prop) (Pnothing : forall status, P status []).

Definition ends (m : ST (Console D) (option Z)) : Prop :=
  forall c, exists new, extends c new (m c).2 /\ P (m c).1 new.

Lemma ends_silent m : silent m -> ends m.
Proof using Pnothing. intros Hm c. exists []. split; [apply Hm|apply Pnothing]. Qed.

Lemma ends_after {A} (m : ST (Console D) A) f : silent m -> (forall a, ends (f a)) -> ends (m ≫= f).
Proof.
  intros Hm Hf c. rewrite st_bind_unfold. destruct (Hf (m c).1 (m c).2) as (new & He & Hp). exists new.
  split; [|done]. rewrite <- (app_nil_l new). by eapply extends_trans.
Qed.

(** The library is loaded and the command of that name runs. *)
Lemma ends_esp o :
  (forall d path, let '(loaded, api) := Load (mc_loader machine d) path new_api in
     loaded = true -> forall command, (op_command o, command) ∈ esp_commands machine api o ->
     ends (code ← command; mret (Some code))) ->
  ends (code ← DispatchEsp machine o; mret (Some code)).
Proof using Pnothing.
  intros Hcommand. unfold DispatchEsp.
  assert (forall (m : ST (Console D) Loader) f, (m = ask (mc_loader machine)) ->
    (forall ld, (exists d, ld = mc_loader machine d) -> ends (code ← f ld; mret (Some code))) ->
    ends (code ← (ld ← m; f ld); mret (Some code))) as Hask.
  { intros m f -> Hf c. rewrite !st_bind_unfold. cbn [ask outside fst snd].
    destruct (Hf (mc_loader machine (co_driver c)) (ex_intro _ _ eq_refl) c) as (new & He & Hp).
    rewrite st_bind_unfold in He, Hp. exists new. by destruct c. }
  apply Hask; [done|]. intros ld [d ->]. clear Hask.
  specialize (Hcommand d (if is_empty (op_dll_path o) then [] else to_wide (env_paths (ho_env host)) (op_dll_path o))).
  destruct (Load _ _ _) as [loaded api]. destruct loaded; cbn [negb]; [specialize (Hcommand eq_refl)|].
  2:{ apply ends_silent, silent_bind; [silently|intros; apply silent_ret]. }
  destruct (find_first _ _) as [[name command]|] eqn:Efind; cbn [snd].
  2:{ apply ends_silent, silent_bind; [silently|intros; apply silent_ret]. }
  apply find_first_In in Efind as [Hin Hname%String.eqb_eq]. cbn [fst] in Hname. subst name. by apply Hcommand.
Qed.

Lemma ends_dispatch fuel o :
  op_command o <> "service" ->
  (forall o', op_command o' = op_command o -> ends (code ← DispatchEsp machine o'; mret (Some code))) ->
  ends (Dispatch machine fuel o).
Proof using Pnothing.
  intros Hservice Hesp. unfold Dispatch. apply ends_after; [unfold ProbeCurrentTrustContext; silently|]. intros ctx.
  destruct (_ && _). { apply ends_silent, silent_bind; [apply silent_fail|intros; apply silent_ret]. }
  unfold run_planned. set (plan := EvaluateTrustPlan o ctx). apply ends_after; [silently|]. intros _. cbv zeta.
  destruct (effective_same o plan) as (Hcommand & _ & _). set (o' := effective_options o plan) in *.
  destruct (_ && _). { apply ends_silent, silent_bind; [apply silent_hop|intros; apply silent_ret]. }
  apply ends_after; [apply silent_prepare|]. intros prepared. destruct (negb _); [apply ends_silent, silent_ret|].
  apply ends_after; [apply silent_local; by rewrite Hcommand|].
  intros [code|]; [|apply ends_silent, silent_ret]. destruct (0 <=? code); [apply ends_silent, silent_ret|].
  by apply Hesp.
Qed.

(** A command of the library that is none of the left-out ones. *)
Lemma ends_wmain fuel argv c :
  (forall o, argv_options argv = Ok o -> op_command o ∉ raw_commands) ->
  (forall o d path, (exists o0, argv_options argv = Ok o0 /\ op_command o = op_command o0) ->
     let '(loaded, api) := Load (mc_loader machine d) path new_api in
     loaded = true -> forall command, (op_command o, command) ∈ esp_commands machine api o ->
     ends (code ← command; mret (Some code))) ->
  let '(status, _, c') := wmain machine fuel argv c in
  exists new, co_trace c' = co_trace c ++ new /\ P status new.
Proof using Pnothing.
  intros Hraw Hcommands. destruct (argv_options argv) as [o|error] eqn:Ho.
  2:{ unfold wmain. rewrite Ho. exists []. by rewrite app_nil_r. }
  destruct (op_help o || is_empty (op_command o)) eqn:Ehelp.
  { unfold wmain. rewrite Ho, Ehelp. exists []. by rewrite app_nil_r. }
  apply orb_false_iff in Ehelp as [Hhelp Hcommand].
  pose proof (wmain_run fuel argv o c Ho Hhelp ltac:(by intros E; rewrite E in Hcommand)) as Hrun.
  destruct (wmain machine fuel argv c) as [[status log] c']. destruct Hrun as [Hrun Htrace].
  specialize (Hraw o eq_refl).
  destruct (ends_dispatch fuel o ltac:(intros E; rewrite E in Hraw; set_solver)
    ltac:(intros o' Ho'; apply ends_esp; intros d path; apply Hcommands; eauto) (with_log o c)) as (new & He & Hp).
  rewrite <- Hrun in He, Hp. cbn [fst snd] in *. unfold extends in He. rewrite Htrace in He. eauto.
Qed.
End Ends.

(** Which clients a run does not ask the library to take back. *)
Lemma wmain_asks_back fuel argv c :
  unregister_there -> (forall o, argv_options argv = Ok o -> op_command o ∉ raw_commands) ->
  let '(status, _, c') := wmain machine fuel argv c in
  exists new, co_trace c' = co_trace c ++ new /\
    (still_registered ∅ new = ∅ \/
     exists o, argv_options argv = Ok o /\ op_command o = "persist-rules" /\ status = Some 0 /\
       left_persistent ∅ new).
Proof.
  intros Hunregister Hraw. apply ends_wmain; [by left|done|]. intros o d path (o0 & Ho & Hcommand).
  pose proof (Hunregister d path) as Hapi. destruct (Load _ path _) as [loaded api].
  intros Hloaded command Hin c0. specialize (Hapi Hloaded). rewrite st_bind_unfold.
  destruct (decide (op_command o = "persist-rules")) as [Ep|Ep].
  - rewrite Ep in Hin. apply persist_command in Hin as ->.
    pose proof (persist_run host api Hapi o c0) as Hrun.
    destruct (RunPersistRules host api o c0) as [code c']. destruct Hrun as (new & He & Hout). exists new.
    split; [done|]. destruct Hout as [[_ Hn]|[-> Hn]]; [by left|]. right. exists o0. by rewrite <- Hcommand.
  - pose proof (settles_command api o _ _ Hapi Hin) as Hm. rewrite Hcommand in Ep, Hm.
    destruct (Hm ltac:(specialize (Hraw o0 Ho); set_solver) ltac:(constructor) c0) as (new & He & Hn). exists new.
    split; [done|]. left. specialize (Hn ∅). change (owned_all []) with (∅ : gset Guid) in Hn.
    rewrite (union_empty_l_L ∅) in Hn. set_solver.
Qed.

(** C10 Of the clients that a run of the tool registers, the library has none registered
    when the run is over, except those it refused to unregister while they were
    registered, and except that persist-rules may leave one: then it exits with 0, and
    the library has counted persistent rules of it. This holds whatever the library
    answers, when it has the export that unregisters a client, and of every command but
    [exercise] and [call-one], which call every export with scratch arguments, and
    [service], which is not over when its turns are used up. *)
Theorem wmain_registrations fuel argv c
    (Hunregister : unregister_there)
    (Hraw : forall o, argv_options argv = Ok o -> op_command o ∉ raw_commands) :
  let '(status, _, c') := wmain machine fuel argv c in
  exists new, co_trace c' = co_trace c ++ new /\
    ((forall id, id ∈ registered_after ∅ new -> refused_return ∅ new id) \/
     exists o id h listed, argv_options argv = Ok o /\ op_command o = "persist-rules" /\ status = Some 0 /\
       id ∈ registered_after ∅ new /\
       (forall other, other ∈ registered_after ∅ new -> other = id \/ refused_return ∅ new other) /\
       Called "EspEnumerateRuleIds" [AHandle h; AWord kLifetimePersistFfi] listed ∈ new /\
       Succeeded (re_result listed) = true /\ 1 <= re_count listed).
Proof.
  pose proof (wmain_asks_back fuel argv c Hunregister Hraw) as Hrun.
  destruct (wmain machine fuel argv c) as [[status log] c']. destruct Hrun as (new & Ht & Hrun). exists new.
  split; [done|]. pose proof (registered_after_bound ∅ new) as Hbound.
  destruct Hrun as [Hnone|(o & Ho & Hcommand & Hstatus & id & h & listed & Hone & Hin & Hok & Hcount)].
  - left. rewrite Hnone in Hbound. set_solver.
  - right. exists o, id, h, listed. rewrite Hone in Hbound. split_and!; try done.
    + apply still_registered_bound. rewrite Hone. set_solver.
    + intros other Hother. destruct (Hbound other Hother); [left; set_solver|by right].
Qed.

(** ** Custody *)

Lemma guards_command api o name command :
  (name, command) ∈ esp_commands machine api o -> name ∉ raw_commands -> guards [] command.
Proof.
  intros Hin Hname. unfold esp_commands in Hin. cbv zeta in Hin. rewrite !elem_of_cons in Hin.
  repeat destruct Hin as [[= -> ->]|Hin]; [..|by apply not_elem_of_nil in Hin];
    first [ exfalso; apply Hname; by repeat constructor | idtac ];
    first [ apply guards_RunExports | apply guards_RunStatus | apply guards_RunConnect | apply guards_RunRules
          | apply guards_RunPersistRules
          | apply guards_RunMonitor | apply guards_RunClients | apply guards_RunUnregister
          | apply guards_RunEnumRules | apply guards_RunRemoveRules | apply guards_RunOpenQueue
          | apply guards_RunTrust | apply guards_RunQuery | apply guards_RunRefs | apply guards_RunCollections
          | apply guards_RunContext ].
Qed.

(** C11 Whatever the library answers, a run of the tool names in its calls only handles it
    holds: every client, queue, rule, filter, collection or reference that a call is given
    was handed out by earlier calls of the run more often than earlier calls closed it. So
    nothing is used after it was closed, nor closed twice. (The commands that call every
    export with scratch arguments, and the service, are left out.) *)
Theorem wmain_custody fuel argv c
    (Hraw : forall o, argv_options argv = Ok o -> op_command o ∉ raw_commands) :
  let '(_, _, c') := wmain machine fuel argv c in
  exists new, co_trace c' = co_trace c ++ new /\ names_open new.
Proof.
  apply (ends_wmain (fun _ new => names_open new)); [|done|].
  { intros _ t1 export args reply t2 u E. by destruct t1. }
  intros o d path (o0 & Ho & Hcommand). destruct (Load _ path _) as [loaded api]. intros _ command Hin c0.
  rewrite Hcommand in Hin. pose proof (guards_command api o _ _ Hin (Hraw o0 Ho)) as Hm.
  destruct (Hm ∅ c0 ∅ ltac:(cbn; multiset_solver)) as (new & live' & He & Hw & _). rewrite st_bind_unfold. exists new.
  split; [done|]. by eapply watch_open.
Qed.

(** ** The rules command *)

Lemma rules_here fuel o c :
  op_command o = "rules" ->
  let '(status, c') := run_here machine fuel o c in
  status = Some 0 ->
  exists api document,
    Load (mc_loader machine (co_driver c))
      (if is_empty (op_dll_path o) then [] else to_wide (env_paths (ho_env host)) (op_dll_path o)) new_api = (true, api) /\
    ran_rules host api "rules" o document (op_duration_set o && (0 <? op_duration_ms o)) c c'.
Proof.
  intros Hcommand. unfold run_here, DispatchLocal. rewrite Hcommand. cbv zeta.
  change ("rules" =? "ppl")%string with false. change ("rules" =? "service")%string with false.
  change ("rules" =? "ipc")%string with false. change ("rules" =? "token")%string with false.
  change ("rules" =? "provision")%string with false. cbv iota.
  rewrite st_bind_unfold. cbn [mret st_ret fst snd]. change (0 <=? -1) with false. cbv iota.
  rewrite st_bind_unfold. unfold DispatchEsp. rewrite st_bind_unfold.
  assert (ask (mc_loader machine) c = (mc_loader machine (co_driver c), c)) as -> by (by destruct c).
  cbn [fst snd]. destruct (Load _ _ _) as [loaded api]. destruct loaded; cbn [negb].
  2:{ rewrite st_bind_unfold. cbn. done. }
  unfold esp_commands. rewrite Hcommand. cbn -[RunRules].
  pose proof (RunRules_zero host api o c) as Hrun. destruct (RunRules host api o c) as [code c'].
  cbn [fst snd]. intros [= ->]. destruct Hrun as [_ Hrun]. destruct (Hrun eq_refl) as [document Hran]. eauto.
Qed.

(** C9 When the tool is run with the rules command and exits with 0, then one of two things
    happened. Either the trust plan wanted a worker child: this process made no call at
    all, and the last process it created, of its own image and with the command line of
    the worker, exited with 0. Or this very process is SYSTEM with the TCB privilege and,
    once it was prepared, carried on its token what the plan asked for, and from there
    the file parsed, the rules its client had were removed, and then every rule of the
    file was created and accepted; and the session gave back at the end what it owned. *)
Theorem wmain_rules fuel argv o c
    (Ho : argv_options argv = Ok o) (Hhelp : op_help o = false) (Hcommand : op_command o = "rules") :
  let '(status, _, c') := wmain machine fuel argv c in
  let c0 := with_log o c in
  let plan := EvaluateTrustPlan o (probe_context host (co_driver c0)) in
  let sent := effective_options o plan in
  status = Some 0 ->
  (tp_child_required plan = true /\ op_worker o = false /\ co_trace c' = co_trace c /\
   child_succeeded machine sent c0 c') \/
  (is_Ok (RequireSystemWithTcb (ho_tokens host) (co_driver c0)).1 = true /\
   exists c1, EnsureWorkerOrTcb host sent plan (note_plan plan c0).2 = (0, c1) /\
     as_planned machine o plan (co_driver c1) /\
     exists api document,
       Load (mc_loader machine (co_driver c1))
         (if is_empty (op_dll_path sent) then [] else to_wide (env_paths (ho_env host)) (op_dll_path sent))
         new_api = (true, api) /\
       co_trace c1 = co_trace c /\
       ran_rules host api "rules" sent document (op_duration_set sent && (0 <? op_duration_ms sent)) c1 c').
Proof.
  pose proof (wmain_run fuel argv o c Ho Hhelp ltac:(by rewrite Hcommand)) as Hrun.
  destruct (wmain machine fuel argv c) as [[status log] c']. destruct Hrun as [Hrun Htrace]. cbv zeta. intros ->.
  pose proof (Dispatch_cases machine fuel o (with_log o c)) as Hcases. cbv zeta in Hcases.
  rewrite <- Hrun, Htrace in Hcases.
  destruct Hcases as [[Ht Hhop]|(_ & c1 & Ht1 & Hprepared & Hneeds & Hhere)].
  - left. destruct (Hhop eq_refl) as [Hover Hchild].
    by apply andb_true_iff in Hover as [? ?%negb_true_iff].
  - right. destruct Hneeds as (_ & Htcb & Hplan); [unfold CommandNeedsWorker; by rewrite Hcommand|].
    split; [done|]. exists c1. split; [done|]. split; [done|]. set (sent := effective_options _ _) in *.
    assert (op_command sent = "rules") as Hsent by (unfold sent; by rewrite (proj1 (effective_same o _))).
    pose proof (rules_here fuel sent c1 Hsent) as Hend. rewrite <- Hhere in Hend.
    destruct (Hend eq_refl) as (api & document & Hload & Hran). by exists api, document.
Qed.
End Program.

(** ** A machine to run on *)

(** SYSTEM with the TCB privilege on a test-signing machine without protection, whose
    library accepts everything; every file has the same two rules. *)
Definition example_tokens : TokenOs Z :=
  mkTokenOs Z (fun _ _ => inl 4) (fun _ _ => inl 7) (fun _ _ d => ((true, 0), d))
    (fun _ _ => Some [(7, 2)]) (fun _ _ => Some [5; 18]) (fun _ => Some [5; 18])
    (Some (fun _ _ _ _ d => (-1, d))) (Some (fun _ _ => (-1, 88))) (fun _ _ _ => (0, example_blob None)).

Definition example_processes : ProcessOs Z :=
  mkProcessOs Z (fun _ => (example_image, length example_image)) (fun _ => (0, 0, 0)) (fun _ w => (inl 0, w))
    (fun _ w => (inl tt, w)) (fun _ => (48, 0)) (fun w => (inl tt, w)) (fun _ w => (inl tt, w))
    (fun _ w => (inl 7, w)) (fun _ _ w => ((0, 0), w)) (fun _ _ w => w) (fun _ w => (inl 0, w)).

Definition example_nodes : list XmlNode :=
  [ XmlElement (Some "esptool") [] false 1;
    XmlElement (Some "client") [(Some "name", Some "example")] true 2;
    XmlElement (Some "rule") [(Some "event", Some "filecreate"); (Some "action", Some "deny")] true 3;
    XmlElement (Some "rule") [(Some "event", Some "RegCreateKey")] true 4;
    XmlEndElement (Some "esptool") 5 ].

(** Every call succeeds with a fresh handle and counts one thing. *)
Definition one_of_each (export : string) (args : list Arg) (next : Z) : Reply * Z :=
  (mkReply kOk next (if (export =? "EspEnumerateRegisteredClients")%string then 0 else 1) [], next + 1).

Definition example_library : Env Z :=
  let e := example_env accept in
  mkEnv Z (env_api e) one_of_each (env_addr e) (env_paths e) (env_WideCharToMultiByte e) (env_CoCreateGuid e)
    (env_memory e) (env_set_memory e) (env_hooks e) (env_region e) (env_view e) (env_GetTickCount64 e)
    (env_CreateEvent e) (env_WaitForSingleObject e) (env_GetQueuedCompletionStatus e) (env_sleep e).

Definition example_host : Host Z :=
  mkHost Z example_library example_tokens example_processes
    (fun _ => Some (fun _ => (0, 0))) (fun _ _ => Some 1) (fun _ => Some (0, 3)) (fun _ => inl 0)
    4242 17 (fun _ => Nodes example_nodes true) kOk (fun _ _ => inr (100, inr "<esptool/>"))
    (fun _ => (false, fun _ _ _ _ => inl 0)) (fun _ _ d => (None, d)) (fun _ => None) (fun _ _ d => (None, d))
    (fun _ d => (false, d)) (fun _ d => d) (fun _ _ d => d).

Definition example_loader : Loader :=
  mkLoader example_image (fun _ _ => 1) (fun _ => (1, 0)) (fun _ _ => 1)
    (fun w => Some (of_chars (char_of_code <$> w))).

Definition no_pipe : PipeEnd := mkPipeEnd [] [] (fun _ => Completed 0) 0.

Definition example_machine : Machine Z :=
  mkMachine Z example_host
    (mkScmOs Z (fun _ => inl 1) (fun _ _ => inl 2) (fun _ _ _ d => (inl 3, d)) (fun _ d => d) (fun _ d => (None, d)))
    (mkServiceOs Z (fun _ => example_loader) (fun _ => inl 1) (fun d => ([], d))
       (fun d => ((mkServeEnv (inr 5) (inr 5) false 0 0, no_pipe), d)) (fun _ d => d) (fun d => (true, d)) (fun _ => 0)
       (fun _ _ => (1, 0)) (fun _ _ => None))
    (fun _ => example_loader) (fun _ _ _ => inl 2) (fun _ _ => no_pipe) (fun _ d => d) (fun _ _ => None)
    (fun _ d => (true, d)).

Definition example_console : Console Z := mkConsole 1000 [] [] [] [] [].

Definition rules_argv : list wstring := wide <$> ["rules"; "--rules"; "r.xml"; "--no-provision"].
Definition persist_argv : list wstring := wide <$> ["persist-rules"; "--rules"; "r.xml"; "--no-provision"].

(** What a run calls, in order. *)
Definition called_exports (c : Console Z) : list string := (console_calls c).*1.

Lemma example_unregister : unregister_there example_machine.
Proof. intros d path. by destruct path. Qed.

Lemma wmain_registrations_witness :
  let r := wmain example_machine 0 persist_argv example_console in
  r.1.1 = Some 0 /\ last (called_exports r.2) = Some "EspDisconnectClient" /\
  let '(status, _, c') := r in
  exists new, co_trace c' = [] ++ new /\
    ((forall id, id ∈ registered_after ∅ new -> refused_return ∅ new id) \/
     exists o id h listed, ParseOptions (env_WideCharToMultiByte (ho_env example_host)) persist_argv = Ok o /\
       op_command o = "persist-rules" /\ status = Some 0 /\ id ∈ registered_after ∅ new /\
       (forall other, other ∈ registered_after ∅ new -> other = id \/ refused_return ∅ new other) /\
       Called "EspEnumerateRuleIds" [AHandle h; AWord kLifetimePersistFfi] listed ∈ new /\
       Succeeded (re_result listed) = true /\ 1 <= re_count listed).
Proof.
  split; [by vm_compute|]. split; [by vm_compute|].
  apply (wmain_registrations example_machine 0 persist_argv example_console).
  - apply example_unregister.
  - intros o Ho. assert (op_command o = "persist-rules") as -> by (revert Ho; vm_compute; by intros [= <-]).
    apply (bool_decide_unpack _). by vm_compute.
Defined.

Lemma wmain_custody_witness :
  let r := wmain example_machine 0 persist_argv example_console in
  r.1.1 = Some 0 /\ last (called_exports r.2) = Some "EspDisconnectClient" /\
  let '(_, _, c') := r in
  exists new, co_trace c' = [] ++ new /\ names_open new.
Proof.
  split; [by vm_compute|]. split; [by vm_compute|].
  apply (wmain_custody example_machine 0 persist_argv example_console).
  intros o Ho. assert (op_command o = "persist-rules") as -> by (revert Ho; vm_compute; by intros [= <-]).
  apply (bool_decide_unpack _). by vm_compute.
Defined.

Definition rules_options : Options :=
  match ParseOptions (env_WideCharToMultiByte (ho_env example_host)) rules_argv with
  | Ok o => o
  | Err _ => default_options
  end.

Lemma wmain_rules_witness :
  let r := wmain example_machine 0 rules_argv example_console in
  (called_exports r.2 =
     ["EspEnumerateRegisteredClients"; "EspRegisterClient"; "EspConnectClient"; "EspCreateEventQueue";
      "EspRemoveAllRulesForClient"; "EspCreateRule"; "EspCreateRule"; "EspUpdateRules"; "EspUpdateRules";
      "EspCloseRule"; "EspCloseRule"; "EspCloseEventQueue"; "EspDisconnectClient"; "EspUnregisterClient"]) /\
  let c0 := with_log example_machine rules_options example_console in
  let plan := EvaluateTrustPlan rules_options (probe_context example_host (co_driver c0)) in
  let sent := effective_options rules_options plan in
  (tp_child_required plan = true /\ op_worker rules_options = false /\ co_trace r.2 = [] /\
   child_succeeded example_machine sent c0 r.2) \/
  (is_Ok (RequireSystemWithTcb example_tokens (co_driver c0)).1 = true /\
   exists c1, EnsureWorkerOrTcb example_host sent plan (note_plan plan c0).2 = (0, c1) /\
     as_planned example_machine rules_options plan (co_driver c1) /\
     exists api document,
       Load example_loader
         (if is_empty (op_dll_path sent) then [] else to_wide (env_paths (ho_env example_host)) (op_dll_path sent))
         new_api = (true, api) /\
       co_trace c1 = [] /\
       ran_rules example_host api "rules" sent document (op_duration_set sent && (0 <? op_duration_ms sent)) c1 r.2).
Proof.
  split; [by vm_compute|].
  pose proof (wmain_rules example_machine 0 rules_argv rules_options example_console
    ltac:(by vm_compute) ltac:(by vm_compute) ltac:(by vm_compute)) as H.
  assert ((wmain example_machine 0 rules_argv example_console).1.1 = Some 0) as Hstatus by (by vm_compute).
  cbv zeta in H |- *. destruct (wmain example_machine 0 rules_argv example_console) as [[status log] c'].
  exact (H Hstatus).
Defined.

(** ** A service that is asked for its state and then stopped *)

Definition example_service : ServiceOs Z :=
  mkServiceOs Z (fun _ => example_loader) (fun _ => inl 1)
    (fun d => ([if d =? 1000 then SERVICE_CONTROL_INTERROGATE else SERVICE_CONTROL_STOP], d + 1))
    (fun d => ((mkServeEnv (inl 5) (inl 5) true 0 0, no_pipe), d)) (fun _ d => d) (fun d => (false, d)) (fun _ => 0)
    (fun _ _ => (1, 0)) (fun _ _ => None).

Lemma RunService_lifecycle_witness :
  let run fuel := (RunService example_host example_service fuel (wide "esptool") true initial_service example_console).1 in
  let pending := mkStatus SERVICE_STOP_PENDING NO_ERROR kStopWaitHintMs 0 in
  (run 1%nat).1 = None /\ sv_reports (run 1%nat).2 = [running_status; running_status] /\
  (run 2%nat).1 = Some 0 /\
  sv_reports (run 2%nat).2 = [running_status; running_status; pending; stopped_status] /\
  exists runs pends, Forall (eq running_status) runs /\ Forall is_pending pends /\
    [running_status; running_status; pending; stopped_status] = running_status :: runs ++ pends ++ [stopped_status].
Proof.
  cbv zeta. split; [by vm_compute|]. split; [by vm_compute|].
  pose proof (RunService_lifecycle example_host example_service 2%nat (wide "esptool") true initial_service example_console)
    as [H _].
  assert ((RunService example_host example_service 2%nat (wide "esptool") true initial_service example_console).1.1 = Some 0)
    as Hcode by (by vm_compute).
  assert (sv_reports (RunService example_host example_service 2%nat (wide "esptool") true initial_service example_console).1.2
    = [running_status; running_status; mkStatus SERVICE_STOP_PENDING NO_ERROR kStopWaitHintMs 0; stopped_status])
    as Hreports by (by vm_compute).
  split; [exact Hcode|]. split; [exact Hreports|].
  destruct (RunService _ _ _ _ _ _ _) as [[code sv'] c']. cbn [fst snd] in Hcode, Hreports. subst code.
  destruct H as [[_ Hsame]|(runs & pends & Hruns & Hpends & _ & _ & Hall)].
  - rewrite Hreports in Hsame. discriminate Hsame.
  - exists runs, pends. split; [exact Hruns|]. split; [exact Hpends|]. rewrite Hreports in Hall. exact Hall.
Defined.
